(** * skill-spec: validation engine and SKILL.md preservation protocol

    A shallow embedding of the parts of [skillspec] that the specification
    talks about:

    - [preservation.py]  : marker parser and merge ([Preservation]);
    - [models.py]        : decision-rule normalisation and the typed
                           [SkillSpec] model with its cross-reference
                           validator ([Models]);
    - [validator/schema.py]  : layer 1 ([Schema]);
    - [validator/quality.py] : layer 2 ([Quality]).

    Python strings are sequences of Unicode code points; they are modelled
    as lists of code points ([N]).  The string methods the code calls
    ([in], [split], [join], [strip], [startswith], [find], slicing and
    [lower]) live in [PyStr]; the few regular expressions of the sources are
    run by a small backtracking matcher ([Regex]) that follows the search
    order of Python's [re]. *)

From Stdlib Require Import List Bool Arith Lia NArith ZArith.
From Stdlib Require Ascii String.
Import String.StringSyntax.
Delimit Scope string_scope with string.
From Stdlib Require Import Permutation.
Import ListNotations.

Set Warnings "-register-all".

(* ================================================================== *)
(** * Python strings *)
(* ================================================================== *)

Module PyStr.

Definition char := N.
Definition str := list char.

(** A source-level string literal. *)
Definition lit (s : String.string) : str :=
  map Ascii.N_of_ascii (String.list_ascii_of_string s).

Arguments lit s%_string : simpl never.

Definition nl : char := 10%N.

Definition char_eqb (a b : char) : bool := N.eqb a b.

Fixpoint str_eqb (a b : str) : bool :=
  match a, b with
  | [], [] => true
  | x :: a', y :: b' => char_eqb x y && str_eqb a' b'
  | _, _ => false
  end.

(** [str.isspace] on one code point: the characters [str.strip()] removes
    and the regular-expression class [\s] accepts. *)
Definition is_space (c : char) : bool :=
  ((9 <=? c) && (c <=? 13) || (28 <=? c) && (c <=? 32)
   || (c =? 133) || (c =? 160) || (c =? 5760)
   || (8192 <=? c) && (c <=? 8202)
   || (c =? 8232) || (c =? 8233) || (c =? 8239) || (c =? 8287)
   || (c =? 12288))%N.

(** [s.startswith(p)] *)
Fixpoint startswith (p s : str) : bool :=
  match p, s with
  | [], _ => true
  | x :: p', y :: s' => char_eqb x y && startswith p' s'
  | _ :: _, [] => false
  end.

(** [sub in s] *)
Fixpoint contains (sub s : str) : bool :=
  startswith sub s ||
  match s with
  | [] => false
  | _ :: s' => contains sub s'
  end.

(** [s.find(sub)]: lowest index of an occurrence, [-1] when there is none. *)
Fixpoint find (sub s : str) : Z :=
  if startswith sub s then 0%Z
  else match s with
       | [] => (-1)%Z
       | _ :: s' => let r := find sub s' in
                    if (r <? 0)%Z then (-1)%Z else (r + 1)%Z
       end.

(** [s[i:j]] for [0 <= i <= j]. *)
Definition slice (s : str) (i j : nat) : str := firstn (j - i) (skipn i s).

(** [s.split(sep)] for a one-character separator. *)
Fixpoint split (sep : char) (s : str) : list str :=
  match s with
  | [] => [[]]
  | c :: s' =>
      if char_eqb c sep then [] :: split sep s'
      else match split sep s' with
           | l :: ls => (c :: l) :: ls
           | [] => [[c]]
           end
  end.

(** [sep.join(ls)] *)
Fixpoint join (sep : str) (ls : list str) : str :=
  match ls with
  | [] => []
  | l :: ls' =>
      match ls' with
      | [] => l
      | _ :: _ => l ++ sep ++ join sep ls'
      end
  end.

Fixpoint lstrip (s : str) : str :=
  match s with
  | [] => []
  | c :: s' => if is_space c then lstrip s' else s
  end.

Definition rstrip (s : str) : str := rev (lstrip (rev s)).

(** [s.strip()] *)
Definition strip (s : str) : str := rstrip (lstrip s).

(** [s.lower()] on ASCII text: the ASCII letters are lowered and the other
    code points are kept.  Outside ASCII, where [str.lower] follows the
    Unicode tables, this is not the function of the code: the results that
    lower a text that is not fixed are stated for ASCII texts ([is_ascii],
    [json_ascii]). *)
Definition lower_char (c : char) : char :=
  if ((65 <=? c) && (c <=? 90))%N then (c + 32)%N else c.

Definition lower (s : str) : str := map lower_char s.

(** [str(n)] for a non-negative integer, as an f-string prints it. *)
Definition digit_char (d : nat) : char := (48 + N.of_nat d)%N.

Fixpoint str_of_nat_aux (fuel n : nat) (acc : str) : str :=
  match fuel with
  | O => acc
  | S fuel' =>
      let acc' := digit_char (n mod 10) :: acc in
      if n / 10 =? 0 then acc' else str_of_nat_aux fuel' (n / 10) acc'
  end.

Definition str_of_nat (n : nat) : str := str_of_nat_aux (S n) n [].

(** [str(z)] for an integer. *)
Definition str_of_Z (z : Z) : str :=
  if (z <? 0)%Z then 45%N :: str_of_nat (Z.to_nat (- z))
  else str_of_nat (Z.to_nat z).

(** [s.replace(old, new)] for a non-empty [old]: the occurrences are taken
    from the left and do not overlap.  [skip] counts the characters of the
    current occurrence that are still to be dropped. *)
Fixpoint replace_from (old new : str) (skip : nat) (s : str) : str :=
  match s with
  | [] => []
  | c :: s' =>
      match skip with
      | S n => replace_from old new n s'
      | O =>
          if startswith old s
          then new ++ replace_from old new (length old - 1) s'
          else c :: replace_from old new 0 s'
      end
  end.

Definition replace (old new s : str) : str := replace_from old new 0 s.

(** ** Facts about the string operations *)

Lemma char_eqb_eq a b : char_eqb a b = true <-> a = b.
Proof. unfold char_eqb. apply N.eqb_eq. Qed.

Lemma char_eqb_refl a : char_eqb a a = true.
Proof. apply char_eqb_eq. reflexivity. Qed.

Lemma str_eqb_eq a b : str_eqb a b = true <-> a = b.
Proof.
  revert b. induction a as [|x a IH]; intros [|y b]; simpl; split;
    try congruence; try reflexivity.
  - intros H. apply andb_true_iff in H as [H1 H2].
    apply char_eqb_eq in H1. apply IH in H2. congruence.
  - intros H. injection H as -> ->.
    rewrite char_eqb_refl. apply IH. reflexivity.
Qed.

Lemma str_eqb_refl a : str_eqb a a = true.
Proof. apply str_eqb_eq. reflexivity. Qed.

Lemma startswith_spec p s :
  startswith p s = true <-> exists q, s = p ++ q.
Proof.
  revert s. induction p as [|x p IH]; intros s; simpl.
  - split; [intros _; exists s; reflexivity | reflexivity].
  - destruct s as [|y s].
    + split; [discriminate | intros [q Hq]; discriminate].
    + rewrite andb_true_iff, char_eqb_eq, IH. split.
      * intros [-> [q ->]]. exists q. reflexivity.
      * intros [q Hq]. injection Hq as -> ->. split; [reflexivity|].
        exists q. reflexivity.
Qed.

Lemma contains_spec sub s :
  contains sub s = true <-> exists p q, s = p ++ sub ++ q.
Proof.
  induction s as [|c s IH]; simpl.
  - rewrite orb_false_r, startswith_spec. split.
    + intros [q Hq]. exists [], q. exact Hq.
    + intros [p [q H]]. destruct p; simpl in H.
      * exists q. exact H.
      * discriminate.
  - rewrite orb_true_iff, startswith_spec, IH. split.
    + intros [[q Hq] | [p [q Hq]]].
      * exists [], q. exact Hq.
      * exists (c :: p), q. simpl. congruence.
    + intros [p [q H]]. destruct p as [|x p]; simpl in H.
      * left. exists q. exact H.
      * right. injection H as -> ->. exists p, q. reflexivity.
Qed.

Lemma contains_refl s : contains s s = true.
Proof.
  apply contains_spec. exists [], []. simpl. rewrite app_nil_r. reflexivity.
Qed.

(** Substring is transitive: what does not occur in [s] does not occur in
    a piece of [s]. *)
Lemma contains_infix m p t q :
  contains m t = true -> contains m (p ++ t ++ q) = true.
Proof.
  rewrite !contains_spec. intros [a [b ->]].
  exists (p ++ a), (b ++ q). rewrite <- !app_assoc. reflexivity.
Qed.

Lemma not_contains_infix m p t q :
  contains m (p ++ t ++ q) = false -> contains m t = false.
Proof.
  intros H. destruct (contains m t) eqn:E; [|reflexivity].
  rewrite (contains_infix m p t q E) in H. discriminate.
Qed.

Lemma contains_nil s : contains [] s = true.
Proof. destruct s; reflexivity. Qed.

(** ** [lstrip], [rstrip], [strip] cut a piece out of the string *)

Lemma lstrip_suffix s : exists p, s = p ++ lstrip s.
Proof.
  induction s as [|c s [p IH]]; simpl.
  - exists []. reflexivity.
  - destruct (is_space c).
    + exists (c :: p). simpl. congruence.
    + exists []. reflexivity.
Qed.

Lemma rstrip_prefix s : exists q, s = rstrip s ++ q.
Proof.
  unfold rstrip. destruct (lstrip_suffix (rev s)) as [p Hp].
  exists (rev p). rewrite <- rev_app_distr, <- Hp, rev_involutive.
  reflexivity.
Qed.

Lemma strip_infix s : exists p q, s = p ++ strip s ++ q.
Proof.
  unfold strip. destruct (lstrip_suffix s) as [p Hp].
  destruct (rstrip_prefix (lstrip s)) as [q Hq].
  exists p, q. rewrite <- Hq. exact Hp.
Qed.

Lemma not_contains_strip m s :
  contains m s = false -> contains m (strip s) = false.
Proof.
  intros H. destruct (strip_infix s) as [p [q E]]. rewrite E in H.
  exact (not_contains_infix m p (strip s) q H).
Qed.

Lemma lstrip_idem s : lstrip (lstrip s) = lstrip s.
Proof.
  induction s as [|c s IH]; simpl; [reflexivity|].
  destruct (is_space c) eqn:E; [exact IH|]. simpl. rewrite E. reflexivity.
Qed.

(** ** [split] and [join] *)

Lemma split_not_nil sep s : split sep s <> [].
Proof.
  destruct s as [|c s]; simpl; [discriminate|].
  destruct (char_eqb c sep); [discriminate|].
  destruct (split sep s); discriminate.
Qed.

Lemma split_cons_other sep c s :
  char_eqb c sep = false ->
  exists l ls, split sep s = l :: ls /\ split sep (c :: s) = (c :: l) :: ls.
Proof.
  intros E. simpl. rewrite E.
  destruct (split sep s) as [|l ls] eqn:Es.
  - exfalso. exact (split_not_nil sep s Es).
  - exists l, ls. split; reflexivity.
Qed.

Lemma split_app_sep sep a b :
  split sep (a ++ sep :: b) = split sep a ++ split sep b.
Proof.
  induction a as [|c a IH]; simpl.
  - rewrite char_eqb_refl. reflexivity.
  - destruct (char_eqb c sep) eqn:E.
    + rewrite IH. reflexivity.
    + rewrite IH. destruct (split sep a) as [|l ls] eqn:Es.
      * exfalso. exact (split_not_nil sep a Es).
      * reflexivity.
Qed.

Lemma join_cons sep l l' ls :
  join sep (l :: l' :: ls) = l ++ sep ++ join sep (l' :: ls).
Proof. reflexivity. Qed.

(** ['\n'.join(s.split('\n')) == s] *)
Lemma join_split sep s : join [sep] (split sep s) = s.
Proof.
  induction s as [|c s IH]; simpl; [reflexivity|].
  destruct (char_eqb c sep) eqn:E.
  - apply char_eqb_eq in E. subst c.
    destruct (split sep s) as [|l ls] eqn:Es.
    + exfalso. exact (split_not_nil sep s Es).
    + simpl in *. rewrite IH. reflexivity.
  - destruct (split sep s) as [|l ls] eqn:Es.
    + exfalso. exact (split_not_nil sep s Es).
    + destruct ls as [|l' ls]; simpl in *; rewrite <- IH; reflexivity.
Qed.

(** Splitting a joined list splits every element. *)
Lemma split_join sep l ls :
  split sep (join [sep] (l :: ls)) = flat_map (split sep) (l :: ls).
Proof.
  revert l. induction ls as [|l' ls IH]; intros l.
  - simpl. rewrite app_nil_r. reflexivity.
  - rewrite join_cons.
    change ([sep] ++ join [sep] (l' :: ls)) with (sep :: join [sep] (l' :: ls)).
    rewrite split_app_sep, IH. reflexivity.
Qed.

Lemma split_head_prefix sep s l ls :
  split sep s = l :: ls -> exists q, s = l ++ q.
Proof.
  revert l ls. induction s as [|c s IH]; intros l ls; simpl.
  - intros H. injection H as <- _. exists []. reflexivity.
  - destruct (char_eqb c sep).
    + intros H. injection H as <- _. exists (c :: s). reflexivity.
    + destruct (split sep s) as [|l0 ls0] eqn:Es.
      * exfalso. exact (split_not_nil sep s Es).
      * intros H. injection H as <- _.
        destruct (IH l0 ls0 eq_refl) as [q ->]. exists q. reflexivity.
Qed.

(** Every line of [s.split(sep)] is a piece of [s]. *)
Lemma split_line_infix sep s l :
  In l (split sep s) -> exists p q, s = p ++ l ++ q.
Proof.
  revert l. induction s as [|c s IH]; intros l; simpl.
  - intros [<- | []]. exists [], []. reflexivity.
  - destruct (char_eqb c sep) eqn:E.
    + intros [<- | H].
      * exists [], (c :: s). reflexivity.
      * destruct (IH l H) as [p [q ->]]. exists (c :: p), q. reflexivity.
    + destruct (split sep s) as [|l0 ls] eqn:Es.
      * exfalso. exact (split_not_nil sep s Es).
      * intros [<- | H].
        -- destruct (split_head_prefix sep s l0 ls Es) as [q ->].
           exists [], q. reflexivity.
        -- destruct (IH l (or_intror H)) as [p [q ->]].
           exists (c :: p), q. reflexivity.
Qed.

Lemma not_contains_split_line m sep s l :
  contains m s = false -> In l (split sep s) -> contains m l = false.
Proof.
  intros H Hin. destruct (split_line_infix sep s l Hin) as [p [q E]].
  rewrite E in H. exact (not_contains_infix m p l q H).
Qed.

(** A string without the separator that occurs in [a ++ sep :: b] occurs
    in [a] or in [b]. *)
Lemma startswith_before_sep m sep a b :
  ~ In sep m -> startswith m (a ++ sep :: b) = true -> startswith m a = true.
Proof.
  revert a. induction m as [|x m IH]; intros a Hn; [reflexivity|].
  destruct a as [|y a]; simpl.
  - intros H. apply andb_true_iff in H as [H _]. apply char_eqb_eq in H.
    exfalso. apply Hn. left. exact H.
  - intros H. apply andb_true_iff in H as [H1 H2]. rewrite H1. simpl.
    apply IH; [|exact H2]. intros Hi. apply Hn. right. exact Hi.
Qed.

Lemma contains_across_sep m sep a b :
  ~ In sep m -> contains m (a ++ sep :: b) = true ->
  contains m a = true \/ contains m b = true.
Proof.
  intros Hn. induction a as [|c a IH]; simpl app.
  - intros H. simpl in H. apply orb_true_iff in H as [H | H].
    + left. destruct m as [|x m]; [reflexivity|].
      simpl in H. apply andb_true_iff in H as [H _]. apply char_eqb_eq in H.
      exfalso. apply Hn. left. exact H.
    + right. exact H.
  - intros H. simpl in H. apply orb_true_iff in H as [H | H].
    + left. simpl. apply orb_true_iff. left.
      exact (startswith_before_sep m sep (c :: a) b Hn H).
    + destruct (IH H) as [Ha | Hb].
      * left. simpl. rewrite Ha. apply orb_true_r.
      * right. exact Hb.
Qed.

Lemma not_contains_join m sep ls :
  ~ In sep m -> m <> [] ->
  (forall l, In l ls -> contains m l = false) ->
  contains m (join [sep] ls) = false.
Proof.
  intros Hn Hm. induction ls as [|l ls IH]; intros Hall.
  - simpl. destruct m; [congruence | reflexivity].
  - destruct ls as [|l' ls].
    + simpl. apply Hall. left. reflexivity.
    + rewrite join_cons.
      change ([sep] ++ join [sep] (l' :: ls))
        with (sep :: join [sep] (l' :: ls)).
      destruct (contains m (l ++ sep :: join [sep] (l' :: ls))) eqn:E;
        [|reflexivity].
      destruct (contains_across_sep m sep l _ Hn E) as [H | H].
      * rewrite (Hall l (or_introl eq_refl)) in H. discriminate.
      * rewrite IH in H; [discriminate|].
        intros x Hx. apply Hall. right. exact Hx.
Qed.

Lemma contains_join_member m sep ls l :
  In l ls -> contains m l = true -> contains m (join sep ls) = true.
Proof.
  intros Hin Hc. induction ls as [|x ls IH]; [destruct Hin|].
  destruct ls as [|x' ls].
  - destruct Hin as [-> | []]. exact Hc.
  - rewrite join_cons. destruct Hin as [-> | Hin].
    + exact (contains_infix m [] l (sep ++ join sep (x' :: ls)) Hc).
    + specialize (IH Hin).
      replace (x ++ sep ++ join sep (x' :: ls))
        with ((x ++ sep) ++ join sep (x' :: ls) ++ [])
        by (rewrite app_nil_r, app_assoc; reflexivity).
      exact (contains_infix m (x ++ sep) _ [] IH).
Qed.

(** ** Occurrences across a concatenation *)

(** No proper suffix of [m] starts [b]. *)
Definition overlap_free (m b : str) : bool :=
  forallb (fun i => negb (startswith (skipn i m) b)) (seq 1 (length m - 1)).

Lemma startswith_app_cases m a b :
  startswith m (a ++ b) = true ->
  startswith m a = true \/
  (length a < length m /\ startswith (skipn (length a) m) b = true).
Proof.
  revert m. induction a as [|c a IH]; intros m H.
  - destruct m as [|x m]; [left; reflexivity|].
    right. split; [simpl; lia | exact H].
  - destruct m as [|x m]; [left; reflexivity|].
    simpl in H. apply andb_true_iff in H as [H1 H2].
    destruct (IH m H2) as [Hl | [Hlen Hr]].
    + left. simpl. rewrite H1, Hl. reflexivity.
    + right. split; [simpl; lia | exact Hr].
Qed.

Lemma contains_app_overlap m a b :
  overlap_free m b = true ->
  contains m (a ++ b) = true ->
  contains m a = true \/ contains m b = true.
Proof.
  intros Ho. induction a as [|c a IH]; intros H.
  - right. exact H.
  - change ((c :: a) ++ b) with (c :: (a ++ b)) in H. simpl in H.
    apply orb_true_iff in H as [H | H].
    + destruct (startswith_app_cases m (c :: a) b H) as [Hl | [Hlen Hr]].
      * left. simpl. simpl in Hl. rewrite Hl. reflexivity.
      * exfalso. unfold overlap_free in Ho.
        rewrite forallb_forall in Ho.
        assert (Hin : In (length (c :: a)) (seq 1 (length m - 1))).
        { apply in_seq. simpl in *. lia. }
        specialize (Ho _ Hin). rewrite Hr in Ho. discriminate.
    + destruct (IH H) as [Ha | Hb].
      * left. simpl. rewrite Ha. apply orb_true_r.
      * right. exact Hb.
Qed.

Lemma not_In_by_forallb (c : char) m :
  forallb (fun x => negb (char_eqb x c)) m = true -> ~ In c m.
Proof.
  intros H Hin. rewrite forallb_forall in H. specialize (H c Hin).
  rewrite char_eqb_refl in H. discriminate.
Qed.

(** ** [s.split()] and whitespace *)

(** [s.split()] with no separator: the maximal runs of characters that are
    not whitespace, in order.  [word] is the run being read. *)
Fixpoint split_whitespace_from (word s : str) : list str :=
  match s with
  | [] => match word with [] => [] | _ :: _ => [word] end
  | c :: s' =>
      if is_space c
      then match word with
           | [] => split_whitespace_from [] s'
           | _ :: _ => word :: split_whitespace_from [] s'
           end
      else split_whitespace_from (word ++ [c]) s'
  end.

Definition split_whitespace (s : str) : list str :=
  split_whitespace_from [] s.

Definition no_space (w : str) : bool :=
  forallb (fun c => negb (is_space c)) w.

Definition all_space (w : str) : bool := forallb is_space w.

Lemma split_whitespace_from_concat s : forall word,
  concat (split_whitespace_from word s) =
  word ++ filter (fun c => negb (is_space c)) s.
Proof.
  induction s as [|c s IH]; intros word; simpl.
  - destruct word; simpl; rewrite ?app_nil_r; reflexivity.
  - destruct (is_space c); simpl.
    + destruct word as [|x word]; simpl; rewrite IH; reflexivity.
    + rewrite IH, <- app_assoc. reflexivity.
Qed.

Lemma split_whitespace_from_words s : forall word,
  no_space word = true ->
  Forall (fun w => w <> [] /\ no_space w = true)
         (split_whitespace_from word s).
Proof.
  induction s as [|c s IH]; intros word Hw; simpl.
  - destruct word; [constructor|].
    constructor; [|constructor]. split; [discriminate | exact Hw].
  - destruct (is_space c) eqn:E.
    + destruct word as [|x word]; [apply IH; reflexivity|].
      constructor; [split; [discriminate | exact Hw]|].
      apply IH. reflexivity.
    + apply IH. unfold no_space. rewrite forallb_app. simpl.
      rewrite E. simpl. unfold no_space in Hw. rewrite Hw. reflexivity.
Qed.

Lemma split_whitespace_words s :
  Forall (fun w => w <> [] /\ no_space w = true) (split_whitespace s).
Proof. apply split_whitespace_from_words. reflexivity. Qed.

Lemma lstrip_spaces s : exists p, s = p ++ lstrip s /\ all_space p = true.
Proof.
  induction s as [|c s [p [IH Hp]]]; simpl.
  - exists []. split; reflexivity.
  - destruct (is_space c) eqn:E.
    + exists (c :: p). simpl. rewrite E, Hp. split; [congruence | reflexivity].
    + exists []. split; reflexivity.
Qed.

Lemma all_space_rev p : all_space (rev p) = all_space p.
Proof.
  unfold all_space. induction p as [|c p IH]; [reflexivity|].
  simpl. rewrite forallb_app, IH. simpl. rewrite andb_true_r.
  apply andb_comm.
Qed.

Lemma rstrip_spaces s : exists q, s = rstrip s ++ q /\ all_space q = true.
Proof.
  unfold rstrip. destruct (lstrip_spaces (rev s)) as [p [Hp Hs]].
  exists (rev p). split.
  - rewrite <- rev_app_distr, <- Hp, rev_involutive. reflexivity.
  - rewrite all_space_rev. exact Hs.
Qed.

Lemma split_whitespace_leading p s :
  all_space p = true -> split_whitespace (p ++ s) = split_whitespace s.
Proof.
  unfold split_whitespace. induction p as [|c p IH]; intros H; [reflexivity|].
  simpl in H. apply andb_true_iff in H as [Hc Hp]. simpl. rewrite Hc.
  exact (IH Hp).
Qed.

Lemma split_whitespace_from_trailing q s : forall word,
  all_space q = true ->
  split_whitespace_from word (s ++ q) = split_whitespace_from word s.
Proof.
  induction s as [|c s IH]; intros word H.
  - simpl app. revert word. induction q as [|x q IHq]; intros word;
      [reflexivity|].
    simpl in H. apply andb_true_iff in H as [Hx Hq]. simpl. rewrite Hx.
    destruct word as [|y word].
    + rewrite (IHq Hq []). reflexivity.
    + rewrite (IHq Hq []). reflexivity.
  - simpl. destruct (is_space c).
    + destruct word; rewrite (IH [] H); reflexivity.
    + apply IH. exact H.
Qed.

(** Stripping does not change the words. *)
Lemma split_whitespace_strip s :
  split_whitespace (strip s) = split_whitespace s.
Proof.
  unfold strip. destruct (lstrip_spaces s) as [p [Hp Hs]].
  destruct (rstrip_spaces (lstrip s)) as [q [Hq Hqs]].
  rewrite Hp at 2. rewrite (split_whitespace_leading p _ Hs).
  rewrite Hq at 2. unfold split_whitespace.
  rewrite (split_whitespace_from_trailing q _ [] Hqs). reflexivity.
Qed.

Lemma no_space_no_blank w : no_space w = true -> ~ In 32%N w.
Proof.
  unfold no_space. intros H Hin. rewrite forallb_forall in H.
  specialize (H _ Hin). discriminate.
Qed.

Lemma split_no_sep sep w : ~ In sep w -> split sep w = [w].
Proof.
  induction w as [|c w IH]; intros Hn; [reflexivity|].
  simpl. destruct (char_eqb c sep) eqn:E.
  - apply char_eqb_eq in E. exfalso. apply Hn. left. exact E.
  - rewrite IH; [reflexivity|]. intros Hi. apply Hn. right. exact Hi.
Qed.

Lemma flat_map_split_no_sep sep ls :
  Forall (fun w => ~ In sep w) ls -> flat_map (split sep) ls = ls.
Proof.
  induction ls as [|l ls IH]; intros H; [reflexivity|].
  inversion H as [|x xs Hl Hls]; subst. simpl.
  rewrite (split_no_sep sep l Hl), (IH Hls). reflexivity.
Qed.

(** Joining with a separator that occurs in no element loses nothing. *)
Lemma join_sep_inj sep ls ls' :
  Forall (fun w => w <> [] /\ ~ In sep w) ls ->
  Forall (fun w => w <> [] /\ ~ In sep w) ls' ->
  join [sep] ls = join [sep] ls' -> ls = ls'.
Proof.
  intros H H' E.
  assert (Hsplit : forall l xs,
            Forall (fun w => w <> [] /\ ~ In sep w) (l :: xs) ->
            split sep (join [sep] (l :: xs)) = l :: xs).
  { intros l xs Hall. rewrite split_join. apply flat_map_split_no_sep.
    eapply Forall_impl; [|exact Hall]. intros w [_ Hw]. exact Hw. }
  assert (Hne : forall l xs,
            Forall (fun w => w <> [] /\ ~ In sep w) (l :: xs) ->
            join [sep] (l :: xs) <> []).
  { intros l xs Hall. inversion Hall as [|x ys [Hl _] _]; subst.
    destruct l as [|c l]; [congruence|]. destruct xs; discriminate. }
  destruct ls as [|l ls], ls' as [|l' ls'].
  - reflexivity.
  - exfalso. apply (Hne l' ls' H'). symmetry. exact E.
  - exfalso. apply (Hne l ls H). exact E.
  - rewrite <- (Hsplit l ls H), <- (Hsplit l' ls' H'), E. reflexivity.
Qed.

(** ** Stripping twice *)

Lemma rstrip_idem s : rstrip (rstrip s) = rstrip s.
Proof. unfold rstrip. rewrite rev_involutive, lstrip_idem. reflexivity. Qed.

Lemma lstrip_head s :
  lstrip s = [] \/ exists c t, lstrip s = c :: t /\ is_space c = false.
Proof.
  induction s as [|c s IH]; simpl; [left; reflexivity|].
  destruct (is_space c) eqn:E; [exact IH|].
  right. exists c, s. split; [reflexivity | exact E].
Qed.

Lemma lstrip_keeps c t : is_space c = false -> lstrip (c :: t) = c :: t.
Proof. intros E. simpl. rewrite E. reflexivity. Qed.

Lemma lstrip_rstrip_lstrip s : lstrip (rstrip (lstrip s)) = rstrip (lstrip s).
Proof.
  destruct (lstrip_head s) as [E | [c [t [E Hc]]]].
  - rewrite E. reflexivity.
  - rewrite E. destruct (rstrip_spaces (c :: t)) as [q [Hq Hs]].
    destruct (rstrip (c :: t)) as [|c' t'] eqn:Er.
    + simpl in Hq. subst q. simpl in Hs. rewrite Hc in Hs. discriminate.
    + simpl in Hq. injection Hq as <- _. apply lstrip_keeps. exact Hc.
Qed.

(** [s.strip().strip() == s.strip()] *)
Lemma strip_idem s : strip (strip s) = strip s.
Proof.
  unfold strip. rewrite lstrip_rstrip_lstrip. apply rstrip_idem.
Qed.


(** ** Where [find] finds an occurrence *)

Lemma startswith_length p s : startswith p s = true -> length p <= length s.
Proof.
  intros H. apply startswith_spec in H as [q ->]. rewrite length_app. lia.
Qed.

Lemma find_bound sub s :
  contains sub s = true ->
  (0 <= find sub s)%Z /\ Z.to_nat (find sub s) + length sub <= length s.
Proof.
  induction s as [|c s IH]; simpl.
  - rewrite orb_false_r. intros H. rewrite H. split; [lia|].
    apply startswith_length in H. simpl in *. lia.
  - destruct (startswith sub (c :: s)) eqn:E.
    + intros _. split; [lia|]. apply startswith_length in E. simpl in *. lia.
    + simpl. intros H. destruct (IH H) as [H0 H1].
      destruct (find sub s <? 0)%Z eqn:Er; [apply Z.ltb_lt in Er; lia|].
      split; [lia|]. rewrite Z2Nat.inj_add by lia. simpl Z.to_nat.
      change (Z.to_nat 1) with 1. lia.
Qed.

Lemma slice_nonempty (s : str) i n :
  0 < n -> i + n <= length s -> slice s i (i + n) <> [].
Proof.
  intros Hn Hi. unfold slice. intros E.
  apply (f_equal (@length char)) in E.
  rewrite length_firstn, length_skipn in E. simpl in E. lia.
Qed.

Lemma lower_length s : length (lower s) = length s.
Proof. unfold lower. apply length_map. Qed.

(** ** Lines hold no line break, in any letter case *)

Lemma split_lines_no_sep sep s : forall l, In l (split sep s) -> ~ In sep l.
Proof.
  induction s as [|c s IH]; intros l; simpl.
  - intros [<- | []] [].
  - destruct (char_eqb c sep) eqn:E.
    + intros [<- | H]; [intros [] | exact (IH l H)].
    + destruct (split sep s) as [|l0 ls] eqn:Es.
      * intros [<- | []]. intros [-> | []].
        rewrite char_eqb_refl in E. discriminate.
      * intros [<- | H].
        -- intros [-> | H0]; [rewrite char_eqb_refl in E; discriminate|].
           exact (IH l0 (or_introl eq_refl) H0).
        -- exact (IH l (or_intror H)).
Qed.

Lemma lower_char_nl c : lower_char c = nl -> c = nl.
Proof.
  unfold lower_char, nl.
  destruct ((65 <=? c) && (c <=? 90))%N eqn:E; [|intros H; exact H].
  apply andb_true_iff in E as [E1 E2]. apply N.leb_le in E1. lia.
Qed.

Lemma lower_nl m : In nl (lower m) <-> In nl m.
Proof.
  unfold lower. rewrite in_map_iff. split.
  - intros [c [Hc Hin]]. apply lower_char_nl in Hc. subst c. exact Hin.
  - intros H. exists nl. split; [reflexivity | exact H].
Qed.

(** A text with a line break is in no line. *)
Lemma multiline_not_in_line m l :
  In nl m -> ~ In nl l -> contains (lower m) (lower l) = false.
Proof.
  intros Hm Hl. destruct (contains (lower m) (lower l)) eqn:E; [|reflexivity].
  exfalso. apply Hl. apply lower_nl.
  apply contains_spec in E as [p [q ->]].
  apply in_or_app. right. apply in_or_app. left. apply lower_nl. exact Hm.
Qed.

(** ASCII texts: there [lower] is [str.lower]. *)
Definition is_ascii (s : str) : bool := forallb (fun c => (c <? 128)%N) s.

End PyStr.

(* ================================================================== *)
(** * Regular expressions of the sources *)
(* ================================================================== *)

(** The sources use Python's [re] on a handful of fixed patterns.  A pattern
    is represented by its syntax tree and run by a backtracking matcher that
    tries alternatives in the order of [re]: a greedy repetition first takes
    one more iteration and falls back to the rest of the pattern, a lazy one
    does the opposite.  The matcher state is the text before the cursor
    (reversed) and the text after it. *)

Module Regex.
Import PyStr.

Inductive re : Type :=
| Eps                                (* empty pattern *)
| Chr (p : char -> bool)             (* one character of a class *)
| Cat (a b : re)                     (* concatenation *)
| Alt (a b : re)                     (* a, and b when a fails *)
| Rep (greedy : bool) (r : re)       (* r* (greedy) or r*? (lazy) *)
| Bol (multiline : bool)             (* ^ *)
| Eol (multiline : bool)             (* $ *)
| WordB.                             (* \b *)

Definition state := (str * str)%type.

(** [\w] and [\d] on ASCII text.  Outside ASCII the classes of the code
    follow the Unicode tables; the results that run a pattern with these
    classes over a text that is not fixed are stated for ASCII texts. *)
Definition is_word (c : char) : bool :=
  ((48 <=? c) && (c <=? 57) || (65 <=? c) && (c <=? 90)
   || (97 <=? c) && (c <=? 122) || (c =? 95))%N.

Definition is_digit (c : char) : bool := ((48 <=? c) && (c <=? 57))%N.

Definition word_before (st : state) : bool :=
  match fst st with c :: _ => is_word c | [] => false end.

Definition word_after (st : state) : bool :=
  match snd st with c :: _ => is_word c | [] => false end.

(** The loop of a repetition over a body matcher: a greedy loop first tries
    one more iteration, a lazy loop first tries to go on.  An iteration has
    to consume at least one character (the bodies of the repetitions in the
    sources always do), so [S (length text)] rounds are enough. *)
Fixpoint rep_loop (body : (state -> option state) -> state -> option state)
    (greedy : bool) (k : state -> option state) (n : nat) (st : state)
  : option state :=
  match n with
  | O => k st
  | S n' =>
      let again :=
        body (fun st' =>
                if length (snd st') <? length (snd st)
                then rep_loop body greedy k n' st' else None) st in
      if greedy
      then match again with Some x => Some x | None => k st end
      else match k st with Some x => Some x | None => again end
  end.

(** [run r k st]: match [r] at [st], then continue with [k]; the first
    success in backtracking order is the result. *)
Fixpoint run (r : re) (k : state -> option state) (st : state)
  : option state :=
  match r with
  | Eps => k st
  | Chr p =>
      match snd st with
      | c :: s' => if p c then k (c :: fst st, s') else None
      | [] => None
      end
  | Cat a b => run a (run b k) st
  | Alt a b =>
      match run a k st with Some x => Some x | None => run b k st end
  | Rep greedy r' => rep_loop (run r') greedy k (S (length (snd st))) st
  | Bol multiline =>
      match fst st with
      | [] => k st
      | c :: _ => if multiline && char_eqb c nl then k st else None
      end
  | Eol multiline =>
      match snd st with
      | [] => k st
      | c :: rest =>
          if char_eqb c nl && (multiline || match rest with
                                            | [] => true
                                            | _ :: _ => false
                                            end)
          then k st else None
      end
  | WordB => if xorb (word_before st) (word_after st) then k st else None
  end.

(** A literal string and [r+]. *)
Fixpoint Lit (s : str) : re :=
  match s with
  | [] => Eps
  | c :: s' => Cat (Chr (char_eqb c)) (Lit s')
  end.

(** A literal under [re.IGNORECASE]. *)
Fixpoint LitI (s : str) : re :=
  match s with
  | [] => Eps
  | c :: s' => Cat (Chr (fun x => char_eqb (lower_char x) (lower_char c)))
                   (LitI s')
  end.

Definition Plus (greedy : bool) (r : re) : re := Cat r (Rep greedy r).

Definition any_char (c : char) : bool := true.
Definition not_newline (c : char) : bool := negb (char_eqb c nl).

(** [re.match(r, s)]: the end state of a match at the start of [s]. *)
Definition py_match (r : re) (s : str) : option state :=
  run r (fun st => Some st) ([], s).

(** [re.search(r, s)] from a cursor: the start state and the end state of
    the leftmost match. *)
Fixpoint search_from (r : re) (before rest : str)
  : option (state * state) :=
  match run r (fun st => Some st) (before, rest) with
  | Some st' => Some ((before, rest), st')
  | None =>
      match rest with
      | [] => None
      | c :: rest' => search_from r (c :: before) rest'
      end
  end.

Definition search (r : re) (s : str) : option (state * state) :=
  search_from r [] s.

(** [m.group(0)] *)
Definition group0 (m : state * state) : str :=
  rev (firstn (length (fst (snd m)) - length (fst (fst m))) (fst (snd m))).

(** [m.end()] as the text after the match. *)
Definition after_match (st' : state) : str := snd st'.

(** [pattern.sub("", s)]: the non-overlapping matches, leftmost first, are
    removed.  [skip] counts the characters of the current match that are
    still to be dropped. *)
Fixpoint sub_empty_from (r : re) (skip : nat) (before rest : str) : str :=
  match rest with
  | [] => []
  | c :: rest' =>
      match skip with
      | S n => sub_empty_from r n (c :: before) rest'
      | O =>
          match run r (fun st => Some st) (before, rest) with
          | Some st' =>
              match length rest - length (snd st') with
              | O => c :: sub_empty_from r 0 (c :: before) rest'
              | S n => sub_empty_from r n (c :: before) rest'
              end
          | None => c :: sub_empty_from r 0 (c :: before) rest'
          end
      end
  end.

Definition sub_empty (r : re) (s : str) : str := sub_empty_from r 0 [] s.

(** ** Compiling a pattern string *)

(** [re.compile(pattern, flags)] for the part of the pattern syntax that the
    sources use: literal characters, [.], [^], [$], the escapes [\b \d \D \s
    \S \w \W \n \t \r] and escaped punctuation, character classes with
    ranges and negation, groups, and the repetitions [*], [+], [?] with their
    lazy forms.  Any other syntax gives [None].  Character classes are on
    ASCII, as [is_word] and [lower_char] are. *)

Record flags : Type := mkFlags {
  IGNORECASE : bool;
  DOTALL : bool;
  MULTILINE : bool
}.

Definition no_flags : flags := mkFlags false false false.

Definition upper_char (c : char) : char :=
  if ((97 <=? c) && (c <=? 122))%N then (c - 32)%N else c.

Definition fold_case (f : flags) (p : char -> bool) : char -> bool :=
  if IGNORECASE f
  then fun c => p c || p (lower_char c) || p (upper_char c)
  else p.

Definition is_alnum (c : char) : bool :=
  ((48 <=? c) && (c <=? 57) || (65 <=? c) && (c <=? 90)
   || (97 <=? c) && (c <=? 122))%N.

Definition in_range (lo hi : char) (c : char) : bool :=
  ((lo <=? c) && (c <=? hi))%N.

Definition union (p q : char -> bool) : char -> bool :=
  fun c => p c || q c.

(** [\d], [\s], [\w] and their complements. *)
Definition escape_class (e : char) : option (char -> bool) :=
  if (e =? 100)%N then Some is_digit
  else if (e =? 68)%N then Some (fun c => negb (is_digit c))
  else if (e =? 115)%N then Some is_space
  else if (e =? 83)%N then Some (fun c => negb (is_space c))
  else if (e =? 119)%N then Some is_word
  else if (e =? 87)%N then Some (fun c => negb (is_word c))
  else None.

(** [\n], [\t], [\r] and escaped punctuation. *)
Definition escape_char (e : char) : option char :=
  if (e =? 110)%N then Some 10%N
  else if (e =? 116)%N then Some 9%N
  else if (e =? 114)%N then Some 13%N
  else if is_alnum e then None
  else Some e.

(** The items of a character class, up to the closing bracket. *)
Fixpoint parse_class (fuel : nat) (first : bool) (s : str)
    (acc : char -> bool) : option ((char -> bool) * str) :=
  match fuel with
  | O => None
  | S n =>
      match s with
      | [] => None
      | c :: s1 =>
          if (c =? 93)%N && negb first then Some (acc, s1)
          else
            let item (lo : char) (rest : str) :=
              match rest with
              | d :: h :: rest2 =>
                  if (d =? 45)%N && negb (h =? 93)%N then
                    if (h =? 92)%N then
                      match rest2 with
                      | e :: rest3 =>
                          match escape_char e with
                          | Some hi =>
                              parse_class n false rest3
                                          (union acc (in_range lo hi))
                          | None => None
                          end
                      | [] => None
                      end
                    else parse_class n false rest2
                                     (union acc (in_range lo h))
                  else parse_class n false rest (union acc (char_eqb lo))
              | _ => parse_class n false rest (union acc (char_eqb lo))
              end in
            if (c =? 92)%N then
              match s1 with
              | e :: s2 =>
                  match escape_class e with
                  | Some p => parse_class n false s2 (union acc p)
                  | None =>
                      match escape_char e with
                      | Some lo => item lo s2
                      | None => None
                      end
                  end
              | [] => None
              end
            else item c s1
      end
  end.

(** The repetition mark after an atom, if any. *)
Definition apply_quant (a : re) (s : str) : option (re * str) :=
  match s with
  | q :: s1 =>
      let lazy := match s1 with
                  | c :: _ => (c =? 63)%N
                  | [] => false
                  end in
      let rest := if lazy then tl s1 else s1 in
      if (q =? 42)%N then Some (Rep (negb lazy) a, rest)
      else if (q =? 43)%N then Some (Cat a (Rep (negb lazy) a), rest)
      else if (q =? 63)%N
           then Some (if lazy then Alt Eps a else Alt a Eps, rest)
      else if (q =? 123)%N then None
      else Some (a, s)
  | [] => Some (a, [])
  end.

(** A sequence of atoms, up to the end of the pattern or to a closing
    parenthesis, which is left in the rest. *)
Fixpoint parse_seq (f : flags) (fuel : nat) (s : str) : option (re * str) :=
  match fuel with
  | O => None
  | S n =>
      match s with
      | [] => Some (Eps, [])
      | c :: s1 =>
          if (c =? 41)%N then Some (Eps, s)
          else if (c =? 124)%N then None
          else
            let atom : option (re * str) :=
              if (c =? 40)%N then
                match s1 with
                | [] => None
                | c1 :: _ =>
                    if (c1 =? 63)%N then None
                    else match parse_seq f n s1 with
                         | Some (r, c2 :: s2) =>
                             if (c2 =? 41)%N then Some (r, s2) else None
                         | _ => None
                         end
                end
              else if (c =? 91)%N then
                match s1 with
                | [] => None
                | c1 :: s2 =>
                    if (c1 =? 94)%N then
                      match parse_class n true s2 (fun _ => false) with
                      | Some (p, rest) =>
                          Some (Chr (fun x => negb (fold_case f p x)), rest)
                      | None => None
                      end
                    else
                      match parse_class n true s1 (fun _ => false) with
                      | Some (p, rest) => Some (Chr (fold_case f p), rest)
                      | None => None
                      end
                end
              else if (c =? 92)%N then
                match s1 with
                | [] => None
                | e :: s2 =>
                    if (e =? 98)%N then Some (WordB, s2)
                    else match escape_class e with
                         | Some p => Some (Chr p, s2)
                         | None =>
                             match escape_char e with
                             | Some x =>
                                 Some (Chr (fold_case f (char_eqb x)), s2)
                             | None => None
                             end
                         end
                end
              else if (c =? 46)%N then
                Some (Chr (if DOTALL f then any_char else not_newline), s1)
              else if (c =? 94)%N then Some (Bol (MULTILINE f), s1)
              else if (c =? 36)%N then Some (Eol (MULTILINE f), s1)
              else if (c =? 42)%N || (c =? 43)%N || (c =? 63)%N
                      || (c =? 123)%N then None
              else Some (Chr (fold_case f (char_eqb c)), s1) in
            match atom with
            | None => None
            | Some (a, rest) =>
                match apply_quant a rest with
                | None => None
                | Some (a', rest') =>
                    match parse_seq f n rest' with
                    | Some (r, rest'') => Some (Cat a' r, rest'')
                    | None => None
                    end
                end
            end
      end
  end.

Definition compile (f : flags) (pattern : str) : option re :=
  match parse_seq f (S (length pattern)) pattern with
  | Some (r, []) => Some r
  | _ => None
  end.

(** ** A match consumes a prefix of the text after the cursor *)

Definition ext (st st' : state) : Prop :=
  exists c, snd st = c ++ snd st' /\ fst st' = rev c ++ fst st.

Lemma ext_refl st : ext st st.
Proof. exists []. split; reflexivity. Qed.

Lemma ext_trans a b c : ext a b -> ext b c -> ext a c.
Proof.
  intros [x [H1 H2]] [y [H3 H4]]. exists (x ++ y). split.
  - rewrite H1, H3, app_assoc. reflexivity.
  - rewrite H4, H2, rev_app_distr, app_assoc. reflexivity.
Qed.

Lemma ext_step c b s : ext (b, c :: s) (c :: b, s).
Proof. exists [c]. split; reflexivity. Qed.

Definition preserves_ext (st0 : state) (k : state -> option state) : Prop :=
  forall st st', ext st0 st -> k st = Some st' -> ext st0 st'.

Lemma rep_loop_ext body g k st0 :
  (forall k', preserves_ext st0 k' -> preserves_ext st0 (body k')) ->
  preserves_ext st0 k ->
  forall n, preserves_ext st0 (rep_loop body g k n).
Proof.
  intros Hbody Hk n. induction n as [|n IHn]; intros st st' He; simpl.
  - apply Hk. exact He.
  - assert (Hagain : forall x,
               body (fun st1 =>
                       if length (snd st1) <? length (snd st)
                       then rep_loop body g k n st1 else None) st
               = Some x -> ext st0 x).
    { intros x. apply Hbody; [|exact He].
      intros st1 st1' He1.
      destruct (length (snd st1) <? length (snd st)); [|discriminate].
      apply IHn. exact He1. }
    destruct g.
    + match goal with
      | |- match ?e with _ => _ end = _ -> _ => destruct e as [x|]
      end.
      * intros H. injection H as <-. apply Hagain. reflexivity.
      * apply Hk. exact He.
    + destruct (k st) as [x|] eqn:E.
      * intros H. injection H as <-. apply (Hk st); assumption.
      * apply Hagain.
Qed.

Lemma run_ext r :
  forall k st0, preserves_ext st0 k -> preserves_ext st0 (run r k).
Proof.
  induction r as [|p|a IHa b IHb|a IHa b IHb|g r IHr|m|m|];
    intros k st0 Hk st st' He.
  - simpl. apply Hk. exact He.
  - simpl. destruct st as [b s]. simpl. destruct s as [|c s]; [discriminate|].
    destruct (p c); [|discriminate].
    apply Hk. eapply ext_trans; [exact He | apply ext_step].
  - simpl. apply (IHa (run b k) st0); [|exact He].
    apply IHb. exact Hk.
  - simpl. destruct (run a k st) as [x|] eqn:E.
    + intros H. injection H as <-. exact (IHa k st0 Hk st x He E).
    + apply IHb; assumption.
  - change (run (Rep g r) k st)
      with (rep_loop (run r) g k (S (length (snd st))) st).
    apply rep_loop_ext; [|exact Hk|exact He].
    intros k' Hk'. apply IHr. exact Hk'.
  - simpl. destruct (fst st) as [|c b].
    + apply Hk. exact He.
    + destruct (m && char_eqb c nl); [|discriminate]. apply Hk. exact He.
  - simpl. destruct (snd st) as [|c rest].
    + apply Hk. exact He.
    + match goal with |- (if ?e then _ else _) = _ -> _ => destruct e end;
        [|discriminate].
      apply Hk. exact He.
  - simpl. destruct (xorb (word_before st) (word_after st)); [|discriminate].
    apply Hk. exact He.
Qed.

(** [re.match] returns a split of the text: what it matched, reversed, and
    what follows. *)
Lemma py_match_split r s b' r' :
  py_match r s = Some (b', r') -> s = rev b' ++ r'.
Proof.
  unfold py_match. intros H.
  assert (He : ext ([], s) (b', r')).
  { apply (run_ext r (fun st => Some st) ([], s)) with (st := ([], s)).
    - intros st st' He E. injection E as <-. exact He.
    - apply ext_refl.
    - exact H. }
  destruct He as [c [H1 H2]]. simpl in H1, H2.
  rewrite app_nil_r in H2. subst b'. rewrite rev_involutive. exact H1.
Qed.

(** ** A successful run ends in a call of the continuation *)

Lemma rep_loop_result body g k :
  (forall k' st st', body k' st = Some st' -> exists st1, k' st1 = Some st') ->
  forall n st st',
    rep_loop body g k n st = Some st' -> exists st1, k st1 = Some st'.
Proof.
  intros Hbody n. induction n as [|n IHn]; intros st st'; simpl.
  - intros H. exists st. exact H.
  - assert (Hagain : forall x,
               body (fun st1 =>
                       if length (snd st1) <? length (snd st)
                       then rep_loop body g k n st1 else None) st
               = Some x -> exists st1, k st1 = Some x).
    { intros x Hx. destruct (Hbody _ _ _ Hx) as [st1 H1].
      destruct (length (snd st1) <? length (snd st)); [|discriminate].
      exact (IHn _ _ H1). }
    destruct g.
    + match goal with
      | |- match ?e with _ => _ end = _ -> _ => destruct e as [x|] eqn:E
      end.
      * intros H. injection H as <-. apply Hagain. reflexivity.
      * intros H. exists st. exact H.
    + destruct (k st) as [x|] eqn:E.
      * intros H. injection H as <-. exists st. exact E.
      * apply Hagain.
Qed.

Lemma run_result r :
  forall k st st', run r k st = Some st' -> exists st1, k st1 = Some st'.
Proof.
  induction r as [|p|a IHa b IHb|a IHa b IHb|g r IHr|m|m|]; intros k st st'.
  - simpl. intros H. exists st. exact H.
  - simpl. destruct (snd st) as [|c s]; [discriminate|].
    destruct (p c); [|discriminate]. intros H. eexists. exact H.
  - simpl. intros H. destruct (IHa _ _ _ H) as [st1 H1].
    exact (IHb _ _ _ H1).
  - simpl. destruct (run a k st) as [x|] eqn:E.
    + intros H. injection H as <-. exact (IHa _ _ _ E).
    + apply IHb.
  - change (run (Rep g r) k st)
      with (rep_loop (run r) g k (S (length (snd st))) st).
    apply rep_loop_result. intros k' st0 st0'. apply IHr.
  - simpl. destruct (fst st) as [|c b].
    + intros H. exists st. exact H.
    + destruct (m && char_eqb c nl); [|discriminate].
      intros H. exists st. exact H.
  - simpl. destruct (snd st) as [|c rest].
    + intros H. exists st. exact H.
    + match goal with |- (if ?e then _ else _) = _ -> _ => destruct e end;
        [|discriminate].
      intros H. exists st. exact H.
  - simpl. destruct (xorb (word_before st) (word_after st)); [|discriminate].
    intros H. exists st. exact H.
Qed.

Lemma run_cat a b k st : run (Cat a b) k st = run a (run b k) st.
Proof. reflexivity. Qed.

(** What follows the first part of a concatenation is run to the result. *)
Lemma run_cat_result a b k st st' :
  run (Cat a b) k st = Some st' -> exists st1, run b k st1 = Some st'.
Proof. rewrite run_cat. apply run_result. Qed.

Lemma run_chr p k b s st' :
  run (Chr p) k (b, s) = Some st' ->
  exists c s', s = c :: s' /\ p c = true /\ k (c :: b, s') = Some st'.
Proof.
  simpl. destruct s as [|c s']; [discriminate|].
  destruct (p c) eqn:E; [|discriminate].
  intros H. exists c, s'. repeat split; assumption.
Qed.

Lemma run_cat_chr p r k b s st' :
  run (Cat (Chr p) r) k (b, s) = Some st' ->
  exists c s', s = c :: s' /\ p c = true /\ run r k (c :: b, s') = Some st'.
Proof. rewrite run_cat. apply run_chr. Qed.

(** ** A repeated character class *)

Lemma rep_loop_S body g k n st :
  rep_loop body g k (S n) st =
  let again :=
    body (fun st' =>
            if length (snd st') <? length (snd st)
            then rep_loop body g k n st' else None) st in
  if g
  then match again with Some x => Some x | None => k st end
  else match k st with Some x => Some x | None => again end.
Proof. reflexivity. Qed.

(** What a repeated class consumed is a run of characters of the class. *)
Lemma rep_chr_sound p g k : forall n b s st',
  rep_loop (run (Chr p)) g k n (b, s) = Some st' ->
  exists w t,
    s = w ++ t /\ forallb p w = true /\ k (rev w ++ b, t) = Some st'.
Proof.
  induction n as [|n IH]; intros b s st'.
  - simpl. intros H. exists [], s. repeat split. exact H.
  - rewrite rep_loop_S. cbv zeta.
    assert (Hagain : forall x,
              run (Chr p)
                  (fun st1 =>
                     if length (snd st1) <? length (snd (b, s))
                     then rep_loop (run (Chr p)) g k n st1 else None)
                  (b, s) = Some x ->
              exists w t,
                s = w ++ t /\ forallb p w = true /\
                k (rev w ++ b, t) = Some x).
    { intros x Hx. apply run_chr in Hx as [c [s' [Es [Pc Hx]]]].
      cbv beta in Hx. revert Hx.
      match goal with
      | |- (if ?cond then _ else _) = _ -> _ => destruct cond
      end; [intros Hx|discriminate].
      destruct (IH _ _ _ Hx) as [w [t [Ew [Pw Hk]]]].
      exists (c :: w), t. subst s s'. split; [reflexivity|].
      split; [simpl; rewrite Pc, Pw; reflexivity|].
      simpl. rewrite <- app_assoc. exact Hk. }
    destruct g.
    + destruct (run (Chr p) _ (b, s)) as [x|] eqn:E.
      * intros H. injection H as <-. apply Hagain. reflexivity.
      * intros H. exists [], s. repeat split. exact H.
    + destruct (k (b, s)) as [x|] eqn:E.
      * intros H. injection H as <-. exists [], s. repeat split. exact E.
      * apply Hagain.
Qed.

(** A run of characters of the class after which the continuation succeeds
    makes the repetition succeed. *)
Lemma rep_chr_complete p g k : forall w n b t st',
  forallb p w = true -> length (w ++ t) < n ->
  k (rev w ++ b, t) = Some st' ->
  exists st'', rep_loop (run (Chr p)) g k n (b, w ++ t) = Some st''.
Proof.
  induction w as [|c w IH]; intros n b t st' Pw Hn Hk.
  - destruct n as [|n]; [exfalso; lia|]. rewrite rep_loop_S. cbv zeta.
    simpl in Hk. simpl app. destruct g.
    + destruct (run (Chr p) _ (b, t)) as [x|]; eexists; [reflexivity|].
      exact Hk.
    + rewrite Hk. eexists. reflexivity.
  - destruct n as [|n]; [exfalso; lia|]. rewrite rep_loop_S. cbv zeta.
    simpl in Pw. apply andb_true_iff in Pw as [Pc Pw].
    assert (Hagain : exists x,
              run (Chr p)
                  (fun st1 =>
                     if length (snd st1) <? length (snd (b, (c :: w) ++ t))
                     then rep_loop (run (Chr p)) g k n st1 else None)
                  (b, (c :: w) ++ t) = Some x).
    { simpl. rewrite Pc.
      assert (Hlt : (length (w ++ t) <? S (length (w ++ t))) = true)
        by (apply Nat.ltb_lt; lia).
      rewrite Hlt. apply (IH n (c :: b) t st' Pw).
      - simpl in Hn. lia.
      - simpl in Hk. rewrite <- app_assoc in Hk. exact Hk. }
    destruct Hagain as [x Hx]. destruct g.
    + destruct (run (Chr p) _ (b, (c :: w) ++ t)) as [y|] eqn:E;
        [eexists; reflexivity|].
      discriminate Hx.
    + destruct (k (b, (c :: w) ++ t)) as [y|]; eexists; [reflexivity|].
      exact Hx.
Qed.

Lemma run_chr_step p k b c s :
  p c = true -> run (Chr p) k (b, c :: s) = k (c :: b, s).
Proof. intros H. simpl. rewrite H. reflexivity. Qed.

(** A pattern [^[first][rest]*$]: the strings it matches from the start. *)
Definition class_star (first rest : char -> bool) : re :=
  Cat (Bol false)
    (Cat (Chr first) (Cat (Rep true (Chr rest)) (Cat (Eol false) Eps))).

Definition class_star_shape (first rest : char -> bool) (v : str) : Prop :=
  exists c w e,
    v = c :: w ++ e /\ first c = true /\ forallb rest w = true /\
    (e = [] \/ e = [nl]).

Lemma eol_end k b t st' :
  run (Cat (Eol false) Eps) k (b, t) = Some st' -> t = [] \/ t = [nl].
Proof.
  simpl. destruct t as [|c [|c' r]]; [left; reflexivity| |].
  - destruct (char_eqb c nl) eqn:E; [|discriminate].
    apply char_eqb_eq in E. subst c. right. reflexivity.
  - rewrite andb_false_r. discriminate.
Qed.

Lemma class_star_match first rest v :
  (exists x, py_match (class_star first rest) v = Some x) <->
  class_star_shape first rest v.
Proof.
  unfold py_match, class_star, class_star_shape.
  change (run (Cat (Bol false) ?a) ?k ([], v)) with (run a k ([], v)).
  split.
  - intros [x H]. apply run_cat_chr in H as [c [s' [Ev [Pc H]]]].
    rewrite run_cat in H.
    change (run (Rep true (Chr rest)) ?k ?st)
      with (rep_loop (run (Chr rest)) true k (S (length (snd st))) st) in H.
    apply rep_chr_sound in H as [w [t [Es [Pw H]]]].
    exists c, w, t. subst v s'. split; [reflexivity|].
    split; [exact Pc|]. split; [exact Pw|]. exact (eol_end _ _ _ _ H).
  - intros [c [w [e [-> [Pc [Pw He]]]]]].
    rewrite run_cat, (run_chr_step first _ [] c (w ++ e) Pc), run_cat.
    change (run (Rep true (Chr rest)) ?k ?st)
      with (rep_loop (run (Chr rest)) true k (S (length (snd st))) st).
    cbn [snd].
    apply (rep_chr_complete rest true _ w _ [c] e (rev w ++ [c], e) Pw).
    + lia.
    + destruct He as [-> | ->]; reflexivity.
Qed.

(** ** The text a match went through *)

Lemma rep_loop_result_ext body g k :
  (forall k' st st', body k' st = Some st' ->
                     exists st1, ext st st1 /\ k' st1 = Some st') ->
  forall n st st',
    rep_loop body g k n st = Some st' ->
    exists st1, ext st st1 /\ k st1 = Some st'.
Proof.
  intros Hbody n. induction n as [|n IHn]; intros st st'; simpl.
  - intros H. exists st. split; [apply ext_refl | exact H].
  - assert (Hagain : forall x,
               body (fun st1 =>
                       if length (snd st1) <? length (snd st)
                       then rep_loop body g k n st1 else None) st
               = Some x -> exists st1, ext st st1 /\ k st1 = Some x).
    { intros x Hx. destruct (Hbody _ _ _ Hx) as [st1 [He H1]].
      destruct (length (snd st1) <? length (snd st)); [|discriminate].
      destruct (IHn _ _ H1) as [st2 [He2 H2]]. exists st2.
      split; [exact (ext_trans _ _ _ He He2) | exact H2]. }
    destruct g.
    + match goal with
      | |- match ?e with _ => _ end = _ -> _ => destruct e as [x|] eqn:E
      end.
      * intros H. injection H as <-. apply Hagain. reflexivity.
      * intros H. exists st. split; [apply ext_refl | exact H].
    + destruct (k st) as [x|] eqn:E.
      * intros H. injection H as <-. exists st.
        split; [apply ext_refl | exact E].
      * apply Hagain.
Qed.

(** A successful run calls the continuation further on in the text. *)
Lemma run_result_ext r :
  forall k st st',
    run r k st = Some st' -> exists st1, ext st st1 /\ k st1 = Some st'.
Proof.
  induction r as [|p|a IHa b IHb|a IHa b IHb|g r IHr|m|m|]; intros k st st'.
  - simpl. intros H. exists st. split; [apply ext_refl | exact H].
  - destruct st as [b s]. intros H.
    apply run_chr in H as [c [s' [-> [_ H]]]].
    exists (c :: b, s'). split; [apply ext_step | exact H].
  - simpl. intros H. destruct (IHa _ _ _ H) as [st1 [He1 H1]].
    destruct (IHb _ _ _ H1) as [st2 [He2 H2]]. exists st2.
    split; [exact (ext_trans _ _ _ He1 He2) | exact H2].
  - simpl. destruct (run a k st) as [x|] eqn:E.
    + intros H. injection H as <-. exact (IHa _ _ _ E).
    + apply IHb.
  - change (run (Rep g r) k st)
      with (rep_loop (run r) g k (S (length (snd st))) st).
    apply rep_loop_result_ext. intros k' st0 st0'. apply IHr.
  - simpl. destruct (fst st) as [|c b].
    + intros H. exists st. split; [apply ext_refl | exact H].
    + destruct (m && char_eqb c nl); [|discriminate].
      intros H. exists st. split; [apply ext_refl | exact H].
  - simpl. destruct (snd st) as [|c rest].
    + intros H. exists st. split; [apply ext_refl | exact H].
    + match goal with |- (if ?e then _ else _) = _ -> _ => destruct e end;
        [|discriminate].
      intros H. exists st. split; [apply ext_refl | exact H].
  - simpl. destruct (xorb (word_before st) (word_after st)); [|discriminate].
    intros H. exists st. split; [apply ext_refl | exact H].
Qed.

(** A match of a sequence of atoms went through each single character of
    the sequence. *)
Lemma run_seq_through pre p post : forall st st',
  run (fold_right Cat Eps (pre ++ Chr p :: post)) (fun x => Some x) st
  = Some st' ->
  exists b1 c s1,
    ext st (b1, c :: s1) /\ p c = true /\ ext (c :: b1, s1) st'.
Proof.
  induction pre as [|a pre IH]; intros st st' H.
  - cbn [app fold_right] in H. destruct st as [b s].
    apply run_cat_chr in H as [c [s' [-> [Pc H]]]].
    exists b, c, s'. split; [apply ext_refl|]. split; [exact Pc|].
    apply (run_ext (fold_right Cat Eps post) (fun x => Some x) (c :: b, s'))
      with (st := (c :: b, s')); [|apply ext_refl | exact H].
    intros x y Hx Hk. injection Hk as <-. exact Hx.
  - cbn [app fold_right] in H. rewrite run_cat in H.
    apply run_result_ext in H as [st1 [He H]].
    destruct (IH _ _ H) as [b1 [c [s1 [He1 [Pc He2]]]]].
    exists b1, c, s1. split; [exact (ext_trans _ _ _ He He1)|].
    split; assumption.
Qed.

Lemma search_from_run r : forall rest before st st',
  search_from r before rest = Some (st, st') ->
  run r (fun x => Some x) st = Some st'.
Proof.
  induction rest as [|c rest IH]; intros before st st'; simpl.
  - match goal with
    | |- match ?e with _ => _ end = _ -> _ => destruct e as [x|] eqn:E
    end; [|discriminate].
    intros H. injection H as <- <-. exact E.
  - match goal with
    | |- match ?e with _ => _ end = _ -> _ => destruct e as [x|] eqn:E
    end.
    + intros H. injection H as <- <-. exact E.
    + apply IH.
Qed.

(** The matched text holds every character the match went through. *)
Lemma group0_through st st' b1 c s1 :
  ext st (b1, c :: s1) -> ext (c :: b1, s1) st' -> In c (group0 (st, st')).
Proof.
  intros [x [_ Hx]] [y [_ Hy]]. simpl in Hx, Hy. unfold group0. cbn [fst snd].
  rewrite Hy, Hx.
  replace (rev y ++ c :: rev x ++ fst st)
    with ((rev y ++ c :: rev x) ++ fst st)
    by (rewrite <- app_assoc; reflexivity).
  rewrite length_app, Nat.add_sub, firstn_app, Nat.sub_diag, firstn_all.
  cbn [firstn]. rewrite app_nil_r. apply in_rev. rewrite rev_involutive.
  apply in_or_app. right. left. reflexivity.
Qed.


(** The class of a line break under [re.IGNORECASE] is the line break. *)
Lemma fold_case_nl fl c : fold_case fl (char_eqb 10%N) c = true -> c = nl.
Proof.
  unfold fold_case, nl. destruct (IGNORECASE fl).
  - rewrite !orb_true_iff, !char_eqb_eq.
    intros [[H | H] | H]; [symmetry; exact H | |].
    + apply lower_char_nl. symmetry. exact H.
    + revert H. unfold upper_char.
      destruct ((97 <=? c) && (c <=? 122))%N eqn:E;
        [|intros H; symmetry; exact H].
      apply andb_true_iff in E as [E1 E2]. apply N.leb_le in E1. lia.
  - rewrite char_eqb_eq. intros H. symmetry. exact H.
Qed.

(** ** A pattern that starts with a character the text does not have *)

Lemma sub_empty_from_no_head p r x : forall rest before,
  (forall c, p c = true -> c = x) -> ~ In x rest ->
  sub_empty_from (Cat (Chr p) r) 0 before rest = rest.
Proof.
  induction rest as [|c rest IH]; intros before Hp Hn; [reflexivity|].
  cbn [sub_empty_from]. rewrite run_cat.
  assert (Hc : p c = false).
  { destruct (p c) eqn:E; [|reflexivity]. exfalso. apply Hn. left.
    exact (Hp c E). }
  cbn [run snd]. rewrite Hc. f_equal. apply IH; [exact Hp|].
  intros H. apply Hn. right. exact H.
Qed.

Lemma sub_empty_no_head p r x text :
  (forall c, p c = true -> c = x) -> ~ In x text ->
  sub_empty (Cat (Chr p) r) text = text.
Proof. apply sub_empty_from_no_head. Qed.

(** The class of a backtick, under any flags, is the backtick. *)
Lemma fold_case_tick fl c : fold_case fl (char_eqb 96%N) c = true -> c = 96%N.
Proof.
  unfold fold_case. destruct (IGNORECASE fl).
  - rewrite !orb_true_iff, !char_eqb_eq.
    intros [[H | H] | H]; [symmetry; exact H | |]; revert H.
    + unfold lower_char.
      destruct ((65 <=? c) && (c <=? 90))%N eqn:E;
        [|intros H; symmetry; exact H].
      apply andb_true_iff in E as [E1 E2]. apply N.leb_le in E1, E2. lia.
    + unfold upper_char.
      destruct ((97 <=? c) && (c <=? 122))%N eqn:E;
        [|intros H; symmetry; exact H].
      apply andb_true_iff in E as [E1 E2]. apply N.leb_le in E1, E2. lia.
  - rewrite char_eqb_eq. intros H. symmetry. exact H.
Qed.

(** ** What [sub] removes *)

Lemma sub_empty_from_skip r : forall x before y,
  sub_empty_from r (length x) before (x ++ y)
  = sub_empty_from r 0 (rev x ++ before) y.
Proof.
  induction x as [|c x IH]; intros before y; [reflexivity|].
  cbn [length app sub_empty_from]. rewrite IH. cbn [rev].
  rewrite <- app_assoc. reflexivity.
Qed.

(** A match at the cursor is dropped, and the search goes on after it. *)
Lemma sub_empty_from_match r before m t b' :
  m <> [] ->
  run r (fun st => Some st) (before, m ++ t) = Some (b', t) ->
  sub_empty_from r 0 before (m ++ t)
  = sub_empty_from r 0 (rev m ++ before) t.
Proof.
  destruct m as [|c m]; [contradiction|]. intros _ H.
  cbn [app] in *. cbn [sub_empty_from].
  match goal with
  | |- match ?e with _ => _ end = _ =>
      replace e with (Some (b', t)) by (symmetry; exact H)
  end.
  cbn [snd].
  replace (length (c :: m ++ t) - length t) with (S (length m))
    by (cbn [length]; rewrite length_app; lia).
  rewrite sub_empty_from_skip. cbn [rev]. rewrite <- app_assoc. reflexivity.
Qed.

(** Where there is no match the character is kept. *)
Lemma sub_empty_from_fail r before c rest :
  run r (fun st => Some st) (before, c :: rest) = None ->
  sub_empty_from r 0 before (c :: rest)
  = c :: sub_empty_from r 0 (c :: before) rest.
Proof.
  intros H. cbn [sub_empty_from].
  match goal with
  | |- match ?e with _ => _ end = _ =>
      replace e with (@None state) by (symmetry; exact H)
  end.
  reflexivity.
Qed.

Lemma sub_empty_from_prefix p r x : forall a before rest,
  (forall c, p c = true -> c = x) -> ~ In x a ->
  sub_empty_from (Cat (Chr p) r) 0 before (a ++ rest)
  = a ++ sub_empty_from (Cat (Chr p) r) 0 (rev a ++ before) rest.
Proof.
  induction a as [|c a IH]; intros before rest Hp Hn; [reflexivity|].
  cbn [app]. rewrite sub_empty_from_fail.
  - rewrite IH; [|exact Hp|intros H; apply Hn; right; exact H].
    cbn [rev]. rewrite <- app_assoc. reflexivity.
  - rewrite run_cat. cbn [run snd].
    destruct (p c) eqn:E; [|reflexivity]. exfalso. apply Hn. left.
    exact (Hp c E).
Qed.

(** ** Greedy and lazy repetitions of a class *)

(** The text does not go on with a character of the class. *)
Definition stops (p : char -> bool) (t : str) : Prop :=
  match t with
  | [] => True
  | c :: _ => p c = false
  end.

(** A greedy repetition takes the whole run when what follows matches
    after it. *)
Lemma rep_chr_greedy p k : forall w n b t st',
  forallb p w = true -> stops p t -> length (w ++ t) < n ->
  k (rev w ++ b, t) = Some st' ->
  rep_loop (run (Chr p)) true k n (b, w ++ t) = Some st'.
Proof.
  induction w as [|c w IH]; intros n b t st' Pw Ht Hn Hk.
  - destruct n as [|n]; [exfalso; lia|]. rewrite rep_loop_S. cbv zeta.
    cbn [app rev] in *.
    assert (Hnone : forall k', run (Chr p) k' (b, t) = None).
    { intros k'. cbn [run snd]. destruct t as [|c t]; [reflexivity|].
      cbn [stops] in Ht. rewrite Ht. reflexivity. }
    rewrite Hnone. exact Hk.
  - destruct n as [|n]; [exfalso; lia|]. rewrite rep_loop_S. cbv zeta.
    cbn [forallb] in Pw. apply andb_true_iff in Pw as [Pc Pw].
    cbn [app]. rewrite (run_chr_step p _ b c (w ++ t) Pc). cbn [snd].
    assert (Hlt : (length (w ++ t) <? length (c :: w ++ t)) = true)
      by (apply Nat.ltb_lt; cbn [length]; lia).
    rewrite Hlt.
    rewrite (IH n (c :: b) t st' Pw Ht); [reflexivity| |].
    + cbn [app length] in Hn. lia.
    + cbn [rev] in Hk. rewrite <- app_assoc in Hk. exact Hk.
Qed.

(** A lazy repetition goes on as long as what follows does not match. *)
Lemma rep_chr_lazy p k : forall w n b t st',
  forallb p w = true ->
  (forall c b0 s, In c w -> k (b0, c :: s) = None) ->
  length (w ++ t) < n ->
  k (rev w ++ b, t) = Some st' ->
  rep_loop (run (Chr p)) false k n (b, w ++ t) = Some st'.
Proof.
  induction w as [|c w IH]; intros n b t st' Pw Hw Hn Hk.
  - destruct n as [|n]; [exfalso; lia|]. rewrite rep_loop_S. cbv zeta.
    cbn [app rev] in *. rewrite Hk. reflexivity.
  - destruct n as [|n]; [exfalso; lia|]. rewrite rep_loop_S. cbv zeta.
    cbn [forallb] in Pw. apply andb_true_iff in Pw as [Pc Pw].
    cbn [app]. rewrite (Hw c b (w ++ t) (or_introl eq_refl)).
    rewrite (run_chr_step p _ b c (w ++ t) Pc). cbn [snd].
    assert (Hlt : (length (w ++ t) <? length (c :: w ++ t)) = true)
      by (apply Nat.ltb_lt; cbn [length]; lia).
    rewrite Hlt.
    apply (IH n (c :: b) t st' Pw).
    + intros c0 b0 s Hc0. apply Hw. right. exact Hc0.
    + cbn [app length] in Hn. lia.
    + cbn [rev] in Hk. rewrite <- app_assoc in Hk. exact Hk.
Qed.

Lemma run_rep g r k st :
  run (Rep g r) k st = rep_loop (run r) g k (S (length (snd st))) st.
Proof. reflexivity. Qed.

End Regex.

(* ================================================================== *)
(** * preservation.py: the SKILL.md preservation protocol *)
(* ================================================================== *)

Module Preservation.
Import PyStr.

Inductive BlockType : Type := GENERATED | MANUAL | UNMARKED.

Definition BlockType_eqb (a b : BlockType) : bool :=
  match a, b with
  | GENERATED, GENERATED | MANUAL, MANUAL | UNMARKED, UNMARKED => true
  | _, _ => false
  end.

(** Block markers *)
Definition GENERATED_START : str := lit "<!-- skillspec:generated:start -->".
Definition GENERATED_END : str := lit "<!-- skillspec:generated:end -->".
Definition MANUAL_START : str := lit "<!-- skillspec:manual:start -->".
Definition MANUAL_END : str := lit "<!-- skillspec:manual:end -->".

Record ContentBlock : Type := mkContentBlock {
  block_type : BlockType;
  content : str;
  section_name : option str;
  checksum : option str;
  start_line : Z;
  end_line : Z
}.

(** [ContentBlock(block_type=..., content=..., section_name=...)] *)
Definition new_block (t : BlockType) (c : str) (sec : option str)
  : ContentBlock :=
  mkContentBlock t c sec None 0%Z 0%Z.

Record ParsedDocument : Type := mkParsedDocument {
  blocks : list ContentBlock;
  raw_content : str;
  has_markers : bool
}.

Definition get_manual_blocks (doc : ParsedDocument) : list ContentBlock :=
  filter (fun b => BlockType_eqb (block_type b) MANUAL) (blocks doc).

Definition get_generated_blocks (doc : ParsedDocument) : list ContentBlock :=
  filter (fun b => BlockType_eqb (block_type b) GENERATED) (blocks doc).

Record PreservationResult : Type := mkPreservationResult {
  success : bool;
  merged_content : str;
  manual_blocks_preserved : nat;
  generated_blocks_updated : nat;
  warnings : list str;
  errors : list str
}.

(** ** [parse_skill_md] *)

(** The variables of the line loop. *)
Record scan : Type := mkScan {
  sc_blocks : list ContentBlock;
  current_block_lines : list str;
  current_block_type : BlockType;
  current_section : option str
}.

(** "Save previous block if any" *)
Definition save_if_any (st : scan) : list ContentBlock :=
  match current_block_lines st with
  | [] => sc_blocks st
  | _ :: _ =>
      sc_blocks st ++
      [new_block (current_block_type st)
                 (join [nl] (current_block_lines st)) (current_section st)]
  end.

(** One round of the [while] loop, on the line [line]. *)
Definition scan_line (st : scan) (line : str) : scan :=
  if contains GENERATED_START line then
    mkScan (save_if_any st) [] GENERATED (current_section st)
  else if contains MANUAL_START line then
    mkScan (save_if_any st) [] MANUAL (current_section st)
  else if contains GENERATED_END line || contains MANUAL_END line then
    mkScan (sc_blocks st ++
            [new_block (current_block_type st)
                       (join [nl] (current_block_lines st))
                       (current_section st)])
           [] UNMARKED (current_section st)
  else
    let sec :=
      if startswith (lit "## ") line then Some (strip (skipn 3 line))
      else if startswith (lit "# ") line then Some (strip (skipn 2 line))
      else current_section st in
    mkScan (sc_blocks st) (current_block_lines st ++ [line])
           (current_block_type st) sec.

Definition scan_init : scan := mkScan [] [] UNMARKED None.

Definition scan_lines (st : scan) (lines : list str) : scan :=
  fold_left scan_line lines st.

Definition parse_skill_md (content : str) : ParsedDocument :=
  let has_generated := contains GENERATED_START content in
  let has_manual := contains MANUAL_START content in
  if negb (has_generated || has_manual) then
    mkParsedDocument [new_block UNMARKED content None] content false
  else
    let st := scan_lines scan_init (split nl content) in
    mkParsedDocument (save_if_any st) content true.

(** ** Wrapping and merging *)

(** [re.compile(r'^(---\s*\n.*?\n---\s*\n)', re.DOTALL)] *)
Definition frontmatter_source : str := lit "^(---\s*\n.*?\n---\s*\n)".

Definition frontmatter_pattern : Regex.re :=
  match Regex.compile (Regex.mkFlags false true false) frontmatter_source with
  | Some r => r
  | None => Regex.Eps
  end.

(** [frontmatter_pattern.match(content)]: [group(1)], which is the whole
    match, and [content[match.end():]]. *)
Definition frontmatter_match (content : str) : option (str * str) :=
  match Regex.py_match frontmatter_pattern content with
  | Some (b, r) => Some (rev b, r)
  | None => None
  end.

Definition wrap_generated_block (content : str) : str :=
  match frontmatter_match content with
  | Some (frontmatter, remaining_content) =>
      frontmatter ++ GENERATED_START ++ [nl] ++ remaining_content ++ [nl]
        ++ GENERATED_END
  | None => GENERATED_START ++ [nl] ++ content ++ [nl] ++ GENERATED_END
  end.

Definition wrap_manual_block (content : str) : str :=
  MANUAL_START ++ [nl] ++ content ++ [nl] ++ MANUAL_END.

Definition force_warning : str :=
  lit "Force mode: all existing content replaced".

Definition no_markers_warning : str :=
  lit "No markers found in existing content - wrapped new content in generated markers".

(** The lines the merge writes for the new generated content. *)
Definition generated_lines (new_generated_content : str) : list str :=
  match frontmatter_match new_generated_content with
  | Some (frontmatter, remaining_content) =>
      [strip frontmatter; []; GENERATED_START; strip remaining_content;
       GENERATED_END]
  | None =>
      [GENERATED_START; strip new_generated_content; GENERATED_END]
  end.

(** The lines appended for one preserved manual block. *)
Definition manual_lines (manual_block : ContentBlock) : list str :=
  [[]; MANUAL_START; strip (content manual_block); MANUAL_END].

Definition merge_with_preservation
    (existing_content new_generated_content : str) (force : bool)
  : PreservationResult :=
  if force then
    mkPreservationResult true new_generated_content 0 0 [force_warning] []
  else
    let existing_doc := parse_skill_md existing_content in
    if negb (has_markers existing_doc) then
      mkPreservationResult true (wrap_generated_block new_generated_content)
                           0 0 [no_markers_warning] []
    else
      let manual_blocks := get_manual_blocks existing_doc in
      let merged_lines :=
        generated_lines new_generated_content
          ++ flat_map manual_lines manual_blocks in
      mkPreservationResult true (join [nl] merged_lines)
                           (length manual_blocks) 1 [] [].

(** ** Facts about the markers *)

Definition marker_free (l : str) : bool :=
  negb (contains GENERATED_START l) && negb (contains MANUAL_START l)
  && negb (contains GENERATED_END l) && negb (contains MANUAL_END l).

Lemma marker_free_spec l :
  marker_free l = true <->
  contains GENERATED_START l = false /\ contains MANUAL_START l = false /\
  contains GENERATED_END l = false /\ contains MANUAL_END l = false.
Proof.
  unfold marker_free. rewrite !andb_true_iff, !negb_true_iff. tauto.
Qed.

Lemma gs_in_ge : contains GENERATED_START GENERATED_END = false.
Proof. vm_compute. reflexivity. Qed.
Lemma ms_in_ge : contains MANUAL_START GENERATED_END = false.
Proof. vm_compute. reflexivity. Qed.
Lemma gs_in_ms : contains GENERATED_START MANUAL_START = false.
Proof. vm_compute. reflexivity. Qed.
Lemma gs_in_me : contains GENERATED_START MANUAL_END = false.
Proof. vm_compute. reflexivity. Qed.
Lemma ms_in_me : contains MANUAL_START MANUAL_END = false.
Proof. vm_compute. reflexivity. Qed.
Lemma ms_in_gs : contains MANUAL_START GENERATED_START = false.
Proof. vm_compute. reflexivity. Qed.
Lemma ms_in_nil : contains MANUAL_START [] = false.
Proof. vm_compute. reflexivity. Qed.
Lemma marker_free_nil : marker_free [] = true.
Proof. vm_compute. reflexivity. Qed.

Lemma split_gs : split nl GENERATED_START = [GENERATED_START].
Proof. vm_compute. reflexivity. Qed.
Lemma split_ge : split nl GENERATED_END = [GENERATED_END].
Proof. vm_compute. reflexivity. Qed.
Lemma split_ms : split nl MANUAL_START = [MANUAL_START].
Proof. vm_compute. reflexivity. Qed.
Lemma split_me : split nl MANUAL_END = [MANUAL_END].
Proof. vm_compute. reflexivity. Qed.

Lemma ms_overlap_gs : overlap_free MANUAL_START GENERATED_START = true.
Proof. vm_compute. reflexivity. Qed.

Lemma marker_free_join ls :
  Forall (fun l => marker_free l = true) ls ->
  marker_free (join [nl] ls) = true.
Proof.
  intros H. apply marker_free_spec.
  assert (Hm : forall m, ~ In nl m -> m <> [] ->
                 (forall l, marker_free l = true -> contains m l = false) ->
                 contains m (join [nl] ls) = false).
  { intros m Hn Hne Hc. apply not_contains_join; [exact Hn | exact Hne |].
    intros l Hl. apply Hc. rewrite Forall_forall in H. apply H. exact Hl. }
  repeat split; apply Hm;
    try (apply not_In_by_forallb; vm_compute; reflexivity);
    try discriminate;
    intros l Hl; apply marker_free_spec in Hl; tauto.
Qed.

Lemma marker_free_strip c : marker_free c = true -> marker_free (strip c) = true.
Proof.
  rewrite !marker_free_spec. intros [H1 [H2 [H3 H4]]].
  repeat split; apply not_contains_strip; assumption.
Qed.

Lemma marker_free_split c :
  marker_free c = true -> Forall (fun l => marker_free l = true) (split nl c).
Proof.
  intros H. apply Forall_forall. intros l Hl.
  apply marker_free_spec in H. destruct H as [H1 [H2 [H3 H4]]].
  apply marker_free_spec.
  repeat split; eapply not_contains_split_line; eassumption.
Qed.

(** ** The line loop on particular lines *)

Lemma scan_line_plain st line :
  marker_free line = true ->
  exists sec,
    scan_line st line =
    mkScan (sc_blocks st) (current_block_lines st ++ [line])
           (current_block_type st) sec.
Proof.
  intros H. apply marker_free_spec in H. destruct H as [H1 [H2 [H3 H4]]].
  unfold scan_line. rewrite H1, H2, H3, H4. simpl orb. cbv iota.
  eexists. reflexivity.
Qed.

Lemma scan_lines_plain ls : forall st,
  Forall (fun l => marker_free l = true) ls ->
  exists sec,
    scan_lines st ls =
    mkScan (sc_blocks st) (current_block_lines st ++ ls)
           (current_block_type st) sec.
Proof.
  induction ls as [|l ls IH]; intros st H.
  - exists (current_section st). simpl. rewrite app_nil_r.
    destruct st; reflexivity.
  - inversion H as [|x xs Hl Hls]; subst.
    destruct (scan_line_plain st l Hl) as [sec E].
    unfold scan_lines. simpl fold_left. rewrite E.
    destruct (IH (mkScan (sc_blocks st) (current_block_lines st ++ [l])
                         (current_block_type st) sec) Hls) as [sec' E'].
    exists sec'. unfold scan_lines in E'. rewrite E'. simpl.
    rewrite <- app_assoc. reflexivity.
Qed.

Lemma scan_line_generated_end st :
  scan_line st GENERATED_END =
  mkScan (sc_blocks st ++
          [new_block (current_block_type st)
                     (join [nl] (current_block_lines st))
                     (current_section st)])
         [] UNMARKED (current_section st).
Proof.
  unfold scan_line. rewrite gs_in_ge, ms_in_ge, contains_refl. reflexivity.
Qed.

Lemma scan_line_manual_end st :
  scan_line st MANUAL_END =
  mkScan (sc_blocks st ++
          [new_block (current_block_type st)
                     (join [nl] (current_block_lines st))
                     (current_section st)])
         [] UNMARKED (current_section st).
Proof.
  unfold scan_line. rewrite gs_in_me, ms_in_me, contains_refl, orb_true_r.
  reflexivity.
Qed.

Lemma scan_line_manual_start st :
  scan_line st MANUAL_START =
  mkScan (save_if_any st) [] MANUAL (current_section st).
Proof.
  unfold scan_line. rewrite gs_in_ms, contains_refl. reflexivity.
Qed.

Lemma scan_lines_app st a b :
  scan_lines st (a ++ b) = scan_lines (scan_lines st a) b.
Proof. unfold scan_lines. apply fold_left_app. Qed.

(** ** What the parser collects *)

Definition is_manual (b : ContentBlock) : bool :=
  BlockType_eqb (block_type b) MANUAL.

Definition manual_contents (bs : list ContentBlock) : list str :=
  map content (filter is_manual bs).

Lemma manual_contents_app a b :
  manual_contents (a ++ b) = manual_contents a ++ manual_contents b.
Proof. unfold manual_contents. rewrite filter_app, map_app. reflexivity. Qed.

(** The lines kept in a block, and so the block contents, hold no marker. *)
Definition clean_scan (st : scan) : Prop :=
  Forall (fun l => marker_free l = true) (current_block_lines st) /\
  Forall (fun b => marker_free (content b) = true) (sc_blocks st).

Lemma save_if_any_clean st :
  clean_scan st ->
  Forall (fun b => marker_free (content b) = true) (save_if_any st).
Proof.
  intros [Hl Hb]. unfold save_if_any.
  destruct (current_block_lines st) as [|l ls] eqn:E; [exact Hb|].
  apply Forall_app. split; [exact Hb|].
  constructor; [|constructor]. exact (marker_free_join _ Hl).
Qed.

Lemma scan_line_clean st line : clean_scan st -> clean_scan (scan_line st line).
Proof.
  intros Hc. pose proof (save_if_any_clean st Hc) as Hs.
  destruct Hc as [Hl Hb]. unfold scan_line.
  destruct (contains GENERATED_START line) eqn:E1.
  { split; [constructor | exact Hs]. }
  destruct (contains MANUAL_START line) eqn:E2.
  { split; [constructor | exact Hs]. }
  destruct (contains GENERATED_END line || contains MANUAL_END line) eqn:E3.
  { split; [constructor|]. simpl. apply Forall_app. split; [exact Hb|].
    constructor; [|constructor]. exact (marker_free_join _ Hl). }
  apply orb_false_iff in E3 as [E3 E4].
  split; simpl; [|exact Hb].
  apply Forall_app. split; [exact Hl|]. constructor; [|constructor].
  apply marker_free_spec. tauto.
Qed.

Lemma scan_lines_clean ls : forall st,
  clean_scan st -> clean_scan (scan_lines st ls).
Proof.
  induction ls as [|l ls IH]; intros st H; [exact H|].
  unfold scan_lines. simpl. apply IH. apply scan_line_clean. exact H.
Qed.

Lemma parse_manual_blocks_clean D :
  Forall (fun b => marker_free (content b) = true)
         (get_manual_blocks (parse_skill_md D)).
Proof.
  unfold get_manual_blocks, parse_skill_md.
  destruct (negb (contains GENERATED_START D || contains MANUAL_START D)).
  - simpl. constructor.
  - simpl. apply Forall_forall. intros b Hb. apply filter_In in Hb as [Hb _].
    revert b Hb. apply Forall_forall. apply save_if_any_clean.
    apply scan_lines_clean. split; constructor.
Qed.

(** ** Parsing a merged document again *)

Definition no_manual_start (l : str) : Prop := contains MANUAL_START l = false.

Lemma manual_contents_other t c sec :
  t <> MANUAL -> manual_contents [new_block t c sec] = [].
Proof. destruct t; intros H; [reflexivity | congruence | reflexivity]. Qed.

Lemma save_if_any_no_manual st :
  current_block_type st <> MANUAL ->
  manual_contents (sc_blocks st) = [] ->
  manual_contents (save_if_any st) = [].
Proof.
  intros Ht Hb. unfold save_if_any.
  destruct (current_block_lines st); [exact Hb|].
  rewrite manual_contents_app, Hb, manual_contents_other by exact Ht.
  reflexivity.
Qed.

(** Lines without a manual start marker never open a manual block. *)
Lemma scan_line_no_manual st line :
  no_manual_start line ->
  current_block_type st <> MANUAL ->
  manual_contents (sc_blocks st) = [] ->
  current_block_type (scan_line st line) <> MANUAL /\
  manual_contents (sc_blocks (scan_line st line)) = [].
Proof.
  intros Hl Ht Hb. unfold scan_line. rewrite Hl.
  destruct (contains GENERATED_START line).
  { simpl. split; [discriminate | apply save_if_any_no_manual; assumption]. }
  destruct (contains GENERATED_END line || contains MANUAL_END line).
  { simpl. split; [discriminate|].
    rewrite manual_contents_app, Hb, manual_contents_other by exact Ht.
    reflexivity. }
  simpl. split; assumption.
Qed.

Lemma scan_lines_no_manual ls : forall st,
  Forall no_manual_start ls ->
  current_block_type st <> MANUAL ->
  manual_contents (sc_blocks st) = [] ->
  current_block_type (scan_lines st ls) <> MANUAL /\
  manual_contents (sc_blocks (scan_lines st ls)) = [].
Proof.
  induction ls as [|l ls IH]; intros st H Ht Hb; [split; assumption|].
  inversion H as [|x xs Hl Hls]; subst.
  destruct (scan_line_no_manual st l Hl Ht Hb) as [Ht' Hb'].
  unfold scan_lines. simpl. apply IH; assumption.
Qed.

(** A state between two blocks of the merged document. *)
Definition at_rest (st : scan) : Prop :=
  current_block_lines st = [] /\ current_block_type st = UNMARKED.

Lemma scan_generated_part hd :
  Forall no_manual_start hd ->
  at_rest (scan_lines scan_init (hd ++ [GENERATED_END])) /\
  manual_contents (sc_blocks (scan_lines scan_init (hd ++ [GENERATED_END])))
  = [].
Proof.
  intros H. rewrite scan_lines_app.
  destruct (scan_lines_no_manual hd scan_init H) as [Ht Hb];
    [discriminate | reflexivity |].
  unfold scan_lines at 1 3. simpl fold_left.
  rewrite scan_line_generated_end. simpl. split; [split; reflexivity|].
  rewrite manual_contents_app, Hb, manual_contents_other by exact Ht.
  reflexivity.
Qed.

Definition manual_block_lines (b : ContentBlock) : list str :=
  flat_map (split nl) (manual_lines b).

Lemma manual_block_lines_eq b :
  manual_block_lines b =
  [[]; MANUAL_START] ++ split nl (strip (content b)) ++ [MANUAL_END].
Proof.
  unfold manual_block_lines, manual_lines. cbn [flat_map].
  rewrite split_ms, split_me, app_nil_r. reflexivity.
Qed.

(** One preserved block is read back as one manual block whose content is
    the stripped content. *)
Lemma scan_manual_block_eq B sec b :
  marker_free (content b) = true ->
  exists sec1 sec2,
    scan_lines (mkScan B [] UNMARKED sec) (manual_block_lines b) =
    mkScan (B ++ [new_block UNMARKED [] sec1]
              ++ [new_block MANUAL (strip (content b)) sec2])
           [] UNMARKED sec2.
Proof.
  intros Hc. rewrite manual_block_lines_eq.
  unfold scan_lines. cbn [app fold_left].
  destruct (scan_line_plain (mkScan B [] UNMARKED sec) [] marker_free_nil)
    as [sec1 E1].
  rewrite E1. cbn [sc_blocks current_block_lines current_block_type app].
  rewrite scan_line_manual_start. unfold save_if_any.
  cbn [sc_blocks current_block_lines current_block_type current_section].
  rewrite fold_left_app.
  match goal with
  | |- context [fold_left scan_line (split nl (strip (content b))) ?s] =>
      destruct (scan_lines_plain (split nl (strip (content b))) s)
        as [sec2 E2]
  end.
  { apply marker_free_split. apply marker_free_strip. exact Hc. }
  exists sec1, sec2. unfold scan_lines in E2. rewrite E2.
  cbn [sc_blocks current_block_lines current_block_type app fold_left].
  rewrite scan_line_manual_end.
  cbn [sc_blocks current_block_lines current_block_type current_section].
  rewrite join_split, <- app_assoc. reflexivity.
Qed.

Lemma scan_manual_block st b :
  at_rest st ->
  marker_free (content b) = true ->
  at_rest (scan_lines st (manual_block_lines b)) /\
  manual_contents (sc_blocks (scan_lines st (manual_block_lines b))) =
  manual_contents (sc_blocks st) ++ [strip (content b)].
Proof.
  intros [Hl Ht] Hc. destruct st as [B ls t sec]. simpl in Hl, Ht. subst.
  destruct (scan_manual_block_eq B sec b Hc) as [sec1 [sec2 E]].
  rewrite E. cbn [sc_blocks current_block_lines current_block_type].
  split; [split; reflexivity|].
  rewrite !manual_contents_app.
  rewrite (manual_contents_other UNMARKED) by discriminate.
  reflexivity.
Qed.

Lemma scan_manual_blocks bs : forall st,
  at_rest st ->
  Forall (fun b => marker_free (content b) = true) bs ->
  at_rest (scan_lines st (flat_map manual_block_lines bs)) /\
  manual_contents (sc_blocks (scan_lines st (flat_map manual_block_lines bs)))
  = manual_contents (sc_blocks st) ++ map (fun b => strip (content b)) bs.
Proof.
  induction bs as [|b bs IH]; intros st Hr Hall.
  - simpl. rewrite app_nil_r. split; [exact Hr | reflexivity].
  - inversion Hall as [|x xs Hb Hbs]; subst.
    cbn [flat_map]. rewrite scan_lines_app.
    destruct (scan_manual_block st b Hr Hb) as [Hr1 Hm1].
    destruct (IH _ Hr1 Hbs) as [Hr2 Hm2].
    split; [exact Hr2|]. rewrite Hm2, Hm1, <- app_assoc. reflexivity.
Qed.

(** A text whose lines are a generated part closed by the end marker and
    then preserved blocks parses to exactly those blocks as manual ones. *)
Lemma reparse_manual T hd bs :
  contains GENERATED_START T = true ->
  split nl T = (hd ++ [GENERATED_END]) ++ flat_map manual_block_lines bs ->
  Forall no_manual_start hd ->
  Forall (fun b => marker_free (content b) = true) bs ->
  manual_contents (blocks (parse_skill_md T)) =
  map (fun b => strip (content b)) bs.
Proof.
  intros Hgs Hsplit Hhd Hbs. unfold parse_skill_md. rewrite Hgs. simpl.
  rewrite Hsplit, scan_lines_app.
  destruct (scan_generated_part hd Hhd) as [Hr Hm].
  destruct (scan_manual_blocks bs _ Hr Hbs) as [[Hl Ht] Hm2].
  unfold save_if_any. rewrite Hl, Hm2, Hm. reflexivity.
Qed.

(** ** The generated part of a merged or wrapped document *)

Lemma frontmatter_match_split G fm rem :
  frontmatter_match G = Some (fm, rem) -> G = fm ++ rem.
Proof.
  unfold frontmatter_match.
  destruct (Regex.py_match frontmatter_pattern G) as [[b r]|] eqn:E;
    [|discriminate].
  intros H. injection H as <- <-. exact (Regex.py_match_split _ _ _ _ E).
Qed.

Lemma lines_no_manual X :
  no_manual_start X -> Forall no_manual_start (split nl X).
Proof.
  intros H. apply Forall_forall. intros l Hl.
  exact (not_contains_split_line MANUAL_START nl X l H Hl).
Qed.

Lemma stripped_lines_no_manual X :
  no_manual_start X -> Forall no_manual_start (split nl (strip X)).
Proof.
  intros H. apply lines_no_manual. apply not_contains_strip. exact H.
Qed.

Lemma frontmatter_parts_no_manual G fm rem :
  frontmatter_match G = Some (fm, rem) -> no_manual_start G ->
  no_manual_start fm /\ no_manual_start rem.
Proof.
  intros E H. apply frontmatter_match_split in E. subst G. split.
  - exact (not_contains_infix MANUAL_START [] fm rem H).
  - apply (not_contains_infix MANUAL_START fm rem []).
    rewrite app_nil_r. exact H.
Qed.

Lemma generated_lines_shape G :
  no_manual_start G ->
  exists hd,
    flat_map (split nl) (generated_lines G) = hd ++ [GENERATED_END] /\
    Forall no_manual_start hd.
Proof.
  intros H. unfold generated_lines.
  destruct (frontmatter_match G) as [[fm rem]|] eqn:E.
  - destruct (frontmatter_parts_no_manual G fm rem E H) as [Hf Hr].
    exists (split nl (strip fm) ++ [[]; GENERATED_START]
              ++ split nl (strip rem)).
    split.
    + cbn [flat_map]. rewrite split_gs, split_ge, app_nil_r.
      change (split nl []) with ([[]] : list str).
      rewrite <- !app_assoc. reflexivity.
    + apply Forall_app. split; [apply stripped_lines_no_manual; exact Hf|].
      apply Forall_app. split.
      * constructor; [exact ms_in_nil|].
        constructor; [exact ms_in_gs | constructor].
      * apply stripped_lines_no_manual. exact Hr.
  - exists ([GENERATED_START] ++ split nl (strip G)). split.
    + cbn [flat_map]. rewrite split_gs, split_ge, app_nil_r.
      rewrite <- !app_assoc. reflexivity.
    + apply Forall_app. split.
      * constructor; [exact ms_in_gs | constructor].
      * apply stripped_lines_no_manual. exact H.
Qed.

Lemma generated_lines_start G : In GENERATED_START (generated_lines G).
Proof.
  unfold generated_lines. destruct (frontmatter_match G) as [[fm rem]|].
  - right. right. left. reflexivity.
  - left. reflexivity.
Qed.

Lemma wrap_generated_block_shape G :
  no_manual_start G ->
  contains GENERATED_START (wrap_generated_block G) = true /\
  exists hd,
    split nl (wrap_generated_block G) = hd ++ [GENERATED_END] /\
    Forall no_manual_start hd.
Proof.
  intros H. unfold wrap_generated_block.
  destruct (frontmatter_match G) as [[fm rem]|] eqn:E.
  - destruct (frontmatter_parts_no_manual G fm rem E H) as [Hf Hr]. split.
    + apply (contains_infix GENERATED_START fm GENERATED_START).
      apply contains_refl.
    + exists (split nl (fm ++ GENERATED_START) ++ split nl rem). split.
      * change (fm ++ GENERATED_START ++ [nl] ++ rem ++ [nl] ++ GENERATED_END)
          with (fm ++ GENERATED_START ++ nl :: rem ++ nl :: GENERATED_END).
        rewrite app_assoc, !split_app_sep, split_ge, <- app_assoc.
        reflexivity.
      * apply Forall_app. split; [|apply lines_no_manual; exact Hr].
        apply lines_no_manual. unfold no_manual_start.
        destruct (contains MANUAL_START (fm ++ GENERATED_START)) eqn:Ec;
          [|reflexivity].
        destruct (contains_app_overlap MANUAL_START fm GENERATED_START
                    ms_overlap_gs Ec) as [Hc | Hc].
        -- rewrite Hf in Hc. discriminate.
        -- rewrite ms_in_gs in Hc. discriminate.
  - split.
    + apply (contains_infix GENERATED_START [] GENERATED_START).
      apply contains_refl.
    + exists ([GENERATED_START] ++ split nl G). split.
      * change (GENERATED_START ++ [nl] ++ G ++ [nl] ++ GENERATED_END)
          with (GENERATED_START ++ nl :: G ++ nl :: GENERATED_END).
        rewrite !split_app_sep, split_gs, split_ge, <- app_assoc.
        reflexivity.
      * apply Forall_app. split.
        -- constructor; [exact ms_in_gs | constructor].
        -- apply lines_no_manual. exact H.
Qed.

Lemma flat_map_manual_lines bs :
  flat_map (split nl) (flat_map manual_lines bs) =
  flat_map manual_block_lines bs.
Proof.
  induction bs as [|b bs IH]; [reflexivity|].
  cbn [flat_map]. rewrite flat_map_app, IH. reflexivity.
Qed.

Lemma no_markers_no_manual_blocks D :
  has_markers (parse_skill_md D) = false ->
  get_manual_blocks (parse_skill_md D) = [].
Proof.
  unfold parse_skill_md.
  destruct (negb (contains GENERATED_START D || contains MANUAL_START D));
    [reflexivity | discriminate].
Qed.

(** ** The front matter that is kept outside the markers *)

Definition dash : Regex.re := Regex.Chr (char_eqb 45%N).
Definition newline : Regex.re := Regex.Chr (char_eqb 10%N).
Definition spaces : Regex.re := Regex.Rep true (Regex.Chr is_space).

Definition lazy_any : Regex.re :=
  Regex.Rep false (Regex.Chr Regex.any_char).

(** The compiled pattern, written out: a sequence of atoms in a group. *)
Lemma frontmatter_pattern_eq :
  frontmatter_pattern =
  Regex.Cat (Regex.Bol false)
    (Regex.Cat
       (fold_right Regex.Cat Regex.Eps
          [dash; dash; dash; spaces; newline; lazy_any; newline;
           dash; dash; dash; spaces; newline])
       Regex.Eps).
Proof. vm_compute. reflexivity. Qed.

(** A front matter starts with three dashes and ends with a newline. *)
Lemma frontmatter_match_shape G fm rem :
  frontmatter_match G = Some (fm, rem) ->
  (exists x, fm = lit "---" ++ x) /\ (exists y, fm = y ++ [nl]).
Proof.
  unfold frontmatter_match, Regex.py_match. rewrite frontmatter_pattern_eq.
  destruct (Regex.run _ _ _) as [[b r]|] eqn:E; [|discriminate].
  intros H. injection H as <- <-.
  cbn [fold_right] in E.
  change (Regex.run (Regex.Cat (Regex.Bol false) (Regex.Cat ?a Regex.Eps))
                    ?k ([], G))
    with (Regex.run a k ([], G)) in E.
  apply Regex.run_cat_chr in E as [c1 [s1 [E1 [P1 E]]]].
  apply Regex.run_cat_chr in E as [c2 [s2 [E2 [P2 E]]]].
  apply Regex.run_cat_chr in E as [c3 [s3 [E3 [P3 E]]]].
  apply char_eqb_eq in P1, P2, P3. subst c1 c2 c3.
  split.
  - assert (He : Regex.ext ([45; 45; 45]%N, s3) (b, r)).
    { eapply (Regex.run_ext _ _ ([45; 45; 45]%N, s3)); [| |exact E].
      - intros st st' Hx Hk. injection Hk as <-. exact Hx.
      - apply Regex.ext_refl. }
    destruct He as [c [_ Hb]]. simpl in Hb. exists c. rewrite Hb.
    rewrite rev_app_distr, rev_involutive. reflexivity.
  - do 8 (apply Regex.run_cat_result in E as [? E]).
    destruct x6 as [b1 t1].
    apply Regex.run_cat_chr in E as [c [s' [_ [Pc E]]]].
    apply char_eqb_eq in Pc. subst c. simpl in E. injection E as <- _.
    exists (rev b1). reflexivity.
Qed.

(** Content that does not start with three dashes has no front matter. *)
Lemma frontmatter_match_none G :
  startswith (lit "---") G = false -> frontmatter_match G = None.
Proof.
  intros H. destruct (frontmatter_match G) as [[fm rem]|] eqn:E;
    [|reflexivity].
  destruct (frontmatter_match_shape G fm rem E) as [[x Hx] _].
  apply frontmatter_match_split in E. subst G fm.
  rewrite <- app_assoc in H.
  rewrite (proj2 (startswith_spec (lit "---") _)) in H; [discriminate|].
  eexists. reflexivity.
Qed.

(** ** The other operations of the module *)

(** [ParsedDocument.get_manual_block_by_section] *)
Definition get_manual_block_by_section (doc : ParsedDocument)
    (name : str) : option ContentBlock :=
  List.find (fun block =>
               BlockType_eqb (block_type block) MANUAL &&
               match section_name block with
               | Some s => str_eqb s name
               | None => false
               end) (blocks doc).

Definition extract_manual_blocks (content : str) : list ContentBlock :=
  get_manual_blocks (parse_skill_md content).

Definition extract_generated_blocks (content : str) : list ContentBlock :=
  get_generated_blocks (parse_skill_md content).

(** [' '.join(s.split())] *)
Definition normalize_whitespace (s : str) : str :=
  join (lit " ") (split_whitespace s).

(** [set(lines)]: one copy of every line. *)
Fixpoint distinct (lines : list str) : list str :=
  match lines with
  | [] => []
  | l :: rest =>
      if existsb (str_eqb l) rest then distinct rest else l :: distinct rest
  end.

(** [set(a) - set(b)] *)
Definition set_difference (a b : list str) : list str :=
  filter (fun l => negb (existsb (str_eqb l) b)) (distinct a).

Definition validate_generated_block_consistency
    (generated_block : ContentBlock) (spec_generated : str)
  : bool * option str :=
  let existing_normalized := normalize_whitespace (content generated_block) in
  let spec_normalized := normalize_whitespace spec_generated in
  if str_eqb existing_normalized spec_normalized then (true, None)
  else
    let existing_lines := split nl (strip (content generated_block)) in
    let spec_lines := split nl (strip spec_generated) in
    let added := set_difference spec_lines existing_lines in
    let removed := set_difference existing_lines spec_lines in
    let diff_desc :=
      (match added with
       | [] => []
       | _ :: _ => [lit "Lines added from spec: " ++ str_of_nat (length added)]
       end) ++
      (match removed with
       | [] => []
       | _ :: _ =>
           [lit "Lines removed from existing: " ++ str_of_nat (length removed)]
       end) in
    (false,
     Some (match diff_desc with
           | [] => lit "Content differs"
           | _ :: _ => join (lit "; ") diff_desc
           end)).

Record ConsistencyValidationResult : Type := mkConsistencyValidationResult {
  valid : bool;
  blocks_checked : nat;
  inconsistencies : list str
}.

(** The body of the loop over [enumerate(generated_blocks)]. *)
Definition check_block (spec_generated_content : str)
    (result : ConsistencyValidationResult) (ib : nat * ContentBlock)
  : ConsistencyValidationResult :=
  let (is_consistent, diff) :=
    validate_generated_block_consistency (snd ib) spec_generated_content in
  if negb is_consistent then
    mkConsistencyValidationResult false (blocks_checked result)
      (inconsistencies result ++
       [lit "Generated block " ++ str_of_nat (fst ib + 1) ++ lit ": " ++
        match diff with Some d => d | None => lit "None" end])
  else result.

Definition validate_document_consistency
    (skill_md_content spec_generated_content : str)
  : ConsistencyValidationResult :=
  let doc := parse_skill_md skill_md_content in
  let generated_blocks := get_generated_blocks doc in
  let result :=
    mkConsistencyValidationResult true (length generated_blocks) [] in
  match generated_blocks with
  | [] => result
  | _ :: _ =>
      fold_left (check_block spec_generated_content)
                (combine (seq 0 (length generated_blocks)) generated_blocks)
                result
  end.

Definition add_preservation_markers (content : str) : str :=
  let doc := parse_skill_md content in
  if has_markers doc then content else wrap_generated_block content.

(** [enumerate] with [break]: the index of the first line that satisfies
    [p]. *)
Fixpoint index_where (p : str -> bool) (lines : list str) : option nat :=
  match lines with
  | [] => None
  | line :: rest =>
      if p line then Some 0
      else match index_where p rest with
           | Some i => Some (S i)
           | None => None
           end
  end.

Definition is_heading (line : str) : bool :=
  startswith (lit "## ") line || startswith (lit "# ") line.

(** The two nested loops of [insert_manual_section]: [insert_idx]. *)
Definition insert_index (lines : list str) (after_section : str) : nat :=
  match index_where (startswith (lit "## " ++ after_section)) lines with
  | Some i =>
      match index_where is_heading (skipn (S i) lines) with
      | Some k => S i + k
      | None => length lines
      end
  | None => length lines
  end.

Definition manual_block_at (manual_content : str) : list str :=
  [[]; MANUAL_START; strip manual_content; MANUAL_END; []].

(** [after_section] is used when it is given and not empty. *)
Definition insert_manual_section (content manual_content : str)
    (after_section : option str) : str :=
  match after_section with
  | Some (c :: name) =>
      let lines := split nl content in
      let insert_idx := insert_index lines (c :: name) in
      join [nl] (firstn insert_idx lines ++ manual_block_at manual_content
                   ++ skipn insert_idx lines)
  | _ =>
      rstrip content ++ [nl; nl] ++ wrap_manual_block manual_content ++ [nl]
  end.

(** ** The blocks of a wrapped or merged document *)

(** A block without its section name. *)
Definition shape (b : ContentBlock) : BlockType * str :=
  (block_type b, content b).

Definition shapes (bs : list ContentBlock) : list (BlockType * str) :=
  map shape bs.

Lemma shapes_app a b : shapes (a ++ b) = shapes a ++ shapes b.
Proof. apply map_app. Qed.

Definition contents_of (t : BlockType) (bs : list ContentBlock) : list str :=
  map content (filter (fun b => BlockType_eqb (block_type b) t) bs).

Lemma scan_line_generated_start_in st line :
  contains GENERATED_START line = true ->
  scan_line st line = mkScan (save_if_any st) [] GENERATED (current_section st).
Proof. intros H. unfold scan_line. rewrite H. reflexivity. Qed.

Lemma scan_line_generated_start st :
  scan_line st GENERATED_START =
  mkScan (save_if_any st) [] GENERATED (current_section st).
Proof. apply scan_line_generated_start_in. apply contains_refl. Qed.

(** A start line, lines without markers and an end line make one block. *)
Lemma scan_block st first body last t :
  scan_line st first = mkScan (save_if_any st) [] t (current_section st) ->
  Forall (fun l => marker_free l = true) body ->
  last = GENERATED_END \/ last = MANUAL_END ->
  exists sec,
    scan_lines st ([first] ++ body ++ [last]) =
    mkScan (save_if_any st ++ [new_block t (join [nl] body) sec])
           [] UNMARKED sec.
Proof.
  intros Hfirst Hbody Hlast. unfold scan_lines.
  cbn [app fold_left]. rewrite Hfirst, fold_left_app.
  destruct (scan_lines_plain body
              (mkScan (save_if_any st) [] t (current_section st)) Hbody)
    as [sec E].
  unfold scan_lines in E. rewrite E. exists sec.
  cbn [sc_blocks current_block_lines current_block_type app fold_left].
  destruct Hlast as [-> | ->].
  - rewrite scan_line_generated_end. reflexivity.
  - rewrite scan_line_manual_end. reflexivity.
Qed.

Lemma has_manual_start c : contains MANUAL_START (wrap_manual_block c) = true.
Proof.
  unfold wrap_manual_block.
  apply (contains_infix MANUAL_START [] MANUAL_START). apply contains_refl.
Qed.

Lemma has_generated_start G :
  contains GENERATED_START (wrap_generated_block G) = true.
Proof.
  unfold wrap_generated_block. destruct (frontmatter_match G) as [[fm rem]|].
  - apply (contains_infix GENERATED_START fm GENERATED_START).
    apply contains_refl.
  - apply (contains_infix GENERATED_START [] GENERATED_START).
    apply contains_refl.
Qed.

Lemma parse_with_markers T :
  contains GENERATED_START T = true \/ contains MANUAL_START T = true ->
  parse_skill_md T =
  mkParsedDocument (save_if_any (scan_lines scan_init (split nl T))) T true.
Proof.
  intros H. unfold parse_skill_md.
  destruct H as [-> | ->]; rewrite ?orb_true_r; reflexivity.
Qed.

Lemma split_wrap first c last :
  split nl first = [first] -> split nl last = [last] ->
  split nl (first ++ [nl] ++ c ++ [nl] ++ last) =
  [first] ++ split nl c ++ [last].
Proof.
  intros Hf Hl.
  change (first ++ [nl] ++ c ++ [nl] ++ last)
    with (first ++ nl :: c ++ nl :: last).
  rewrite !split_app_sep, Hf, Hl. reflexivity.
Qed.

(** A manual block wrapped by [wrap_manual_block] is read back as it was. *)
Lemma parse_wrap_manual_block c :
  marker_free c = true ->
  exists sec,
    blocks (parse_skill_md (wrap_manual_block c)) = [new_block MANUAL c sec].
Proof.
  intros Hc.
  rewrite parse_with_markers by (right; apply has_manual_start).
  cbn [blocks]. unfold wrap_manual_block.
  rewrite (split_wrap _ _ _ split_ms split_me).
  destruct (scan_block scan_init MANUAL_START (split nl c) MANUAL_END MANUAL)
    as [sec E].
  - apply scan_line_manual_start.
  - apply marker_free_split. exact Hc.
  - right. reflexivity.
  - rewrite E. exists sec. unfold save_if_any.
    cbn [current_block_lines sc_blocks scan_init app].
    rewrite join_split. reflexivity.
Qed.

Lemma marker_free_parts a b :
  marker_free (a ++ b) = true -> marker_free a = true /\ marker_free b = true.
Proof.
  rewrite !marker_free_spec. intros [H1 [H2 [H3 H4]]].
  repeat split;
    first [ eapply (not_contains_infix _ [] a b); eassumption
          | eapply (not_contains_infix _ a b []); rewrite app_nil_r;
            eassumption ].
Qed.

(** Generated content wrapped by [wrap_generated_block] is read back as one
    generated block; a front matter is read back as an unmarked block in
    front of it, without its last newline. *)
Lemma parse_wrap_generated_block G :
  marker_free G = true ->
  match frontmatter_match G with
  | None =>
      exists sec,
        blocks (parse_skill_md (wrap_generated_block G)) =
        [new_block GENERATED G sec]
  | Some (fm, rem) =>
      exists y sec1 sec2,
        fm = y ++ [nl] /\
        blocks (parse_skill_md (wrap_generated_block G)) =
        [new_block UNMARKED y sec1; new_block GENERATED rem sec2]
  end.
Proof.
  intros HG.
  rewrite parse_with_markers by (left; apply has_generated_start).
  cbn [blocks]. unfold wrap_generated_block.
  destruct (frontmatter_match G) as [[fm rem]|] eqn:E.
  - destruct (frontmatter_match_shape G fm rem E) as [_ [y Hy]].
    apply frontmatter_match_split in E. subst G fm.
    apply marker_free_parts in HG as [Hfm Hrem].
    apply marker_free_parts in Hfm as [Hy _].
    exists y.
    replace ((y ++ [nl]) ++ GENERATED_START ++ [nl] ++ rem ++ [nl]
               ++ GENERATED_END)
      with (y ++ nl :: (GENERATED_START ++ [nl] ++ rem ++ [nl]
                          ++ GENERATED_END))
      by (rewrite <- app_assoc; reflexivity).
    rewrite split_app_sep, (split_wrap _ _ _ split_gs split_ge).
    rewrite scan_lines_app.
    destruct (scan_lines_plain (split nl y) scan_init
                (marker_free_split y Hy)) as [sec1 E1].
    rewrite E1. cbn [sc_blocks current_block_lines current_block_type
                     scan_init app].
    change (GENERATED_START :: split nl rem ++ [GENERATED_END])
      with ([GENERATED_START] ++ split nl rem ++ [GENERATED_END]).
    match goal with
    | |- context [scan_lines ?s ([GENERATED_START] ++ _ ++ [GENERATED_END])] =>
        destruct (scan_block s GENERATED_START (split nl rem) GENERATED_END
                             GENERATED) as [sec2 E2]
    end.
    + apply scan_line_generated_start.
    + apply marker_free_split. exact Hrem.
    + left. reflexivity.
    + rewrite E2. exists sec1, sec2. split; [reflexivity|].
      unfold save_if_any.
      cbn [current_block_lines sc_blocks current_block_type current_section].
      destruct (split nl y) as [|l ls] eqn:Es;
        [exfalso; exact (split_not_nil nl y Es)|].
      rewrite <- Es, !join_split. reflexivity.
  - rewrite (split_wrap _ _ _ split_gs split_ge).
    destruct (scan_block scan_init GENERATED_START (split nl G) GENERATED_END
                         GENERATED) as [sec E2].
    + apply scan_line_generated_start.
    + apply marker_free_split. exact HG.
    + left. reflexivity.
    + rewrite E2. exists sec. unfold save_if_any.
      cbn [current_block_lines sc_blocks scan_init app].
      rewrite join_split. reflexivity.
Qed.

(** ** The blocks of a merged document *)

Definition preserved_shapes (bs : list ContentBlock)
  : list (BlockType * str) :=
  flat_map (fun b => [(UNMARKED, []); (MANUAL, strip (content b))]) bs.

Lemma scan_manual_blocks_shapes bs : forall st,
  at_rest st ->
  Forall (fun b => marker_free (content b) = true) bs ->
  at_rest (scan_lines st (flat_map manual_block_lines bs)) /\
  shapes (sc_blocks (scan_lines st (flat_map manual_block_lines bs)))
  = shapes (sc_blocks st) ++ preserved_shapes bs.
Proof.
  induction bs as [|b bs IH]; intros st Hr Hall.
  - simpl. rewrite app_nil_r. split; [exact Hr | reflexivity].
  - inversion Hall as [|x xs Hb Hbs]; subst.
    cbn [flat_map]. rewrite scan_lines_app.
    assert (H1 : at_rest (scan_lines st (manual_block_lines b)) /\
                 shapes (sc_blocks (scan_lines st (manual_block_lines b)))
                 = shapes (sc_blocks st)
                   ++ [(UNMARKED, []); (MANUAL, strip (content b))]).
    { destruct Hr as [Hl Ht]. destruct st as [B ls t sec].
      simpl in Hl, Ht. subst.
      destruct (scan_manual_block_eq B sec b Hb) as [sec1 [sec2 E]].
      rewrite E. cbn [sc_blocks]. split; [split; reflexivity|].
      rewrite !shapes_app. reflexivity. }
    destruct H1 as [Hr1 Hs1]. destruct (IH _ Hr1 Hbs) as [Hr2 Hs2].
    split; [exact Hr2|].
    unfold preserved_shapes in *. cbn [flat_map].
    rewrite Hs2, Hs1, <- app_assoc. reflexivity.
Qed.

(** The blocks the merge writes for the generated content. *)
Definition generated_shapes (G : str) : list (BlockType * str) :=
  match frontmatter_match G with
  | Some (fm, rem) => [(UNMARKED, strip fm ++ [nl]); (GENERATED, strip rem)]
  | None => [(GENERATED, strip G)]
  end.

Lemma split_with_newline x : split nl (x ++ [nl]) = split nl x ++ [[]].
Proof. rewrite split_app_sep. reflexivity. Qed.

Lemma scan_generated_lines G :
  marker_free G = true ->
  at_rest (scan_lines scan_init (flat_map (split nl) (generated_lines G))) /\
  shapes (sc_blocks (scan_lines scan_init
                       (flat_map (split nl) (generated_lines G))))
  = generated_shapes G.
Proof.
  intros HG. unfold generated_lines, generated_shapes.
  destruct (frontmatter_match G) as [[fm rem]|] eqn:E.
  - apply frontmatter_match_split in E. subst G.
    apply marker_free_parts in HG as [Hfm Hrem].
    assert (Hlines :
              flat_map (split nl)
                [strip fm; []; GENERATED_START; strip rem; GENERATED_END] =
              split nl (strip fm ++ [nl])
                ++ [GENERATED_START] ++ split nl (strip rem)
                ++ [GENERATED_END]).
    { cbn [flat_map].
      rewrite split_gs, split_ge, app_nil_r, split_with_newline,
        <- app_assoc.
      reflexivity. }
    rewrite Hlines, scan_lines_app.
    assert (Hplain : Forall (fun l => marker_free l = true)
                            (split nl (strip fm ++ [nl]))).
    { rewrite split_with_newline. apply Forall_app. split.
      - apply marker_free_split, marker_free_strip. exact Hfm.
      - constructor; [exact marker_free_nil | constructor]. }
    destruct (scan_lines_plain _ scan_init Hplain) as [sec1 E1].
    rewrite E1. cbn [sc_blocks current_block_lines current_block_type
                     scan_init].
    change ([] ++ split nl (strip fm ++ [nl]))
      with (split nl (strip fm ++ [nl])).
    match goal with
    | |- context [scan_lines ?s ([GENERATED_START] ++ _ ++ [GENERATED_END])] =>
        destruct (scan_block s GENERATED_START (split nl (strip rem))
                             GENERATED_END GENERATED) as [sec2 E2]
    end.
    + apply scan_line_generated_start.
    + apply marker_free_split, marker_free_strip. exact Hrem.
    + left. reflexivity.
    + rewrite E2. cbn [sc_blocks current_block_lines current_block_type].
      split; [split; reflexivity|].
      unfold save_if_any.
      cbn [current_block_lines sc_blocks current_block_type current_section].
      destruct (split nl (strip fm ++ [nl])) as [|l ls] eqn:Es;
        [exfalso; exact (split_not_nil nl _ Es)|].
      rewrite <- Es, !join_split. reflexivity.
  - cbn [flat_map]. rewrite split_gs, split_ge, app_nil_r.
    destruct (scan_block scan_init GENERATED_START (split nl (strip G))
                         GENERATED_END GENERATED) as [sec E2].
    + apply scan_line_generated_start.
    + apply marker_free_split, marker_free_strip. exact HG.
    + left. reflexivity.
    + rewrite E2. cbn [sc_blocks current_block_lines current_block_type].
      split; [split; reflexivity|].
      unfold save_if_any. cbn [current_block_lines sc_blocks scan_init app].
      rewrite join_split. reflexivity.
Qed.

Lemma has_markers_spec T :
  has_markers (parse_skill_md T) =
  contains GENERATED_START T || contains MANUAL_START T.
Proof.
  unfold parse_skill_md.
  destruct (contains GENERATED_START T || contains MANUAL_START T);
    reflexivity.
Qed.

(** The text the merge writes when the previous document has markers. *)
Definition merged_text (G : str) (manual_blocks : list ContentBlock) : str :=
  join [nl] (generated_lines G ++ flat_map manual_lines manual_blocks).

Lemma merge_with_markers D G :
  has_markers (parse_skill_md D) = true ->
  merge_with_preservation D G false =
  mkPreservationResult true
    (merged_text G (get_manual_blocks (parse_skill_md D)))
    (length (get_manual_blocks (parse_skill_md D))) 1 [] [].
Proof. intros H. unfold merge_with_preservation. rewrite H. reflexivity. Qed.

Lemma merge_without_markers D G :
  has_markers (parse_skill_md D) = false ->
  merge_with_preservation D G false =
  mkPreservationResult true (wrap_generated_block G) 0 0
                       [no_markers_warning] [].
Proof. intros H. unfold merge_with_preservation. rewrite H. reflexivity. Qed.

Lemma merged_text_has_start G bs :
  contains GENERATED_START (merged_text G bs) = true.
Proof.
  apply (contains_join_member GENERATED_START [nl] _ GENERATED_START).
  - apply in_or_app. left. apply generated_lines_start.
  - apply contains_refl.
Qed.

Lemma merged_text_lines G bs :
  split nl (merged_text G bs) =
  flat_map (split nl) (generated_lines G) ++ flat_map manual_block_lines bs.
Proof.
  unfold merged_text. pose proof (generated_lines_start G) as Hin.
  destruct (generated_lines G) as [|l ls] eqn:El; [destruct Hin|].
  change ((l :: ls) ++ flat_map manual_lines bs)
    with (l :: (ls ++ flat_map manual_lines bs)).
  rewrite split_join.
  change (l :: (ls ++ flat_map manual_lines bs))
    with ((l :: ls) ++ flat_map manual_lines bs).
  rewrite flat_map_app, flat_map_manual_lines. reflexivity.
Qed.

(** The blocks of a merged text: the generated part, then every preserved
    block after an empty unmarked block. *)
Lemma parse_merged_text G bs :
  marker_free G = true ->
  Forall (fun b => marker_free (content b) = true) bs ->
  shapes (blocks (parse_skill_md (merged_text G bs))) =
  generated_shapes G ++ preserved_shapes bs.
Proof.
  intros HG Hbs.
  rewrite parse_with_markers by (left; apply merged_text_has_start).
  cbn [blocks]. rewrite merged_text_lines, scan_lines_app.
  destruct (scan_generated_lines G HG) as [Hr Hs].
  destruct (scan_manual_blocks_shapes bs _ Hr Hbs) as [[Hl Ht] Hs2].
  unfold save_if_any. rewrite Hl, Hs2, Hs. reflexivity.
Qed.

(** The manual blocks of a merged text, for generated content without a
    manual start marker. *)
Lemma merged_text_manual_contents G bs :
  no_manual_start G ->
  Forall (fun b => marker_free (content b) = true) bs ->
  manual_contents (blocks (parse_skill_md (merged_text G bs))) =
  map (fun b => strip (content b)) bs.
Proof.
  intros HG Hbs. destruct (generated_lines_shape G HG) as [hd [Hhd Hno]].
  apply (reparse_manual _ hd).
  - apply merged_text_has_start.
  - rewrite merged_text_lines, Hhd. reflexivity.
  - exact Hno.
  - exact Hbs.
Qed.

Lemma manual_lines_by_content bs :
  flat_map manual_lines bs =
  flat_map (fun c => [[]; MANUAL_START; strip c; MANUAL_END])
           (map content bs).
Proof.
  induction bs as [|b bs IH]; [reflexivity|].
  cbn [flat_map map]. rewrite IH. reflexivity.
Qed.

(** Merging the same generated content into a merged text gives the same
    text. *)
Lemma merged_text_again G bs :
  no_manual_start G ->
  Forall (fun b => marker_free (content b) = true) bs ->
  merged_text G (get_manual_blocks (parse_skill_md (merged_text G bs))) =
  merged_text G bs.
Proof.
  intros HG Hbs. unfold merged_text at 1 3. f_equal. f_equal.
  rewrite !manual_lines_by_content.
  change (map content (get_manual_blocks (parse_skill_md (merged_text G bs))))
    with (manual_contents (blocks (parse_skill_md (merged_text G bs)))).
  rewrite (merged_text_manual_contents G bs HG Hbs).
  clear Hbs. induction bs as [|b bs IH]; [reflexivity|].
  cbn [flat_map map]. rewrite IH, strip_idem. reflexivity.
Qed.

(** ** Consistency of generated blocks *)

Lemma normalize_whitespace_eq a b :
  normalize_whitespace a = normalize_whitespace b <->
  split_whitespace a = split_whitespace b.
Proof.
  unfold normalize_whitespace. change (lit " ") with [32%N]. split.
  - apply join_sep_inj;
      (eapply Forall_impl; [|apply split_whitespace_words]);
      intros w [Hne Hw]; (split; [exact Hne | exact (no_space_no_blank w Hw)]).
  - intros ->. reflexivity.
Qed.

Definition consistent (spec_generated : str) (b : ContentBlock) : bool :=
  fst (validate_generated_block_consistency b spec_generated).

Lemma consistent_iff spec b :
  consistent spec b = true <->
  split_whitespace (content b) = split_whitespace spec.
Proof.
  unfold consistent, validate_generated_block_consistency.
  rewrite <- normalize_whitespace_eq.
  destruct (str_eqb (normalize_whitespace (content b))
                    (normalize_whitespace spec)) eqn:E; cbn [fst].
  - apply str_eqb_eq in E. split; [intros _; exact E | reflexivity].
  - split; [discriminate|]. intros H. apply str_eqb_eq in H. congruence.
Qed.

Lemma check_block_eq spec r ib :
  check_block spec r ib =
  if consistent spec (snd ib) then r
  else mkConsistencyValidationResult false (blocks_checked r)
         (inconsistencies r ++
          [lit "Generated block " ++ str_of_nat (fst ib + 1) ++ lit ": " ++
           match snd (validate_generated_block_consistency (snd ib) spec) with
           | Some d => d
           | None => lit "None"
           end]).
Proof.
  unfold check_block, consistent.
  destruct (validate_generated_block_consistency (snd ib) spec) as [c d].
  destruct c; reflexivity.
Qed.

Lemma check_blocks_spec spec ibs : forall r,
  blocks_checked (fold_left (check_block spec) ibs r) = blocks_checked r /\
  valid (fold_left (check_block spec) ibs r) =
    valid r && forallb (fun ib => consistent spec (snd ib)) ibs /\
  length (inconsistencies (fold_left (check_block spec) ibs r)) =
    length (inconsistencies r) +
    length (filter (fun ib => negb (consistent spec (snd ib))) ibs).
Proof.
  induction ibs as [|ib ibs IH]; intros r.
  - simpl. rewrite andb_true_r. repeat split. lia.
  - cbn [fold_left forallb filter]. destruct (IH (check_block spec r ib))
      as [H1 [H2 H3]].
    rewrite H1, H2, H3, check_block_eq.
    destruct (consistent spec (snd ib)); cbn [negb]; [repeat split|].
    cbn [blocks_checked valid inconsistencies length].
    rewrite length_app. cbn [length]. rewrite andb_false_r.
    repeat split. lia.
Qed.

Lemma combine_seq_snd {A : Type} (l : list A) : forall k,
  map snd (combine (seq k (length l)) l) = l.
Proof.
  induction l as [|x l IH]; intros k; [reflexivity|].
  simpl. rewrite IH. reflexivity.
Qed.

Lemma forallb_snd {A B : Type} (f : B -> bool) (l : list (A * B)) :
  forallb (fun p => f (snd p)) l = forallb f (map snd l).
Proof. induction l as [|x l IH]; [reflexivity|]. simpl. rewrite IH. reflexivity. Qed.

Lemma filter_snd_length {A B : Type} (f : B -> bool) (l : list (A * B)) :
  length (filter (fun p => f (snd p)) l) = length (filter f (map snd l)).
Proof.
  induction l as [|x l IH]; [reflexivity|]. simpl.
  destruct (f (snd x)); simpl; rewrite IH; reflexivity.
Qed.

(** The result of the document check, by the generated blocks. *)
Lemma validate_document_consistency_eq md spec :
  let r := validate_document_consistency md spec in
  let generated_blocks := extract_generated_blocks md in
  blocks_checked r = length generated_blocks /\
  valid r = forallb (consistent spec) generated_blocks /\
  length (inconsistencies r) =
  length (filter (fun b => negb (consistent spec b)) generated_blocks).
Proof.
  unfold validate_document_consistency, extract_generated_blocks.
  destruct (get_generated_blocks (parse_skill_md md)) as [|b bs] eqn:E.
  - repeat split.
  - rewrite <- E. clear E b bs.
    destruct (check_blocks_spec spec
                (combine (seq 0 (length (get_generated_blocks
                                           (parse_skill_md md))))
                         (get_generated_blocks (parse_skill_md md)))
                (mkConsistencyValidationResult true
                   (length (get_generated_blocks (parse_skill_md md))) []))
      as [H1 [H2 H3]].
    cbv zeta. rewrite H1, H2, H3. cbn [blocks_checked valid inconsistencies].
    rewrite (forallb_snd (consistent spec)).
    rewrite (filter_snd_length (fun b => negb (consistent spec b))).
    rewrite combine_seq_snd. repeat split.
Qed.

Lemma filter_negb_nil {A : Type} (f : A -> bool) (l : list A) :
  forallb f l = true <-> filter (fun x => negb (f x)) l = [].
Proof.
  induction l as [|x l IH]; simpl; [tauto|].
  destruct (f x); simpl; [exact IH|]. split; discriminate.
Qed.

(** ** The words of generated content and of its parts *)

Lemma split_whitespace_concat s :
  concat (split_whitespace s) = filter (fun c => negb (is_space c)) s.
Proof. apply (split_whitespace_from_concat s []). Qed.

(** Content with a front matter does not have the words of its body. *)
Lemma front_matter_words fm rem x :
  fm = lit "---" ++ x ->
  split_whitespace rem <> split_whitespace (fm ++ rem).
Proof.
  intros -> H. apply (f_equal (@concat char)) in H.
  rewrite !split_whitespace_concat, filter_app in H.
  apply (f_equal (@length char)) in H. rewrite length_app in H.
  change (lit "---") with [45%N; 45%N; 45%N] in H.
  cbn [app filter is_space negb length] in H.
  change (negb (is_space 45%N)) with true in H. cbv iota in H.
  cbn [length] in H. lia.
Qed.

Definition shape_contents (t : BlockType) (l : list (BlockType * str))
  : list str :=
  map snd (filter (fun p => BlockType_eqb (fst p) t) l).

Lemma contents_of_shape_contents t bs :
  contents_of t bs = shape_contents t (shapes bs).
Proof.
  unfold contents_of, shape_contents, shapes.
  induction bs as [|b bs IH]; [reflexivity|].
  cbn [map filter shape fst]. destruct (BlockType_eqb (block_type b) t);
    cbn [map shape snd]; rewrite IH; reflexivity.
Qed.

Lemma shape_contents_app t a b :
  shape_contents t (a ++ b) = shape_contents t a ++ shape_contents t b.
Proof. unfold shape_contents. rewrite filter_app, map_app. reflexivity. Qed.

Lemma preserved_shapes_generated bs :
  shape_contents GENERATED (preserved_shapes bs) = [].
Proof. induction bs as [|b bs IH]; [reflexivity | exact IH]. Qed.

(** The generated blocks of a merged text: one, holding the stripped
    generated content or its stripped body. *)
Lemma merged_text_generated_contents G bs :
  marker_free G = true ->
  Forall (fun b => marker_free (content b) = true) bs ->
  contents_of GENERATED (blocks (parse_skill_md (merged_text G bs))) =
  match frontmatter_match G with
  | Some (fm, rem) => [strip rem]
  | None => [strip G]
  end.
Proof.
  intros HG Hbs.
  rewrite contents_of_shape_contents, (parse_merged_text G bs HG Hbs).
  rewrite shape_contents_app, preserved_shapes_generated, app_nil_r.
  unfold generated_shapes. destruct (frontmatter_match G) as [[fm rem]|];
    reflexivity.
Qed.

Lemma wrapped_generated_contents G :
  marker_free G = true ->
  contents_of GENERATED (blocks (parse_skill_md (wrap_generated_block G))) =
  match frontmatter_match G with
  | Some (fm, rem) => [rem]
  | None => [G]
  end.
Proof.
  intros HG. pose proof (parse_wrap_generated_block G HG) as H.
  destruct (frontmatter_match G) as [[fm rem]|].
  - destruct H as [y [sec1 [sec2 [_ ->]]]]. reflexivity.
  - destruct H as [sec ->]. reflexivity.
Qed.

(** The check of a document with one generated block. *)
Lemma check_single_block T c spec :
  contents_of GENERATED (blocks (parse_skill_md T)) = [c] ->
  blocks_checked (validate_document_consistency T spec) = 1 /\
  (valid (validate_document_consistency T spec) = true <->
   split_whitespace c = split_whitespace spec).
Proof.
  intros Hc. destruct (validate_document_consistency_eq T spec)
    as [H1 [H2 _]].
  unfold extract_generated_blocks, get_generated_blocks in H1, H2.
  unfold contents_of in Hc.
  destruct (filter (fun b => BlockType_eqb (block_type b) GENERATED)
                   (blocks (parse_skill_md T))) as [|b [|b' bs]];
    try discriminate.
  injection Hc as Hc. split; [exact H1|].
  rewrite H2. cbn [forallb]. rewrite andb_true_r, consistent_iff, Hc.
  tauto.
Qed.

(** ** Inserting a manual section *)

Lemma index_where_none p lines :
  index_where p lines = None <->
  forall line, In line lines -> p line = false.
Proof.
  induction lines as [|l lines IH]; simpl.
  - split; [intros _ line [] | reflexivity].
  - destruct (p l) eqn:E.
    + split; [discriminate|]. intros H.
      rewrite (H l (or_introl eq_refl)) in E. discriminate.
    + destruct (index_where p lines) as [i|].
      * split; [discriminate|]. intros H.
        assert (Hc : Some i = None)
          by (apply IH; intros line Hin; apply H; right; exact Hin).
        discriminate.
      * split; [|reflexivity]. intros _ line [<- | Hin]; [exact E|].
        apply (proj1 IH eq_refl). exact Hin.
Qed.

Lemma index_where_some p lines : forall i,
  index_where p lines = Some i ->
  (exists line, nth_error lines i = Some line /\ p line = true) /\
  (forall j line, j < i -> nth_error lines j = Some line -> p line = false).
Proof.
  induction lines as [|l lines IH]; intros i; simpl; [discriminate|].
  destruct (p l) eqn:E.
  - intros H. injection H as <-. split.
    + exists l. split; [reflexivity | exact E].
    + intros j line Hj. lia.
  - destruct (index_where p lines) as [k|]; [|discriminate].
    intros H. injection H as <-. destruct (IH k eq_refl) as [H1 H2]. split.
    + exact H1.
    + intros j line Hj Hnth. destruct j as [|j].
      * simpl in Hnth. injection Hnth as <-. exact E.
      * simpl in Hnth. apply (H2 j); [lia | exact Hnth].
Qed.

Lemma index_where_first p lines : forall i line,
  nth_error lines i = Some line -> p line = true ->
  (forall j y, j < i -> nth_error lines j = Some y -> p y = false) ->
  index_where p lines = Some i.
Proof.
  induction lines as [|l lines IH]; intros i line Hnth Hp Hfirst.
  - destruct i; discriminate.
  - destruct i as [|i].
    + simpl in Hnth. injection Hnth as ->. simpl. rewrite Hp. reflexivity.
    + simpl. rewrite (Hfirst 0 l (Nat.lt_0_succ i) eq_refl).
      rewrite (IH i line Hnth Hp); [reflexivity|].
      intros j y Hj Hy. apply (Hfirst (S j) y); [lia | exact Hy].
Qed.

Lemma insert_index_bound lines a : insert_index lines a <= length lines.
Proof.
  unfold insert_index.
  destruct (index_where _ lines) as [i|] eqn:Ei; [|lia].
  destruct (index_where is_heading (skipn (S i) lines)) as [k|] eqn:Ek; [|lia].
  destruct (index_where_some _ _ _ Ek) as [[y [Hy _]] _].
  rewrite nth_error_skipn in Hy.
  assert (S i + k < length lines)
    by (apply nth_error_Some; rewrite Hy; discriminate).
  lia.
Qed.

Lemma insert_index_not_found lines a :
  (forall line, In line lines -> startswith (lit "## " ++ a) line = false) ->
  insert_index lines a = length lines.
Proof.
  intros H. unfold insert_index.
  rewrite (proj2 (index_where_none _ lines) H). reflexivity.
Qed.

(** The block goes after the first heading line that starts with the
    section name, before the next heading line or at the end. *)
Lemma insert_index_found lines a i line :
  nth_error lines i = Some line ->
  startswith (lit "## " ++ a) line = true ->
  (forall j y, j < i -> nth_error lines j = Some y ->
               startswith (lit "## " ++ a) y = false) ->
  i < insert_index lines a /\
  (forall j y, i < j < insert_index lines a -> nth_error lines j = Some y ->
               is_heading y = false) /\
  (insert_index lines a < length lines ->
   exists y, nth_error lines (insert_index lines a) = Some y /\
             is_heading y = true).
Proof.
  intros Hnth Hp Hfirst. unfold insert_index.
  rewrite (index_where_first _ lines i line Hnth Hp Hfirst).
  assert (Hi : i < length lines)
    by (apply nth_error_Some; rewrite Hnth; discriminate).
  destruct (index_where is_heading (skipn (S i) lines)) as [k|] eqn:Ek.
  - destruct (index_where_some _ _ _ Ek) as [[y [Hy Hh]] Hbefore].
    rewrite nth_error_skipn in Hy.
    split; [lia|]. split.
    + intros j z Hj Hz. apply (Hbefore (j - S i) z); [lia|].
      rewrite nth_error_skipn.
      replace (S i + (j - S i)) with j by lia. exact Hz.
    + intros _. exists y. split; [exact Hy | exact Hh].
  - split; [exact Hi|]. split; [|lia].
    intros j z Hj Hz. apply (proj1 (index_where_none _ _) Ek).
    apply (nth_error_In _ (j - S i)). rewrite nth_error_skipn.
    replace (S i + (j - S i)) with j by lia. exact Hz.
Qed.

Lemma join_app sep a b :
  a <> [] -> b <> [] -> join sep (a ++ b) = join sep a ++ sep ++ join sep b.
Proof.
  intros Ha Hb. induction a as [|x a IH]; [congruence|].
  destruct a as [|y a].
  - destruct b as [|z b]; [congruence|]. reflexivity.
  - change ((x :: y :: a) ++ b) with (x :: y :: (a ++ b)).
    rewrite !join_cons.
    change (y :: (a ++ b)) with ((y :: a) ++ b).
    rewrite IH by discriminate. rewrite <- !app_assoc. reflexivity.
Qed.

Lemma insert_default_has_start content m :
  contains MANUAL_START (insert_manual_section content m None) = true.
Proof.
  unfold insert_manual_section, wrap_manual_block.
  replace (rstrip content ++ [nl; nl]
             ++ (MANUAL_START ++ [nl] ++ m ++ [nl] ++ MANUAL_END) ++ [nl])
    with ((rstrip content ++ [nl; nl]) ++ MANUAL_START
            ++ ([nl] ++ m ++ [nl] ++ MANUAL_END ++ [nl]))
    by (rewrite <- !app_assoc; reflexivity).
  apply contains_infix. apply contains_refl.
Qed.

Lemma insert_default_lines content m :
  split nl (insert_manual_section content m None) =
  split nl (rstrip content ++ [nl])
    ++ [MANUAL_START] ++ split nl m ++ [MANUAL_END] ++ [[]].
Proof.
  unfold insert_manual_section, wrap_manual_block.
  replace (rstrip content ++ [nl; nl]
             ++ (MANUAL_START ++ [nl] ++ m ++ [nl] ++ MANUAL_END) ++ [nl])
    with ((rstrip content ++ [nl])
            ++ nl :: (MANUAL_START ++ nl :: (m ++ nl :: (MANUAL_END
                                                          ++ nl :: []))))
    by (rewrite <- !app_assoc; reflexivity).
  rewrite !split_app_sep, split_ms, split_me. reflexivity.
Qed.

Lemma insert_default_blocks content m :
  marker_free m = true ->
  exists sec1 sec2,
    blocks (parse_skill_md (insert_manual_section content m None)) =
    save_if_any (scan_lines scan_init (split nl (rstrip content ++ [nl])))
      ++ [new_block MANUAL m sec1; new_block UNMARKED [] sec2].
Proof.
  intros Hm.
  rewrite parse_with_markers by (right; apply insert_default_has_start).
  cbn [blocks]. rewrite insert_default_lines.
  rewrite scan_lines_app.
  replace ([MANUAL_START] ++ split nl m ++ [MANUAL_END] ++ [[]])
    with (([MANUAL_START] ++ split nl m ++ [MANUAL_END]) ++ [[]])
    by (rewrite <- !app_assoc; reflexivity).
  rewrite scan_lines_app.
  destruct (scan_block
              (scan_lines scan_init (split nl (rstrip content ++ [nl])))
              MANUAL_START (split nl m) MANUAL_END MANUAL) as [sec1 E].
  - apply scan_line_manual_start.
  - apply marker_free_split. exact Hm.
  - right. reflexivity.
  - rewrite E. unfold scan_lines at 1. cbn [fold_left].
    match goal with
    | |- context [scan_line ?s []] =>
        destruct (scan_line_plain s [] marker_free_nil) as [sec2 E2]
    end.
    rewrite E2. exists sec1, sec2. unfold save_if_any at 1.
    cbn [current_block_lines sc_blocks current_block_type current_section
         app].
    rewrite join_split, <- app_assoc. reflexivity.
Qed.

Lemma marker_free_with_newline x :
  marker_free x = true -> marker_free (x ++ [nl]) = true.
Proof.
  intros H. rewrite <- (join_split nl (x ++ [nl])).
  apply marker_free_join. rewrite split_with_newline. apply Forall_app.
  split; [apply marker_free_split; exact H|].
  constructor; [exact marker_free_nil | constructor].
Qed.

Lemma marker_free_rstrip x : marker_free x = true -> marker_free (rstrip x) = true.
Proof.
  intros H. destruct (rstrip_prefix x) as [q Hq]. rewrite Hq in H.
  exact (proj1 (marker_free_parts _ _ H)).
Qed.

(** The blocks the line loop collects from a text without markers. *)
Lemma scan_plain_text X :
  marker_free X = true ->
  exists sec,
    save_if_any (scan_lines scan_init (split nl X)) =
    [new_block UNMARKED X sec].
Proof.
  intros H.
  destruct (scan_lines_plain (split nl X) scan_init (marker_free_split X H))
    as [sec E].
  rewrite E. exists sec. unfold save_if_any.
  cbn [current_block_lines sc_blocks current_block_type current_section
       scan_init app].
  destruct (split nl X) as [|l ls] eqn:Es;
    [exfalso; exact (split_not_nil nl X Es)|].
  rewrite <- Es, join_split. reflexivity.
Qed.

(** The manual blocks the line loop collects are those of the parser. *)
Lemma scan_manual_contents X :
  manual_contents (save_if_any (scan_lines scan_init (split nl X))) =
  manual_contents (blocks (parse_skill_md X)).
Proof.
  destruct (has_markers (parse_skill_md X)) eqn:Hm.
  - rewrite has_markers_spec in Hm. apply orb_true_iff in Hm.
    rewrite (parse_with_markers X Hm). reflexivity.
  - pose proof Hm as Hm'. rewrite has_markers_spec in Hm'.
    apply orb_false_iff in Hm' as [_ Hms].
    pose proof (no_markers_no_manual_blocks X Hm) as Hnone.
    unfold get_manual_blocks in Hnone.
    unfold manual_contents at 2, is_manual. rewrite Hnone.
    destruct (scan_lines_no_manual (split nl X) scan_init
                (lines_no_manual X Hms)) as [Ht Hb];
      [discriminate | reflexivity |].
    apply save_if_any_no_manual; assumption.
Qed.

End Preservation.

(* ================================================================== *)
(** * Spec data: the values a YAML or JSON document parses to *)
(* ================================================================== *)

Module Json.
Import PyStr.

(** A Python [dict] keeps its keys in insertion order, and the code iterates
    over them, so a dict is an association list. *)
Inductive json : Type :=
| JNull
| JBool (b : bool)
| JInt (z : Z)
| JFloat (num : Z) (den : positive)
| JStr (s : str)
| JList (l : list json)
| JDict (d : list (str * json)).

Definition dict := list (str * json).

(** Induction on a value and the values inside it. *)
Section json_induction.
Variable P : json -> Prop.
Hypothesis HNull : P JNull.
Hypothesis HBool : forall b, P (JBool b).
Hypothesis HInt : forall z, P (JInt z).
Hypothesis HFloat : forall n d, P (JFloat n d).
Hypothesis HStr : forall s, P (JStr s).
Hypothesis HList : forall l, Forall P l -> P (JList l).
Hypothesis HDict :
  forall d, Forall (fun kv => P (snd kv)) d -> P (JDict d).

Fixpoint json_nested_ind (j : json) : P j :=
  match j with
  | JNull => HNull
  | JBool b => HBool b
  | JInt z => HInt z
  | JFloat n d => HFloat n d
  | JStr s => HStr s
  | JList l =>
      HList l ((fix all (l : list json) : Forall P l :=
                  match l with
                  | [] => Forall_nil P
                  | x :: l' => Forall_cons x (json_nested_ind x) (all l')
                  end) l)
  | JDict d =>
      HDict d ((fix all (d : list (str * json))
                  : Forall (fun kv => P (snd kv)) d :=
                  match d with
                  | [] => Forall_nil _
                  | kv :: d' =>
                      Forall_cons kv (json_nested_ind (snd kv)) (all d')
                  end) d)
  end.
End json_induction.

(** [key in d] *)
Fixpoint dict_has (key : str) (d : dict) : bool :=
  match d with
  | [] => false
  | (k, _) :: d' => str_eqb k key || dict_has key d'
  end.

(** [d.get(key)] *)
Fixpoint dict_get (key : str) (d : dict) : option json :=
  match d with
  | [] => None
  | (k, v) :: d' => if str_eqb k key then Some v else dict_get key d'
  end.

(** [d.get(key, default)] *)
Definition dict_get_default (key : str) (default : json) (d : dict) : json :=
  match dict_get key d with Some v => v | None => default end.

(** [{**d, key: v}]: the key keeps its place when it is there, and goes last
    when it is new. *)
Fixpoint dict_set (key : str) (v : json) (d : dict) : dict :=
  match d with
  | [] => [(key, v)]
  | (k, w) :: d' =>
      if str_eqb k key then (k, v) :: d' else (k, w) :: dict_set key v d'
  end.

Definition is_dict (v : json) : bool :=
  match v with JDict _ => true | _ => false end.

Definition is_list (v : json) : bool :=
  match v with JList _ => true | _ => false end.

(** [str(v)] of a float, a list or a dict.  The text Python gives for such
    a value (the shortest repr of a float, the repr of the members of a list
    or a dict) is not computed here: the development is parametrised by it,
    and what is proved holds whatever these texts are. *)
Class Repr : Type := { py_repr : json -> str }.

(** The examples hold no float and print no list and no dict; this is the
    instance they are stated with. *)
Definition example_repr : Repr := {| py_repr := fun _ => [] |}.

(** [str(v)] inside an f-string. *)
Definition py_str {R : Repr} (v : json) : str :=
  match v with
  | JStr s => s
  | JInt z => str_of_Z z
  | JBool true => lit "True"
  | JBool false => lit "False"
  | JNull => lit "None"
  | _ => py_repr v
  end.

Definition is_none (v : option json) : bool :=
  match v with None | Some JNull => true | Some _ => false end.

(** The truth value of a value in a condition. *)
Definition truthy (v : json) : bool :=
  match v with
  | JNull => false
  | JBool b => b
  | JInt z => negb (z =? 0)%Z
  | JFloat n _ => negb (n =? 0)%Z
  | JStr s => match s with [] => false | _ :: _ => true end
  | JList l => match l with [] => false | _ :: _ => true end
  | JDict d => match d with [] => false | _ :: _ => true end
  end.

(** Lists and dicts cannot be members of a set. *)
Definition hashable (v : json) : bool := negb (is_list v || is_dict v).

(** All the strings and all the keys of the value are ASCII. *)
Fixpoint json_ascii (v : json) : bool :=
  match v with
  | JStr s => is_ascii s
  | JList l => forallb json_ascii l
  | JDict d => forallb (fun kv => is_ascii (fst kv) && json_ascii (snd kv)) d
  | _ => true
  end.

Lemma dict_get_has key d :
  dict_has key d = match dict_get key d with Some _ => true | None => false end.
Proof.
  induction d as [|[k v] d IH]; simpl; [reflexivity|].
  destruct (str_eqb k key); [reflexivity | exact IH].
Qed.

Lemma dict_set_new key v d :
  dict_has key d = false -> dict_set key v d = d ++ [(key, v)].
Proof.
  induction d as [|[k w] d IH]; simpl; [reflexivity|].
  destruct (str_eqb k key); simpl; [discriminate|].
  intros H. rewrite (IH H). reflexivity.
Qed.

Lemma dict_has_set key v d : dict_has key (dict_set key v d) = true.
Proof.
  induction d as [|[k w] d IH]; simpl.
  - rewrite str_eqb_refl. reflexivity.
  - destruct (str_eqb k key) eqn:E; simpl; rewrite E; [reflexivity | exact IH].
Qed.

Lemma dict_get_here key v d : dict_get key ((key, v) :: d) = Some v.
Proof. simpl. rewrite str_eqb_refl. reflexivity. Qed.

Lemma dict_get_next key k v d :
  str_eqb k key = false -> dict_get key ((k, v) :: d) = dict_get key d.
Proof. intros E. simpl. rewrite E. reflexivity. Qed.

Lemma dict_has_set_other key k v d :
  dict_has key (dict_set k v d) = dict_has key d || str_eqb k key.
Proof.
  induction d as [|[k0 w] d IH]; simpl.
  - rewrite orb_false_r. reflexivity.
  - destruct (str_eqb k0 k) eqn:E; simpl.
    + apply str_eqb_eq in E. subst k0.
      destruct (str_eqb k key); simpl; [reflexivity|].
      rewrite orb_false_r. reflexivity.
    + rewrite IH. rewrite orb_assoc. reflexivity.
Qed.

Lemma dict_has_set_present key k v d :
  dict_has k d = true -> dict_has key (dict_set k v d) = dict_has key d.
Proof.
  intros H. rewrite dict_has_set_other.
  destruct (str_eqb k key) eqn:E; [|apply orb_false_r].
  apply str_eqb_eq in E. subst key. rewrite H. reflexivity.
Qed.

Lemma dict_get_set_same k v d :
  dict_get k (dict_set k v d) = Some v.
Proof.
  induction d as [|[k0 w] d IH]; simpl.
  - rewrite str_eqb_refl. reflexivity.
  - destruct (str_eqb k0 k) eqn:E; simpl; rewrite E; [reflexivity | exact IH].
Qed.

Lemma dict_get_set_other key k v d :
  str_eqb k key = false -> dict_get key (dict_set k v d) = dict_get key d.
Proof.
  intros Hk. induction d as [|[k0 w] d IH]; simpl.
  - rewrite Hk. reflexivity.
  - destruct (str_eqb k0 k) eqn:E; simpl.
    + apply str_eqb_eq in E. subst k0. rewrite Hk. reflexivity.
    + rewrite IH. reflexivity.
Qed.

Lemma dict_set_keys k v d :
  dict_has k d = true -> map fst (dict_set k v d) = map fst d.
Proof.
  induction d as [|[k0 w] d IH]; simpl; [discriminate|].
  destruct (str_eqb k0 k) eqn:E; simpl; [reflexivity|].
  intros H. rewrite (IH H). reflexivity.
Qed.

End Json.

(* ================================================================== *)
(** * Field validation of the typed models *)
(* ================================================================== *)

(** [models.py] declares the types of the fields; checking a value against
    the declarations is done by pydantic.  The declarations are data here
    ([ptype]) and [validate_type] checks a value against them, collecting
    the errors with their location and error type as pydantic reports them.
    What pydantic makes of a value given to a [bool], [int] or [float] field
    that is not of the type of the field (it converts some, such as the
    string "true" for a [bool] field) is the library's and is left open
    ([Lax]); every result below holds whatever the conversions are. *)

Module Pydantic.
Import PyStr Json.

Inductive loc_item : Type := LKey (k : str) | LIdx (i : nat).

(** The text of an error: a text of this repository, or the text pydantic
    renders for an error type, which is kept symbolic. *)
Inductive error_text : Type :=
| Text (s : str)
| PydanticText (error_type : str).

Record PydError : Type := mkPydError {
  loc : list loc_item;
  error_type : str;
  msg : error_text
}.

(** The declaration of a field apart from its type. *)
Record fdecl : Type := mkField {
  fname : str;
  falias : option str;
  frequired : bool;
  (** a [field_validator]: the text of the [ValueError] it raises, if any *)
  fcheck : json -> option str
}.

Inductive ptype : Type :=
| TStr (min_length max_length : option nat)
| TInt (ge le : option Z)
| TFloat
| TBool
| TAny
| TEnum (values : list str)
| TLiteral (values : list str)
| TOptional (t : ptype)
| TList (t : ptype) (min_length : option nat)
| TDictAny
| TUnion (members : list (str * ptype))
| TModel (fields : list (fdecl * ptype)) (extra_forbid populate_by_name : bool)
         (after : dict -> option str).

(** An error at the value itself; [under] puts the errors of a part under
    the key or index of the part. *)
Definition library_error (type : str) : PydError :=
  mkPydError [] type (PydanticText type).

(** A [ValueError] raised by a validator of the repository. *)
Definition value_error (text : str) : PydError :=
  mkPydError [] (lit "value_error") (Text (lit "Value error, " ++ text)).

Definition under (i : loc_item) (errs : list PydError) : list PydError :=
  map (fun e => mkPydError (i :: loc e) (error_type e) (msg e)) errs.

Definition at_least (min_length : option nat) (n : nat) : bool :=
  match min_length with Some m => m <=? n | None => true end.

Definition at_most (max_length : option nat) (n : nat) : bool :=
  match max_length with Some m => n <=? m | None => true end.

(** The key under which a field is found in the input, if it is there: the
    alias, or the field name when there is no alias or when the model
    populates by name. *)
Definition field_key (populate_by_name : bool) (f : fdecl) (d : dict)
  : option str :=
  match falias f with
  | Some alias =>
      if dict_has alias d then Some alias
      else if populate_by_name && dict_has (fname f) d then Some (fname f)
      else None
  | None => if dict_has (fname f) d then Some (fname f) else None
  end.

(** The name a missing field is reported under. *)
Definition field_label (f : fdecl) : str :=
  match falias f with Some alias => alias | None => fname f end.

(** A key of the input is known when a field is read from it.  When the
    input has both the alias and the name of a field, the field is read from
    the alias and the name is an extra key. *)
Definition key_known (populate_by_name : bool) (fields : list (fdecl * ptype))
    (d : dict) (key : str) : bool :=
  existsb (fun ft =>
             match field_key populate_by_name (fst ft) d with
             | Some k => str_eqb k key
             | None => false
             end) fields.

Definition extra_errors (populate_by_name : bool)
    (fields : list (fdecl * ptype)) (d : dict) : list PydError :=
  flat_map (fun kv =>
              if key_known populate_by_name fields d (fst kv) then []
              else under (LKey (fst kv)) [library_error (lit "extra_forbidden")])
           d.

(** The errors of one field of a model, given the check of its type. *)
Definition field_errors (check : json -> list PydError)
    (populate_by_name : bool) (f : fdecl) (d : dict) : list PydError :=
  match field_key populate_by_name f d with
  | None =>
      if frequired f
      then under (LKey (field_label f)) [library_error (lit "missing")]
      else []
  | Some key =>
      let v := dict_get_default key JNull d in
      match check v with
      | [] =>
          match fcheck f v with
          | Some text => under (LKey key) [value_error text]
          | None => []
          end
      | e :: es => under (LKey key) (e :: es)
      end
  end.

(** The errors of the fields of a model, for a way [vt] to check a type. *)
Definition fields_errors (vt : ptype -> json -> list PydError)
    (populate_by_name : bool) (d : dict)
  : list (fdecl * ptype) -> list PydError :=
  fix each (fs : list (fdecl * ptype)) : list PydError :=
    match fs with
    | [] => []
    | (f, t) :: fs' => field_errors (vt t) populate_by_name f d ++ each fs'
    end.

(** The errors of the elements of a list, from index [i] on. *)
Definition element_errors (check : json -> list PydError)
  : nat -> list json -> list PydError :=
  fix elements (i : nat) (items : list json) : list PydError :=
    match items with
    | [] => []
    | x :: items' => under (LIdx i) (check x) ++ elements (S i) items'
    end.

(** A union: the first member that accepts the value decides; when none
    does, the errors of all members are reported under the member tags. *)
Definition union_errors (vt : ptype -> json -> list PydError) (v : json)
  : list (str * ptype) -> list PydError -> list PydError :=
  fix union (ms : list (str * ptype)) (acc : list PydError) : list PydError :=
    match ms with
    | [] => acc
    | (tag, t) :: ms' =>
        match vt t v with
        | [] => []
        | e :: es => union ms' (acc ++ under (LKey tag) (e :: es))
        end
    end.

(** The conversions of pydantic's lax mode: for a value that is not a bool
    given to a [bool] field, the error or the bool it is converted to; for a
    value that is not an int given to an [int] field, the error or the int;
    for a value that is neither an int nor a float given to a [float] field,
    the error if there is one. *)
Class Lax : Type := {
  lax_bool : json -> PydError + bool;
  lax_int : json -> PydError + Z;
  lax_float : json -> option PydError
}.

(** The strict reading, which converts nothing: for examples in which every
    field has a value of its type. *)
Definition example_lax : Lax :=
  {| lax_bool := fun _ => inl (library_error (lit "bool_type"));
     lax_int := fun _ => inl (library_error (lit "int_type"));
     lax_float := fun _ => Some (library_error (lit "float_type")) |}.

(** The bounds [ge] and [le] of an [int] field. *)
Definition bound_errors (ge le : option Z) (z : Z) : list PydError :=
  if match ge with Some g => (z <? g)%Z | None => false end
  then [library_error (lit "greater_than_equal")]
  else if match le with Some m => (m <? z)%Z | None => false end
  then [library_error (lit "less_than_equal")]
  else [].

Section WithLax.
Context {L : Lax}.

Fixpoint validate_type (t : ptype) (v : json) {struct t} : list PydError :=
  match t with
  | TStr min_length max_length =>
      match v with
      | JStr s =>
          if negb (at_least min_length (length s))
          then [library_error (lit "string_too_short")]
          else if negb (at_most max_length (length s))
          then [library_error (lit "string_too_long")]
          else []
      | _ => [library_error (lit "string_type")]
      end
  | TInt ge le =>
      match v with
      | JInt z => bound_errors ge le z
      | _ =>
          match lax_int v with
          | inl e => [e]
          | inr z => bound_errors ge le z
          end
      end
  | TFloat =>
      match v with
      | JInt _ | JFloat _ _ => []
      | _ => match lax_float v with Some e => [e] | None => [] end
      end
  | TBool =>
      match v with
      | JBool _ => []
      | _ => match lax_bool v with inl e => [e] | inr _ => [] end
      end
  | TAny => []
  | TEnum values =>
      match v with
      | JStr s =>
          if existsb (str_eqb s) values then []
          else [library_error (lit "enum")]
      | _ => [library_error (lit "enum")]
      end
  | TLiteral values =>
      match v with
      | JStr s =>
          if existsb (str_eqb s) values then []
          else [library_error (lit "literal_error")]
      | _ => [library_error (lit "literal_error")]
      end
  | TOptional t' =>
      match v with
      | JNull => []
      | _ => validate_type t' v
      end
  | TList t' min_length =>
      match v with
      | JList items =>
          if negb (at_least min_length (length items))
          then [library_error (lit "too_short")]
          else element_errors (validate_type t') 0 items
      | _ => [library_error (lit "list_type")]
      end
  | TDictAny =>
      match v with
      | JDict _ => []
      | _ => [library_error (lit "dict_type")]
      end
  | TUnion members => union_errors validate_type v members []
  | TModel fields extra_forbid populate_by_name after =>
      match v with
      | JDict d =>
          match fields_errors validate_type populate_by_name d fields
                ++ (if extra_forbid
                    then extra_errors populate_by_name fields d else []) with
          | [] =>
              match after d with
              | Some text => [value_error text]
              | None => []
              end
          | e :: es => e :: es
          end
      | _ => [library_error (lit "model_type")]
      end
  end.

(** ["." .join(str(loc) for loc in error["loc"])] *)
Definition loc_str (i : loc_item) : str :=
  match i with LKey k => k | LIdx n => str_of_nat n end.

Definition loc_path (l : list loc_item) : str :=
  join (lit ".") (map loc_str l).

(** ** Acceptance *)

Lemma under_nil i errs : under i errs = [] <-> errs = [].
Proof. destruct errs; simpl; split; congruence. Qed.

Lemma fields_errors_nil vt pbn d fields :
  fields_errors vt pbn d fields = [] ->
  forall f t, In (f, t) fields -> field_errors (vt t) pbn f d = [].
Proof.
  induction fields as [|[f0 t0] fields IH]; intros H f t Hin; [destruct Hin|].
  simpl in H. apply app_eq_nil in H as [H1 H2].
  destruct Hin as [E | Hin].
  - inversion E; subst. exact H1.
  - exact (IH H2 f t Hin).
Qed.

Lemma fields_errors_nil_iff vt pbn d fields :
  fields_errors vt pbn d fields = [] <->
  Forall (fun ft => field_errors (vt (snd ft)) pbn (fst ft) d = []) fields.
Proof.
  induction fields as [|[f0 t0] fields IH]; simpl.
  - split; [constructor | reflexivity].
  - split.
    + intros H. apply app_eq_nil in H as [H1 H2]. constructor; [exact H1|].
      apply IH. exact H2.
    + intros H. inversion H as [|x xs H1 H2]; subst. simpl in H1.
      rewrite H1. apply IH. exact H2.
Qed.

Lemma element_errors_nil check items : forall i,
  element_errors check i items = [] <-> Forall (fun x => check x = []) items.
Proof.
  induction items as [|x items IH]; intros i; simpl.
  - split; [constructor | reflexivity].
  - split.
    + intros H. apply app_eq_nil in H as [H1 H2]. constructor.
      * apply (under_nil (LIdx i)). exact H1.
      * apply (IH (S i)). exact H2.
    + intros H. inversion H as [|y ys H1 H2]; subst.
      rewrite H1. simpl. apply (IH (S i)). exact H2.
Qed.

(** A required field without alias that raises no error is in the input with
    a value its type accepts. *)
Lemma required_field_present check pbn f d :
  field_errors check pbn f d = [] ->
  frequired f = true -> falias f = None ->
  exists v, dict_get (fname f) d = Some v /\ check v = [].
Proof.
  unfold field_errors, field_key. intros H Hreq Hal. rewrite Hal, Hreq in H.
  rewrite dict_get_has in H.
  destruct (dict_get (fname f) d) as [v|] eqn:E; [|discriminate].
  exists v. split; [reflexivity|].
  cbv beta iota zeta in H. unfold dict_get_default in H. rewrite E in H.
  destruct (check v); [reflexivity | simpl in H; discriminate].
Qed.

(** The check of a model on a dict, unfolded. *)
Lemma validate_model fields extra_forbid populate_by_name after d :
  validate_type (TModel fields extra_forbid populate_by_name after) (JDict d) =
  match fields_errors validate_type populate_by_name d fields
        ++ (if extra_forbid
            then extra_errors populate_by_name fields d else []) with
  | [] =>
      match after d with
      | Some text => [value_error text]
      | None => []
      end
  | e :: es => e :: es
  end.
Proof. reflexivity. Qed.

Lemma validate_list t min_length items :
  validate_type (TList t min_length) (JList items) =
  if negb (at_least min_length (length items))
  then [library_error (lit "too_short")]
  else element_errors (validate_type t) 0 items.
Proof. reflexivity. Qed.

Lemma extra_errors_nil pbn fields d :
  extra_errors pbn fields d = [] <->
  forallb (key_known pbn fields d) (map fst d) = true.
Proof.
  unfold extra_errors. generalize (key_known pbn fields d) as known.
  intros known. induction d as [|[k v] d IH]; simpl.
  - split; reflexivity.
  - destruct (known k); simpl.
    + exact IH.
    + split; discriminate.
Qed.

(** Which key a field is read from depends on the keys of the input only. *)
Lemma field_key_set_present pbn f k v d :
  dict_has k d = true -> field_key pbn f (dict_set k v d) = field_key pbn f d.
Proof.
  intros Hk. unfold field_key.
  rewrite (dict_has_set_present (fname f) k v d Hk).
  destruct (falias f) as [alias|]; [|reflexivity].
  rewrite (dict_has_set_present alias k v d Hk). reflexivity.
Qed.

Lemma key_known_set_present pbn fields k v d key :
  dict_has k d = true ->
  key_known pbn fields (dict_set k v d) key = key_known pbn fields d key.
Proof.
  intros Hk. unfold key_known. induction fields as [|ft fields IH]; simpl.
  - reflexivity.
  - rewrite (field_key_set_present pbn (fst ft) k v d Hk), IH. reflexivity.
Qed.

(** A field that is not looked up under [k] does not see a change at [k]. *)
Definition field_uses (f : fdecl) (k : str) : bool :=
  str_eqb k (fname f) ||
  match falias f with Some alias => str_eqb k alias | None => false end.

Lemma field_errors_set_other check pbn f k v d :
  field_uses f k = false -> dict_has k d = true ->
  field_errors check pbn f (dict_set k v d) = field_errors check pbn f d.
Proof.
  unfold field_uses. intros Hu Hk.
  apply orb_false_iff in Hu as [Hname Halias].
  unfold field_errors, field_key, dict_get_default.
  rewrite (dict_has_set_present (fname f) k v d Hk).
  destruct (falias f) as [alias|].
  - rewrite (dict_has_set_present alias k v d Hk).
    destruct (dict_has alias d); cbv beta iota zeta.
    + rewrite (dict_get_set_other alias k v d Halias). reflexivity.
    + destruct (pbn && dict_has (fname f) d); cbv beta iota zeta;
        [|reflexivity].
      rewrite (dict_get_set_other (fname f) k v d Hname). reflexivity.
  - destruct (dict_has (fname f) d); cbv beta iota zeta; [|reflexivity].
    rewrite (dict_get_set_other (fname f) k v d Hname). reflexivity.
Qed.

Lemma field_errors_present check pbn f d v :
  falias f = None -> dict_get (fname f) d = Some v ->
  check v = [] -> fcheck f v = None ->
  field_errors check pbn f d = [].
Proof.
  intros Hal Hget Hcheck Hf. unfold field_errors, field_key.
  rewrite Hal, dict_get_has, Hget. cbv beta iota zeta.
  unfold dict_get_default. rewrite Hget, Hcheck, Hf. reflexivity.
Qed.

End WithLax.

End Pydantic.

(* ================================================================== *)
(** * models.py: decision-rule normalisation *)
(* ================================================================== *)

Module Models.
Import PyStr Json Pydantic.

(** ** [DecisionRules.extract_rules] *)

(** [ensure_rule_ids(rules_list, start_index)]; [i] is the index
    [enumerate] has reached. *)
Fixpoint ensure_rule_ids_from (start_index i : nat) (rules_list : list json)
  : list json :=
  match rules_list with
  | [] => []
  | rule :: rest =>
      (match rule with
       | JDict r =>
           if negb (dict_has (lit "id") r)
           then JDict (dict_set (lit "id")
                         (JStr (lit "rule_" ++ str_of_nat (start_index + i)))
                         r)
           else rule
       | _ => rule
       end) :: ensure_rule_ids_from start_index (S i) rest
  end.

Definition ensure_rule_ids (rules_list : list json) (start_index : nat)
  : list json :=
  ensure_rule_ids_from start_index 0 rules_list.

(** Format 2: the rules are the direct properties of the dict. *)
Fixpoint legacy_rules (items : dict) : list json :=
  match items with
  | [] => []
  | (key, value) :: rest =>
      if str_eqb key (lit "_config") then legacy_rules rest
      else match value with
           | JDict r =>
               (if negb (dict_has (lit "id") r)
                then JDict (dict_set (lit "id") (JStr key) r)
                else value) :: legacy_rules rest
           | _ => legacy_rules rest
           end
  end.

Definition canonical (config rules : json) : json :=
  JDict [(lit "_config", config); (lit "rules", rules)].

Definition extract_rules (values : json) : json :=
  match values with
  | JDict d =>
      let config := dict_get_default (lit "_config") (JDict []) d in
      if dict_has (lit "rules") d then
        let rules := dict_get_default (lit "rules") JNull d in
        let rules :=
          match rules with
          | JList l => JList (ensure_rule_ids l 0)
          | _ => rules
          end in
        canonical config rules
      else
        canonical config (JList (legacy_rules d))
  | JList l => canonical (JDict []) (JList (ensure_rule_ids l 0))
  | _ => values
  end.

(** ** Normalising twice *)

(** A rule the normaliser leaves alone: not a dict, or a dict with an id. *)
Definition settled (rule : json) : bool :=
  match rule with
  | JDict r => dict_has (lit "id") r
  | _ => true
  end.

Lemma ensure_rule_ids_from_settled start i l :
  Forall (fun r => settled r = true) (ensure_rule_ids_from start i l).
Proof.
  revert i. induction l as [|rule l IH]; intros i; simpl; constructor.
  - destruct rule as [| | | | |l0|r]; try reflexivity.
    destruct (dict_has (lit "id") r) eqn:E; simpl; [exact E|].
    apply dict_has_set.
  - apply IH.
Qed.

Lemma ensure_rule_ids_from_fixed start i l :
  Forall (fun r => settled r = true) l ->
  ensure_rule_ids_from start i l = l.
Proof.
  revert i. induction l as [|rule l IH]; intros i H; [reflexivity|].
  inversion H as [|x xs Hr Hl]; subst. simpl. rewrite (IH (S i) Hl).
  destruct rule as [| | | | |l0|r]; try reflexivity.
  simpl in Hr. rewrite Hr. reflexivity.
Qed.

Lemma ensure_rule_ids_idempotent l :
  ensure_rule_ids (ensure_rule_ids l 0) 0 = ensure_rule_ids l 0.
Proof.
  unfold ensure_rule_ids. apply ensure_rule_ids_from_fixed.
  apply ensure_rule_ids_from_settled.
Qed.

Lemma legacy_rules_settled d :
  Forall (fun r => settled r = true) (legacy_rules d).
Proof.
  induction d as [|[key value] d IH]; simpl; [constructor|].
  destruct (str_eqb key (lit "_config")); [exact IH|].
  destruct value as [| | | | |l0|r]; try exact IH.
  constructor; [|exact IH].
  destruct (dict_has (lit "id") r) eqn:E; simpl; [exact E|].
  apply dict_has_set.
Qed.

Lemma key_rules_config : str_eqb (lit "_config") (lit "rules") = false.
Proof. vm_compute. reflexivity. Qed.

(** Normalising a value that is already in canonical form. *)
Lemma extract_rules_canonical config rules :
  extract_rules (canonical config rules) =
  canonical config
    (match rules with
     | JList l => JList (ensure_rule_ids l 0)
     | _ => rules
     end).
Proof.
  unfold extract_rules, canonical, dict_get_default.
  rewrite dict_get_here.
  assert (Hhas : dict_has (lit "rules")
                   [(lit "_config", config); (lit "rules", rules)] = true).
  { reflexivity. }
  rewrite Hhas.
  rewrite (dict_get_next (lit "rules") (lit "_config") config _
             key_rules_config), dict_get_here.
  reflexivity.
Qed.

(** ** The field declarations of the models *)

(** [PATTERN.match(v)] for a pattern constant of the module. *)
Definition pattern_match (source v : str) : bool :=
  match Regex.compile Regex.no_flags source with
  | Some r => match Regex.py_match r v with Some _ => true | None => false end
  | None => false
  end.

Definition KEBAB_CASE_PATTERN : str := lit "^[a-z][a-z0-9]*(-[a-z0-9]+)*$".
Definition SNAKE_CASE_PATTERN : str := lit "^[a-z][a-z0-9_]*$".
Definition UPPER_SNAKE_CASE_PATTERN : str := lit "^[A-Z][A-Z0-9_]*$".
Definition SEMVER_PATTERN : str := lit "^\d+\.\d+\.\d+$".

Definition no_check (v : json) : option str := None.
Definition no_after (d : dict) : option str := None.

(** A field validator that wants the value to match a pattern; [None] is
    let through when the field is optional. *)
Definition check_pattern (source text : str) (v : json) : option str :=
  match v with
  | JStr s => if pattern_match source s then None else Some (text ++ s)
  | _ => None
  end.

Definition check_allowed (allowed : list str) (text : str) (v : json)
  : option str :=
  match v with
  | JStr s => if existsb (str_eqb s) allowed then None else Some (text ++ s)
  | _ => None
  end.

(** [SkillMetadata.validate_name] *)
Definition validate_skill_name (v : json) : option str :=
  match v with
  | JStr s =>
      if negb (pattern_match KEBAB_CASE_PATTERN s) then
        Some (lit "Skill name must be kebab-case (e.g., 'extract-api-contract'), got: " ++ s)
      else if 64 <? length s then
        Some (lit "Skill name must be 1-64 characters (agentskills.io), got: "
                ++ str_of_nat (length s))
      else None
  | _ => None
  end.

Definition validate_version : json -> option str :=
  check_pattern SEMVER_PATTERN
    (lit "Version must follow semver (e.g., '1.0.0'), got: ").

Definition validate_category : json -> option str :=
  check_allowed
    [lit "documentation"; lit "analysis"; lit "generation";
     lit "transformation"; lit "validation"; lit "orchestration"; lit "other"]
    (lit "Category must be one of ['documentation', 'analysis', 'generation', 'transformation', 'validation', 'orchestration', 'other'], got: ").

Definition validate_complexity : json -> option str :=
  check_allowed [lit "low"; lit "standard"; lit "advanced"]
    (lit "Complexity must be one of ['low', 'standard', 'advanced'], got: ").

Definition validate_input_name : json -> option str :=
  check_pattern SNAKE_CASE_PATTERN
    (lit "Input name must be snake_case (e.g., 'user_input'), got: ").

Definition validate_rule_id : json -> option str :=
  check_pattern SNAKE_CASE_PATTERN
    (lit "Rule ID must be snake_case (e.g., 'rule_validation'), got: ").

Definition validate_step_id : json -> option str :=
  check_pattern SNAKE_CASE_PATTERN
    (lit "Step ID must be snake_case (e.g., 'validate_input'), got: ").

Definition validate_code : json -> option str :=
  check_pattern UPPER_SNAKE_CASE_PATTERN
    (lit "Error code must be UPPER_SNAKE_CASE (e.g., 'EMPTY_INPUT'), got: ").

(** A required field, a field with a default, and an [Optional] field. *)
Definition required (name : String.string) (t : ptype) : fdecl * ptype :=
  (mkField (lit name) None true no_check, t).

Definition with_default (name : String.string) (t : ptype) : fdecl * ptype :=
  (mkField (lit name) None false no_check, t).

Definition optional (name : String.string) (t : ptype) : fdecl * ptype :=
  (mkField (lit name) None false no_check, TOptional t).

Arguments required name%_string t.
Arguments with_default name%_string t.
Arguments optional name%_string t.

Definition checked (check : json -> option str) (ft : fdecl * ptype)
  : fdecl * ptype :=
  (mkField (fname (fst ft)) (falias (fst ft)) (frequired (fst ft)) check,
   snd ft).

Definition aliased (alias : String.string) (ft : fdecl * ptype)
  : fdecl * ptype :=
  (mkField (fname (fst ft)) (Some (lit alias)) (frequired (fst ft))
           (fcheck (fst ft)),
   snd ft).

Arguments aliased alias%_string ft.

Definition str_ : ptype := TStr None None.
Definition list_of (t : ptype) : ptype := TList t None.

Definition ProgressiveDisclosure_type : ptype :=
  TModel
    [with_default "metadata_tokens" (TInt (Some 50%Z) (Some 200%Z));
     with_default "instructions_tokens" (TInt (Some 500%Z) (Some 5000%Z));
     with_default "max_lines" (TInt (Some 100%Z) (Some 1000%Z))]
    true false no_after.

Definition MetaConfig_type : ptype :=
  TModel
    [with_default "content_language" (TEnum [lit "en"; lit "zh"; lit "auto"]);
     with_default "mixed_language_strategy"
       (TEnum [lit "union"; lit "segment_detect"; lit "primary"]);
     optional "format" (TLiteral [lit "full"; lit "minimal"]);
     optional "token_budget" (TInt (Some 50%Z) (Some 2000%Z));
     with_default "agentskills_compat" TBool;
     optional "progressive_disclosure" ProgressiveDisclosure_type]
    true false no_after.

Definition SkillMetadata_type : ptype :=
  TModel
    [checked validate_skill_name (required "name" (TStr (Some 1) (Some 64)));
     checked validate_version (required "version" str_);
     required "purpose" (TStr (Some 10) (Some 1024));
     required "owner" (TStr (Some 1) None);
     checked validate_category (optional "category" str_);
     checked validate_complexity (optional "complexity" str_);
     optional "tools_required" (list_of str_);
     optional "personas" (list_of str_);
     optional "license" str_;
     optional "compatibility" (TStr None (Some 500));
     optional "allowed_tools" (list_of str_);
     optional "metadata" TDictAny]
    true false no_after.

Definition is_truthy_list (v : option json) : bool :=
  match v with Some (JList (_ :: _)) => true | _ => false end.

Definition is_None (v : option json) : bool :=
  match v with None | Some JNull => true | Some _ => false end.

Definition has_type (d : dict) (name : String.string) : bool :=
  match dict_get (lit "type") d with
  | Some (JStr s) => str_eqb s (lit name)
  | _ => false
  end.

Arguments has_type d name%_string.

(** [InputDomain.validate_domain_fields] *)
Definition validate_domain_fields (self : dict) : option str :=
  if has_type self "enum" && negb (is_truthy_list (dict_get (lit "values") self))
  then Some (lit "Enum domain requires 'values' field")
  else if has_type self "range"
          && (is_None (dict_get (lit "min") self)
              || is_None (dict_get (lit "max") self))
  then Some (lit "Range domain requires 'min' and 'max' fields")
  else if has_type self "pattern_set"
          && negb (is_truthy_list (dict_get (lit "patterns") self))
  then Some (lit "Pattern set domain requires 'patterns' field")
  else None.

Definition InputDomain_type : ptype :=
  TModel
    [required "type"
       (TEnum [lit "enum"; lit "range"; lit "pattern_set"; lit "boolean";
               lit "any"]);
     optional "values" (list_of TAny);
     optional "min" TFloat;
     optional "max" TFloat;
     optional "patterns" (list_of str_)]
    false false validate_domain_fields.

Definition InputSpec_type : ptype :=
  TModel
    [checked validate_input_name (required "name" str_);
     required "type"
       (TEnum [lit "string"; lit "number"; lit "boolean"; lit "object";
               lit "array"]);
     required "required" TBool;
     optional "constraints"
       (list_of (TUnion [(lit "str", str_); (lit "dict[str,any]", TDictAny)]));
     optional "domain" InputDomain_type;
     optional "description" str_;
     optional "tags" (list_of str_)]
    true false no_after.

Definition DecisionRule_type : ptype :=
  TModel
    [checked validate_rule_id (optional "id" str_);
     with_default "priority" (TInt (Some 0%Z) None);
     with_default "is_default" TBool;
     required "when"
       (TUnion [(lit "str", str_); (lit "bool", TBool);
                (lit "dict[str,any]", TDictAny)]);
     required "then" TDictAny]
    true false no_after.

Definition ExecutionStep_type : ptype :=
  TModel
    [checked validate_step_id (required "id" str_);
     required "action" (TStr (Some 1) None);
     optional "output" str_;
     optional "based_on" (list_of str_);
     optional "condition" str_]
    true false no_after.

Definition OutputContract_type : ptype :=
  TModel
    [required "format"
       (TEnum [lit "json"; lit "text"; lit "markdown"; lit "yaml";
               lit "binary"]);
     aliased "schema" (required "schema_" TDictAny)]
    true true no_after.

Definition FailureMode_type : ptype :=
  TModel
    [checked validate_code (required "code" str_);
     required "retryable" TBool;
     optional "description" str_;
     optional "recovery_hint" str_]
    true false no_after.

Definition EdgeCase_type : ptype :=
  TModel
    [required "case" (TStr (Some 1) None);
     required "expected" TDictAny;
     optional "input_example" TAny;
     optional "covers_rule" str_;
     optional "covers_failure" str_]
    true false no_after.

Definition SkillReference_type : ptype :=
  TModel [required "skill" str_; required "reason" str_]
         false false no_after.

Definition Scenario_type : ptype :=
  TModel [required "name" str_; optional "trigger" str_;
          required "description" str_]
         false false no_after.

Definition Triggers_type : ptype :=
  TModel [optional "use_when" (list_of str_);
          optional "do_not_use_when" (list_of str_)]
         true false no_after.

Definition Boundaries_type : ptype :=
  TModel [optional "will" (list_of str_); optional "will_not" (list_of str_)]
         true false no_after.

Definition BehavioralPhase_type : ptype :=
  TModel [required "phase" str_; required "description" str_;
          optional "key_actions" (list_of str_)]
         true false no_after.

Definition Mistake_type : ptype :=
  TModel [required "pattern" str_; required "why_bad" str_;
          required "correct" str_]
         true false no_after.

Definition Rationalization_type : ptype :=
  TModel [required "excuse" str_; required "reality" str_]
         true false no_after.

Definition AntiPatterns_type : ptype :=
  TModel [optional "mistakes" (list_of Mistake_type);
          optional "rationalizations" (list_of Rationalization_type);
          optional "red_flags" (list_of str_)]
         true false no_after.

Definition ContextInfo_type : ptype :=
  TModel [optional "works_with" (list_of SkillReference_type);
          optional "prerequisites" (list_of str_);
          optional "scenarios" (list_of Scenario_type)]
         true false no_after.

Definition Example_type : ptype :=
  TModel [required "name" str_; optional "scenario" str_;
          optional "trigger" str_; required "input" TAny;
          required "output" TAny; optional "explanation" str_]
         true false no_after.

(** The fields of [SkillSpec]; its [model_validator], which works on the
    typed value, is [validate_cross_references] below. *)
Definition SkillSpec_fields : list (fdecl * ptype) :=
  [with_default "spec_version"
     (TLiteral [lit "skill-spec/1.0"; lit "skill-spec/1.1";
                lit "skill-spec/1.2"]);
   aliased "_meta" (optional "meta" MetaConfig_type);
   required "skill" SkillMetadata_type;
   required "inputs" (TList InputSpec_type (Some 1));
   required "preconditions" (TList str_ (Some 1));
   required "non_goals" (TList str_ (Some 1));
   required "decision_rules"
     (TUnion [(lit "dict[str,any]", TDictAny);
              (lit "list[DecisionRule]", list_of DecisionRule_type)]);
   required "steps" (TList ExecutionStep_type (Some 1));
   required "output_contract" OutputContract_type;
   required "failure_modes" (TList FailureMode_type (Some 1));
   required "edge_cases" (TList EdgeCase_type (Some 1));
   optional "triggers" Triggers_type;
   optional "boundaries" Boundaries_type;
   optional "behavioral_flow" (list_of BehavioralPhase_type);
   optional "anti_patterns" AntiPatterns_type;
   optional "context" ContextInfo_type;
   optional "examples" (list_of Example_type)].

Definition SkillSpec_type : ptype :=
  TModel SkillSpec_fields true true no_after.

(** ** The typed values of a validated spec *)

(** Only the sections that [validate_cross_references] reads are carried;
    the other sections are checked by the field validation above.  Of the
    carried models the fields of type [int] and [bool] and the union [when],
    whose values pydantic may convert and which the validator does not read,
    are left out. *)

Record ExecutionStep : Type := mkExecutionStep {
  step_id : str;
  action : str;
  output : option str;
  based_on : option (list str);
  condition : option str
}.

Record FailureMode : Type := mkFailureMode {
  code : str;
  description : option str;
  recovery_hint : option str
}.

Record EdgeCase : Type := mkEdgeCase {
  case_name : str;
  expected : dict;
  input_example : json;
  covers_rule : option str;
  covers_failure : option str
}.

Record DecisionRule : Type := mkDecisionRule {
  rule_id : option str;
  then_ : dict
}.

(** [Union[Dict[str, Any], List[DecisionRule]]] *)
Inductive DecisionRulesField : Type :=
| RulesDict (d : dict)
| RulesList (l : list DecisionRule).

Record SkillSpec : Type := mkSkillSpec {
  spec_version : str;
  decision_rules : DecisionRulesField;
  steps : list ExecutionStep;
  failure_modes : list FailureMode;
  edge_cases : list EdgeCase
}.

Definition get_str (key : str) (d : dict) : str :=
  match dict_get key d with Some (JStr s) => s | _ => [] end.

Definition get_opt_str (key : str) (d : dict) : option str :=
  match dict_get key d with Some (JStr s) => Some s | _ => None end.

Definition get_dict (key : str) (d : dict) : dict :=
  match dict_get key d with Some (JDict x) => x | _ => [] end.

Definition strs (l : list json) : list str :=
  flat_map (fun v => match v with JStr s => [s] | _ => [] end) l.

Definition get_opt_strs (key : str) (d : dict) : option (list str) :=
  match dict_get key d with Some (JList l) => Some (strs l) | _ => None end.

Definition as_dict (v : json) : dict :=
  match v with JDict d => d | _ => [] end.

Definition to_ExecutionStep (v : json) : ExecutionStep :=
  let d := as_dict v in
  mkExecutionStep (get_str (lit "id") d) (get_str (lit "action") d)
    (get_opt_str (lit "output") d) (get_opt_strs (lit "based_on") d)
    (get_opt_str (lit "condition") d).

Definition to_FailureMode (v : json) : FailureMode :=
  let d := as_dict v in
  mkFailureMode (get_str (lit "code") d)
    (get_opt_str (lit "description") d) (get_opt_str (lit "recovery_hint") d).

Definition to_EdgeCase (v : json) : EdgeCase :=
  let d := as_dict v in
  mkEdgeCase (get_str (lit "case") d) (get_dict (lit "expected") d)
    (dict_get_default (lit "input_example") JNull d)
    (get_opt_str (lit "covers_rule") d) (get_opt_str (lit "covers_failure") d).

Definition to_DecisionRule (v : json) : DecisionRule :=
  let d := as_dict v in
  mkDecisionRule (get_opt_str (lit "id") d) (get_dict (lit "then") d).

Definition get_list (key : str) (d : dict) : list json :=
  match dict_get key d with Some (JList l) => l | _ => [] end.

(** The typed value pydantic builds from an input that passed the field
    validation. *)
Definition build_SkillSpec (d : dict) : SkillSpec :=
  mkSkillSpec
    (match dict_get (lit "spec_version") d with
     | Some (JStr s) => s
     | _ => lit "skill-spec/1.0"
     end)
    (match dict_get (lit "decision_rules") d with
     | Some (JList l) => RulesList (map to_DecisionRule l)
     | Some (JDict r) => RulesDict r
     | _ => RulesDict []
     end)
    (map to_ExecutionStep (get_list (lit "steps") d))
    (map to_FailureMode (get_list (lit "failure_modes") d))
    (map to_EdgeCase (get_list (lit "edge_cases") d)).

(** ** [SkillSpec.validate_cross_references] *)

(** The values the validator adds to [rule_ids], in order. *)
Definition rule_id_values (rules : DecisionRulesField) : list json :=
  match rules with
  | RulesList l =>
      map (fun r => match rule_id r with Some s => JStr s | None => JNull end) l
  | RulesDict d =>
      match dict_get (lit "rules") d with
      | Some (JList rules) =>
          flat_map (fun rule =>
                      match rule with
                      | JDict r =>
                          let id := dict_get_default (lit "id") JNull r in
                          if truthy id then [id] else []
                      | _ => []
                      end) rules
      | _ =>
          flat_map (fun kv =>
                      match snd kv with
                      | JDict r =>
                          if negb (str_eqb (fst kv) (lit "_config"))
                          then [dict_get_default (lit "id") (JStr (fst kv)) r]
                          else []
                      | _ => []
                      end) d
      end
  end.

(** [rule_ids]; adding a list or a dict to the set raises. *)
Definition collect_rule_ids (rules : DecisionRulesField) : option (list json) :=
  let ids := rule_id_values rules in
  if forallb hashable ids then Some ids else None.

Definition is_id (name : str) (v : json) : bool :=
  match v with JStr s => str_eqb s name | _ => false end.

Definition nonempty (o : option str) : option str :=
  match o with Some (c :: s) => Some (c :: s) | _ => None end.

Definition unknown_rule_message (ec : EdgeCase) (rule : str) : str :=
  lit "Edge case '" ++ case_name ec ++ lit "' references unknown rule: "
    ++ rule.

Definition unknown_failure_message (ec : EdgeCase) (failure : str) : str :=
  lit "Edge case '" ++ case_name ec ++ lit "' references unknown failure: "
    ++ failure.

(** The loop over the edge cases: the text of the first error, if any. *)
Fixpoint check_edge_cases (rule_ids : list json) (failure_codes : list str)
    (ecs : list EdgeCase) : option str :=
  match ecs with
  | [] => None
  | ec :: rest =>
      match nonempty (covers_rule ec) with
      | Some rule =>
          if negb (existsb (is_id rule) rule_ids)
          then Some (unknown_rule_message ec rule)
          else
            match nonempty (covers_failure ec) with
            | Some failure =>
                if negb (existsb (str_eqb failure) failure_codes)
                then Some (unknown_failure_message ec failure)
                else check_edge_cases rule_ids failure_codes rest
            | None => check_edge_cases rule_ids failure_codes rest
            end
      | None =>
          match nonempty (covers_failure ec) with
          | Some failure =>
              if negb (existsb (str_eqb failure) failure_codes)
              then Some (unknown_failure_message ec failure)
              else check_edge_cases rule_ids failure_codes rest
          | None => check_edge_cases rule_ids failure_codes rest
          end
      end
  end.

Definition dependency_message (step : ExecutionStep) (dep : str) : str :=
  lit "Step '" ++ step_id step ++ lit "' depends on '" ++ dep
    ++ lit "' which is not available at this point in the execution flow".

(** [step.based_on] as the loop sees it: nothing for [None] and for []. *)
Definition dependencies (step : ExecutionStep) : list str :=
  match based_on step with Some deps => deps | None => [] end.

(** The first dependency that is not among the available outputs. *)
Fixpoint first_missing (available_outputs : list str) (deps : list str)
  : option str :=
  match deps with
  | [] => None
  | dep :: rest =>
      if negb (existsb (str_eqb dep) available_outputs) then Some dep
      else first_missing available_outputs rest
  end.

(** The loop over the steps: the text of the first error, if any. *)
Fixpoint check_steps (available_outputs : list str)
    (steps : list ExecutionStep) : option str :=
  match steps with
  | [] => None
  | step :: rest =>
      match first_missing available_outputs (dependencies step) with
      | Some dep => Some (dependency_message step dep)
      | None =>
          check_steps
            (match nonempty (output step) with
             | Some out => out :: available_outputs
             | None => available_outputs
             end) rest
      end
  end.

(** [None]: the validator raises a [TypeError]; [Some (Some text)]: it
    raises [ValueError(text)]; [Some None]: it returns the spec. *)
Definition validate_cross_references (self : SkillSpec)
  : option (option str) :=
  match collect_rule_ids (decision_rules self) with
  | None => None
  | Some rule_ids =>
      match check_edge_cases rule_ids (map code (failure_modes self))
                             (edge_cases self) with
      | Some text => Some (Some text)
      | None => Some (check_steps [] (steps self))
      end
  end.

Section WithLax.
Context {L : Lax}.

(** [SkillSpec.model_validate(spec_data)]: the errors of the
    [ValidationError], none when the spec is accepted; [None] when another
    exception is raised. *)
Definition model_validate (spec_data : dict) : option (list PydError) :=
  match validate_type SkillSpec_type (JDict spec_data) with
  | [] =>
      match validate_cross_references (build_SkillSpec spec_data) with
      | None => None
      | Some (Some text) => Some [value_error text]
      | Some None => Some []
      end
  | e :: es => Some (e :: es)
  end.

(** ** The step loop and the order of the steps *)

(** The outputs the loop has made available after the given steps. *)
Definition step_outputs (steps : list ExecutionStep) : list str :=
  flat_map (fun s => match nonempty (output s) with
                     | Some out => [out]
                     | None => []
                     end) steps.

Lemma existsb_str_eqb dep l : existsb (str_eqb dep) l = true <-> In dep l.
Proof.
  rewrite existsb_exists. split.
  - intros [x [Hin E]]. apply str_eqb_eq in E. subst x. exact Hin.
  - intros Hin. exists dep. split; [exact Hin | apply str_eqb_refl].
Qed.

Lemma first_missing_none avail deps :
  first_missing avail deps = None <-> forall dep, In dep deps -> In dep avail.
Proof.
  induction deps as [|dep deps IH]; simpl.
  - split; [intros _ dep [] | reflexivity].
  - destruct (existsb (str_eqb dep) avail) eqn:E; simpl.
    + apply existsb_str_eqb in E. rewrite IH. split.
      * intros H x [<- | Hx]; [exact E | exact (H x Hx)].
      * intros H x Hx. apply H. right. exact Hx.
    + split; [discriminate|]. intros H.
      assert (Hin : In dep avail) by (apply H; left; reflexivity).
      apply existsb_str_eqb in Hin. congruence.
Qed.

Lemma first_missing_some avail deps dep :
  first_missing avail deps = Some dep -> In dep deps /\ ~ In dep avail.
Proof.
  induction deps as [|x deps IH]; simpl; [discriminate|].
  destruct (existsb (str_eqb x) avail) eqn:E; simpl.
  - intros H. destruct (IH H) as [H1 H2]. split; [right; exact H1 | exact H2].
  - intros H. injection H as <-. split; [left; reflexivity|].
    intros Hin. apply existsb_str_eqb in Hin. congruence.
Qed.

Definition next_available (avail : list str) (step : ExecutionStep)
  : list str :=
  match nonempty (output step) with
  | Some out => out :: avail
  | None => avail
  end.

Lemma next_available_in avail step dep :
  In dep (next_available avail step) <->
  In dep avail \/ In dep (step_outputs [step]).
Proof.
  unfold next_available, step_outputs. simpl.
  destruct (nonempty (output step)) as [out|]; simpl; tauto.
Qed.

Lemma step_outputs_cons step steps :
  step_outputs (step :: steps) = step_outputs [step] ++ step_outputs steps.
Proof. unfold step_outputs. simpl. rewrite app_nil_r. reflexivity. Qed.

(** Every dependency of every step is an output of an earlier step (or was
    available from the start). *)
Definition ordered_from (avail : list str) (steps : list ExecutionStep)
  : Prop :=
  forall i step dep,
    nth_error steps i = Some step -> In dep (dependencies step) ->
    In dep avail \/ In dep (step_outputs (firstn i steps)).

Lemma check_steps_none steps : forall avail,
  check_steps avail steps = None <-> ordered_from avail steps.
Proof.
  induction steps as [|step rest IH]; intros avail.
  - split; [|reflexivity]. intros _ i step dep H. destruct i; discriminate.
  - change (check_steps avail (step :: rest))
      with (match first_missing avail (dependencies step) with
            | Some dep => Some (dependency_message step dep)
            | None => check_steps (next_available avail step) rest
            end).
    destruct (first_missing avail (dependencies step)) as [dep0|] eqn:E.
    + split; [discriminate|]. intros H. exfalso.
      destruct (first_missing_some _ _ _ E) as [Hin Hnot].
      destruct (H 0 step dep0 eq_refl Hin) as [Ha | Ho]; [exact (Hnot Ha)|].
      destruct Ho.
    + rewrite IH. split.
      * intros H i s dep Hnth Hdep. destruct i as [|i].
        -- injection Hnth as <-. left.
           exact (proj1 (first_missing_none _ _) E dep Hdep).
        -- simpl in Hnth. cbn [firstn]. rewrite step_outputs_cons.
           destruct (H i s dep Hnth Hdep) as [Ha | Ho].
           ++ apply next_available_in in Ha. destruct Ha as [Ha | Ha].
              ** left. exact Ha.
              ** right. apply in_or_app. left. exact Ha.
           ++ right. apply in_or_app. right. exact Ho.
      * intros H i s dep Hnth Hdep.
        destruct (H (S i) s dep Hnth Hdep) as [Ha | Ho].
        -- left. apply next_available_in. left. exact Ha.
        -- cbn [firstn] in Ho. rewrite step_outputs_cons in Ho.
           apply in_app_or in Ho. destruct Ho as [Ho | Ho].
           ++ left. apply next_available_in. right. exact Ho.
           ++ right. exact Ho.
Qed.

(** When the loop raises, it names the first step that has a dependency not
    yet available, and the first such dependency of that step. *)
Lemma check_steps_some steps : forall avail text,
  check_steps avail steps = Some text ->
  exists i step dep,
    nth_error steps i = Some step /\
    In dep (dependencies step) /\
    ~ In dep avail /\ ~ In dep (step_outputs (firstn i steps)) /\
    ordered_from avail (firstn i steps) /\
    text = dependency_message step dep.
Proof.
  induction steps as [|step rest IH]; intros avail text; [discriminate|].
  change (check_steps avail (step :: rest))
    with (match first_missing avail (dependencies step) with
          | Some dep => Some (dependency_message step dep)
          | None => check_steps (next_available avail step) rest
          end).
  destruct (first_missing avail (dependencies step)) as [dep0|] eqn:E.
  - intros H. injection H as <-.
    destruct (first_missing_some _ _ _ E) as [Hin Hnot].
    exists 0, step, dep0. repeat split; try assumption.
    + intros [].
    + intros i s dep Hnth. destruct i; discriminate.
  - intros H. destruct (IH _ _ H)
      as [i [s [dep [Hnth [Hdep [Hna [Hno [Hord Htext]]]]]]]].
    exists (S i), s, dep. split; [exact Hnth|]. split; [exact Hdep|].
    split; [|split; [|split; [|exact Htext]]].
    + intros Ha. apply Hna. apply next_available_in. left. exact Ha.
    + cbn [firstn]. rewrite step_outputs_cons. intros Ho.
      apply in_app_or in Ho. destruct Ho as [Ho | Ho].
      * apply Hna. apply next_available_in. right. exact Ho.
      * exact (Hno Ho).
    + apply check_steps_none. cbn [firstn].
      change (check_steps avail (step :: firstn i rest))
        with (match first_missing avail (dependencies step) with
              | Some dep => Some (dependency_message step dep)
              | None => check_steps (next_available avail step) (firstn i rest)
              end).
      rewrite E. apply check_steps_none. exact Hord.
Qed.

(** The first missing dependency comes after dependencies that are all
    available. *)
Lemma first_missing_first avail deps dep :
  first_missing avail deps = Some dep ->
  exists before after,
    deps = before ++ dep :: after /\
    (forall x, In x before -> In x avail) /\ ~ In dep avail.
Proof.
  induction deps as [|x deps IH]; simpl; [discriminate|].
  destruct (existsb (str_eqb x) avail) eqn:E; simpl.
  - intros H. destruct (IH H) as [before [after [-> [Hb Hn]]]].
    exists (x :: before), after. split; [reflexivity|]. split; [|exact Hn].
    intros y [<- | Hy]; [apply existsb_str_eqb; exact E | exact (Hb y Hy)].
  - intros H. injection H as <-. exists [], deps.
    split; [reflexivity|]. split; [intros y []|].
    intros Hin. apply existsb_str_eqb in Hin. congruence.
Qed.

(** When the loop raises: the step it names, the dependency it names, and
    the dependencies of that step that come before it. *)
Lemma check_steps_some_first steps : forall avail text,
  check_steps avail steps = Some text ->
  exists i step dep before after,
    nth_error steps i = Some step /\
    dependencies step = before ++ dep :: after /\
    (forall x, In x before ->
               In x avail \/ In x (step_outputs (firstn i steps))) /\
    ~ In dep avail /\ ~ In dep (step_outputs (firstn i steps)) /\
    ordered_from avail (firstn i steps) /\
    text = dependency_message step dep.
Proof.
  induction steps as [|step rest IH]; intros avail text; [discriminate|].
  change (check_steps avail (step :: rest))
    with (match first_missing avail (dependencies step) with
          | Some dep => Some (dependency_message step dep)
          | None => check_steps (next_available avail step) rest
          end).
  destruct (first_missing avail (dependencies step)) as [dep0|] eqn:E.
  - intros H. injection H as <-.
    destruct (first_missing_first _ _ _ E) as [before [after [Hd [Hb Hnot]]]].
    exists 0, step, dep0, before, after. split; [reflexivity|].
    split; [exact Hd|]. split; [intros x Hx; left; exact (Hb x Hx)|].
    split; [exact Hnot|]. split; [intros []|].
    split; [|reflexivity]. intros i s dep Hnth. destruct i; discriminate.
  - intros H. destruct (IH _ _ H)
      as [i [s [dep [before [after
           [Hnth [Hd [Hb [Hna [Hno [Hord Htext]]]]]]]]]]].
    exists (S i), s, dep, before, after. split; [exact Hnth|].
    split; [exact Hd|].
    split; [|split; [|split; [|split; [|exact Htext]]]].
    + intros x Hx. cbn [firstn]. rewrite step_outputs_cons.
      destruct (Hb x Hx) as [Ha | Ho].
      * apply next_available_in in Ha. destruct Ha as [Ha | Ha].
        -- left. exact Ha.
        -- right. apply in_or_app. left. exact Ha.
      * right. apply in_or_app. right. exact Ho.
    + intros Ha. apply Hna. apply next_available_in. left. exact Ha.
    + cbn [firstn]. rewrite step_outputs_cons. intros Ho.
      apply in_app_or in Ho. destruct Ho as [Ho | Ho].
      * apply Hna. apply next_available_in. right. exact Ho.
      * exact (Hno Ho).
    + apply check_steps_none. cbn [firstn].
      change (check_steps avail (step :: firstn i rest))
        with (match first_missing avail (dependencies step) with
              | Some dep => Some (dependency_message step dep)
              | None => check_steps (next_available avail step) (firstn i rest)
              end).
      rewrite E. apply check_steps_none. exact Hord.
Qed.

(** ** What an accepted spec holds *)

Lemma accepted_fields d :
  validate_type SkillSpec_type (JDict d) = [] ->
  fields_errors validate_type true d SkillSpec_fields = [] /\
  extra_errors true SkillSpec_fields d = [].
Proof.
  unfold SkillSpec_type. rewrite validate_model.
  destruct (fields_errors validate_type true d SkillSpec_fields
            ++ extra_errors true SkillSpec_fields d) as [|e es] eqn:E;
    [|discriminate].
  intros _. apply app_eq_nil in E. exact E.
Qed.

(** A required section that the typed model accepts is present and not
    null; it is not an empty list when its type rejects one. *)
Lemma accepted_required d name t :
  fields_errors validate_type true d SkillSpec_fields = [] ->
  In (required name t) SkillSpec_fields ->
  validate_type t JNull <> [] ->
  exists v, dict_get (lit name) d = Some v /\ v <> JNull /\
            validate_type t v = [].
Proof.
  intros Hf Hin Hnull.
  pose proof (fields_errors_nil _ _ _ _ Hf _ _ Hin) as H.
  destruct (required_field_present _ _ _ _ H eq_refl eq_refl) as [v [E Hv]].
  exists v. split; [exact E|]. split; [|exact Hv].
  intros ->. exact (Hnull Hv).
Qed.

Arguments accepted_required d name%_string t.

(** [model_validate] by the outcome of the cross-reference validator. *)
Lemma model_validate_accepted d :
  validate_type SkillSpec_type (JDict d) = [] ->
  model_validate d =
  match validate_cross_references (build_SkillSpec d) with
  | None => None
  | Some (Some text) => Some [value_error text]
  | Some None => Some []
  end.
Proof. intros H. unfold model_validate. rewrite H. reflexivity. Qed.

Lemma model_validate_nil d :
  model_validate d = Some [] ->
  validate_type SkillSpec_type (JDict d) = [] /\
  validate_cross_references (build_SkillSpec d) = Some None.
Proof.
  unfold model_validate.
  destruct (validate_type SkillSpec_type (JDict d)); [|discriminate].
  destruct (validate_cross_references (build_SkillSpec d)) as [[text|]|];
    try discriminate.
  intros _. split; reflexivity.
Qed.

(** The cross-reference validator with the checks before the step loop
    passed. *)
Definition edge_cases_resolve (self : SkillSpec) : Prop :=
  exists rule_ids,
    collect_rule_ids (decision_rules self) = Some rule_ids /\
    check_edge_cases rule_ids (map code (failure_modes self))
                     (edge_cases self) = None.

Lemma validate_cross_references_steps self :
  edge_cases_resolve self ->
  validate_cross_references self = Some (check_steps [] (steps self)).
Proof.
  intros [ids [Hc He]]. unfold validate_cross_references.
  rewrite Hc, He. reflexivity.
Qed.

Lemma validate_cross_references_ok self :
  validate_cross_references self = Some None ->
  edge_cases_resolve self /\ check_steps [] (steps self) = None.
Proof.
  unfold validate_cross_references, edge_cases_resolve.
  destruct (collect_rule_ids (decision_rules self)) as [ids|]; [|discriminate].
  destruct (check_edge_cases ids (map code (failure_modes self))
              (edge_cases self)) eqn:E; [discriminate|].
  intros H. injection H as H. split; [|exact H].
  exists ids. split; [reflexivity | exact E].
Qed.

(** ** Reordering the steps of a spec *)

Definition steps_field : fdecl * ptype :=
  required "steps" (TList ExecutionStep_type (Some 1)).

Lemma steps_field_only ft :
  In ft SkillSpec_fields -> field_uses (fst ft) (lit "steps") = true ->
  ft = steps_field.
Proof.
  unfold SkillSpec_fields. cbn [In]. intros Hin Hu.
  repeat (destruct Hin as [<- | Hin];
          [first [vm_compute in Hu; discriminate | reflexivity]|]).
  destruct Hin.
Qed.

Lemma steps_field_in : In steps_field SkillSpec_fields.
Proof.
  unfold SkillSpec_fields, steps_field. cbn [In].
  repeat (first [left; reflexivity | right]).
Qed.

(** The steps of an accepted spec are a non-empty list of accepted steps. *)
Lemma accepted_steps d js :
  validate_type SkillSpec_type (JDict d) = [] ->
  dict_get (lit "steps") d = Some (JList js) ->
  js <> [] /\
  Forall (fun x => validate_type ExecutionStep_type x = []) js.
Proof.
  intros Hacc Hget. destruct (accepted_fields d Hacc) as [Hf _].
  pose proof (fields_errors_nil _ _ _ _ Hf _ _ steps_field_in) as H.
  destruct (required_field_present _ _ _ _ H eq_refl eq_refl) as [v [E Hv]].
  assert (E' : dict_get (lit "steps") d = Some v) by exact E.
  rewrite Hget in E'. injection E' as <-.
  assert (Hv' : validate_type (TList ExecutionStep_type (Some 1)) (JList js)
                = []) by exact Hv.
  clear Hv E H. rename Hv' into Hv.
  rewrite validate_list in Hv. destruct js as [|x js].
  - discriminate.
  - split; [discriminate|].
    change (negb (at_least (Some 1) (length (x :: js)))) with false in Hv.
    cbv iota in Hv. apply (element_errors_nil _ _ 0). exact Hv.
Qed.

(** Putting the steps of an accepted spec in another order gives a spec the
    field validation accepts. *)
Lemma reorder_accepted d js js' :
  validate_type SkillSpec_type (JDict d) = [] ->
  dict_get (lit "steps") d = Some (JList js) ->
  Permutation js js' ->
  validate_type SkillSpec_type
    (JDict (dict_set (lit "steps") (JList js') d)) = [].
Proof.
  intros Hacc Hget Hperm.
  destruct (accepted_fields d Hacc) as [Hf He].
  destruct (accepted_steps d js Hacc Hget) as [Hne Hall].
  assert (Hhas : dict_has (lit "steps") d = true)
    by (rewrite dict_get_has, Hget; reflexivity).
  assert (Hsteps' : validate_type (TList ExecutionStep_type (Some 1))
                      (JList js') = []).
  { rewrite validate_list. destruct js' as [|x js'].
    - exfalso. apply Hne. apply Permutation_sym in Hperm.
      exact (Permutation_nil Hperm).
    - change (negb (at_least (Some 1) (length (x :: js')))) with false.
      cbv iota. apply (element_errors_nil _ _ 0).
      exact (Permutation_Forall Hperm Hall). }
  assert (Hf' : fields_errors validate_type true
                  (dict_set (lit "steps") (JList js') d) SkillSpec_fields
                = []).
  { apply fields_errors_nil_iff. apply Forall_forall. intros ft Hin.
    destruct (field_uses (fst ft) (lit "steps")) eqn:Hu.
    - rewrite (steps_field_only ft Hin Hu).
      apply (field_errors_present _ _ _ _ (JList js'));
        [reflexivity | apply dict_get_set_same | exact Hsteps' | reflexivity].
    - rewrite (field_errors_set_other _ _ _ _ _ _ Hu Hhas).
      destruct ft as [f t].
      exact (fields_errors_nil _ _ _ _ Hf f t Hin). }
  assert (He' : extra_errors true SkillSpec_fields
                  (dict_set (lit "steps") (JList js') d) = []).
  { apply extra_errors_nil. rewrite (dict_set_keys _ _ _ Hhas).
    apply extra_errors_nil in He.
    rewrite forallb_forall in He. apply forallb_forall. intros key Hkey.
    rewrite (key_known_set_present _ _ _ _ _ _ Hhas). exact (He key Hkey). }
  unfold SkillSpec_type. rewrite validate_model, Hf', He'. reflexivity.
Qed.

Lemma reorder_build d js' :
  build_SkillSpec (dict_set (lit "steps") (JList js') d) =
  mkSkillSpec (spec_version (build_SkillSpec d))
              (decision_rules (build_SkillSpec d))
              (map to_ExecutionStep js')
              (failure_modes (build_SkillSpec d))
              (edge_cases (build_SkillSpec d)).
Proof.
  unfold build_SkillSpec, get_list.
  rewrite dict_get_set_same.
  rewrite (dict_get_set_other (lit "spec_version") (lit "steps"))
    by (vm_compute; reflexivity).
  rewrite (dict_get_set_other (lit "decision_rules") (lit "steps"))
    by (vm_compute; reflexivity).
  rewrite (dict_get_set_other (lit "failure_modes") (lit "steps"))
    by (vm_compute; reflexivity).
  rewrite (dict_get_set_other (lit "edge_cases") (lit "steps"))
    by (vm_compute; reflexivity).
  reflexivity.
Qed.

(** ** The identifier patterns *)

Definition lower_letter : char -> bool :=
  Regex.union (fun _ => false) (Regex.in_range 97%N 122%N).

Definition snake_char : char -> bool :=
  Regex.union
    (Regex.union (Regex.union (fun _ => false) (Regex.in_range 97%N 122%N))
                 (Regex.in_range 48%N 57%N))
    (char_eqb 95%N).

Definition upper_letter : char -> bool :=
  Regex.union (fun _ => false) (Regex.in_range 65%N 90%N).

Definition upper_snake_char : char -> bool :=
  Regex.union
    (Regex.union (Regex.union (fun _ => false) (Regex.in_range 65%N 90%N))
                 (Regex.in_range 48%N 57%N))
    (char_eqb 95%N).

Lemma SNAKE_CASE_PATTERN_eq :
  Regex.compile Regex.no_flags SNAKE_CASE_PATTERN =
  Some (Regex.class_star lower_letter snake_char).
Proof. vm_compute. reflexivity. Qed.

Lemma UPPER_SNAKE_CASE_PATTERN_eq :
  Regex.compile Regex.no_flags UPPER_SNAKE_CASE_PATTERN =
  Some (Regex.class_star upper_letter upper_snake_char).
Proof. vm_compute. reflexivity. Qed.

Lemma pattern_match_class_star source first rest v :
  Regex.compile Regex.no_flags source = Some (Regex.class_star first rest) ->
  pattern_match source v = true <-> Regex.class_star_shape first rest v.
Proof.
  intros E. unfold pattern_match. rewrite E.
  rewrite <- Regex.class_star_match.
  destruct (Regex.py_match (Regex.class_star first rest) v) as [x|].
  - split; [intros _; exists x; reflexivity | reflexivity].
  - split; [discriminate | intros [x H]; discriminate].
Qed.

Lemma check_pattern_class_star source text first rest s :
  Regex.compile Regex.no_flags source = Some (Regex.class_star first rest) ->
  (check_pattern source text (JStr s) = None <->
   Regex.class_star_shape first rest s) /\
  (check_pattern source text (JStr s) = None \/
   check_pattern source text (JStr s) = Some (text ++ s)).
Proof.
  intros E. unfold check_pattern.
  rewrite <- (pattern_match_class_star source first rest s E).
  destruct (pattern_match source s).
  - split; [tauto | left; reflexivity].
  - split; [split; discriminate | right; reflexivity].
Qed.

End WithLax.

End Models.

(* ================================================================== *)
(** * validator/schema.py: schema validation (layer 1) *)
(* ================================================================== *)

Module Schema.
Import PyStr Json Pydantic.

Record SchemaError : Type := mkSchemaError {
  path : str;
  message : error_text;
  suggestion : option str
}.

Record SchemaValidationResult : Type := mkSchemaValidationResult {
  valid : bool;
  errors : list SchemaError;
  warnings : list SchemaError
}.

Definition add_error (self : SchemaValidationResult) (path : str)
    (message : error_text) (suggestion : option str) : SchemaValidationResult :=
  mkSchemaValidationResult false
    (errors self ++ [mkSchemaError path message suggestion]) (warnings self).

Definition add_warning (self : SchemaValidationResult) (path : str)
    (message : error_text) (suggestion : option str) : SchemaValidationResult :=
  mkSchemaValidationResult (valid self) (errors self)
    (warnings self ++ [mkSchemaError path message suggestion]).

Definition CORE_SECTIONS : list str :=
  [lit "skill"; lit "inputs"; lit "preconditions"; lit "non_goals";
   lit "decision_rules"; lit "steps"; lit "output_contract";
   lit "failure_modes"].

Definition COVERAGE_SECTIONS : list str := [lit "edge_cases"].

Definition CONTEXT_SECTIONS : list str := [lit "context"].

Definition REQUIRED_SECTIONS : list str := CORE_SECTIONS ++ COVERAGE_SECTIONS.

Definition ERROR_SUGGESTIONS : list (str * str) :=
  [(lit "skill",
    lit "Add a 'skill' section with name, version, purpose, and owner");
   (lit "inputs",
    lit "Add an 'inputs' section with at least one input definition");
   (lit "preconditions",
    lit "Add a 'preconditions' section listing prerequisites");
   (lit "non_goals",
    lit "Add a 'non_goals' section stating what the skill does NOT do");
   (lit "decision_rules",
    lit "Add 'decision_rules' section with explicit conditions");
   (lit "steps", lit "Add a 'steps' section with execution flow");
   (lit "output_contract", lit "Add 'output_contract' with format and schema");
   (lit "failure_modes",
    lit "Add 'failure_modes' section with error definitions");
   (lit "edge_cases",
    lit "Add 'edge_cases' section covering boundary conditions")].

Fixpoint suggestion_for (section : str) (table : list (str * str))
  : option str :=
  match table with
  | [] => None
  | (k, v) :: rest => if str_eqb k section then Some v
                      else suggestion_for section rest
  end.

(** What [jsonschema.validate(spec_data, self.schema)] does. *)
Inductive jsonschema_outcome : Type :=
| JsonSchemaOk
| JsonSchemaValidationError (absolute_path : list loc_item) (text : str)
| JsonSchemaSchemaError (text : str).

(** A validator: its schema path, and how the supplementary JSON-Schema
    document found there judges a spec (the document and the [jsonschema]
    library are outside the repository). *)
Record SchemaValidator : Type := mkSchemaValidator {
  schema_path : option str;
  jsonschema_validate : dict -> jsonschema_outcome
}.

(** [SchemaValidator()] *)
Definition default_validator : SchemaValidator :=
  mkSchemaValidator None (fun _ => JsonSchemaOk).

(** The body of the loop of [_check_required_sections]. *)
Definition check_section (spec_data : dict) (result : SchemaValidationResult)
    (section : str) : SchemaValidationResult :=
  match dict_get section spec_data with
  | None =>
      add_error result section
        (Text (lit "Missing required section: " ++ section))
        (suggestion_for section ERROR_SUGGESTIONS)
  | Some JNull =>
      add_error result section
        (Text (lit "Section '" ++ section ++ lit "' is null"))
        (Some (lit "Provide valid content for '" ++ section ++ lit "'"))
  | Some (JList []) =>
      add_error result section
        (Text (lit "Section '" ++ section ++ lit "' is empty"))
        (Some (lit "Add at least one item to '" ++ section ++ lit "'"))
  | Some _ => result
  end.

Definition _check_required_sections (spec_data : dict)
    (result : SchemaValidationResult) : SchemaValidationResult :=
  fold_left (check_section spec_data) REQUIRED_SECTIONS result.

Definition valid_versions : list str :=
  [lit "skill-spec/1.0"; lit "skill-spec/1.1"].

Section WithRepr.
Context {R : Repr} {L : Lax}.

(** [None]: the membership test raises (the value is a list or a dict). *)
Definition _check_spec_version (spec_data : dict)
    (result : SchemaValidationResult) : option SchemaValidationResult :=
  match dict_get (lit "spec_version") spec_data with
  | None =>
      Some (add_error result (lit "spec_version")
              (Text (lit "Missing required field: spec_version"))
              (Some (lit "Add 'spec_version: " ++ [34%N] ++ lit "skill-spec/1.1"
                       ++ [34%N] ++ lit "'")))
  | Some version =>
      if negb (hashable version) then None
      else if match version with
              | JStr s => existsb (str_eqb s) valid_versions
              | _ => false
              end
      then Some result
      else
        Some (add_warning result (lit "spec_version")
                (Text (lit "Unknown spec version: " ++ py_str version))
                (Some (lit "Use 'skill-spec/1.0' or 'skill-spec/1.1'")))
  end.

Definition last_key (l : list loc_item) : str :=
  match rev l with
  | [] => lit "unknown"
  | i :: _ => loc_str i
  end.

Definition _get_suggestion_for_error (error : PydError) : option str :=
  if str_eqb (error_type error) (lit "missing") then
    Some (lit "Add the required field '" ++ last_key (loc error) ++ lit "'")
  else if str_eqb (error_type error) (lit "string_pattern_mismatch") then
    Some (lit "Check the format matches the required pattern")
  else if str_eqb (error_type error) (lit "string_too_short") then
    Some (lit "Provide a longer value")
  else if str_eqb (error_type error) (lit "list_type") then
    Some (lit "This field should be a list")
  else None.

Definition add_pydantic_error (result : SchemaValidationResult)
    (error : PydError) : SchemaValidationResult :=
  add_error result (loc_path (loc error)) (msg error)
            (_get_suggestion_for_error error).

Definition _validate_with_pydantic (spec_data : dict)
    (result : SchemaValidationResult) : option SchemaValidationResult :=
  match Models.model_validate spec_data with
  | None => None
  | Some errs => Some (fold_left add_pydantic_error errs result)
  end.

Definition _validate_with_jsonschema (self : SchemaValidator)
    (spec_data : dict) (result : SchemaValidationResult)
  : SchemaValidationResult :=
  match jsonschema_validate self spec_data with
  | JsonSchemaOk => result
  | JsonSchemaValidationError absolute_path text =>
      add_error result
        (match absolute_path with
         | [] => lit "root"
         | _ :: _ => loc_path absolute_path
         end)
        (Text text) None
  | JsonSchemaSchemaError text =>
      add_error result (lit "schema") (Text (lit "Invalid schema: " ++ text))
        (Some (lit "Check the JSON Schema file for errors"))
  end.

Definition new_result : SchemaValidationResult :=
  mkSchemaValidationResult true [] [].

Definition validate (self : SchemaValidator) (spec_data : dict)
  : option SchemaValidationResult :=
  let result := _check_required_sections spec_data new_result in
  match _check_spec_version spec_data result with
  | None => None
  | Some result =>
      match (if valid result then _validate_with_pydantic spec_data result
             else Some result) with
      | None => None
      | Some result =>
          if valid result && match schema_path self with
                             | Some _ => true
                             | None => false
                             end
          then Some (_validate_with_jsonschema self spec_data result)
          else Some result
      end
  end.

(** ** The steps of [validate] *)

(** A section that the required-section check lets pass. *)
Definition section_present (d : dict) (section : str) : Prop :=
  exists v, dict_get section d = Some v /\ v <> JNull /\ v <> JList [].

Lemma check_section_present d r section :
  section_present d section -> check_section d r section = r.
Proof.
  intros [v [E [Hnull Hempty]]]. unfold check_section. rewrite E.
  destruct v as [| | | | |l|]; try reflexivity; [congruence|].
  destruct l; [congruence | reflexivity].
Qed.

Lemma check_section_empty d r section :
  dict_get section d = Some (JList []) ->
  check_section d r section =
  add_error r section (Text (lit "Section '" ++ section ++ lit "' is empty"))
    (Some (lit "Add at least one item to '" ++ section ++ lit "'")).
Proof. intros E. unfold check_section. rewrite E. reflexivity. Qed.

Lemma check_sections_present d ss : forall r,
  (forall s, In s ss -> section_present d s) ->
  fold_left (check_section d) ss r = r.
Proof.
  induction ss as [|s ss IH]; intros r H; [reflexivity|].
  simpl. rewrite (check_section_present d r s) by (apply H; left; reflexivity).
  apply IH. intros x Hx. apply H. right. exact Hx.
Qed.

Lemma check_section_warnings d r s :
  warnings (check_section d r s) = warnings r.
Proof.
  unfold check_section.
  destruct (dict_get s d) as [[| | | | |[|x l]|]|]; reflexivity.
Qed.

Lemma check_sections_warnings d ss : forall r,
  warnings (fold_left (check_section d) ss r) = warnings r.
Proof.
  induction ss as [|s ss IH]; intros r; [reflexivity|].
  simpl. rewrite IH. apply check_section_warnings.
Qed.

Definition schema_error_of (e : PydError) : SchemaError :=
  mkSchemaError (loc_path (loc e)) (msg e) (_get_suggestion_for_error e).

Lemma add_pydantic_errors errs : forall r,
  fold_left add_pydantic_error errs r =
  match errs with
  | [] => r
  | _ :: _ =>
      mkSchemaValidationResult false (errors r ++ map schema_error_of errs)
                               (warnings r)
  end.
Proof.
  induction errs as [|e errs IH]; intros r; [reflexivity|].
  simpl fold_left. rewrite IH. destruct errs as [|e' errs].
  - reflexivity.
  - unfold add_pydantic_error, add_error. simpl.
    rewrite <- app_assoc. reflexivity.
Qed.

Lemma _validate_with_jsonschema_warnings self d r :
  warnings (_validate_with_jsonschema self d r) = warnings r.
Proof.
  unfold _validate_with_jsonschema.
  destruct (jsonschema_validate self d); reflexivity.
Qed.

(** The result of the version check, for a version that is a string. *)
Definition unknown_version_warning (version : str) : SchemaError :=
  mkSchemaError (lit "spec_version")
    (Text (lit "Unknown spec version: " ++ version))
    (Some (lit "Use 'skill-spec/1.0' or 'skill-spec/1.1'")).

Lemma _check_spec_version_str d r version :
  dict_get (lit "spec_version") d = Some (JStr version) ->
  _check_spec_version d r =
  Some (if existsb (str_eqb version) valid_versions then r
        else add_warning r (lit "spec_version")
               (Text (lit "Unknown spec version: " ++ version))
               (Some (lit "Use 'skill-spec/1.0' or 'skill-spec/1.1'"))).
Proof.
  intros E. unfold _check_spec_version. rewrite E.
  change (negb (hashable (JStr version))) with false. cbv iota.
  destruct (existsb (str_eqb version) valid_versions); reflexivity.
Qed.

(** The version check never makes an invalid result valid. *)
Lemma _check_spec_version_keeps_invalid d r r' :
  _check_spec_version d r = Some r' -> valid r = false -> valid r' = false.
Proof.
  unfold _check_spec_version.
  destruct (dict_get (lit "spec_version") d) as [version|].
  - destruct (negb (hashable version)); [discriminate|].
    match goal with |- (if ?c then _ else _) = _ -> _ => destruct c end.
    + intros H Hv. injection H as <-. exact Hv.
    + intros H Hv. injection H as <-. exact Hv.
  - intros H _. injection H as <-. reflexivity.
Qed.

Lemma _check_spec_version_valid d r r' :
  _check_spec_version d r = Some r' -> valid r' = true ->
  valid r = true /\ errors r' = errors r.
Proof.
  unfold _check_spec_version.
  destruct (dict_get (lit "spec_version") d) as [version|].
  - destruct (negb (hashable version)); [discriminate|].
    match goal with |- (if ?c then _ else _) = _ -> _ => destruct c end.
    + intros H Hv. injection H as <-. split; [exact Hv | reflexivity].
    + intros H Hv. injection H as <-. split; [exact Hv | reflexivity].
  - intros H Hv. injection H as <-. discriminate.
Qed.

(** How [validate] goes on after the first two checks. *)
Lemma validate_after_version self d r :
  validate self d = Some r ->
  exists r1,
    _check_spec_version d (_check_required_sections d new_result) = Some r1 /\
    (valid r1 = false -> r = r1) /\
    (valid r1 = true ->
     exists errs,
       Models.model_validate d = Some errs /\
       match errs with
       | [] => r = r1 \/ r = _validate_with_jsonschema self d r1
       | _ :: _ => r = fold_left add_pydantic_error errs r1
       end).
Proof.
  unfold validate.
  destruct (_check_spec_version d (_check_required_sections d new_result))
    as [r1|]; [|discriminate].
  intros H. exists r1. split; [reflexivity|].
  destruct (valid r1) eqn:Hv.
  - split; [discriminate|]. intros _.
    unfold _validate_with_pydantic in H.
    destruct (Models.model_validate d) as [errs|]; [|discriminate].
    exists errs. split; [reflexivity|].
    rewrite add_pydantic_errors in H. destruct errs as [|e errs].
    + rewrite Hv in H. simpl in H.
      destruct (schema_path self); injection H as <-; [right | left];
        reflexivity.
    + simpl in H. injection H as <-. rewrite add_pydantic_errors.
      reflexivity.
  - split; [|discriminate]. intros _. rewrite Hv in H. simpl in H.
    injection H as <-. reflexivity.
Qed.

(** The warnings are those of the version check. *)
Lemma validate_warnings self d r :
  validate self d = Some r ->
  exists r1,
    _check_spec_version d (_check_required_sections d new_result) = Some r1 /\
    warnings r = warnings r1.
Proof.
  intros Hr.
  destruct (validate_after_version self d r Hr) as [r1 [H1 [Hinv Hval]]].
  exists r1. split; [exact H1|].
  destruct (valid r1) eqn:Hv.
  - destruct (Hval eq_refl) as [errs [_ Hr']].
    destruct errs as [|e errs].
    + destruct Hr' as [-> | ->]; [reflexivity|].
      apply _validate_with_jsonschema_warnings.
    + rewrite Hr', add_pydantic_errors. reflexivity.
  - rewrite (Hinv eq_refl). reflexivity.
Qed.

End WithRepr.

(** ** Specs that the typed model accepts *)

Section Accepted.
Context {L : Lax}.

Arguments Models.accepted_required {L} d name%_string t.

Lemma accepted_section d name t :
  fields_errors validate_type true d Models.SkillSpec_fields = [] ->
  In (Models.required name t) Models.SkillSpec_fields ->
  validate_type t JNull <> [] ->
  validate_type t (JList []) <> [] ->
  section_present d (lit name).
Proof.
  intros Hf Hin Hnull Hempty.
  destruct (Models.accepted_required d name t Hf Hin Hnull)
    as [v [E [Hv Hok]]].
  exists v. split; [exact E|]. split; [exact Hv|].
  intros ->. exact (Hempty Hok).
Qed.

Arguments accepted_section d name%_string t.

Ltac field_in := simpl; repeat (first [left; reflexivity | right]).
Ltac rejected := let H := fresh in intros H; vm_compute in H; discriminate.

(** The required-section check passes on an accepted spec whose
    [decision_rules] is not an empty list. *)
Lemma accepted_sections d :
  validate_type Models.SkillSpec_type (JDict d) = [] ->
  dict_get (lit "decision_rules") d <> Some (JList []) ->
  forall s, In s REQUIRED_SECTIONS -> section_present d s.
Proof.
  intros Hacc Hrules s Hs.
  destruct (Models.accepted_fields d Hacc) as [Hf _].
  unfold REQUIRED_SECTIONS, CORE_SECTIONS, COVERAGE_SECTIONS in Hs.
  simpl in Hs.
  destruct Hs as [<- | [<- | [<- | [<- | [<- | [<- | [<- | [<- | [<- | []]]]]]]]]].
  - apply (accepted_section d "skill" Models.SkillMetadata_type Hf);
      [field_in | rejected | rejected].
  - apply (accepted_section d "inputs"
             (TList Models.InputSpec_type (Some 1)) Hf);
      [field_in | rejected | rejected].
  - apply (accepted_section d "preconditions"
             (TList Models.str_ (Some 1)) Hf);
      [field_in | rejected | rejected].
  - apply (accepted_section d "non_goals" (TList Models.str_ (Some 1)) Hf);
      [field_in | rejected | rejected].
  - destruct (Models.accepted_required d "decision_rules"
                (TUnion [(lit "dict[str,any]", TDictAny);
                         (lit "list[DecisionRule]",
                          Models.list_of Models.DecisionRule_type)]) Hf)
      as [v [E [Hv _]]]; [field_in | rejected |].
    exists v. split; [exact E|]. split; [exact Hv|].
    intros ->. exact (Hrules E).
  - apply (accepted_section d "steps"
             (TList Models.ExecutionStep_type (Some 1)) Hf);
      [field_in | rejected | rejected].
  - apply (accepted_section d "output_contract" Models.OutputContract_type Hf);
      [field_in | rejected | rejected].
  - apply (accepted_section d "failure_modes"
             (TList Models.FailureMode_type (Some 1)) Hf);
      [field_in | rejected | rejected].
  - apply (accepted_section d "edge_cases"
             (TList Models.EdgeCase_type (Some 1)) Hf);
      [field_in | rejected | rejected].
Qed.

End Accepted.

Lemma version_1_2_unknown :
  existsb (str_eqb (lit "skill-spec/1.2")) valid_versions = false.
Proof. vm_compute. reflexivity. Qed.

Definition no_errors (errs : list PydError) : bool :=
  match errs with [] => true | _ :: _ => false end.

Section ByModel.
Context {R : Repr} {L : Lax}.

(** The result of the default validator on a spec that passes the section
    check, by what the typed model says. *)
Lemma validate_by_model d version errs :
  dict_get (lit "spec_version") d = Some (JStr version) ->
  (forall s, In s REQUIRED_SECTIONS -> section_present d s) ->
  Models.model_validate d = Some errs ->
  exists r,
    validate default_validator d = Some r /\
    valid r = no_errors errs /\
    errors r = map schema_error_of errs.
Proof.
  intros Hversion Hsections Hmodel.
  assert (Hs : _check_required_sections d new_result = new_result)
    by (apply check_sections_present; exact Hsections).
  unfold validate. rewrite Hs, (_check_spec_version_str d _ version Hversion).
  unfold _validate_with_pydantic. rewrite Hmodel, add_pydantic_errors.
  destruct (existsb (str_eqb version) valid_versions);
    destruct errs as [|e errs]; eexists;
    (split; [reflexivity|]); split; reflexivity.
Qed.

(** The result of any validator on a spec that passes the section check and
    that the typed model rejects. *)
Lemma validate_model_errors self d version e errs :
  dict_get (lit "spec_version") d = Some (JStr version) ->
  (forall s, In s REQUIRED_SECTIONS -> section_present d s) ->
  Models.model_validate d = Some (e :: errs) ->
  exists r,
    validate self d = Some r /\
    valid r = false /\
    errors r = map schema_error_of (e :: errs).
Proof.
  intros Hversion Hsections Hmodel.
  assert (Hs : _check_required_sections d new_result = new_result)
    by (apply check_sections_present; exact Hsections).
  unfold validate. rewrite Hs, (_check_spec_version_str d _ version Hversion).
  unfold _validate_with_pydantic. rewrite Hmodel, add_pydantic_errors.
  destruct (existsb (str_eqb version) valid_versions); eexists;
    (split; [reflexivity|]); split; reflexivity.
Qed.

End ByModel.

Lemma schema_error_of_value_error text :
  schema_error_of (value_error text) =
  mkSchemaError [] (Text (lit "Value error, " ++ text)) None.
Proof. reflexivity. Qed.

End Schema.

(* ================================================================== *)
(** * validator/quality.py: quality validation (layer 2) *)
(* ================================================================== *)

Module Quality.
Import PyStr Json.

(** A call that raises (a pattern that does not compile, a method called on
    a value that does not have it) has no result: [None]. *)

Record PatternViolation : Type := mkPatternViolation {
  v_path : str;
  v_pattern : str;
  matched_text : str;
  v_category : str;
  v_severity : str;
  fix_suggestion : str;
  line_number : option Z
}.

Record QualityValidationResult : Type := mkQualityValidationResult {
  valid : bool;
  violations : list PatternViolation;
  category_counts : list (str * nat);
  total_errors : nat;
  total_warnings : nat;
  total_info : nat
}.

(** [counts[category] = counts.get(category, 0) + 1] *)
Fixpoint count_category (category : str) (counts : list (str * nat))
  : list (str * nat) :=
  match counts with
  | [] => [(category, 0 + 1)]
  | (k, n) :: rest =>
      if str_eqb k category then (k, n + 1) :: rest
      else (k, n) :: count_category category rest
  end.

Definition add_violation (result : QualityValidationResult)
    (violation : PatternViolation) : QualityValidationResult :=
  let violations' := violations result ++ [violation] in
  let counts' := count_category (v_category violation)
                                (category_counts result) in
  if str_eqb (v_severity violation) (lit "error") then
    mkQualityValidationResult false violations' counts'
      (total_errors result + 1) (total_warnings result) (total_info result)
  else if str_eqb (v_severity violation) (lit "warning") then
    mkQualityValidationResult (valid result) violations' counts'
      (total_errors result) (total_warnings result + 1) (total_info result)
  else if str_eqb (v_severity violation) (lit "info") then
    mkQualityValidationResult (valid result) violations' counts'
      (total_errors result) (total_warnings result) (total_info result + 1)
  else
    mkQualityValidationResult (valid result) violations' counts'
      (total_errors result) (total_warnings result) (total_info result).

Record ForbiddenPattern : Type := mkForbiddenPattern {
  fp_pattern : str;
  fp_category : str;
  fp_severity : str;
  fp_context : str;
  fp_fix : str;
  is_regex : bool
}.

(** [ForbiddenPattern.match]: the matched text, if any. *)
Definition ForbiddenPattern_match (self : ForbiddenPattern) (text : str)
  : option (option str) :=
  if is_regex self then
    match Regex.compile (Regex.mkFlags true false false) (fp_pattern self) with
    | None => None
    | Some r =>
        match Regex.search r text with
        | Some m => Some (Some (Regex.group0 m))
        | None => Some None
        end
    end
  else
    let lower_text := lower text in
    let lower_pattern := lower (fp_pattern self) in
    if contains lower_pattern lower_text then
      let idx := Z.to_nat (find lower_pattern lower_text) in
      Some (Some (slice text idx (idx + length (fp_pattern self))))
    else Some None.

(** The scan scope: the paths of [scanned_fields] and [ignored_fields] and
    the patterns of [ignore_patterns]. *)
Record ScanScope : Type := mkScanScope {
  scanned_fields : list str;
  ignored_fields : list str;
  ignore_pattern_sources : list str
}.

Record QualityValidator : Type := mkQualityValidator {
  patterns : list ForbiddenPattern;
  scan_scope : ScanScope
}.

Definition _get_default_patterns : list ForbiddenPattern :=
  [ mkForbiddenPattern (lit "as needed") (lit "VAGUE_CONDITION") (lit "error")
      (lit "instruction") (lit "Replace with explicit condition") false;
    mkForbiddenPattern (lit "if appropriate") (lit "VAGUE_CONDITION")
      (lit "error") (lit "instruction")
      (lit "Define what 'appropriate' means") false;
    mkForbiddenPattern (lit "try to") (lit "VAGUE_ACTION") (lit "error")
      (lit "action") (lit "Remove 'try to' and state definite action") false;
    mkForbiddenPattern (lit "\bhelp\b") (lit "VAGUE_ACTION") (lit "error")
      (lit "action") (lit "Replace with specific action") true;
    mkForbiddenPattern (lit "\bgenerally\b") (lit "VAGUE_DEGREE") (lit "error")
      (lit "any") (lit "Remove or specify exact cases") true;
    mkForbiddenPattern (lit "\btypically\b") (lit "VAGUE_DEGREE") (lit "error")
      (lit "any") (lit "Remove or specify exact cases") true;
    mkForbiddenPattern (lit "\bmight\b") (lit "HEDGE_WORDS") (lit "warning")
      (lit "any") (lit "State definite outcome") true;
    mkForbiddenPattern (lit "\bcould\b") (lit "HEDGE_WORDS") (lit "warning")
      (lit "any") (lit "State definite outcome") true ].

Definition default_scan_scope : ScanScope :=
  mkScanScope
    [lit "steps[*].action"; lit "skill.purpose"; lit "inputs[*].description"]
    [lit "spec_version"; lit "skill.name"; lit "skill.version"]
    [lit "```[\s\S]*?```"; lit "`[^`]+`"].

(** [QualityValidator()] without a patterns directory. *)
Definition default_validator : QualityValidator :=
  mkQualityValidator _get_default_patterns default_scan_scope.

(** The compiled ignore patterns; a pattern that does not compile is
    skipped. *)
Definition ignore_patterns (self : QualityValidator) : list Regex.re :=
  flat_map (fun src =>
              match Regex.compile (Regex.mkFlags false false true) src with
              | Some r => [r]
              | None => []
              end)
           (ignore_pattern_sources (scan_scope self)).

Definition _preprocess_text (self : QualityValidator) (text : str) : str :=
  fold_left (fun result pattern => Regex.sub_empty pattern result)
            (ignore_patterns self) text.

(** Does the path match the scanned-field pattern? *)
Definition scanned_path_matches (scanned_path path : str) : option bool :=
  let pattern := replace (lit "[*]") (lit "\[\d+\]") scanned_path in
  match Regex.compile Regex.no_flags (lit "^" ++ pattern ++ lit "$") with
  | None => None
  | Some r =>
      Some (match Regex.py_match r path with Some _ => true | None => false end)
  end.

(** The [for scanned in ...] loop on a string leaf: [Some true] when a
    pattern matches (the loop breaks), [Some false] when none does. *)
Fixpoint any_scanned (scanned : list str) (path : str) : option bool :=
  match scanned with
  | [] => Some false
  | scanned_path :: rest =>
      match scanned_path_matches scanned_path path with
      | None => None
      | Some true => Some true
      | Some false => any_scanned rest path
      end
  end.

Definition is_empty {A : Type} (l : list A) : bool :=
  match l with [] => true | _ :: _ => false end.

Definition dict_path (path key : str) : str :=
  if is_empty path then key else path ++ lit "." ++ key.

Definition list_path (path : str) (i : nat) : str :=
  path ++ lit "[" ++ str_of_nat i ++ lit "]".

(** The loops of [extract] over the items of a dict and over the elements
    of a list, for a given way [f] to extract from a value. *)
Definition extract_items (f : json -> str -> option (list (str * str)))
    (path : str) : list (str * json) -> option (list (str * str)) :=
  fix items (d : list (str * json)) : option (list (str * str)) :=
    match d with
    | [] => Some []
    | (key, value) :: d' =>
        match f value (dict_path path key) with
        | None => None
        | Some here =>
            match items d' with
            | None => None
            | Some there => Some (here ++ there)
            end
        end
    end.

Definition extract_elements (f : json -> str -> option (list (str * str)))
    (path : str) : nat -> list json -> option (list (str * str)) :=
  fix elements (i : nat) (l : list json) : option (list (str * str)) :=
    match l with
    | [] => Some []
    | item :: l' =>
        match f item (list_path path i) with
        | None => None
        | Some here =>
            match elements (S i) l' with
            | None => None
            | Some there => Some (here ++ there)
            end
        end
    end.

(** What [extract] does with a string leaf. *)
Definition extract_leaf (self : QualityValidator) (s path : str)
  : option (list (str * str)) :=
  match any_scanned (scanned_fields (scan_scope self)) path with
  | None => None
  | Some true => Some [(path, s)]
  | Some false =>
      if is_empty (scanned_fields (scan_scope self))
      then Some [(path, s)] else Some []
  end.

(** The inner function [extract(data, path)] of [_get_scannable_fields];
    its result is what it appends to [fields]. *)
Fixpoint extract (self : QualityValidator) (data : json) (path : str)
  {struct data} : option (list (str * str)) :=
  if existsb (str_eqb path) (ignored_fields (scan_scope self)) then Some []
  else
    match data with
    | JStr s => extract_leaf self s path
    | JDict d => extract_items (extract self) path d
    | JList l => extract_elements (extract self) path 0 l
    | _ => Some []
    end.

Definition _get_scannable_fields (self : QualityValidator)
    (spec_data : dict) : option (list (str * str)) :=
  extract self (JDict spec_data) [].

(** The loop over the patterns for one field. *)
Fixpoint scan_patterns (pats : list ForbiddenPattern) (path preprocessed : str)
    (result : QualityValidationResult) : option QualityValidationResult :=
  match pats with
  | [] => Some result
  | pattern :: rest =>
      match ForbiddenPattern_match pattern preprocessed with
      | None => None
      | Some (Some (c :: m)) =>
          scan_patterns rest path preprocessed
            (add_violation result
               (mkPatternViolation path (fp_pattern pattern) (c :: m)
                  (fp_category pattern) (fp_severity pattern)
                  (fp_fix pattern) None))
      | Some _ => scan_patterns rest path preprocessed result
      end
  end.

(** The loop over the fields. *)
Fixpoint scan_fields (self : QualityValidator) (fields : list (str * str))
    (result : QualityValidationResult) : option QualityValidationResult :=
  match fields with
  | [] => Some result
  | (path, value) :: rest =>
      match scan_patterns (patterns self) path
                          (_preprocess_text self value) result with
      | None => None
      | Some result' => scan_fields self rest result'
      end
  end.

Section WithRepr.
Context {R : Repr}.

(** The body of the loop of [_validate_decision_rules] for rule [i].  A rule
    that is not a mapping has no [get]: [None]. *)
Definition check_rule (i : nat) (rule : json)
    (result : QualityValidationResult) : option QualityValidationResult :=
  match rule with
  | JDict r =>
      let rule_id :=
        py_str (dict_get_default (lit "id")
                  (JStr (lit "rule_" ++ str_of_nat i)) r) in
      let when := dict_get (lit "when") r in
      let result1 :=
        if is_none when then
          add_violation result
            (mkPatternViolation
               (lit "decision_rules." ++ rule_id ++ lit ".when")
               (lit "missing") (lit "<missing>")
               (lit "MISSING_CONDITION") (lit "error")
               (lit "Add 'when' condition to decision rule") None)
        else
          match when with
          | Some (JStr w) =>
              if is_empty (strip w) then
                add_violation result
                  (mkPatternViolation
                     (lit "decision_rules." ++ rule_id ++ lit ".when")
                     (lit "empty") (lit "<empty>")
                     (lit "EMPTY_CONDITION") (lit "error")
                     (lit "Provide non-empty 'when' condition") None)
              else result
          | _ => result
          end in
      if is_none (dict_get (lit "then") r) then
        Some (add_violation result1
                (mkPatternViolation
                   (lit "decision_rules." ++ rule_id ++ lit ".then")
                   (lit "missing") (lit "<missing>")
                   (lit "MISSING_ACTION") (lit "error")
                   (lit "Add 'then' action to decision rule") None))
      else Some result1
  | _ => None
  end.

Fixpoint check_rules (i : nat) (rules : list json)
    (result : QualityValidationResult) : option QualityValidationResult :=
  match rules with
  | [] => Some result
  | rule :: rest =>
      match check_rule i rule result with
      | None => None
      | Some result' => check_rules (S i) rest result'
      end
  end.

Definition _validate_decision_rules (spec_data : dict)
    (result : QualityValidationResult) : option QualityValidationResult :=
  let decision_rules :=
    dict_get_default (lit "decision_rules") (JDict []) spec_data in
  let rules :=
    match decision_rules with
    | JList l => l
    | JDict d =>
        map snd (filter (fun kv => negb (str_eqb (fst kv) (lit "_config"))
                                   && is_dict (snd kv)) d)
    | _ => []
    end in
  check_rules 0 rules result.

(** [type(schema).__name__] *)
Definition type_name (v : json) : str :=
  match v with
  | JNull => lit "NoneType"
  | JBool _ => lit "bool"
  | JInt _ => lit "int"
  | JFloat _ _ => lit "float"
  | JStr _ => lit "str"
  | JList _ => lit "list"
  | JDict _ => lit "dict"
  end.

Definition _validate_output_contract (spec_data : dict)
    (result : QualityValidationResult) : option QualityValidationResult :=
  match dict_get_default (lit "output_contract") (JDict []) spec_data with
  | JDict output_contract =>
      let schema := dict_get (lit "schema") output_contract in
      if is_none schema then
        Some (add_violation result
                (mkPatternViolation (lit "output_contract.schema")
                   (lit "missing") (lit "<missing>") (lit "MISSING_SCHEMA")
                   (lit "error")
                   (lit "Add JSON Schema for output validation") None))
      else
        match schema with
        | Some (JDict sch) =>
            if negb (dict_has (lit "type") sch)
               && negb (dict_has (lit "$ref") sch)
            then
              Some (add_violation result
                      (mkPatternViolation (lit "output_contract.schema")
                         (lit "missing_type") (lit "<no type>")
                         (lit "INCOMPLETE_SCHEMA") (lit "warning")
                         (lit "Add 'type' field to schema") None))
            else Some result
        | Some other =>
            Some (add_violation result
                    (mkPatternViolation (lit "output_contract.schema")
                       (lit "invalid_type") (type_name other)
                       (lit "INVALID_SCHEMA") (lit "error")
                       (lit "Schema must be a JSON Schema object") None))
        | None => Some result
        end
  | _ => None
  end.

Definition empty_result : QualityValidationResult :=
  mkQualityValidationResult true [] [] 0 0 0.

(** The first part of [validate]: the forbidden-pattern scan. *)
Definition scan_spec (self : QualityValidator) (spec_data : dict)
  : option QualityValidationResult :=
  match _get_scannable_fields self spec_data with
  | None => None
  | Some fields => scan_fields self fields empty_result
  end.

Definition validate (self : QualityValidator) (spec_data : dict)
  : option QualityValidationResult :=
  match scan_spec self spec_data with
  | None => None
  | Some result =>
      match _validate_decision_rules spec_data result with
      | None => None
      | Some result' => _validate_output_contract spec_data result'
      end
  end.

(** ** What a scan adds to a result *)

Definition is_error (v : PatternViolation) : bool :=
  str_eqb (v_severity v) (lit "error").

Lemma add_violation_violations r v :
  violations (add_violation r v) = violations r ++ [v].
Proof.
  unfold add_violation.
  destruct (str_eqb (v_severity v) (lit "error")); [reflexivity|].
  destruct (str_eqb (v_severity v) (lit "warning")); [reflexivity|].
  destruct (str_eqb (v_severity v) (lit "info")); reflexivity.
Qed.

Lemma add_violation_valid r v :
  valid (add_violation r v) = valid r && negb (is_error v).
Proof.
  unfold add_violation, is_error.
  destruct (str_eqb (v_severity v) (lit "error")).
  - simpl. rewrite andb_false_r. reflexivity.
  - rewrite andb_true_r.
    destruct (str_eqb (v_severity v) (lit "warning")); [reflexivity|].
    destruct (str_eqb (v_severity v) (lit "info")); reflexivity.
Qed.

(** A later result: more violations at the end, and still invalid if it was
    invalid. *)
Definition extends (r r' : QualityValidationResult) (vs : list PatternViolation)
  : Prop :=
  violations r' = violations r ++ vs /\
  valid r' = valid r && forallb (fun v => negb (is_error v)) vs.

Lemma extends_refl r : extends r r [].
Proof.
  split; [rewrite app_nil_r; reflexivity|]. simpl. rewrite andb_true_r.
  reflexivity.
Qed.

Lemma extends_add r v : extends r (add_violation r v) [v].
Proof.
  split; [apply add_violation_violations|].
  rewrite add_violation_valid. simpl. rewrite andb_true_r. reflexivity.
Qed.

Lemma extends_trans a b c vs ws :
  extends a b vs -> extends b c ws -> extends a c (vs ++ ws).
Proof.
  intros [H1 H2] [H3 H4]. split.
  - rewrite H3, H1, app_assoc. reflexivity.
  - rewrite H4, H2, forallb_app, andb_assoc. reflexivity.
Qed.

(** The violations one field yields, in the order of the patterns. *)
Fixpoint pattern_violations (pats : list ForbiddenPattern)
    (path preprocessed : str) : option (list PatternViolation) :=
  match pats with
  | [] => Some []
  | pattern :: rest =>
      match ForbiddenPattern_match pattern preprocessed with
      | None => None
      | Some found =>
          match pattern_violations rest path preprocessed with
          | None => None
          | Some vs =>
              match found with
              | Some (c :: m) =>
                  Some (mkPatternViolation path (fp_pattern pattern) (c :: m)
                          (fp_category pattern) (fp_severity pattern)
                          (fp_fix pattern) None :: vs)
              | _ => Some vs
              end
          end
      end
  end.

Lemma scan_patterns_spec pats path text : forall r,
  match pattern_violations pats path text with
  | Some vs => exists r', scan_patterns pats path text r = Some r' /\
                          extends r r' vs
  | None => scan_patterns pats path text r = None
  end.
Proof.
  induction pats as [|p pats IH]; intros r; simpl.
  - exists r. split; [reflexivity | apply extends_refl].
  - destruct (ForbiddenPattern_match p text) as [found|]; [|reflexivity].
    destruct found as [[|c m]|].
    + specialize (IH r).
      destruct (pattern_violations pats path text); exact IH.
    + set (v := mkPatternViolation path (fp_pattern p) (c :: m)
                  (fp_category p) (fp_severity p) (fp_fix p) None).
      specialize (IH (add_violation r v)).
      destruct (pattern_violations pats path text) as [vs|]; [|exact IH].
      destruct IH as [r' [E He]]. exists r'. split; [exact E|].
      exact (extends_trans _ _ _ [v] vs (extends_add r v) He).
    + specialize (IH r).
      destruct (pattern_violations pats path text); exact IH.
Qed.

(** The violations of a list of fields. *)
Fixpoint field_violations (self : QualityValidator)
    (fields : list (str * str)) : option (list PatternViolation) :=
  match fields with
  | [] => Some []
  | (path, value) :: rest =>
      match pattern_violations (patterns self) path
                               (_preprocess_text self value) with
      | None => None
      | Some vs =>
          match field_violations self rest with
          | None => None
          | Some ws => Some (vs ++ ws)
          end
      end
  end.

Lemma scan_fields_spec self fields : forall r,
  match field_violations self fields with
  | Some vs => exists r', scan_fields self fields r = Some r' /\
                          extends r r' vs
  | None => scan_fields self fields r = None
  end.
Proof.
  induction fields as [|[path value] fields IH]; intros r; simpl.
  - exists r. split; [reflexivity | apply extends_refl].
  - pose proof (scan_patterns_spec (patterns self) path
                  (_preprocess_text self value) r) as Hp.
    destruct (pattern_violations (patterns self) path
                (_preprocess_text self value)) as [vs|].
    + destruct Hp as [r1 [E1 He1]]. rewrite E1. specialize (IH r1).
      destruct (field_violations self fields) as [ws|]; [|exact IH].
      destruct IH as [r' [E He]]. exists r'. split; [exact E|].
      exact (extends_trans _ _ _ vs ws He1 He).
    + rewrite Hp. reflexivity.
Qed.


(** The two checks after the scan only add violations. *)
Lemma check_rule_extends i rule r r' :
  check_rule i rule r = Some r' -> exists vs, extends r r' vs.
Proof.
  unfold check_rule. destruct rule as [| | | | | |d]; try discriminate.
  cbv zeta.
  match goal with
  | |- (if _ then Some (add_violation ?r1 ?v) else _) = _ -> _ =>
      assert (H1 : exists vs, extends r r1 vs)
  end.
  { destruct (is_none (dict_get (lit "when") d)).
    - eexists. apply extends_add.
    - destruct (dict_get (lit "when") d) as [[| | | |w| |]|];
        try (eexists; apply extends_refl).
      destruct (is_empty (strip w)); eexists;
        [apply extends_add | apply extends_refl]. }
  destruct H1 as [vs Hvs].
  destruct (is_none (dict_get (lit "then") d)); intros H; injection H as <-.
  - eexists. eapply extends_trans; [exact Hvs | apply extends_add].
  - exists vs. exact Hvs.
Qed.

Lemma check_rules_extends rules : forall i r r',
  check_rules i rules r = Some r' -> exists vs, extends r r' vs.
Proof.
  induction rules as [|rule rules IH]; intros i r r'; simpl.
  - intros H. injection H as <-. exists []. apply extends_refl.
  - destruct (check_rule i rule r) as [r1|] eqn:E1; [|discriminate].
    intros H. destruct (check_rule_extends i rule r r1 E1) as [vs Hvs].
    destruct (IH _ _ _ H) as [ws Hws]. exists (vs ++ ws).
    exact (extends_trans _ _ _ vs ws Hvs Hws).
Qed.

Lemma _validate_output_contract_extends d r r' :
  _validate_output_contract d r = Some r' -> exists vs, extends r r' vs.
Proof.
  unfold _validate_output_contract.
  destruct (dict_get_default (lit "output_contract") (JDict []) d)
    as [| | | | | |oc]; try discriminate.
  destruct (is_none (dict_get (lit "schema") oc)).
  { intros H. injection H as <-. eexists. apply extends_add. }
  destruct (dict_get (lit "schema") oc) as [[| | | | | |sch]|];
    try (intros H; injection H as <-; eexists;
         first [apply extends_add | apply extends_refl]).
  destruct (negb (dict_has (lit "type") sch)
            && negb (dict_has (lit "$ref") sch));
    intros H; injection H as <-; eexists;
    [apply extends_add | apply extends_refl].
Qed.

(** ** Where a field of the spec ends up *)



(** ** The default validator never raises during the scan *)

Lemma extract_dict self d path :
  existsb (str_eqb path) (ignored_fields (scan_scope self)) = false ->
  extract self (JDict d) path = extract_items (extract self) path d.
Proof.
  intros H.
  transitivity (if existsb (str_eqb path) (ignored_fields (scan_scope self))
                then Some [] else extract_items (extract self) path d);
    [reflexivity | rewrite H; reflexivity].
Qed.

Lemma extract_list self l path :
  existsb (str_eqb path) (ignored_fields (scan_scope self)) = false ->
  extract self (JList l) path = extract_elements (extract self) path 0 l.
Proof.
  intros H.
  transitivity (if existsb (str_eqb path) (ignored_fields (scan_scope self))
                then Some [] else extract_elements (extract self) path 0 l);
    [reflexivity | rewrite H; reflexivity].
Qed.

Lemma extract_str self s path :
  existsb (str_eqb path) (ignored_fields (scan_scope self)) = false ->
  extract self (JStr s) path = extract_leaf self s path.
Proof.
  intros H.
  transitivity (if existsb (str_eqb path) (ignored_fields (scan_scope self))
                then Some [] else extract_leaf self s path);
    [reflexivity | rewrite H; reflexivity].
Qed.

Lemma extract_ignored self data path :
  existsb (str_eqb path) (ignored_fields (scan_scope self)) = true ->
  extract self data path = Some [].
Proof.
  intros H.
  transitivity (if existsb (str_eqb path) (ignored_fields (scan_scope self))
                then Some []
                else match data with
                     | JStr s => extract_leaf self s path
                     | JDict d => extract_items (extract self) path d
                     | JList l => extract_elements (extract self) path 0 l
                     | _ => Some []
                     end);
    [destruct data; reflexivity | rewrite H; reflexivity].
Qed.

Lemma extract_scalar self data path :
  is_dict data = false -> is_list data = false ->
  (forall s, data <> JStr s) ->
  extract self data path = Some [].
Proof.
  intros Hd Hl Hs.
  destruct (existsb (str_eqb path) (ignored_fields (scan_scope self))) eqn:E.
  - apply extract_ignored. exact E.
  - destruct data; try discriminate;
      try (transitivity
             (if existsb (str_eqb path) (ignored_fields (scan_scope self))
              then @Some (list (str * str)) [] else Some []);
           [reflexivity | rewrite E; reflexivity]).
    exfalso. exact (Hs s eq_refl).
Qed.

Definition defined {A : Type} (x : option A) : Prop := exists a, x = Some a.

Lemma default_scanned_path_matches scanned_path path :
  In scanned_path (scanned_fields default_scan_scope) ->
  defined (scanned_path_matches scanned_path path).
Proof.
  intros Hin. unfold scanned_path_matches.
  destruct (Regex.compile Regex.no_flags
              (lit "^" ++ replace (lit "[*]") (lit "\[\d+\]") scanned_path
                 ++ lit "$")) as [r|] eqn:E.
  - eexists. reflexivity.
  - exfalso. simpl in Hin.
    destruct Hin as [<- | [<- | [<- | []]]]; vm_compute in E; discriminate.
Qed.

Lemma any_scanned_defined scanned path :
  (forall sp, In sp scanned -> defined (scanned_path_matches sp path)) ->
  defined (any_scanned scanned path).
Proof.
  induction scanned as [|sp scanned IH]; intros H; simpl.
  - eexists. reflexivity.
  - destruct (H sp (or_introl eq_refl)) as [b E]. rewrite E.
    destruct b; [eexists; reflexivity|].
    apply IH. intros x Hx. apply H. right. exact Hx.
Qed.

Lemma extract_items_defined f path d :
  Forall (fun kv => forall p, defined (f (snd kv) p)) d ->
  defined (extract_items f path d).
Proof.
  induction d as [|[k v] d IH]; intros H; simpl.
  - eexists. reflexivity.
  - inversion H as [|x xs Hv Hd]; subst. simpl in Hv.
    destruct (Hv (dict_path path k)) as [here ->].
    destruct (IH Hd) as [there ->]. eexists. reflexivity.
Qed.

Lemma extract_elements_defined f path l :
  Forall (fun x => forall p, defined (f x p)) l ->
  forall i, defined (extract_elements f path i l).
Proof.
  induction l as [|x l IH]; intros H i; simpl.
  - eexists. reflexivity.
  - inversion H as [|y ys Hx Hl]; subst.
    destruct (Hx (list_path path i)) as [here ->].
    destruct (IH Hl (S i)) as [there ->]. eexists. reflexivity.
Qed.

Lemma extract_default_defined data :
  forall path, defined (extract default_validator data path).
Proof.
  induction data as [| b | z | n d | s | l IH | d IH] using json_nested_ind;
    intros path;
    try (eexists; apply extract_scalar; try reflexivity; discriminate);
    destruct (existsb (str_eqb path)
                (ignored_fields (scan_scope default_validator))) eqn:E;
    try (eexists; apply extract_ignored; exact E).
  - rewrite (extract_str _ _ _ E). unfold extract_leaf.
    destruct (any_scanned_defined
                (scanned_fields (scan_scope default_validator)) path) as [b ->].
    { intros sp Hsp. apply default_scanned_path_matches. exact Hsp. }
    destruct b; [eexists; reflexivity|].
    destruct (is_empty _); eexists; reflexivity.
  - rewrite (extract_list _ _ _ E). apply extract_elements_defined. exact IH.
  - rewrite (extract_dict _ _ _ E). apply extract_items_defined. exact IH.
Qed.

(** A pattern that [ForbiddenPattern.match] can run. *)
Definition runnable (p : ForbiddenPattern) : bool :=
  negb (is_regex p) ||
  match Regex.compile (Regex.mkFlags true false false) (fp_pattern p) with
  | Some _ => true
  | None => false
  end.

Lemma default_patterns_runnable :
  forallb runnable _get_default_patterns = true.
Proof. vm_compute. reflexivity. Qed.

Lemma pattern_violations_defined pats path text :
  forallb runnable pats = true ->
  defined (pattern_violations pats path text).
Proof.
  induction pats as [|p pats IH]; simpl; intros H.
  - eexists. reflexivity.
  - apply andb_true_iff in H as [Hp Hrest].
    destruct (IH Hrest) as [vs Evs].
    assert (Hm : defined (ForbiddenPattern_match p text)).
    { unfold ForbiddenPattern_match, runnable in *.
      destruct (is_regex p); simpl in Hp.
      - destruct (Regex.compile _ (fp_pattern p)); [|discriminate].
        destruct (Regex.search _ text); eexists; reflexivity.
      - destruct (contains _ _); eexists; reflexivity. }
    destruct Hm as [found ->]. rewrite Evs.
    destruct found as [[|c m]|]; eexists; reflexivity.
Qed.

Lemma field_violations_cons self path value fields :
  field_violations self ((path, value) :: fields) =
  match pattern_violations (patterns self) path
                           (_preprocess_text self value) with
  | None => None
  | Some vs =>
      match field_violations self fields with
      | None => None
      | Some ws => Some (vs ++ ws)
      end
  end.
Proof. reflexivity. Qed.

Lemma field_violations_default_defined fields :
  defined (field_violations default_validator fields).
Proof.
  induction fields as [|[path value] fields [ws IH]].
  - eexists. reflexivity.
  - destruct (pattern_violations_defined _get_default_patterns path
                (_preprocess_text default_validator value)
                default_patterns_runnable) as [vs E].
    exists (vs ++ ws). rewrite field_violations_cons.
    change (patterns default_validator) with _get_default_patterns.
    rewrite E, IH. reflexivity.
Qed.

(** ** Results built by [add_violation] *)

Definition grows (r r' : QualityValidationResult) : Prop :=
  exists vs, r' = fold_left add_violation vs r.

Lemma grows_refl r : grows r r.
Proof. exists []. reflexivity. Qed.

Lemma grows_add r v : grows r (add_violation r v).
Proof. exists [v]. reflexivity. Qed.

Lemma grows_trans a b c : grows a b -> grows b c -> grows a c.
Proof.
  intros [vs ->] [ws ->]. exists (vs ++ ws). rewrite fold_left_app.
  reflexivity.
Qed.

Lemma scan_patterns_grows pats path text : forall r r',
  scan_patterns pats path text r = Some r' -> grows r r'.
Proof.
  induction pats as [|p pats IH]; intros r r'; simpl.
  - intros H. injection H as <-. apply grows_refl.
  - destruct (ForbiddenPattern_match p text) as [[[|c m]|]|];
      try discriminate; try apply IH.
    intros H. eapply grows_trans; [apply grows_add | exact (IH _ _ H)].
Qed.

Lemma scan_fields_grows self fields : forall r r',
  scan_fields self fields r = Some r' -> grows r r'.
Proof.
  induction fields as [|[path value] fields IH]; intros r r'; simpl.
  - intros H. injection H as <-. apply grows_refl.
  - destruct (scan_patterns (patterns self) path
                (_preprocess_text self value) r) as [r1|] eqn:E;
      [|discriminate].
    intros H. eapply grows_trans;
      [exact (scan_patterns_grows _ _ _ _ _ E) | exact (IH _ _ H)].
Qed.

Lemma check_rule_grows i rule r r' :
  check_rule i rule r = Some r' -> grows r r'.
Proof.
  unfold check_rule. destruct rule as [| | | | | |d]; try discriminate.
  cbv zeta.
  match goal with
  | |- (if _ then Some (add_violation ?r1 ?v) else _) = _ -> _ =>
      assert (H1 : grows r r1)
  end.
  { destruct (is_none (dict_get (lit "when") d)).
    - apply grows_add.
    - destruct (dict_get (lit "when") d) as [[| | | |w| |]|];
        try apply grows_refl.
      destruct (is_empty (strip w)); [apply grows_add | apply grows_refl]. }
  destruct (is_none (dict_get (lit "then") d)); intros H; injection H as <-.
  - eapply grows_trans; [exact H1 | apply grows_add].
  - exact H1.
Qed.

Lemma check_rules_grows rules : forall i r r',
  check_rules i rules r = Some r' -> grows r r'.
Proof.
  induction rules as [|rule rules IH]; intros i r r'; simpl.
  - intros H. injection H as <-. apply grows_refl.
  - destruct (check_rule i rule r) as [r1|] eqn:E1; [|discriminate].
    intros H. eapply grows_trans;
      [exact (check_rule_grows _ _ _ _ E1) | exact (IH _ _ _ H)].
Qed.

Lemma _validate_output_contract_grows d r r' :
  _validate_output_contract d r = Some r' -> grows r r'.
Proof.
  unfold _validate_output_contract.
  destruct (dict_get_default (lit "output_contract") (JDict []) d)
    as [| | | | | |oc]; try discriminate.
  destruct (is_none (dict_get (lit "schema") oc)).
  { intros H. injection H as <-. apply grows_add. }
  destruct (dict_get (lit "schema") oc) as [[| | | | | |sch]|];
    try (intros H; injection H as <-;
         first [apply grows_add | apply grows_refl]).
  destruct (negb (dict_has (lit "type") sch)
            && negb (dict_has (lit "$ref") sch));
    intros H; injection H as <-; [apply grows_add | apply grows_refl].
Qed.

Lemma validate_grows self d r :
  validate self d = Some r -> grows empty_result r.
Proof.
  unfold validate, scan_spec.
  destruct (_get_scannable_fields self d) as [fields|]; [|discriminate].
  destruct (scan_fields self fields empty_result) as [r1|] eqn:E1;
    [|discriminate].
  destruct (_validate_decision_rules d r1) as [r2|] eqn:E2; [|discriminate].
  intros H. eapply grows_trans; [exact (scan_fields_grows _ _ _ _ E1)|].
  eapply grows_trans;
    [exact (check_rules_grows _ _ _ _ E2)
    | exact (_validate_output_contract_grows _ _ _ H)].
Qed.

(** The counters against the violations. *)
Definition count_severity (severity : str) (vs : list PatternViolation)
  : nat :=
  length (filter (fun v => str_eqb (v_severity v) severity) vs).

Definition count_of_category (category : str) (vs : list PatternViolation)
  : nat :=
  length (filter (fun v => str_eqb (v_category v) category) vs).

(** [category_counts.get(category, 0)] *)
Fixpoint category_count (category : str) (counts : list (str * nat)) : nat :=
  match counts with
  | [] => 0
  | (k, n) :: rest =>
      if str_eqb k category then n else category_count category rest
  end.

Definition counted (r : QualityValidationResult) : Prop :=
  total_errors r = count_severity (lit "error") (violations r) /\
  total_warnings r = count_severity (lit "warning") (violations r) /\
  total_info r = count_severity (lit "info") (violations r) /\
  valid r = (total_errors r =? 0) /\
  forall c, category_count c (category_counts r)
            = count_of_category c (violations r).

Lemma count_severity_add s vs v :
  count_severity s (vs ++ [v]) =
  count_severity s vs + (if str_eqb (v_severity v) s then 1 else 0).
Proof.
  unfold count_severity. rewrite filter_app, length_app. cbn [filter].
  destruct (str_eqb (v_severity v) s); reflexivity.
Qed.

Lemma count_of_category_add c vs v :
  count_of_category c (vs ++ [v]) =
  count_of_category c vs + (if str_eqb (v_category v) c then 1 else 0).
Proof.
  unfold count_of_category. rewrite filter_app, length_app. cbn [filter].
  destruct (str_eqb (v_category v) c); reflexivity.
Qed.

Lemma str_eqb_sym a b : str_eqb a b = str_eqb b a.
Proof.
  destruct (str_eqb a b) eqn:E.
  - apply str_eqb_eq in E. subst. symmetry. apply str_eqb_refl.
  - destruct (str_eqb b a) eqn:E'; [|reflexivity].
    apply str_eqb_eq in E'. subst. rewrite str_eqb_refl in E. discriminate.
Qed.

Lemma category_count_add category counts c :
  category_count c (count_category category counts) =
  category_count c counts + (if str_eqb category c then 1 else 0).
Proof.
  induction counts as [|[k n] counts IH]; simpl.
  - destruct (str_eqb category c); reflexivity.
  - destruct (str_eqb k category) eqn:E; simpl.
    + apply str_eqb_eq in E. subst k.
      destruct (str_eqb category c); lia.
    + destruct (str_eqb k c) eqn:Ec; [|exact IH].
      apply str_eqb_eq in Ec. subst k.
      rewrite str_eqb_sym, E. lia.
Qed.

Lemma add_violation_counted r v : counted r -> counted (add_violation r v).
Proof.
  intros [He [Hw [Hi [Hv Hc]]]].
  assert (Hcat : forall c,
            category_count c (count_category (v_category v)
                                             (category_counts r))
            = count_of_category c (violations r ++ [v])).
  { intros c. rewrite category_count_add, count_of_category_add, Hc.
    reflexivity. }
  unfold counted, add_violation.
  destruct (str_eqb (v_severity v) (lit "error")) eqn:E1;
    [|destruct (str_eqb (v_severity v) (lit "warning")) eqn:E2;
      [|destruct (str_eqb (v_severity v) (lit "info")) eqn:E3]];
    cbn [total_errors total_warnings total_info valid violations
         category_counts];
    rewrite !count_severity_add, ?E1, ?E2, ?E3;
    try (apply str_eqb_eq in E1; rewrite E1);
    try (apply str_eqb_eq in E2; rewrite E2);
    try (apply str_eqb_eq in E3; rewrite E3);
    repeat match goal with
           | |- context [str_eqb (lit ?a) (lit ?b)] =>
               let x := eval vm_compute in (str_eqb (lit a) (lit b)) in
               change (str_eqb (lit a) (lit b)) with x
           end;
    cbv iota; rewrite ?Nat.add_0_r;
    (split; [lia|]); (split; [lia|]); (split; [lia|]);
    (split; [|exact Hcat]);
    first [ exact Hv
          | rewrite Nat.add_1_r; reflexivity ].
Qed.

Lemma grows_counted r r' : grows r r' -> counted r -> counted r'.
Proof.
  intros [vs ->]. revert r. induction vs as [|v vs IH]; intros r H;
    [exact H|].
  simpl. apply IH. apply add_violation_counted. exact H.
Qed.

Lemma empty_result_counted : counted empty_result.
Proof. repeat split. Qed.

(** ** [SkillMdQualityValidator] *)

Definition _load_relaxed_patterns : list ForbiddenPattern :=
  [ mkForbiddenPattern (lit "TODO") (lit "INCOMPLETE_CONTENT") (lit "error")
      (lit "any") (lit "Complete the TODO item") false;
    mkForbiddenPattern (lit "TBD") (lit "INCOMPLETE_CONTENT") (lit "error")
      (lit "any") (lit "Determine and specify the content") false;
    mkForbiddenPattern (lit "FIXME") (lit "INCOMPLETE_CONTENT") (lit "error")
      (lit "any") (lit "Fix the issue before publishing") false;
    mkForbiddenPattern (lit "as needed") (lit "VAGUE_LANGUAGE") (lit "warning")
      (lit "instruction") (lit "Consider being more specific") false;
    mkForbiddenPattern (lit "if appropriate") (lit "VAGUE_LANGUAGE")
      (lit "warning") (lit "instruction") (lit "Consider defining criteria")
      false;
    mkForbiddenPattern (lit "##\s+\w+\s*\n\s*\n##") (lit "EMPTY_SECTION")
      (lit "warning") (lit "structure") (lit "Add content to the section")
      true ].

(** [re.sub(pattern, '', text)] *)
Definition re_sub_empty (pattern text : str) : option str :=
  match Regex.compile Regex.no_flags pattern with
  | Some r => Some (Regex.sub_empty r text)
  | None => None
  end.

Definition _preprocess_markdown (content : str) : option str :=
  match re_sub_empty (lit "```[\s\S]*?```") content with
  | Some result => re_sub_empty (lit "`[^`]+`") result
  | None => None
  end.

(** The loop of [_find_line_number] over [enumerate(lines, 1)]. *)
Fixpoint find_line (i : nat) (lines : list str) (match_text : str)
  : option nat :=
  match lines with
  | [] => None
  | line :: rest =>
      if contains (lower match_text) (lower line) then Some i
      else find_line (S i) rest match_text
  end.

Definition _find_line_number (content match_text : str) : option nat :=
  find_line 1 (split nl content) match_text.

(** The loop of [SkillMdQualityValidator.validate] over the patterns. *)
Fixpoint check_patterns (pats : list ForbiddenPattern)
    (content preprocessed : str) (result : QualityValidationResult)
  : option QualityValidationResult :=
  match pats with
  | [] => Some result
  | pattern :: rest =>
      match ForbiddenPattern_match pattern preprocessed with
      | None => None
      | Some (Some (c :: m)) =>
          check_patterns rest content preprocessed
            (add_violation result
               (mkPatternViolation (lit "SKILL.md") (fp_pattern pattern)
                  (c :: m) (fp_category pattern) (fp_severity pattern)
                  (fp_fix pattern)
                  (option_map Z.of_nat
                              (_find_line_number content (c :: m)))))
      | Some _ => check_patterns rest content preprocessed result
      end
  end.

(** [SkillMdQualityValidator().validate(content)] *)
Definition validate_skill_md (content : str)
  : option QualityValidationResult :=
  match _preprocess_markdown content with
  | None => None
  | Some preprocessed =>
      check_patterns _load_relaxed_patterns content preprocessed empty_result
  end.

Lemma check_patterns_grows pats content text : forall r r',
  check_patterns pats content text r = Some r' -> grows r r'.
Proof.
  induction pats as [|p pats IH]; intros r r'; simpl.
  - intros H. injection H as <-. apply grows_refl.
  - destruct (ForbiddenPattern_match p text) as [[[|c m]|]|];
      try discriminate; try apply IH.
    intros H. eapply grows_trans; [apply grows_add | exact (IH _ _ H)].
Qed.


(** ** When a result is valid *)

(** [matched] is a non-empty string: the pattern is reported. *)
Definition flagged (p : ForbiddenPattern) (text : str) : bool :=
  match ForbiddenPattern_match p text with
  | Some (Some (_ :: _)) => true
  | _ => false
  end.

Definition error_pattern (p : ForbiddenPattern) : bool :=
  str_eqb (fp_severity p) (lit "error").

(** No pattern of severity [error] is reported for the text. *)
Definition text_clean (pats : list ForbiddenPattern) (text : str) : bool :=
  forallb (fun p => negb (error_pattern p && flagged p text)) pats.

Lemma text_clean_cons p pats text :
  text_clean (p :: pats) text =
  negb (error_pattern p && flagged p text) && text_clean pats text.
Proof. reflexivity. Qed.

Lemma scan_patterns_valid pats path text : forall r r',
  scan_patterns pats path text r = Some r' ->
  valid r' = valid r && text_clean pats text.
Proof.
  induction pats as [|p pats IH]; intros r r'.
  - simpl. intros H. injection H as <-. rewrite andb_true_r. reflexivity.
  - rewrite text_clean_cons. unfold flagged. cbn [scan_patterns].
    destruct (ForbiddenPattern_match p text) as [[[|c m]|]|];
      try discriminate; intros H; rewrite (IH _ _ H);
      rewrite ?add_violation_valid, ?andb_false_r; try reflexivity.
    unfold is_error. cbn [v_severity]. fold (error_pattern p).
    rewrite andb_true_r, andb_assoc. reflexivity.
Qed.

(** No error is reported for the field. *)
Definition field_clean (self : QualityValidator) (field : str * str) : bool :=
  text_clean (patterns self) (_preprocess_text self (snd field)).

Lemma scan_fields_valid self fields : forall r r',
  scan_fields self fields r = Some r' ->
  valid r' = valid r && forallb (field_clean self) fields.
Proof.
  induction fields as [|[path value] fields IH]; intros r r'; simpl.
  - intros H. injection H as <-. rewrite andb_true_r. reflexivity.
  - destruct (scan_patterns (patterns self) path
                (_preprocess_text self value) r) as [r1|] eqn:E;
      [|discriminate].
    intros H. rewrite (IH _ _ H), (scan_patterns_valid _ _ _ _ _ E).
    unfold field_clean at 2. cbn [snd]. rewrite andb_assoc. reflexivity.
Qed.

(** The rule has a [when] that is not [None] and not a blank string. *)
Definition when_given (r : dict) : bool :=
  match dict_get (lit "when") r with
  | None | Some JNull => false
  | Some (JStr w) => negb (is_empty (strip w))
  | Some _ => true
  end.

(** The rule has a [when] and a [then]. *)
Definition rule_complete (rule : json) : bool :=
  match rule with
  | JDict r => when_given r && negb (is_none (dict_get (lit "then") r))
  | _ => false
  end.

Lemma check_rule_valid i rule r r' :
  check_rule i rule r = Some r' -> valid r' = valid r && rule_complete rule.
Proof.
  unfold check_rule, rule_complete, when_given.
  destruct rule as [| | | | | |d]; try discriminate.
  cbv zeta.
  destruct (dict_get (lit "when") d) as [[| | | |w| |]|];
    destruct (dict_get (lit "then") d) as [[| | | | | |]|];
    cbn [is_none]; try destruct (is_empty (strip w));
    intros H; injection H as <-;
    rewrite ?add_violation_valid; unfold is_error; cbn [v_severity];
    rewrite ?str_eqb_refl; cbn [negb andb];
    rewrite ?andb_false_r, ?andb_true_r; reflexivity.
Qed.

Lemma check_rules_valid rules : forall i r r',
  check_rules i rules r = Some r' ->
  valid r' = valid r && forallb rule_complete rules.
Proof.
  induction rules as [|rule rules IH]; intros i r r'; simpl.
  - intros H. injection H as <-. rewrite andb_true_r. reflexivity.
  - destruct (check_rule i rule r) as [r1|] eqn:E; [|discriminate].
    intros H. rewrite (IH _ _ _ H), (check_rule_valid _ _ _ _ E).
    rewrite andb_assoc. reflexivity.
Qed.

(** The rules [_validate_decision_rules] goes through. *)
Definition rules_of (spec_data : dict) : list json :=
  match dict_get_default (lit "decision_rules") (JDict []) spec_data with
  | JList l => l
  | JDict d =>
      map snd (filter (fun kv => negb (str_eqb (fst kv) (lit "_config"))
                                 && is_dict (snd kv)) d)
  | _ => []
  end.

Lemma _validate_decision_rules_eq d r :
  _validate_decision_rules d r = check_rules 0 (rules_of d) r.
Proof. reflexivity. Qed.

(** [output_contract] is there and its [schema] is a mapping. *)
Definition schema_given (spec_data : dict) : bool :=
  match dict_get (lit "output_contract") spec_data with
  | Some (JDict output_contract) =>
      match dict_get (lit "schema") output_contract with
      | Some (JDict _) => true
      | _ => false
      end
  | _ => false
  end.

Lemma _validate_output_contract_valid d r r' :
  _validate_output_contract d r = Some r' ->
  valid r' = valid r && schema_given d.
Proof.
  unfold _validate_output_contract, schema_given, dict_get_default.
  destruct (dict_get (lit "output_contract") d) as [[| | | | | |oc]|];
    try discriminate.
  - destruct (dict_get (lit "schema") oc) as [[| | | | | |sch]|];
      cbn [is_none];
      try destruct (negb (dict_has (lit "type") sch)
                    && negb (dict_has (lit "$ref") sch));
      intros H; injection H as <-;
      rewrite ?add_violation_valid; unfold is_error; cbn [v_severity];
      rewrite ?str_eqb_refl;
      try (replace (str_eqb (lit "warning") (lit "error")) with false
             by (vm_compute; reflexivity));
      cbn [negb]; rewrite ?andb_false_r, ?andb_true_r; reflexivity.
  - cbn [dict_get is_none]. intros H. injection H as <-.
    rewrite add_violation_valid. unfold is_error. cbn [v_severity].
    rewrite str_eqb_refl. reflexivity.
Qed.

(** An [output_contract] that is not a mapping has no [get]. *)
Lemma _validate_output_contract_raises d v r :
  dict_get (lit "output_contract") d = Some v -> is_dict v = false ->
  _validate_output_contract d r = None.
Proof.
  intros H Hv. unfold _validate_output_contract, dict_get_default.
  rewrite H. destruct v; try reflexivity. discriminate.
Qed.

(** The entries of a keyed [decision_rules] that are not mappings are not
    rules. *)
Lemma keyed_rules_filter dr :
  Forall (fun kv => fst kv = lit "_config" \/ is_dict (snd kv) = false) dr ->
  filter (fun kv => negb (str_eqb (fst kv) (lit "_config"))
                    && is_dict (snd kv)) dr = [].
Proof.
  induction dr as [|[k v] dr IH]; intros H; [reflexivity|].
  inversion H as [|x xs Hkv Hdr]; subst. cbn [filter fst snd] in *.
  rewrite (IH Hdr).
  destruct Hkv as [-> | ->]; [rewrite str_eqb_refl | rewrite andb_false_r];
    reflexivity.
Qed.

(** ** The patterns of the SKILL.md validator *)

Lemma ForbiddenPattern_match_defined p text :
  runnable p = true -> defined (ForbiddenPattern_match p text).
Proof.
  unfold ForbiddenPattern_match, runnable.
  destruct (is_regex p); simpl.
  - destruct (Regex.compile _ (fp_pattern p)); [|discriminate].
    intros _. destruct (Regex.search _ text); eexists; reflexivity.
  - intros _. destruct (contains _ _); eexists; reflexivity.
Qed.

Lemma relaxed_patterns_runnable :
  forallb runnable _load_relaxed_patterns = true.
Proof. vm_compute. reflexivity. Qed.

Lemma check_patterns_defined pats content text :
  forallb runnable pats = true ->
  forall r, defined (check_patterns pats content text r).
Proof.
  induction pats as [|p pats IH]; simpl; intros H r.
  - eexists. reflexivity.
  - apply andb_true_iff in H as [Hp Hrest].
    destruct (ForbiddenPattern_match_defined p text Hp) as [found ->].
    destruct found as [[|c m]|]; apply IH; exact Hrest.
Qed.

Definition tick (f : Regex.flags) : Regex.re :=
  Regex.Chr (Regex.fold_case f (char_eqb 96%N)).

Definition any_class (f : Regex.flags) : char -> bool :=
  Regex.fold_case f
    (Regex.union (Regex.union (fun _ => false) is_space)
                 (fun c => negb (is_space c))).

Definition not_tick (f : Regex.flags) : char -> bool :=
  fun x => negb (Regex.fold_case f
                   (Regex.union (fun _ => false) (char_eqb 96%N)) x).

(** The two patterns of code in a text, compiled. *)
Definition fence_re (f : Regex.flags) : Regex.re :=
  fold_right Regex.Cat Regex.Eps
    [tick f; tick f; tick f; Regex.Rep false (Regex.Chr (any_class f));
     tick f; tick f; tick f].

Definition inline_re (f : Regex.flags) : Regex.re :=
  fold_right Regex.Cat Regex.Eps
    [tick f;
     Regex.Cat (Regex.Chr (not_tick f))
               (Regex.Rep true (Regex.Chr (not_tick f)));
     tick f].

Lemma fence_pattern_eq f :
  Regex.compile f (lit "```[\s\S]*?```") = Some (fence_re f).
Proof. reflexivity. Qed.

Lemma inline_pattern_eq f :
  Regex.compile f (lit "`[^`]+`") = Some (inline_re f).
Proof. reflexivity. Qed.

(** The fenced blocks are removed, then the inline code. *)
Definition remove_code (f : Regex.flags) (text : str) : str :=
  Regex.sub_empty (inline_re f) (Regex.sub_empty (fence_re f) text).

Lemma _preprocess_markdown_eq content :
  _preprocess_markdown content = Some (remove_code Regex.no_flags content).
Proof.
  unfold _preprocess_markdown, re_sub_empty.
  rewrite fence_pattern_eq, inline_pattern_eq. reflexivity.
Qed.

Lemma ignore_patterns_default :
  ignore_patterns default_validator =
  [fence_re (Regex.mkFlags false false true);
   inline_re (Regex.mkFlags false false true)].
Proof.
  unfold ignore_patterns.
  change (ignore_pattern_sources (scan_scope default_validator))
    with [lit "```[\s\S]*?```"; lit "`[^`]+`"].
  cbn [flat_map]. rewrite fence_pattern_eq, inline_pattern_eq. reflexivity.
Qed.

Lemma _preprocess_text_default text :
  _preprocess_text default_validator text
  = remove_code (Regex.mkFlags false false true) text.
Proof.
  unfold _preprocess_text. rewrite ignore_patterns_default. reflexivity.
Qed.

(** A text without a backtick has no code to remove. *)
Lemma sub_empty_tick f rest text :
  ~ In 96%N text ->
  Regex.sub_empty (fold_right Regex.Cat Regex.Eps (tick f :: rest)) text
  = text.
Proof.
  intros H. cbn [fold_right]. unfold tick.
  apply (Regex.sub_empty_no_head _ _ 96%N); [|exact H].
  apply Regex.fold_case_tick.
Qed.

Lemma remove_code_plain f text : ~ In 96%N text -> remove_code f text = text.
Proof.
  intros H. unfold remove_code, fence_re, inline_re.
  rewrite (sub_empty_tick _ _ text H), (sub_empty_tick _ _ text H).
  reflexivity.
Qed.

(** ** Code is removed *)

Lemma tick_true f : Regex.fold_case f (char_eqb 96%N) 96%N = true.
Proof. unfold Regex.fold_case. destruct (Regex.IGNORECASE f); reflexivity. Qed.

Lemma any_class_true f c : any_class f c = true.
Proof.
  unfold any_class, Regex.fold_case, Regex.union.
  destruct (Regex.IGNORECASE f); cbn [orb]; destruct (is_space c);
    reflexivity.
Qed.

Lemma not_tick_true f c : c <> 96%N -> not_tick f c = true.
Proof.
  intros H. unfold not_tick.
  destruct (Regex.fold_case f (Regex.union (fun _ => false)
                                 (char_eqb 96%N)) c) eqn:E; [|reflexivity].
  exfalso. apply H. apply (Regex.fold_case_tick f). exact E.
Qed.

Lemma not_tick_false f : not_tick f 96%N = false.
Proof.
  unfold not_tick.
  change (negb (Regex.fold_case f (char_eqb 96%N) 96%N) = false).
  rewrite tick_true. reflexivity.
Qed.

Lemma forallb_not_tick f c : ~ In 96%N c -> forallb (not_tick f) c = true.
Proof.
  intros H. apply forallb_forall. intros x Hx. apply not_tick_true.
  intros ->. exact (H Hx).
Qed.

Lemma forallb_any_class f c : forallb (any_class f) c = true.
Proof. apply forallb_forall. intros x _. apply any_class_true. Qed.

(** The text does not go on with a backtick. *)
Definition no_tick_ahead (s : str) : Prop :=
  match s with
  | [] => True
  | c :: _ => c <> 96%N
  end.

Lemma no_tick_no_tick_ahead s : ~ In 96%N s -> no_tick_ahead s.
Proof.
  destruct s as [|c s]; [exact (fun _ => I)|].
  intros H E. apply H. left. exact E.
Qed.

Lemma run_tick f r k b s :
  Regex.run (Regex.Cat (tick f) r) k (b, 96%N :: s)
  = Regex.run r k (96%N :: b, s).
Proof.
  rewrite Regex.run_cat. unfold tick. apply Regex.run_chr_step.
  apply tick_true.
Qed.

Lemma run_tick_stop f r k b s :
  no_tick_ahead s -> Regex.run (Regex.Cat (tick f) r) k (b, s) = None.
Proof.
  intros H. rewrite Regex.run_cat. unfold tick. cbn [Regex.run snd].
  destruct s as [|c s]; [reflexivity|].
  destruct (Regex.fold_case f (char_eqb 96%N) c) eqn:E; [|reflexivity].
  apply Regex.fold_case_tick in E. exfalso. exact (H E).
Qed.

(** A fence, a text without backticks and a fence: the pattern of a fenced
    block matches the three of them. *)
Lemma fence_match f b c t :
  ~ In 96%N c ->
  Regex.run (fence_re f) (fun st => Some st)
    (b, 96%N :: 96%N :: 96%N :: c ++ 96%N :: 96%N :: 96%N :: t)
  = Some (96%N :: 96%N :: 96%N :: rev c ++ 96%N :: 96%N :: 96%N :: b, t).
Proof.
  intros Hc. unfold fence_re. cbn [fold_right].
  rewrite !run_tick, Regex.run_cat, Regex.run_rep. cbn [snd].
  apply Regex.rep_chr_lazy.
  - apply forallb_any_class.
  - intros c0 b0 s Hc0. apply run_tick_stop. cbn [no_tick_ahead].
    intros ->. exact (Hc Hc0).
  - apply Nat.lt_succ_diag_r.
  - rewrite !run_tick. reflexivity.
Qed.

(** A backtick, a non-empty text without backticks and a backtick: the
    pattern of inline code matches the three of them. *)
Lemma inline_match f b c0 c t :
  c0 <> 96%N -> ~ In 96%N c ->
  Regex.run (inline_re f) (fun st => Some st)
    (b, 96%N :: c0 :: c ++ 96%N :: t)
  = Some (96%N :: rev c ++ c0 :: 96%N :: b, t).
Proof.
  intros Hc0 Hc. unfold inline_re. cbn [fold_right].
  rewrite run_tick. do 2 rewrite Regex.run_cat.
  rewrite (Regex.run_chr_step (not_tick f) _ _ c0 _ (not_tick_true f c0 Hc0)).
  rewrite Regex.run_rep. cbn [snd].
  apply Regex.rep_chr_greedy.
  - apply forallb_not_tick. exact Hc.
  - cbn [Regex.stops]. apply not_tick_false.
  - apply Nat.lt_succ_diag_r.
  - rewrite run_tick. reflexivity.
Qed.

(** One backtick is not a fence. *)
Lemma fence_stop f k b s :
  no_tick_ahead s -> Regex.run (fence_re f) k (b, 96%N :: s) = None.
Proof.
  intros H. unfold fence_re. cbn [fold_right]. rewrite run_tick.
  apply run_tick_stop. exact H.
Qed.

Lemma fence_re_prefix f a before rest :
  ~ In 96%N a ->
  Regex.sub_empty_from (fence_re f) 0 before (a ++ rest)
  = a ++ Regex.sub_empty_from (fence_re f) 0 (rev a ++ before) rest.
Proof.
  intros H. unfold fence_re. cbn [fold_right]. unfold tick at 1 8.
  apply (Regex.sub_empty_from_prefix _ _ 96%N); [|exact H].
  apply Regex.fold_case_tick.
Qed.

Lemma inline_re_prefix f a before rest :
  ~ In 96%N a ->
  Regex.sub_empty_from (inline_re f) 0 before (a ++ rest)
  = a ++ Regex.sub_empty_from (inline_re f) 0 (rev a ++ before) rest.
Proof.
  intros H. unfold inline_re. cbn [fold_right]. unfold tick at 1 3.
  apply (Regex.sub_empty_from_prefix _ _ 96%N); [|exact H].
  apply Regex.fold_case_tick.
Qed.

Lemma not_In_app (x : char) a b : ~ In x a -> ~ In x b -> ~ In x (a ++ b).
Proof.
  intros Ha Hb H. apply in_app_or in H as [H | H]; [exact (Ha H)|exact (Hb H)].
Qed.

Lemma remove_fenced f (a c b : str) :
  ~ In 96%N a -> ~ In 96%N c -> ~ In 96%N b ->
  remove_code f (a ++ 96%N :: 96%N :: 96%N :: c
                   ++ 96%N :: 96%N :: 96%N :: b) = a ++ b.
Proof.
  intros Ha Hc Hb. unfold remove_code.
  assert (E : Regex.sub_empty (fence_re f)
                (a ++ 96%N :: 96%N :: 96%N :: c
                   ++ 96%N :: 96%N :: 96%N :: b) = a ++ b).
  { unfold Regex.sub_empty. rewrite (fence_re_prefix f a _ _ Ha). f_equal.
    replace (96%N :: 96%N :: 96%N :: c ++ 96%N :: 96%N :: 96%N :: b)
      with ((96%N :: 96%N :: 96%N :: c ++ [96%N; 96%N; 96%N]) ++ b)
      by (cbn [app]; rewrite <- app_assoc; reflexivity).
    rewrite (Regex.sub_empty_from_match (fence_re f) _ _ b
               (96%N :: 96%N :: 96%N :: rev c
                  ++ 96%N :: 96%N :: 96%N :: rev a ++ [])).
    - unfold fence_re. cbn [fold_right]. unfold tick at 1.
      apply (Regex.sub_empty_from_no_head _ _ 96%N); [|exact Hb].
      apply Regex.fold_case_tick.
    - discriminate.
    - cbn [app]. rewrite <- app_assoc. cbn [app].
      apply fence_match. exact Hc. }
  rewrite E. unfold inline_re. apply sub_empty_tick.
  apply not_In_app; assumption.
Qed.

Lemma remove_inline f (a c b : str) :
  c <> [] -> ~ In 96%N a -> ~ In 96%N c -> ~ In 96%N b ->
  remove_code f (a ++ 96%N :: c ++ 96%N :: b) = a ++ b.
Proof.
  intros Hne Ha Hc Hb. unfold remove_code.
  assert (E : Regex.sub_empty (fence_re f) (a ++ 96%N :: c ++ 96%N :: b)
              = a ++ 96%N :: c ++ 96%N :: b).
  { unfold Regex.sub_empty. rewrite (fence_re_prefix f a _ _ Ha). f_equal.
    rewrite Regex.sub_empty_from_fail.
    2: { apply fence_stop. destruct c as [|c0 c]; [contradiction|].
         cbn [app no_tick_ahead]. intros ->. apply Hc. left. reflexivity. }
    f_equal. rewrite (fence_re_prefix f c _ _ Hc). f_equal.
    rewrite Regex.sub_empty_from_fail.
    2: { apply fence_stop. apply no_tick_no_tick_ahead. exact Hb. }
    f_equal. unfold fence_re. cbn [fold_right]. unfold tick at 1.
    apply (Regex.sub_empty_from_no_head _ _ 96%N); [|exact Hb].
    apply Regex.fold_case_tick. }
  rewrite E. unfold Regex.sub_empty.
  rewrite (inline_re_prefix f a _ _ Ha).
  f_equal. destruct c as [|c0 c]; [contradiction|].
  replace (96%N :: (c0 :: c) ++ 96%N :: b)
    with ((96%N :: c0 :: c ++ [96%N]) ++ b)
    by (cbn [app]; rewrite <- app_assoc; reflexivity).
  rewrite (Regex.sub_empty_from_match (inline_re f) _ _ b
             (96%N :: rev c ++ c0 :: 96%N :: rev a ++ [])).
  - unfold inline_re. cbn [fold_right]. unfold tick at 1.
    apply (Regex.sub_empty_from_no_head _ _ 96%N); [|exact Hb].
    apply Regex.fold_case_tick.
  - discriminate.
  - cbn [app]. rewrite <- app_assoc. cbn [app].
    apply inline_match.
    + intros ->. apply Hc. left. reflexivity.
    + intros H. apply Hc. right. exact H.
Qed.

(** A literal pattern is reported when the text has it in some letter
    case. *)
Lemma flagged_literal p text :
  is_regex p = false -> fp_pattern p <> [] ->
  flagged p text = contains (lower (fp_pattern p)) (lower text).
Proof.
  intros Hr Hp. unfold flagged, ForbiddenPattern_match. rewrite Hr.
  destruct (contains (lower (fp_pattern p)) (lower text)) eqn:E;
    [|reflexivity].
  destruct (find_bound _ _ E) as [_ Hb].
  rewrite !lower_length in Hb.
  pose proof (slice_nonempty text
                (Z.to_nat (find (lower (fp_pattern p)) (lower text)))
                (length (fp_pattern p))) as Hs.
  destruct (slice text _ _) as [|c m]; [|reflexivity].
  exfalso. apply Hs; [|exact Hb|reflexivity].
  destruct (fp_pattern p); [contradiction | simpl; lia].
Qed.

Lemma check_patterns_valid pats content text : forall r r',
  check_patterns pats content text r = Some r' ->
  valid r' = valid r && text_clean pats text.
Proof.
  induction pats as [|p pats IH]; intros r r'.
  - simpl. intros H. injection H as <-. rewrite andb_true_r. reflexivity.
  - rewrite text_clean_cons. unfold flagged. cbn [check_patterns].
    destruct (ForbiddenPattern_match p text) as [[[|c m]|]|];
      try discriminate; intros H; rewrite (IH _ _ H);
      rewrite ?add_violation_valid, ?andb_false_r; try reflexivity.
    unfold is_error. cbn [v_severity]. fold (error_pattern p).
    rewrite andb_true_r, andb_assoc. reflexivity.
Qed.

(** The violation [SkillMdQualityValidator.validate] adds for a pattern. *)
Definition skill_md_violation (content : str) (p : ForbiddenPattern)
    (matched : str) : PatternViolation :=
  mkPatternViolation (lit "SKILL.md") (fp_pattern p) matched (fp_category p)
    (fp_severity p) (fp_fix p)
    (option_map Z.of_nat (_find_line_number content matched)).

Lemma check_patterns_violations pats content text : forall r r',
  check_patterns pats content text r = Some r' ->
  forall v, In v (violations r') ->
    In v (violations r) \/
    exists p c m,
      In p pats /\ ForbiddenPattern_match p text = Some (Some (c :: m)) /\
      v = skill_md_violation content p (c :: m).
Proof.
  induction pats as [|p pats IH]; intros r r'; cbn [check_patterns].
  - intros H. injection H as <-. intros v Hv. left. exact Hv.
  - destruct (ForbiddenPattern_match p text) as [[[|c m]|]|] eqn:E;
      try discriminate; intros H v Hv;
      destruct (IH _ _ H v Hv) as [Hin | [q [c' [m' [Hq [Hm Ev]]]]]];
      try (left; exact Hin);
      try (right; exists q, c', m'; split; [right; exact Hq|];
           split; assumption).
    rewrite add_violation_violations in Hin.
    apply in_app_or in Hin as [Hin | [<- | []]]; [left; exact Hin|].
    right. exists p, c, m. split; [left; reflexivity|].
    split; [exact E | reflexivity].
Qed.

(** ** The line of a match *)

Lemma find_line_spec m lines : forall i,
  match find_line i lines m with
  | Some j =>
      exists before line after,
        lines = before ++ line :: after /\ j = i + length before /\
        contains (lower m) (lower line) = true /\
        Forall (fun l => contains (lower m) (lower l) = false) before
  | None => Forall (fun l => contains (lower m) (lower l) = false) lines
  end.
Proof.
  induction lines as [|line lines IH]; intros i; simpl.
  - constructor.
  - destruct (contains (lower m) (lower line)) eqn:E.
    + exists [], line, lines. repeat split; [simpl; lia | exact E | constructor].
    + specialize (IH (S i)). destruct (find_line (S i) lines m) as [j|].
      * destruct IH as [before [l [after [-> [-> [Hl Hb]]]]]].
        exists (line :: before), l, after.
        repeat split; [simpl; lia | exact Hl |].
        constructor; assumption.
      * constructor; assumption.
Qed.

Lemma find_line_multiline m lines : forall i,
  In nl m -> Forall (fun l => ~ In nl l) lines -> find_line i lines m = None.
Proof.
  induction lines as [|line lines IH]; intros i Hm Hl; [reflexivity|].
  inversion Hl as [|x xs Hx Hxs]; subst. simpl.
  rewrite (multiline_not_in_line m line Hm Hx). apply IH; assumption.
Qed.

Lemma _find_line_number_multiline content m :
  In nl m -> _find_line_number content m = None.
Proof.
  intros Hm. apply find_line_multiline; [exact Hm|].
  apply Forall_forall. intros l Hl. exact (split_lines_no_sep nl content l Hl).
Qed.

(** ** The pattern of an empty section *)

Lemma empty_section_pattern_eq :
  Regex.compile (Regex.mkFlags true false false) (lit "##\s+\w+\s*\n\s*\n##")
  = Some
      (fold_right Regex.Cat Regex.Eps
         ([Regex.Chr (Regex.fold_case (Regex.mkFlags true false false)
                        (char_eqb 35%N));
           Regex.Chr (Regex.fold_case (Regex.mkFlags true false false)
                        (char_eqb 35%N));
           Regex.Cat (Regex.Chr is_space)
                     (Regex.Rep true (Regex.Chr is_space));
           Regex.Cat (Regex.Chr Regex.is_word)
                     (Regex.Rep true (Regex.Chr Regex.is_word));
           Regex.Rep true (Regex.Chr is_space)]
          ++ Regex.Chr (Regex.fold_case (Regex.mkFlags true false false)
                          (char_eqb 10%N))
          :: [Regex.Rep true (Regex.Chr is_space);
              Regex.Chr (Regex.fold_case (Regex.mkFlags true false false)
                           (char_eqb 10%N));
              Regex.Chr (Regex.fold_case (Regex.mkFlags true false false)
                           (char_eqb 35%N));
              Regex.Chr (Regex.fold_case (Regex.mkFlags true false false)
                           (char_eqb 35%N))])).
Proof. reflexivity. Qed.

(** What the pattern of an empty section matches holds a line break. *)
Lemma empty_section_match p text m :
  is_regex p = true -> fp_pattern p = lit "##\s+\w+\s*\n\s*\n##" ->
  ForbiddenPattern_match p text = Some (Some m) -> In nl m.
Proof.
  intros Hr Hp. unfold ForbiddenPattern_match.
  rewrite Hr, Hp, empty_section_pattern_eq.
  destruct (Regex.search _ text) as [[st st']|] eqn:E; [|discriminate].
  intros H. injection H as <-.
  apply Regex.search_from_run in E.
  apply Regex.run_seq_through in E as [b1 [c [s1 [He1 [Pc He2]]]]].
  apply Regex.fold_case_nl in Pc. subst c.
  exact (Regex.group0_through _ _ _ _ _ He1 He2).
Qed.

Lemma count_severity_zero s vs :
  count_severity s vs = 0 <-> forall v, In v vs -> v_severity v <> s.
Proof.
  unfold count_severity. induction vs as [|v vs IH]; simpl.
  - split; [intros _ x [] | reflexivity].
  - destruct (str_eqb (v_severity v) s) eqn:E; simpl.
    + split; [discriminate|]. intros H. exfalso.
      apply (H v (or_introl eq_refl)). apply str_eqb_eq. exact E.
    + rewrite IH. split.
      * intros H x [<- | Hx]; [|exact (H x Hx)].
        intros Hs. rewrite Hs, str_eqb_refl in E. discriminate.
      * intros H x Hx. apply H. right. exact Hx.
Qed.

(** The three placeholder words, in any letter case. *)
Definition has_placeholder (text : str) : bool :=
  contains (lit "todo") (lower text) || contains (lit "tbd") (lower text)
  || contains (lit "fixme") (lower text).

Lemma text_clean_relaxed text :
  text_clean _load_relaxed_patterns text = negb (has_placeholder text).
Proof.
  unfold text_clean, _load_relaxed_patterns, has_placeholder.
  cbn [forallb].
  repeat match goal with
         | |- context [flagged ?p text] =>
             first [ rewrite (flagged_literal p text eq_refl)
                       by (intros H; vm_compute in H; discriminate)
                   | generalize (flagged p text); intros ? ]
         end.
  unfold error_pattern. cbn [fp_severity fp_pattern].
  rewrite !str_eqb_refl.
  replace (str_eqb (lit "warning") (lit "error")) with false
    by (vm_compute; reflexivity).
  change (lower (lit "TODO")) with (lit "todo").
  change (lower (lit "TBD")) with (lit "tbd").
  change (lower (lit "FIXME")) with (lit "fixme").
  cbn [andb negb].
  destruct (contains (lit "todo") (lower text)),
           (contains (lit "tbd") (lower text)),
           (contains (lit "fixme") (lower text)); reflexivity.
Qed.

(** ** The paths of the violations *)









(** ** When [validate] returns a result *)

(** [output_contract] is a mapping, or is not there. *)
Definition contract_is_mapping (spec_data : dict) : bool :=
  match dict_get (lit "output_contract") spec_data with
  | Some v => is_dict v
  | None => true
  end.

Lemma check_rules_defined rules : forall i r,
  (exists r', check_rules i rules r = Some r') <-> forallb is_dict rules = true.
Proof.
  induction rules as [|rule rules IH]; intros i r; simpl.
  - split; [reflexivity | intros _; eexists; reflexivity].
  - destruct rule as [| | | | | |d];
      try (split; [intros [r' H]; discriminate | discriminate]).
    destruct (check_rule i (JDict d) r) as [r1|] eqn:E.
    + apply IH.
    + exfalso. unfold check_rule in E. cbv zeta in E.
      destruct (is_none (dict_get (lit "then") d)); discriminate.
Qed.

Lemma _validate_output_contract_defined d r :
  (exists r', _validate_output_contract d r = Some r') <->
  contract_is_mapping d = true.
Proof.
  unfold _validate_output_contract, contract_is_mapping, dict_get_default.
  destruct (dict_get (lit "output_contract") d) as [[| | | | | |oc]|];
    try (split; [intros [r' H]; discriminate | discriminate]).
  - split; [reflexivity|]. intros _.
    destruct (is_none (dict_get (lit "schema") oc));
      [eexists; reflexivity|].
    destruct (dict_get (lit "schema") oc) as [[| | | | | |sch]|];
      try (eexists; reflexivity).
    destruct (negb (dict_has (lit "type") sch)
              && negb (dict_has (lit "$ref") sch)); eexists; reflexivity.
  - split; [reflexivity|]. intros _. eexists. reflexivity.
Qed.

(** The default validator returns a result exactly when every rule it
    checks is a mapping and [output_contract] is a mapping or missing;
    otherwise the call of [get] raises. *)
Lemma validate_default_defined d :
  (exists r, validate default_validator d = Some r) <->
  forallb is_dict (rules_of d) && contract_is_mapping d = true.
Proof.
  unfold validate, scan_spec.
  destruct (extract_default_defined (JDict d) []) as [fields Hf].
  change (extract default_validator (JDict d) [])
    with (_get_scannable_fields default_validator d) in Hf.
  rewrite Hf.
  pose proof (scan_fields_spec default_validator fields empty_result) as Hs.
  destruct (field_violations_default_defined fields) as [vs Evs].
  rewrite Evs in Hs. destruct Hs as [r1 [E1 _]]. rewrite E1.
  rewrite _validate_decision_rules_eq, andb_true_iff.
  rewrite <- (check_rules_defined (rules_of d) 0 r1).
  destruct (check_rules 0 (rules_of d) r1) as [r2|].
  - rewrite <- (_validate_output_contract_defined d r2). split.
    + intros H. split; [eexists; reflexivity | exact H].
    + intros [_ H]. exact H.
  - split; [intros [r H]; discriminate | intros [[r H] _]; discriminate].
Qed.

(** ** The fields the default scope selects *)







(** ** A result and the calls of [add_violation] that built it *)

(** The result after [add_violation] was called on a new result with each
    of the violations in turn. *)
Definition result_of (vs : list PatternViolation) : QualityValidationResult :=
  fold_left add_violation vs empty_result.

Lemma fold_add_violation_violations vs : forall r,
  violations (fold_left add_violation vs r) = violations r ++ vs.
Proof.
  induction vs as [|v vs IH]; intros r; simpl.
  - rewrite app_nil_r. reflexivity.
  - rewrite IH, add_violation_violations, <- app_assoc. reflexivity.
Qed.

Lemma result_of_violations vs : violations (result_of vs) = vs.
Proof. unfold result_of. apply fold_add_violation_violations. Qed.

Lemma grows_result_of r : grows empty_result r -> r = result_of (violations r).
Proof.
  intros [vs ->]. fold (result_of vs). rewrite result_of_violations.
  reflexivity.
Qed.

Lemma result_of_counted vs : counted (result_of vs).
Proof.
  apply (grows_counted empty_result); [|exact empty_result_counted].
  exists vs. reflexivity.
Qed.

End WithRepr.

End Quality.

(* ================================================================== *)
(** * Properties of the specification *)
(* ================================================================== *)

Section PreservationClaims.
Import PyStr Preservation.

(** ** Reconciliation *)

(** An existing document with one manual block, and generated content that
    itself carries a manual block. *)
Definition doc_one_manual : str :=
  MANUAL_START ++ [nl] ++ lit " my note " ++ [nl] ++ MANUAL_END.

Definition content_with_manual : str :=
  MANUAL_START ++ [nl] ++ lit "x" ++ [nl] ++ MANUAL_END.

Definition content_plain : str :=
  lit "# Title" ++ [nl] ++ lit "body".

(** C1, as stated, fails: the existing document has one manual block, but
    the generated content brings a manual block of its own, so the merged
    document has two. *)
Lemma C1_round_trip_counterexample :
  has_markers (parse_skill_md doc_one_manual) = true /\
  length (get_manual_blocks (parse_skill_md doc_one_manual)) = 1 /\
  length (get_manual_blocks
            (parse_skill_md
               (merged_content
                  (merge_with_preservation doc_one_manual
                                           content_with_manual false)))) = 2.
Proof. vm_compute. repeat split; reflexivity. Qed.

(** C1 (amended): round trip of reconciliation.  For every previous document
    [D] and every generated content [G] that holds no manual start marker,
    the merged document of [merge_with_preservation D G false] parses to
    exactly the manual blocks of [D]: as many, in the same order, the
    content of each being the content of the corresponding block of [D]
    with leading and trailing whitespace removed; the result also reports
    that number as [manual_blocks_preserved]. *)
Theorem C1_round_trip (D G : str) :
  contains MANUAL_START G = false ->
  let r := merge_with_preservation D G false in
  map content (get_manual_blocks (parse_skill_md (merged_content r))) =
  map (fun b => strip (content b)) (get_manual_blocks (parse_skill_md D)) /\
  length (get_manual_blocks (parse_skill_md (merged_content r))) =
  length (get_manual_blocks (parse_skill_md D)) /\
  manual_blocks_preserved r = length (get_manual_blocks (parse_skill_md D)).
Proof.
  intros HG r.
  assert (Hmain :
    map content (get_manual_blocks (parse_skill_md (merged_content r))) =
    map (fun b => strip (content b)) (get_manual_blocks (parse_skill_md D))).
  { subst r. unfold merge_with_preservation.
    destruct (has_markers (parse_skill_md D)) eqn:Hm; cbn [negb merged_content].
    - destruct (generated_lines_shape G HG) as [hd [Hhd Hno]].
      apply (reparse_manual _ hd).
      + apply (contains_join_member GENERATED_START [nl] _ GENERATED_START).
        * apply in_or_app. left. apply generated_lines_start.
        * apply contains_refl.
      + pose proof (generated_lines_start G) as Hin.
        destruct (generated_lines G) as [|l ls] eqn:El; [destruct Hin|].
        change ((l :: ls) ++ flat_map manual_lines
                           (get_manual_blocks (parse_skill_md D)))
          with (l :: (ls ++ flat_map manual_lines
                               (get_manual_blocks (parse_skill_md D)))).
        rewrite split_join.
        change (l :: (ls ++ flat_map manual_lines
                               (get_manual_blocks (parse_skill_md D))))
          with ((l :: ls) ++ flat_map manual_lines
                               (get_manual_blocks (parse_skill_md D))).
        rewrite flat_map_app, Hhd, flat_map_manual_lines. reflexivity.
      + exact Hno.
      + apply parse_manual_blocks_clean.
    - rewrite (no_markers_no_manual_blocks D Hm).
      destruct (wrap_generated_block_shape G HG) as [Hgs [hd [Hhd Hno]]].
      apply (reparse_manual _ hd []).
      + exact Hgs.
      + rewrite Hhd. simpl. rewrite app_nil_r. reflexivity.
      + exact Hno.
      + constructor. }
  split; [exact Hmain|]. split.
  - rewrite <- (length_map content), Hmain, length_map. reflexivity.
  - subst r. unfold merge_with_preservation.
    destruct (has_markers (parse_skill_md D)) eqn:Hm;
      cbn [negb manual_blocks_preserved]; [reflexivity|].
    rewrite (no_markers_no_manual_blocks D Hm). reflexivity.
Qed.

Lemma C1_round_trip_witness :
  contains MANUAL_START content_plain = false /\
  map content
      (get_manual_blocks
         (parse_skill_md
            (merged_content
               (merge_with_preservation doc_one_manual content_plain false))))
  = [lit "my note"].
Proof.
  split; [vm_compute; reflexivity|].
  assert (H : contains MANUAL_START content_plain = false)
    by (vm_compute; reflexivity).
  destruct (C1_round_trip doc_one_manual content_plain H) as [E _].
  rewrite E. vm_compute. reflexivity.
Defined.

(** C2: force semantics.  With [force = true] the merged content is the
    generated content itself (no marker is added), whatever the previous
    document is; the merge succeeds and carries the one warning that all
    existing content was replaced. *)
Theorem C2_force_semantics (D G : str) :
  merge_with_preservation D G true =
  mkPreservationResult true G 0 0
    [lit "Force mode: all existing content replaced"] [].
Proof. reflexivity. Qed.

(** A previous document that opens with an end marker that has no start. *)
Definition doc_stray_end : str :=
  MANUAL_END ++ [nl] ++ GENERATED_START ++ [nl] ++ lit "old" ++ [nl]
    ++ GENERATED_END.

(** C4, as stated, fails: an end marker with no matching start does not
    abort the merge; the result is a success with merged content. *)
Lemma C4_no_fatal_error_counterexample :
  let r := merge_with_preservation doc_stray_end content_plain false in
  success r = true /\ errors r = [] /\
  merged_content r =
  GENERATED_START ++ [nl] ++ content_plain ++ [nl] ++ GENERATED_END.
Proof. vm_compute. repeat split; reflexivity. Qed.

(** C4 (amended): the merge has no fatal outcome.  For every previous
    document, generated content and force flag the result has
    [success = true] and no errors; the abnormal conditions are reported as
    warnings only: one warning in force mode, one when the previous document
    has no start marker, none otherwise. *)
Theorem C4_merge_never_fails (D G : str) (force : bool) :
  let r := merge_with_preservation D G force in
  success r = true /\ errors r = [] /\
  warnings r =
    (if force then [force_warning]
     else if has_markers (parse_skill_md D) then []
          else [no_markers_warning]).
Proof.
  unfold merge_with_preservation. destruct force; [repeat split|].
  destruct (has_markers (parse_skill_md D)); repeat split.
Qed.

(** Generated content that starts with a front-matter block. *)
Definition content_frontmatter : str :=
  lit "---" ++ [nl] ++ lit "name: demo" ++ [nl] ++ lit "---" ++ [nl]
    ++ lit "body".

(** C7, as stated, fails on generated content with front matter: the front
    matter stays outside the markers, so the merged content is not the whole
    of [G] between the two markers. *)
Lemma C7_no_markers_counterexample :
  marker_free (lit "old text") = true /\
  merged_content
    (merge_with_preservation (lit "old text") content_frontmatter false)
  <> GENERATED_START ++ [nl] ++ content_frontmatter ++ [nl] ++ GENERATED_END.
Proof. split; [vm_compute; reflexivity | vm_compute; discriminate]. Qed.

(** C7 (amended): first-time adoption.  For every previous document [D] that
    holds none of the four markers and every generated content [G], the
    merged content of [merge_with_preservation D G false] is
    [wrap_generated_block G]: when [G] has no leading front-matter block it
    is [G] between the generated start and end markers; when it has one,
    the front matter is kept in front and the rest of [G] is between the
    markers.  The result carries exactly one warning, that no markers were
    found, and it is the same for every such [D]. *)
Theorem C7_no_markers_adoption (D G : str) :
  marker_free D = true ->
  let r := merge_with_preservation D G false in
  merged_content r = wrap_generated_block G /\
  (frontmatter_match G = None ->
   merged_content r =
   GENERATED_START ++ [nl] ++ G ++ [nl] ++ GENERATED_END) /\
  (forall fm body, frontmatter_match G = Some (fm, body) ->
   G = fm ++ body /\
   merged_content r =
   fm ++ GENERATED_START ++ [nl] ++ body ++ [nl] ++ GENERATED_END) /\
  warnings r =
    [lit "No markers found in existing content - wrapped new content in generated markers"] /\
  success r = true /\
  (forall D', marker_free D' = true -> merge_with_preservation D' G false = r).
Proof.
  assert (Hbranch : forall X, marker_free X = true ->
            merge_with_preservation X G false =
            mkPreservationResult true (wrap_generated_block G) 0 0
                                 [no_markers_warning] []).
  { intros X HX. apply marker_free_spec in HX. destruct HX as [H1 [H2 _]].
    unfold merge_with_preservation, parse_skill_md. rewrite H1, H2.
    reflexivity. }
  intros HD r. subst r. rewrite (Hbranch D HD). cbn [merged_content warnings success].
  split; [reflexivity|]. split.
  { intros E. unfold wrap_generated_block. rewrite E. reflexivity. }
  split.
  { intros fm body E. split; [exact (frontmatter_match_split G fm body E)|].
    unfold wrap_generated_block. rewrite E. reflexivity. }
  split; [reflexivity|]. split; [reflexivity|].
  intros D' HD'. exact (Hbranch D' HD').
Qed.

Lemma C7_no_markers_adoption_witness :
  marker_free (lit "old text") = true /\
  merged_content
    (merge_with_preservation (lit "old text") content_plain false)
  = GENERATED_START ++ [nl] ++ content_plain ++ [nl] ++ GENERATED_END.
Proof.
  split; [vm_compute; reflexivity|].
  assert (H : marker_free (lit "old text") = true) by (vm_compute; reflexivity).
  destruct (C7_no_markers_adoption (lit "old text") content_plain H)
    as [_ [E _]].
  apply E. vm_compute. reflexivity.
Defined.

End PreservationClaims.

Section NormalisationClaims.
Import PyStr Json Models.

(** ** Decision-rule normalisation *)

(** C3: idempotence of normalisation.  For every input -- a canonical
    object, a legacy keyed object, a bare list, or anything else --
    [extract_rules] applied to its own output returns that output. *)
Theorem C3_normalize_idempotent (x : json) :
  extract_rules (extract_rules x) = extract_rules x.
Proof.
  destruct x as [|b|z|n d|s|l|d]; try reflexivity.
  - change (extract_rules (JList l))
      with (canonical (JDict []) (JList (ensure_rule_ids l 0))).
    rewrite extract_rules_canonical, ensure_rule_ids_idempotent.
    reflexivity.
  - unfold extract_rules at 2 3.
    destruct (dict_has (lit "rules") d).
    + rewrite extract_rules_canonical.
      destruct (dict_get_default (lit "rules") JNull d); try reflexivity.
      rewrite ensure_rule_ids_idempotent. reflexivity.
    + rewrite extract_rules_canonical. unfold ensure_rule_ids.
      rewrite ensure_rule_ids_from_fixed by apply legacy_rules_settled.
      reflexivity.
Qed.

(** [enumerate(l)] *)
Definition enumerate {A : Type} (l : list A) : list (nat * A) :=
  combine (seq 0 (length l)) l.

(** The rule with [fallback] as its id when it is an object without an
    ['id'] key; the rule itself otherwise. *)
Definition with_id (fallback : str) (rule : json) : json :=
  match rule with
  | JDict r =>
      if dict_has (lit "id") r then rule
      else JDict (r ++ [(lit "id", JStr fallback)])
  | _ => rule
  end.

Definition generated_id (i : nat) : str := lit "rule_" ++ str_of_nat i.

Definition is_rule_entry (entry : str * json) : bool :=
  negb (str_eqb (fst entry) (lit "_config")) && is_dict (snd entry).

Lemma ensure_rule_ids_from_enumerate i l :
  ensure_rule_ids_from 0 i l =
  map (fun p => with_id (generated_id (fst p)) (snd p))
      (combine (seq i (length l)) l).
Proof.
  revert i. induction l as [|rule l IH]; intros i; [reflexivity|].
  simpl. rewrite IH. f_equal.
  destruct rule as [| | | | |l0|r]; try reflexivity.
  unfold with_id. destruct (dict_has (lit "id") r) eqn:E; [reflexivity|].
  simpl. rewrite (dict_set_new _ _ _ E). reflexivity.
Qed.

Lemma legacy_rules_spec d :
  legacy_rules d =
  map (fun entry => with_id (fst entry) (snd entry)) (filter is_rule_entry d).
Proof.
  induction d as [|[key value] d IH]; [reflexivity|].
  simpl. unfold is_rule_entry at 1. simpl.
  destruct (str_eqb key (lit "_config")); simpl; [exact IH|].
  destruct value as [| | | | |l0|r]; simpl; try exact IH.
  rewrite IH. f_equal.
  destruct (dict_has (lit "id") r) eqn:E; simpl; [reflexivity|].
  rewrite (dict_set_new _ _ _ E). reflexivity.
Qed.

(** A legacy keyed object with two rules without ids, the first of which
    has the key [rules]. *)
Definition rule_keyed_rules : json :=
  JDict [(lit "when", JStr (lit "x > 1")); (lit "then", JDict [])].

Definition keyed_rules_object : dict :=
  [(lit "rules", rule_keyed_rules);
   (lit "fallback", JDict [(lit "when", JBool true); (lit "then", JDict [])])].

(** C9, as stated, fails: a legacy keyed object in which a rule has the key
    [rules] is read as the canonical encoding.  Its entries are rule
    objects without ids, yet the rule under [rules] does not receive its key
    as id (it is returned as it is, in the place of the list of rules), and
    the rule under [fallback] is dropped. *)
Lemma C9_rule_ids_counterexample :
  forallb is_rule_entry keyed_rules_object = true /\
  extract_rules (JDict keyed_rules_object)
  = canonical (JDict []) rule_keyed_rules /\
  extract_rules (JDict keyed_rules_object) <>
  canonical (JDict [])
    (JList (map (fun entry => with_id (fst entry) (snd entry))
                (filter is_rule_entry keyed_rules_object))).
Proof.
  split; [vm_compute; reflexivity|]. split; [vm_compute; reflexivity|].
  vm_compute. discriminate.
Qed.

(** C9 (amended): deterministic rule ids.  In the bare-list encoding and in
    the canonical encoding (an object with the key [rules] holding a list)
    the normalised rules are the source rules in order, where a rule object
    without an ['id'] key has got the entry [id = rule_<i>], [i] being its
    zero-based position in the source list; in the legacy keyed encoding
    with no entry under the key [rules], the normalised rules are the rule
    objects of the entries other than [_config], in order, where a rule
    without an ['id'] key has got its key as id.  A rule with an id is
    unchanged.  An object with the key [rules] is always read as the
    canonical encoding: when the value under [rules] is not a list it is
    returned as it is, and the other entries, [_config] apart, are
    dropped. *)
Theorem C9_rule_ids :
  (forall l,
     extract_rules (JList l) =
     canonical (JDict [])
       (JList (map (fun p => with_id (generated_id (fst p)) (snd p))
                   (enumerate l)))) /\
  (forall d l,
     dict_get (lit "rules") d = Some (JList l) ->
     extract_rules (JDict d) =
     canonical (dict_get_default (lit "_config") (JDict []) d)
       (JList (map (fun p => with_id (generated_id (fst p)) (snd p))
                   (enumerate l)))) /\
  (forall d,
     dict_has (lit "rules") d = false ->
     extract_rules (JDict d) =
     canonical (dict_get_default (lit "_config") (JDict []) d)
       (JList (map (fun entry => with_id (fst entry) (snd entry))
                   (filter is_rule_entry d)))) /\
  (forall d v,
     dict_get (lit "rules") d = Some v -> is_list v = false ->
     extract_rules (JDict d) =
     canonical (dict_get_default (lit "_config") (JDict []) d) v).
Proof.
  split; [|split; [|split]].
  - intros l. unfold extract_rules, ensure_rule_ids, enumerate.
    rewrite ensure_rule_ids_from_enumerate. reflexivity.
  - intros d l H. unfold extract_rules, dict_get_default.
    rewrite dict_get_has, H. unfold ensure_rule_ids, enumerate.
    rewrite ensure_rule_ids_from_enumerate. reflexivity.
  - intros d H. unfold extract_rules. rewrite H, legacy_rules_spec.
    reflexivity.
  - intros d v H Hv. unfold extract_rules, dict_get_default.
    rewrite dict_get_has, H. destruct v; try reflexivity. discriminate.
Qed.

(** A rule without an id, and one with an id. *)
Definition rule_anon : json :=
  JDict [(lit "when", JStr (lit "x > 1")); (lit "then", JDict [])].

Definition rule_named : json :=
  JDict [(lit "id", JStr (lit "check_size")); (lit "when", JBool true);
         (lit "then", JDict [])].

Lemma C9_rule_ids_witness :
  extract_rules
    (JDict [(lit "_config", JDict []);
            (lit "rules", JList [rule_named; rule_anon])]) =
  canonical (JDict [])
    (JList [rule_named;
            JDict [(lit "when", JStr (lit "x > 1")); (lit "then", JDict []);
                   (lit "id", JStr (lit "rule_1"))]])
  /\
  extract_rules
    (JDict [(lit "first", rule_anon); (lit "_config", JDict []);
            (lit "second", rule_named)]) =
  canonical (JDict [])
    (JList [JDict [(lit "when", JStr (lit "x > 1")); (lit "then", JDict []);
                   (lit "id", JStr (lit "first"))];
            rule_named]).
Proof.
  destruct C9_rule_ids as [_ [Hcanon [Hlegacy _]]]. split.
  - rewrite (Hcanon _ [rule_named; rule_anon]); [|vm_compute; reflexivity].
    vm_compute. reflexivity.
  - rewrite Hlegacy; [|vm_compute; reflexivity].
    vm_compute. reflexivity.
Defined.

End NormalisationClaims.

Section QualityClaims.
Import PyStr Json Quality.
Context {R : Repr}.

(** ** Forbidden patterns *)












End QualityClaims.

Section QualityClaimsExamples.
Import PyStr Json Quality.
#[local] Existing Instance example_repr.


End QualityClaimsExamples.

Section SchemaClaims.
Import PyStr Json Pydantic Models Schema.
Context {R : Repr} {L : Lax}.

(** ** Schema validation *)

(** Example specs.  [example_spec version rules inputs steps] is a complete
    spec in which the four given sections can be varied. *)
Definition S (s : String.string) : json := JStr (lit s).
Arguments S s%_string.

Definition step_load : json :=
  JDict [(lit "id", S "load"); (lit "action", S "Load the document");
         (lit "output", S "loaded")].

Definition step_check : json :=
  JDict [(lit "id", S "check"); (lit "action", S "Check the document");
         (lit "based_on", JList [S "loaded"])].

Definition one_rule : json :=
  JList [JDict [(lit "id", S "always"); (lit "when", JBool true);
                (lit "then", JDict [(lit "status", S "success")])]].

Definition one_input : json :=
  JList [JDict [(lit "name", S "document"); (lit "type", S "string");
                (lit "required", JBool true)]].

Definition example_sections (rules inputs steps : json) : dict :=
  [(lit "skill",
    JDict [(lit "name", S "demo-skill"); (lit "version", S "1.0.0");
           (lit "purpose", S "Validate the input document");
           (lit "owner", S "team")]);
   (lit "inputs", inputs);
   (lit "preconditions", JList [S "Input is readable"]);
   (lit "non_goals", JList [S "Does not fix the document"]);
   (lit "decision_rules", rules);
   (lit "steps", steps);
   (lit "output_contract",
    JDict [(lit "format", S "json");
           (lit "schema", JDict [(lit "type", S "object")])]);
   (lit "failure_modes",
    JList [JDict [(lit "code", S "EMPTY_INPUT"); (lit "retryable", JBool false)]]);
   (lit "edge_cases",
    JList [JDict [(lit "case", S "empty document");
                  (lit "expected", JDict [(lit "status", S "error")]);
                  (lit "covers_failure", S "EMPTY_INPUT")]])].

Definition example_spec (version : String.string) (rules inputs steps : json)
  : dict :=
  (lit "spec_version", S version) :: example_sections rules inputs steps.
Arguments example_spec version%_string rules inputs steps.

Definition empty_inputs_error : SchemaError :=
  mkSchemaError (lit "inputs") (Text (lit "Section 'inputs' is empty"))
    (Some (lit "Add at least one item to 'inputs'")).

Definition spec_without_version : dict :=
  example_sections one_rule (JList []) (JList [step_load; step_check]).

Lemma other_sections_of_inputs s :
  In s REQUIRED_SECTIONS -> s = lit "inputs" \/
  In s ([lit "skill"] ++
        [lit "preconditions"; lit "non_goals"; lit "decision_rules";
         lit "steps"; lit "output_contract"; lit "failure_modes";
         lit "edge_cases"]).
Proof.
  unfold REQUIRED_SECTIONS, CORE_SECTIONS, COVERAGE_SECTIONS. simpl.
  intuition.
Qed.

(** C6 (amended): empty-list section detection.  For every spec dict whose
    [inputs] is the empty list, whose other required sections are present,
    non-null and not an empty list, and whose [spec_version] is present (a
    string), [validate] returns a result that is not valid and has exactly
    one error: path [inputs], message "Section 'inputs' is empty",
    suggestion "Add at least one item to 'inputs'".  This holds for every
    validator, with or without a schema path. *)
Theorem C6_empty_inputs (self : SchemaValidator) (d : dict) (version : str) :
  dict_get (lit "inputs") d = Some (JList []) ->
  (forall section, In section REQUIRED_SECTIONS -> section <> lit "inputs" ->
     section_present d section) ->
  dict_get (lit "spec_version") d = Some (JStr version) ->
  exists r,
    validate self d = Some r /\ valid r = false /\
    errors r = [empty_inputs_error].
Proof.
  intros Hinputs Hothers Hversion.
  assert (Hsections : _check_required_sections d new_result =
                      add_error new_result (lit "inputs")
                        (Text (lit "Section 'inputs' is empty"))
                        (Some (lit "Add at least one item to 'inputs'"))).
  { unfold _check_required_sections.
    change REQUIRED_SECTIONS
      with ([lit "skill"] ++ [lit "inputs"] ++
            [lit "preconditions"; lit "non_goals"; lit "decision_rules";
             lit "steps"; lit "output_contract"; lit "failure_modes";
             lit "edge_cases"]).
    rewrite fold_left_app, fold_left_app.
    rewrite (check_sections_present d [lit "skill"]).
    2:{ intros s Hs. apply Hothers.
        - destruct Hs as [<- | []]. left. reflexivity.
        - destruct Hs as [<- | []]. intros E. apply str_eqb_eq in E.
          vm_compute in E. discriminate. }
    change (fold_left (check_section d) [lit "inputs"] new_result)
      with (check_section d new_result (lit "inputs")).
    rewrite (check_section_empty d _ _ Hinputs).
    etransitivity; [|reflexivity].
    apply check_sections_present. intros s Hs. apply Hothers.
    - right. right. exact Hs.
    - intros E. subst s. simpl in Hs.
      repeat (destruct Hs as [Hs | Hs];
              [apply str_eqb_eq in Hs; vm_compute in Hs; discriminate|]).
      destruct Hs. }
  unfold validate. rewrite Hsections.
  rewrite (_check_spec_version_str d _ version Hversion).
  destruct (existsb (str_eqb version) valid_versions);
    eexists; (split; [reflexivity|]); split; reflexivity.
Qed.

Definition spec_without_rules : dict :=
  example_spec "skill-spec/1.2" (JList []) one_input
               (JList [step_load; step_check]).

(** C10 (amended): version recognition mismatch.  For every spec dict with
    [spec_version == 'skill-spec/1.2'], every result of [validate] carries
    exactly one warning, at path [spec_version], reporting the version as
    unknown; and when the typed [SkillSpec] model accepts the dict and its
    [decision_rules] is not an empty list, the default validator returns
    [valid == true] with no error and that warning. *)
Theorem C10_version_mismatch (d : dict) :
  dict_get (lit "spec_version") d = Some (JStr (lit "skill-spec/1.2")) ->
  (forall self r, validate self d = Some r ->
     warnings r = [unknown_version_warning (lit "skill-spec/1.2")]) /\
  (model_validate d = Some [] ->
   dict_get (lit "decision_rules") d <> Some (JList []) ->
   validate default_validator d =
   Some (mkSchemaValidationResult true []
           [unknown_version_warning (lit "skill-spec/1.2")])).
Proof.
  intros Hversion.
  assert (Hcheck : forall r0,
            _check_spec_version d r0 =
            Some (add_warning r0 (lit "spec_version")
                    (Text (lit "Unknown spec version: " ++ lit "skill-spec/1.2"))
                    (Some (lit "Use 'skill-spec/1.0' or 'skill-spec/1.1'")))).
  { intros r0. rewrite (_check_spec_version_str d r0 _ Hversion).
    rewrite version_1_2_unknown. reflexivity. }
  split.
  - intros self r Hr.
    destruct (validate_warnings self d r Hr) as [r1 [H1 Hw]].
    rewrite Hcheck in H1. injection H1 as <-. rewrite Hw.
    unfold add_warning. cbn [warnings]. unfold _check_required_sections.
    rewrite check_sections_warnings. reflexivity.
  - intros Hmodel Hrules.
    assert (Hacc : validate_type SkillSpec_type (JDict d) = []).
    { unfold model_validate in Hmodel.
      destruct (validate_type SkillSpec_type (JDict d)); [reflexivity|].
      discriminate. }
    assert (Hsections : _check_required_sections d new_result = new_result).
    { apply check_sections_present. apply accepted_sections; assumption. }
    unfold validate. rewrite Hsections, Hcheck.
    unfold _validate_with_pydantic. cbn [add_warning valid new_result].
    rewrite Hmodel. reflexivity.
Qed.

(** ** The order of the steps *)

Definition steps_of (d : dict) : list ExecutionStep :=
  steps (build_SkillSpec d).

(** Some step names in [based_on] an output that no strictly earlier step
    produces. *)
Definition misordered (ss : list ExecutionStep) : Prop :=
  exists i step dep,
    nth_error ss i = Some step /\ In dep (dependencies step) /\
    ~ In dep (step_outputs (firstn i ss)).

(** Every dependency of every step is the output of a strictly earlier
    step. *)
Definition well_ordered (ss : list ExecutionStep) : Prop :=
  forall i step dep,
    nth_error ss i = Some step -> In dep (dependencies step) ->
    In dep (step_outputs (firstn i ss)).

(** The checks that come before the step loop pass: the version is there,
    the field validation accepts the spec, the section check lets
    [decision_rules] through, and the references of the edge cases
    resolve. *)
Definition reaches_step_check (d : dict) : Prop :=
  (exists version, dict_get (lit "spec_version") d = Some (JStr version)) /\
  validate_type SkillSpec_type (JDict d) = [] /\
  dict_get (lit "decision_rules") d <> Some (JList []) /\
  edge_cases_resolve (build_SkillSpec d).

Lemma well_ordered_iff ss : well_ordered ss <-> ordered_from [] ss.
Proof.
  unfold well_ordered, ordered_from. split.
  - intros H i step dep Hnth Hdep. right. exact (H i step dep Hnth Hdep).
  - intros H i step dep Hnth Hdep.
    destruct (H i step dep Hnth Hdep) as [[] | Ho]. exact Ho.
Qed.

Lemma misordered_check_steps ss : misordered ss -> check_steps [] ss <> None.
Proof.
  intros [i [step [dep [Hnth [Hdep Hno]]]]] Hnone.
  apply check_steps_none in Hnone.
  destruct (Hnone i step dep Hnth Hdep) as [[] | Ho]. exact (Hno Ho).
Qed.

Definition dependency_error (step : ExecutionStep) (dep : str) : SchemaError :=
  mkSchemaError [] (Text (lit "Value error, " ++ dependency_message step dep))
                None.

Definition misordered_spec_without_inputs : dict :=
  example_spec "skill-spec/1.0" one_rule (JList [])
               (JList [step_check; step_load]).

(** C5 (amended): step dependency ordering.  For every spec in which some
    step's [based_on] names an output that no strictly earlier step produces
    (through a non-empty [output]), no validator returns a valid result.
    When the checks before the step loop pass (the version is present, the
    field validation accepts the spec, [decision_rules] is not an empty list
    and the references of the edge cases resolve), every validator returns
    a result that is not valid and has exactly one error, which names the
    first offending step (the steps before it are in order) and its first
    missing dependency (the dependencies listed before it in [based_on] are
    all produced by strictly earlier steps).  For such a spec,
    putting the steps in an order in which every dependency is produced by a
    strictly earlier step, all else equal, makes the default validator return
    a valid result without errors. *)
Theorem C5_step_dependency_order (d : dict) :
  (misordered (steps_of d) ->
   forall self r, validate self d = Some r -> valid r = false) /\
  (reaches_step_check d -> misordered (steps_of d) ->
   exists i step dep before after,
     nth_error (steps_of d) i = Some step /\
     dependencies step = before ++ dep :: after /\
     (forall x, In x before -> In x (step_outputs (firstn i (steps_of d)))) /\
     ~ In dep (step_outputs (firstn i (steps_of d))) /\
     well_ordered (firstn i (steps_of d)) /\
     forall self, exists r,
       validate self d = Some r /\ valid r = false /\
       errors r = [dependency_error step dep]) /\
  (reaches_step_check d ->
   forall js js',
     dict_get (lit "steps") d = Some (JList js) ->
     Permutation js js' ->
     well_ordered (map to_ExecutionStep js') ->
     exists r,
       validate default_validator (dict_set (lit "steps") (JList js') d)
       = Some r /\
       valid r = true /\ errors r = []).
Proof.
  split; [|split].
  - intros Hmis self r Hr.
    destruct (validate_after_version self d r Hr) as [r1 [_ [Hinv Hval]]].
    destruct (valid r1) eqn:Hv1.
    + destruct (Hval eq_refl) as [errs [Hm Hr']]. destruct errs as [|e errs].
      * exfalso. destruct (model_validate_nil d Hm) as [_ Hx].
        destruct (validate_cross_references_ok _ Hx) as [_ Hsteps].
        exact (misordered_check_steps _ Hmis Hsteps).
      * rewrite Hr', add_pydantic_errors. reflexivity.
    + rewrite (Hinv eq_refl). exact Hv1.
  - intros [[version Hver] [Hacc [Hrules Hedge]]] Hmis.
    destruct (check_steps [] (steps_of d)) as [text|] eqn:Hsteps;
      [|exfalso; exact (misordered_check_steps _ Hmis Hsteps)].
    destruct (check_steps_some_first _ _ _ Hsteps)
      as [i [step [dep [before [after
           [Hnth [Hdep [Hbefore [_ [Hno [Hord Htext]]]]]]]]]]].
    exists i, step, dep, before, after. split; [exact Hnth|].
    split; [exact Hdep|].
    split; [intros x Hx; destruct (Hbefore x Hx) as [[] | Ho]; exact Ho|].
    split; [exact Hno|]. split; [apply well_ordered_iff; exact Hord|].
    intros self.
    assert (Hm : model_validate d = Some [value_error text]).
    { rewrite (model_validate_accepted d Hacc).
      rewrite (validate_cross_references_steps _ Hedge).
      unfold steps_of in Hsteps. rewrite Hsteps. reflexivity. }
    destruct (validate_model_errors self d version _ _ Hver
                (accepted_sections d Hacc Hrules) Hm) as [r [Hr [Hv He]]].
    exists r. split; [exact Hr|]. split; [exact Hv|].
    rewrite He, Htext. reflexivity.
  - intros [[version Hver] [Hacc [Hrules Hedge]]] js js' Hget Hperm Hord.
    pose proof (reorder_accepted d js js' Hacc Hget Hperm) as Hacc'.
    assert (Hm : model_validate (dict_set (lit "steps") (JList js') d)
                 = Some []).
    { rewrite (model_validate_accepted _ Hacc').
      rewrite validate_cross_references_steps.
      - rewrite reorder_build. cbn [steps].
        apply well_ordered_iff, check_steps_none in Hord.
        rewrite Hord. reflexivity.
      - rewrite reorder_build. exact Hedge. }
    assert (Hver' : dict_get (lit "spec_version")
                      (dict_set (lit "steps") (JList js') d)
                    = Some (JStr version)).
    { rewrite dict_get_set_other by (vm_compute; reflexivity). exact Hver. }
    assert (Hrules' : dict_get (lit "decision_rules")
                        (dict_set (lit "steps") (JList js') d)
                      <> Some (JList [])).
    { rewrite dict_get_set_other by (vm_compute; reflexivity). exact Hrules. }
    destruct (validate_by_model _ version [] Hver'
                (accepted_sections _ Hacc' Hrules') Hm) as [r [Hr [Hv He]]].
    exists r. split; [exact Hr|]. split; [exact Hv | exact He].
Qed.

Definition misordered_spec : dict :=
  example_spec "skill-spec/1.0" one_rule one_input
               (JList [step_check; step_load]).

End SchemaClaims.

(** ** The examples of the schema claims *)

Section SchemaClaimsExamples.
Import PyStr Json Pydantic Models Schema.
#[local] Existing Instance example_repr.
#[local] Existing Instance example_lax.
Arguments S s%_string.
Arguments example_spec version%_string rules inputs steps.

(** C6, as stated, fails: a spec with [inputs: []] in which every other
    required section is present and filled, but which has no [spec_version],
    gets two errors. *)
Lemma C6_empty_inputs_counterexample :
  dict_get (lit "inputs") spec_without_version = Some (JList []) /\
  forallb (fun section =>
             str_eqb section (lit "inputs") ||
             match dict_get section spec_without_version with
             | Some JNull | Some (JList []) | None => false
             | Some _ => true
             end) REQUIRED_SECTIONS = true /\
  exists r, validate default_validator spec_without_version = Some r /\
            valid r = false /\ length (errors r) = 2.
Proof.
  split; [vm_compute; reflexivity|]. split; [vm_compute; reflexivity|].
  eexists. split; [vm_compute; reflexivity|]. split; reflexivity.
Qed.

Lemma C6_empty_inputs_witness :
  exists r,
    validate default_validator
      (example_spec "skill-spec/1.1" one_rule (JList [])
                    (JList [step_load; step_check])) = Some r /\
    valid r = false /\ errors r = [empty_inputs_error].
Proof.
  apply (C6_empty_inputs default_validator _ (lit "skill-spec/1.1")).
  - vm_compute. reflexivity.
  - intros section Hin Hne.
    destruct (other_sections_of_inputs section Hin) as [E | Hs];
      [contradiction|].
    simpl in Hs.
    repeat (destruct Hs as [<- | Hs];
            [eexists; split; [vm_compute; reflexivity|];
             split; discriminate|]).
    destruct Hs.
  - vm_compute. reflexivity.
Defined.

(** C10, as stated, fails: the typed model accepts a spec of version 1.2
    whose [decision_rules] is the empty list (the field has no minimum
    length), but the required-section check of the schema layer rejects the
    empty section, so the result is not valid. *)
Lemma C10_version_mismatch_counterexample :
  model_validate spec_without_rules = Some [] /\
  dict_get (lit "spec_version") spec_without_rules
  = Some (JStr (lit "skill-spec/1.2")) /\
  exists r, validate default_validator spec_without_rules = Some r /\
            valid r = false.
Proof.
  split; [vm_compute; reflexivity|]. split; [vm_compute; reflexivity|].
  eexists. split; [vm_compute; reflexivity | reflexivity].
Qed.

Lemma C10_version_mismatch_witness :
  validate default_validator
    (example_spec "skill-spec/1.2" one_rule one_input
                  (JList [step_load; step_check])) =
  Some (mkSchemaValidationResult true []
          [unknown_version_warning (lit "skill-spec/1.2")]).
Proof.
  assert (Hv : dict_get (lit "spec_version")
                 (example_spec "skill-spec/1.2" one_rule one_input
                               (JList [step_load; step_check]))
               = Some (JStr (lit "skill-spec/1.2")))
    by (vm_compute; reflexivity).
  destruct (C10_version_mismatch _ Hv) as [_ H]. apply H.
  - vm_compute. reflexivity.
  - vm_compute. discriminate.
Defined.

(** C5, as stated, fails: in a spec whose first step depends on the output
    of the second and whose [inputs] is the empty list, validation stops
    after the section check; its only error is the one about [inputs], and
    no error names the step or the missing dependency. *)
Lemma C5_step_dependency_order_counterexample :
  misordered (steps_of misordered_spec_without_inputs) /\
  exists r,
    validate default_validator misordered_spec_without_inputs = Some r /\
    valid r = false /\ errors r = [empty_inputs_error] /\
    forall step dep, ~ In (dependency_error step dep) (errors r).
Proof.
  split.
  - exists 0, (to_ExecutionStep step_check), (lit "loaded").
    split; [vm_compute; reflexivity|].
    split; [left; vm_compute; reflexivity|]. intros [].
  - eexists. split; [vm_compute; reflexivity|].
    split; [reflexivity|]. split; [reflexivity|].
    intros step dep [H | []]. discriminate H.
Qed.

Lemma C5_step_dependency_order_witness :
  (exists r,
     validate default_validator misordered_spec = Some r /\
     valid r = false /\
     errors r =
     [mkSchemaError []
        (Text (lit "Value error, Step 'check' depends on 'loaded' which is not available at this point in the execution flow"))
        None]) /\
  (exists r,
     validate default_validator
       (dict_set (lit "steps") (JList [step_load; step_check]) misordered_spec)
     = Some r /\
     valid r = true /\ errors r = []).
Proof.
  assert (Hreach : reaches_step_check misordered_spec).
  { split; [eexists; vm_compute; reflexivity|].
    split; [vm_compute; reflexivity|].
    split; [vm_compute; discriminate|].
    eexists. split; vm_compute; reflexivity. }
  assert (Hmis : misordered (steps_of misordered_spec)).
  { exists 0, (to_ExecutionStep step_check), (lit "loaded").
    split; [vm_compute; reflexivity|].
    split; [left; vm_compute; reflexivity|]. intros []. }
  destruct (C5_step_dependency_order misordered_spec) as [_ [Hfirst Hre]].
  split.
  - destruct (Hfirst Hreach Hmis)
      as [i [step [dep [before [after [_ [_ [_ [_ [_ H]]]]]]]]]].
    destruct (H default_validator) as [r [Hr [Hv _]]].
    exists r. split; [exact Hr|]. split; [exact Hv|].
    vm_compute in Hr. injection Hr as <-. vm_compute. reflexivity.
  - apply (Hre Hreach [step_check; step_load] [step_load; step_check]).
    + vm_compute. reflexivity.
    + apply perm_swap.
    + intros i step dep Hnth Hdep.
      destruct i as [|[|i]].
      * injection Hnth as <-. destruct Hdep.
      * injection Hnth as <-. destruct Hdep as [<- | []].
        left. vm_compute. reflexivity.
      * destruct i; discriminate Hnth.
Defined.

End SchemaClaimsExamples.

(* ================================================================== *)
(** * Further properties of the preservation protocol *)
(* ================================================================== *)

Section PreservationProperties.
Import PyStr Preservation.

(** ** The parser *)

(** X1: the blocks of a parsed document.  A document has markers exactly
    when its text holds one of the two start markers.  A document without
    them parses to exactly one block: an unmarked block that holds the whole
    text.  In a document with markers no block content holds any of the
    four markers (the marker lines are dropped).  So no block content ever
    holds a start marker. *)
Theorem parse_blocks_hold_no_marker (D : str) :
  has_markers (parse_skill_md D)
  = contains GENERATED_START D || contains MANUAL_START D /\
  (has_markers (parse_skill_md D) = false ->
   blocks (parse_skill_md D) = [new_block UNMARKED D None]) /\
  (has_markers (parse_skill_md D) = true ->
   Forall (fun b => marker_free (content b) = true)
          (blocks (parse_skill_md D))) /\
  Forall (fun b =>
            contains GENERATED_START (content b) = false /\
            contains MANUAL_START (content b) = false)
         (blocks (parse_skill_md D)).
Proof.
  split; [apply has_markers_spec|].
  split.
  { intros Hm. rewrite has_markers_spec in Hm.
    apply orb_false_iff in Hm as [H1 H2].
    unfold parse_skill_md. rewrite H1, H2. reflexivity. }
  split.
  { intros Hm. rewrite has_markers_spec in Hm.
    apply orb_true_iff in Hm. rewrite (parse_with_markers D Hm).
    cbn [blocks].
    apply save_if_any_clean; apply scan_lines_clean; split; constructor. }
  eapply Forall_impl with
    (P := fun b =>
            (contains GENERATED_START (content b) = false /\
             contains MANUAL_START (content b) = false) /\
            if has_markers (parse_skill_md D)
            then marker_free (content b) = true
            else b = new_block UNMARKED D None);
    [intros b [Hb _]; exact Hb|].
  destruct (has_markers (parse_skill_md D)) eqn:Hm.
  - pose proof Hm as H. rewrite has_markers_spec in H.
    apply orb_true_iff in H. rewrite (parse_with_markers D H). cbn [blocks].
    eapply Forall_impl;
      [|apply save_if_any_clean; apply scan_lines_clean; split; constructor].
    intros b Hb. destruct (proj1 (marker_free_spec _) Hb) as [H1 [H2 _]].
    repeat split; assumption.
  - rewrite has_markers_spec in Hm. apply orb_false_iff in Hm as [H1 H2].
    unfold parse_skill_md. rewrite H1, H2. cbn [orb negb blocks].
    constructor; [|constructor]. repeat split; assumption.
Qed.

(** X2: round trip of [wrap_manual_block].  Content without markers that is
    wrapped as a manual block parses to exactly one block, a manual block
    with that content, unchanged; there is no generated block. *)
Theorem wrap_manual_block_round_trip (c : str) :
  marker_free c = true ->
  map content (extract_manual_blocks (wrap_manual_block c)) = [c] /\
  extract_generated_blocks (wrap_manual_block c) = [] /\
  shapes (blocks (parse_skill_md (wrap_manual_block c))) = [(MANUAL, c)].
Proof.
  intros Hc. destruct (parse_wrap_manual_block c Hc) as [sec E].
  unfold extract_manual_blocks, extract_generated_blocks, get_manual_blocks,
    get_generated_blocks.
  rewrite E. repeat split.
Qed.

Lemma wrap_manual_block_round_trip_witness :
  marker_free (lit "my note") = true /\
  map content (extract_manual_blocks (wrap_manual_block (lit "my note")))
  = [lit "my note"].
Proof.
  assert (H : marker_free (lit "my note") = true) by (vm_compute; reflexivity).
  split; [exact H|].
  exact (proj1 (wrap_manual_block_round_trip (lit "my note") H)).
Defined.

(** X3: round trip of [wrap_generated_block].  Generated content without
    markers that is wrapped parses to exactly one generated block and no
    manual block.  Without a front matter the block holds the content,
    unchanged, and is the only block; with a front matter the block holds
    what follows the front matter, and the front matter without its last
    newline is an unmarked block in front of it. *)
Theorem wrap_generated_block_round_trip (G : str) :
  marker_free G = true ->
  map content (extract_generated_blocks (wrap_generated_block G)) =
    [match frontmatter_match G with Some (_, rem) => rem | None => G end] /\
  extract_manual_blocks (wrap_generated_block G) = [] /\
  match frontmatter_match G with
  | Some (fm, rem) =>
      exists y, fm = y ++ [nl] /\
        shapes (blocks (parse_skill_md (wrap_generated_block G))) =
        [(UNMARKED, y); (GENERATED, rem)]
  | None =>
      shapes (blocks (parse_skill_md (wrap_generated_block G))) =
      [(GENERATED, G)]
  end.
Proof.
  intros HG. pose proof (parse_wrap_generated_block G HG) as H.
  unfold extract_manual_blocks, extract_generated_blocks, get_manual_blocks,
    get_generated_blocks.
  destruct (frontmatter_match G) as [[fm rem]|].
  - destruct H as [y [sec1 [sec2 [Hy ->]]]].
    split; [reflexivity|]. split; [reflexivity|].
    exists y. split; [exact Hy | reflexivity].
  - destruct H as [sec ->]. repeat split.
Qed.

Lemma wrap_generated_block_round_trip_witness :
  marker_free (lit "# Title") = true /\
  map content (extract_generated_blocks (wrap_generated_block (lit "# Title")))
  = [lit "# Title"].
Proof.
  assert (H : marker_free (lit "# Title") = true) by (vm_compute; reflexivity).
  split; [exact H|].
  destruct (wrap_generated_block_round_trip (lit "# Title") H) as [E _].
  rewrite E. vm_compute. reflexivity.
Defined.

(** X4: [add_preservation_markers] is idempotent, and its result always has
    markers: a second call returns the document as it is. *)
Theorem add_preservation_markers_idempotent (c : str) :
  add_preservation_markers (add_preservation_markers c) =
  add_preservation_markers c /\
  has_markers (parse_skill_md (add_preservation_markers c)) = true.
Proof.
  unfold add_preservation_markers.
  destruct (has_markers (parse_skill_md c)) eqn:H.
  - rewrite H. split; reflexivity.
  - assert (Hw : has_markers (parse_skill_md (wrap_generated_block c)) = true)
      by (rewrite has_markers_spec, has_generated_start; reflexivity).
    rewrite Hw. split; reflexivity.
Qed.

(** X5: the front matter [wrap_generated_block] keeps outside the markers.
    Content that does not start with three dashes is wrapped whole.  A front
    matter that is kept outside is a prefix of the content that starts with
    three dashes and ends with a newline, so the start marker that follows
    it opens a line. *)
Theorem wrap_generated_block_front_matter (G : str) :
  (startswith (lit "---") G = false ->
   wrap_generated_block G =
   GENERATED_START ++ [nl] ++ G ++ [nl] ++ GENERATED_END) /\
  (forall fm rem, frontmatter_match G = Some (fm, rem) ->
   G = fm ++ rem /\
   startswith (lit "---") fm = true /\
   (exists y, fm = y ++ [nl]) /\
   wrap_generated_block G =
   fm ++ GENERATED_START ++ [nl] ++ rem ++ [nl] ++ GENERATED_END).
Proof.
  split.
  - intros H. unfold wrap_generated_block.
    rewrite (frontmatter_match_none G H). reflexivity.
  - intros fm rem E.
    destruct (frontmatter_match_shape G fm rem E) as [[x Hx] Hy].
    split; [exact (frontmatter_match_split G fm rem E)|].
    split; [apply startswith_spec; exists x; exact Hx|].
    split; [exact Hy|].
    unfold wrap_generated_block. rewrite E. reflexivity.
Qed.

(** ** The consistency check *)

(** X6: [validate_generated_block_consistency] compares words.  A block is
    consistent with the generated content exactly when the two texts have
    the same sequence of whitespace-separated words; then no difference is
    described.  Otherwise a description is given, and it is not empty. *)
Theorem consistency_is_word_equality (b : ContentBlock) (spec : str) :
  (fst (validate_generated_block_consistency b spec) = true <->
   split_whitespace (content b) = split_whitespace spec) /\
  (fst (validate_generated_block_consistency b spec) = true ->
   snd (validate_generated_block_consistency b spec) = None) /\
  (fst (validate_generated_block_consistency b spec) = false ->
   exists d, snd (validate_generated_block_consistency b spec) = Some d /\
             d <> []).
Proof.
  split; [exact (consistent_iff spec b)|].
  unfold validate_generated_block_consistency.
  destruct (str_eqb (normalize_whitespace (content b))
                    (normalize_whitespace spec)); cbn [fst snd].
  - split; [reflexivity | discriminate].
  - split; [discriminate|]. intros _. eexists. split; [reflexivity|].
    destruct (set_difference (split nl (strip spec))
                             (split nl (strip (content b)))) as [|x xs];
      destruct (set_difference (split nl (strip (content b)))
                               (split nl (strip spec))) as [|y ys];
      cbn [app join];
      try (change (lit "Lines added from spec: ")
             with (76%N :: lit "ines added from spec: "));
      try (change (lit "Lines removed from existing: ")
             with (76%N :: lit "ines removed from existing: "));
      try (change (lit "Content differs")
             with (67%N :: lit "ontent differs"));
      discriminate.
Qed.

(** X7: the result of [validate_document_consistency].  [blocks_checked] is
    the number of generated blocks of the document; the result is valid
    exactly when every generated block is consistent with the generated
    content, exactly when no inconsistency is listed; there is one
    inconsistency for each block that is not consistent.  A document
    without generated blocks is valid. *)
Theorem validate_document_consistency_result (md spec : str) :
  let r := validate_document_consistency md spec in
  blocks_checked r = length (extract_generated_blocks md) /\
  valid r =
    forallb (fun b => fst (validate_generated_block_consistency b spec))
            (extract_generated_blocks md) /\
  length (inconsistencies r) =
    length (filter (fun b =>
                      negb (fst (validate_generated_block_consistency b spec)))
                   (extract_generated_blocks md)) /\
  (valid r = true <-> inconsistencies r = []).
Proof.
  destruct (validate_document_consistency_eq md spec) as [H1 [H2 H3]].
  cbv zeta. split; [exact H1|]. split; [exact H2|]. split; [exact H3|].
  rewrite H2. unfold consistent in H3.
  rewrite (filter_negb_nil
             (fun b => fst (validate_generated_block_consistency b spec))).
  split.
  - intros E. rewrite E in H3.
    destruct (inconsistencies (validate_document_consistency md spec));
      [reflexivity | discriminate].
  - intros E. rewrite E in H3.
    destruct (filter _ (extract_generated_blocks md));
      [reflexivity | discriminate].
Qed.

Lemma check_generated T G c :
  contents_of GENERATED (blocks (parse_skill_md T)) = [c] ->
  match frontmatter_match G with
  | Some (fm, rem) => c = rem \/ c = strip rem
  | None => c = G \/ c = strip G
  end ->
  blocks_checked (validate_document_consistency T G) = 1 /\
  valid (validate_document_consistency T G) =
  match frontmatter_match G with None => true | Some _ => false end.
Proof.
  intros Hc Hcase. destruct (check_single_block T c G Hc) as [H1 H2].
  split; [exact H1|].
  destruct (frontmatter_match G) as [[fm rem]|] eqn:E.
  - destruct (valid (validate_document_consistency T G)); [|reflexivity].
    exfalso. pose proof (proj1 H2 eq_refl) as Hw.
    destruct (frontmatter_match_shape G fm rem E) as [[x Hx] _].
    apply frontmatter_match_split in E. subst G.
    apply (front_matter_words fm rem x Hx).
    destruct Hcase as [-> | ->]; [exact Hw|].
    rewrite split_whitespace_strip in Hw. exact Hw.
  - apply H2. destruct Hcase as [-> | ->]; [reflexivity|].
    apply split_whitespace_strip.
Qed.

(** X8: generating and then checking.  For generated content without
    markers, the document that the merge writes (whatever the previous
    document) and the document that [wrap_generated_block] writes both have
    one generated block to check, and the check against the same generated
    content passes when the content has no front matter and fails when it
    has one: the front matter is outside the generated block, so the block
    never has all the words of the content. *)
Theorem generate_then_check_consistency (D G : str) :
  marker_free G = true ->
  blocks_checked
    (validate_document_consistency
       (merged_content (merge_with_preservation D G false)) G) = 1 /\
  valid
    (validate_document_consistency
       (merged_content (merge_with_preservation D G false)) G) =
    match frontmatter_match G with None => true | Some _ => false end /\
  blocks_checked (validate_document_consistency (wrap_generated_block G) G)
  = 1 /\
  valid (validate_document_consistency (wrap_generated_block G) G) =
    match frontmatter_match G with None => true | Some _ => false end.
Proof.
  intros HG.
  assert (Hwrap :
    blocks_checked (validate_document_consistency (wrap_generated_block G) G)
    = 1 /\
    valid (validate_document_consistency (wrap_generated_block G) G) =
    match frontmatter_match G with None => true | Some _ => false end).
  { pose proof (wrapped_generated_contents G HG) as Hc.
    pose proof (check_generated (wrap_generated_block G) G) as Hk.
    revert Hc Hk. destruct (frontmatter_match G) as [[fm rem]|];
      intros Hc Hk; apply (Hk _ Hc); left; reflexivity. }
  assert (Hmerge :
    blocks_checked
      (validate_document_consistency
         (merged_content (merge_with_preservation D G false)) G) = 1 /\
    valid
      (validate_document_consistency
         (merged_content (merge_with_preservation D G false)) G) =
    match frontmatter_match G with None => true | Some _ => false end).
  { destruct (has_markers (parse_skill_md D)) eqn:Hm.
    - rewrite (merge_with_markers D G Hm). cbn [merged_content].
      pose proof (merged_text_generated_contents G _ HG
                    (parse_manual_blocks_clean D)) as Hc.
      pose proof (check_generated
                    (merged_text G (get_manual_blocks (parse_skill_md D))) G)
        as Hk.
      revert Hc Hk. destruct (frontmatter_match G) as [[fm rem]|];
        intros Hc Hk; apply (Hk _ Hc); right; reflexivity.
    - rewrite (merge_without_markers D G Hm). cbn [merged_content].
      exact Hwrap. }
  destruct Hwrap as [W1 W2]. destruct Hmerge as [M1 M2].
  repeat split; assumption.
Qed.

Lemma generate_then_check_consistency_witness :
  marker_free (lit "# Title") = true /\
  valid
    (validate_document_consistency
       (merged_content
          (merge_with_preservation (lit "old text") (lit "# Title") false))
       (lit "# Title")) = true.
Proof.
  assert (H : marker_free (lit "# Title") = true) by (vm_compute; reflexivity).
  split; [exact H|].
  destruct (generate_then_check_consistency (lit "old text") (lit "# Title") H)
    as [_ [E _]].
  rewrite E. vm_compute. reflexivity.
Defined.

(** ** Merging again *)

Lemma merge_again X G :
  no_manual_start G ->
  has_markers (parse_skill_md X) = true ->
  merged_content
    (merge_with_preservation
       (merged_content (merge_with_preservation X G false)) G false) =
  merged_content (merge_with_preservation X G false).
Proof.
  intros HG HX. rewrite (merge_with_markers X G HX). cbn [merged_content].
  rewrite merge_with_markers
    by (rewrite has_markers_spec, merged_text_has_start; reflexivity).
  cbn [merged_content]. apply merged_text_again; [exact HG|].
  apply parse_manual_blocks_clean.
Qed.

Lemma merged_has_markers D G :
  has_markers
    (parse_skill_md (merged_content (merge_with_preservation D G false)))
  = true.
Proof.
  rewrite has_markers_spec.
  destruct (has_markers (parse_skill_md D)) eqn:Hm.
  - rewrite (merge_with_markers D G Hm). cbn [merged_content].
    rewrite merged_text_has_start. reflexivity.
  - rewrite (merge_without_markers D G Hm). cbn [merged_content].
    rewrite has_generated_start. reflexivity.
Qed.

(** X9: merging the same generated content again.  For generated content
    without a manual start marker, a second merge of the same content into
    the merged document changes nothing when the previous document had
    markers; for any previous document the third merge gives what the second
    gave.  Every merged document has markers. *)
Theorem merge_stabilises (D G : str) :
  contains MANUAL_START G = false ->
  let m1 := merged_content (merge_with_preservation D G false) in
  let m2 := merged_content (merge_with_preservation m1 G false) in
  let m3 := merged_content (merge_with_preservation m2 G false) in
  m3 = m2 /\
  (has_markers (parse_skill_md D) = true -> m2 = m1) /\
  has_markers (parse_skill_md m1) = true.
Proof.
  intros HG m1 m2 m3. subst m1 m2 m3. split; [|split].
  - apply (merge_again _ G HG). apply merged_has_markers.
  - intros HD. apply (merge_again D G HG HD).
  - apply merged_has_markers.
Qed.

Lemma merge_stabilises_witness :
  contains MANUAL_START content_plain = false /\
  merged_content
    (merge_with_preservation
       (merged_content
          (merge_with_preservation doc_one_manual content_plain false))
       content_plain false) =
  merged_content (merge_with_preservation doc_one_manual content_plain false).
Proof.
  assert (H : contains MANUAL_START content_plain = false)
    by (vm_compute; reflexivity).
  split; [exact H|].
  destruct (merge_stabilises doc_one_manual content_plain H) as [_ [E _]].
  apply E. vm_compute. reflexivity.
Defined.

(** X10: the blocks of a merged document.  When the previous document has
    markers and the generated content has none, the merged document parses
    to the generated part (one generated block with the stripped content,
    after the stripped front matter as an unmarked block when there is one)
    followed, for every manual block of the previous document in order, by
    an empty unmarked block and a manual block with the stripped content.
    The number of generated blocks is the reported
    [generated_blocks_updated], one. *)
Theorem merged_document_blocks (D G : str) :
  has_markers (parse_skill_md D) = true ->
  marker_free G = true ->
  let r := merge_with_preservation D G false in
  shapes (blocks (parse_skill_md (merged_content r))) =
    match frontmatter_match G with
    | Some (fm, rem) =>
        [(UNMARKED, strip fm ++ [nl]); (GENERATED, strip rem)]
    | None => [(GENERATED, strip G)]
    end ++
    flat_map (fun b => [(UNMARKED, []); (MANUAL, strip (content b))])
             (get_manual_blocks (parse_skill_md D)) /\
  length (extract_generated_blocks (merged_content r)) =
  generated_blocks_updated r.
Proof.
  intros HD HG r. subst r. rewrite (merge_with_markers D G HD).
  cbn [merged_content generated_blocks_updated].
  pose proof (parse_manual_blocks_clean D) as Hclean.
  split.
  - exact (parse_merged_text G _ HG Hclean).
  - pose proof (merged_text_generated_contents G _ HG Hclean) as Hc.
    unfold contents_of in Hc. unfold extract_generated_blocks,
      get_generated_blocks.
    rewrite <- (length_map content), Hc.
    destruct (frontmatter_match G) as [[fm rem]|]; reflexivity.
Qed.

Lemma merged_document_blocks_witness :
  shapes
    (blocks
       (parse_skill_md
          (merged_content
             (merge_with_preservation doc_one_manual content_plain false))))
  = [(GENERATED, content_plain); (UNMARKED, []); (MANUAL, lit "my note")].
Proof.
  assert (HD : has_markers (parse_skill_md doc_one_manual) = true)
    by (vm_compute; reflexivity).
  assert (HG : marker_free content_plain = true) by (vm_compute; reflexivity).
  destruct (merged_document_blocks doc_one_manual content_plain HD HG)
    as [E _].
  rewrite E. vm_compute. reflexivity.
Defined.

(** ** Inserting a manual section *)

(** X11: [insert_manual_section] without a target section (or with an empty
    one) appends.  For manual content without markers, the manual blocks of
    the result are those of the document with its trailing whitespace
    replaced by one newline, followed by one block that holds the manual
    content exactly as given (it is not stripped on this path); when the
    document has no markers either, the result parses to three blocks: the
    document text, the manual block and an empty unmarked block. *)
Theorem insert_manual_section_appends (content m : str) :
  marker_free m = true ->
  map Preservation.content
      (extract_manual_blocks (insert_manual_section content m None)) =
  map Preservation.content
      (extract_manual_blocks (rstrip content ++ [nl])) ++ [m] /\
  insert_manual_section content m (Some []) =
  insert_manual_section content m None /\
  (marker_free content = true ->
   shapes (blocks (parse_skill_md (insert_manual_section content m None))) =
   [(UNMARKED, rstrip content ++ [nl]); (MANUAL, m); (UNMARKED, [])]).
Proof.
  intros Hm. destruct (insert_default_blocks content m Hm) as [sec1 [sec2 E]].
  split; [|split; [reflexivity|]].
  - change (map Preservation.content
              (extract_manual_blocks (insert_manual_section content m None)))
      with (manual_contents
              (blocks (parse_skill_md
                         (insert_manual_section content m None)))).
    change (map Preservation.content
              (extract_manual_blocks (rstrip content ++ [nl])))
      with (manual_contents
              (blocks (parse_skill_md (rstrip content ++ [nl])))).
    rewrite E, manual_contents_app, scan_manual_contents. reflexivity.
  - intros Hc. rewrite E.
    destruct (scan_plain_text (rstrip content ++ [nl])) as [sec H].
    + apply marker_free_with_newline, marker_free_rstrip. exact Hc.
    + rewrite H. reflexivity.
Qed.

Lemma insert_manual_section_appends_witness :
  marker_free (lit " note ") = true /\
  map Preservation.content
      (extract_manual_blocks
         (insert_manual_section (lit "# Title  ") (lit " note ") None)) =
  [lit " note "].
Proof.
  assert (H : marker_free (lit " note ") = true) by (vm_compute; reflexivity).
  split; [exact H|].
  destruct (insert_manual_section_appends (lit "# Title  ") (lit " note ") H)
    as [E _].
  rewrite E. vm_compute. reflexivity.
Defined.

(** X12: [insert_manual_section] with a target section.  The lines of the
    document are kept in order and the five lines of the manual block (its
    content stripped) are put at [insert_index]: at the end, after a blank
    line, when no line starts with the heading of the section; otherwise
    after the first such line, directly before the next heading line or at
    the end when no heading follows, so never inside the lines of the
    target section that come before the next heading. *)
Theorem insert_manual_section_after (content m : str) (c : char) (name : str) :
  let lines := split nl content in
  let heading := lit "## " ++ c :: name in
  let idx := insert_index lines (c :: name) in
  insert_manual_section content m (Some (c :: name)) =
  join [nl] (firstn idx lines
               ++ [[]; MANUAL_START; strip m; MANUAL_END; []]
               ++ skipn idx lines) /\
  idx <= length lines /\
  ((forall line, In line lines -> startswith heading line = false) ->
   insert_manual_section content m (Some (c :: name)) =
   content ++ [nl; nl] ++ MANUAL_START ++ [nl] ++ strip m ++ [nl]
     ++ MANUAL_END ++ [nl]) /\
  (forall i line,
     nth_error lines i = Some line -> startswith heading line = true ->
     (forall j y, j < i -> nth_error lines j = Some y ->
                  startswith heading y = false) ->
     i < idx /\
     (forall j y, i < j < idx -> nth_error lines j = Some y ->
                  is_heading y = false) /\
     (idx < length lines ->
      exists y, nth_error lines idx = Some y /\ is_heading y = true)).
Proof.
  cbv zeta. split; [reflexivity|]. split; [apply insert_index_bound|]. split.
  - intros H. unfold insert_manual_section.
    rewrite (insert_index_not_found _ _ H).
    rewrite firstn_all, skipn_all, app_nil_r.
    rewrite join_app; [|apply split_not_nil | discriminate].
    rewrite join_split. unfold manual_block_at. cbn [join app].
    rewrite <- ?app_assoc. reflexivity.
  - intros i line Hnth Hp Hfirst.
    exact (insert_index_found _ _ i line Hnth Hp Hfirst).
Qed.

End PreservationProperties.

(* ================================================================== *)
(** * Further properties of the schema layer *)
(* ================================================================== *)

Section SchemaProperties.
Import PyStr Json Pydantic Models Schema.
Context {R : Repr} {L : Lax}.

(** ** Errors and validity *)

(** A result is valid exactly when it has no error. *)
Definition errors_flag (r : SchemaValidationResult) : Prop :=
  valid r = true <-> errors r = [].

Lemma add_error_flag r p m s : errors_flag (add_error r p m s).
Proof.
  unfold errors_flag, add_error. cbn [valid errors]. split; [discriminate|].
  intros H. destruct (errors r); discriminate.
Qed.

Lemma add_warning_flag r p m s :
  errors_flag r -> errors_flag (add_warning r p m s).
Proof. unfold errors_flag, add_warning. cbn [valid errors]. tauto. Qed.

Lemma check_section_flag d r s :
  errors_flag r -> errors_flag (check_section d r s).
Proof.
  intros H. unfold check_section.
  destruct (dict_get s d) as [[| | | | |[|x l]|]|];
    first [exact H | apply add_error_flag].
Qed.

Lemma check_sections_flag d ss : forall r,
  errors_flag r -> errors_flag (fold_left (check_section d) ss r).
Proof.
  induction ss as [|s ss IH]; intros r H; [exact H|].
  simpl. apply IH. apply check_section_flag. exact H.
Qed.

Lemma _check_spec_version_flag d r r' :
  _check_spec_version d r = Some r' -> errors_flag r -> errors_flag r'.
Proof.
  unfold _check_spec_version.
  destruct (dict_get (lit "spec_version") d) as [version|].
  - destruct (negb (hashable version)); [discriminate|].
    match goal with |- (if ?c then _ else _) = _ -> _ => destruct c end.
    + intros H Hf. injection H as <-. exact Hf.
    + intros H Hf. injection H as <-. apply add_warning_flag. exact Hf.
  - intros H _. injection H as <-. apply add_error_flag.
Qed.

Lemma add_pydantic_errors_flag errs r :
  errors_flag r -> errors_flag (fold_left add_pydantic_error errs r).
Proof.
  intros H. rewrite add_pydantic_errors. destruct errs as [|e errs];
    [exact H|].
  unfold errors_flag. cbn [valid errors map]. split; [discriminate|].
  intros E. destruct (errors r); discriminate.
Qed.

Lemma _validate_with_jsonschema_flag self d r :
  errors_flag r -> errors_flag (_validate_with_jsonschema self d r).
Proof.
  intros H. unfold _validate_with_jsonschema.
  destruct (jsonschema_validate self d);
    first [exact H | apply add_error_flag].
Qed.

(** X13: every result of [validate] is valid exactly when its list of
    errors is empty, for every validator (with or without a schema path)
    and every spec, whatever the type of its [spec_version]; warnings never
    make a result invalid.  [validate] returns no result only where the code
    raises: when [spec_version] is a list or a dict (the membership test in
    the set of versions raises), or when the typed model accepts the fields
    and the collection of the rule ids raises (an id that is a list or a
    dict). *)
Theorem validate_valid_iff_no_errors (self : SchemaValidator) (d : dict) :
  (forall r, validate self d = Some r ->
             (valid r = true <-> errors r = [])) /\
  (validate self d = None ->
   (exists version,
      dict_get (lit "spec_version") d = Some version /\
      hashable version = false) \/
   (validate_type SkillSpec_type (JDict d) = [] /\
    collect_rule_ids (decision_rules (build_SkillSpec d)) = None)).
Proof.
  split.
  2: { unfold validate.
       destruct (_check_spec_version d (_check_required_sections d new_result))
         as [r1|] eqn:E1.
       - destruct (valid r1).
         + unfold _validate_with_pydantic, model_validate.
           destruct (validate_type SkillSpec_type (JDict d)) as [|e es].
           * unfold validate_cross_references.
             destruct (collect_rule_ids (decision_rules (build_SkillSpec d)))
               as [ids|] eqn:Ec.
             -- destruct (check_edge_cases _ _ _);
                  [|destruct (check_steps _ _)]; cbv iota beta;
                  match goal with
                  | |- context [if ?c then _ else _] => destruct c
                  end; discriminate.
             -- intros _. right. split; reflexivity.
           * match goal with
             | |- context [if ?c then _ else _] => destruct c
             end; discriminate.
         + match goal with
           | |- context [if ?c then _ else _] => destruct c
           end; discriminate.
       - intros _. left. unfold _check_spec_version in E1.
         destruct (dict_get (lit "spec_version") d) as [version|];
           [|discriminate].
         exists version. split; [reflexivity|].
         destruct (hashable version); [|reflexivity].
         cbn [negb] in E1.
         match type of E1 with
         | (if ?c then _ else _) = _ => destruct c
         end; discriminate. }
  intros r Hr.
  destruct (validate_after_version self d r Hr) as [r1 [H1 [Hinv Hval]]].
  assert (F1 : errors_flag r1).
  { apply (_check_spec_version_flag d _ r1 H1).
    apply check_sections_flag. unfold errors_flag, new_result. tauto. }
  destruct (valid r1) eqn:Hv.
  - destruct (Hval eq_refl) as [errs [_ Hr']]. destruct errs as [|e errs].
    + destruct Hr' as [-> | ->]; [exact F1|].
      apply _validate_with_jsonschema_flag. exact F1.
    + rewrite Hr'. apply add_pydantic_errors_flag. exact F1.
  - rewrite (Hinv eq_refl). exact F1.
Qed.

Definition good_spec : dict :=
  example_spec "skill-spec/1.0"%string one_rule one_input
               (JList [step_load; step_check]).

(** ** The required sections *)

(** A section that the check lets pass, as a test. *)
Definition section_ok (d : dict) (section : str) : bool :=
  match dict_get section d with
  | None | Some JNull | Some (JList []) => false
  | Some _ => true
  end.

(** The error the check reports for a section that does not pass. *)
Definition section_error (d : dict) (section : str) : SchemaError :=
  match dict_get section d with
  | None =>
      mkSchemaError section
        (Text (lit "Missing required section: " ++ section))
        (suggestion_for section ERROR_SUGGESTIONS)
  | Some JNull =>
      mkSchemaError section
        (Text (lit "Section '" ++ section ++ lit "' is null"))
        (Some (lit "Provide valid content for '" ++ section ++ lit "'"))
  | Some _ =>
      mkSchemaError section
        (Text (lit "Section '" ++ section ++ lit "' is empty"))
        (Some (lit "Add at least one item to '" ++ section ++ lit "'"))
  end.

Definition offending_sections (d : dict) : list str :=
  filter (fun s => negb (section_ok d s)) REQUIRED_SECTIONS.

Definition missing_version_error : SchemaError :=
  mkSchemaError (lit "spec_version")
    (Text (lit "Missing required field: spec_version"))
    (Some (lit "Add 'spec_version: " ++ [34%N] ++ lit "skill-spec/1.1"
             ++ [34%N] ++ lit "'")).

Lemma section_ok_present d s : section_ok d s = true <-> section_present d s.
Proof.
  unfold section_ok, section_present. split.
  - destruct (dict_get s d) as [v|]; [|discriminate].
    intros H. exists v. split; [reflexivity|].
    destruct v as [| | | | |[|x l]|]; try discriminate; split; discriminate.
  - intros [v [-> [Hn He]]].
    destruct v as [| | | | |[|x l]|]; try reflexivity; congruence.
Qed.

Lemma check_section_eq d r s :
  check_section d r s =
  if section_ok d s then r
  else mkSchemaValidationResult false (errors r ++ [section_error d s])
                                (warnings r).
Proof.
  unfold check_section, section_ok, section_error, add_error.
  destruct (dict_get s d) as [[| | | | |[|x l]|]|]; try reflexivity;
    destruct r; reflexivity.
Qed.

Lemma check_sections_eq d ss : forall r,
  fold_left (check_section d) ss r =
  match filter (fun s => negb (section_ok d s)) ss with
  | [] => r
  | bad =>
      mkSchemaValidationResult false (errors r ++ map (section_error d) bad)
                               (warnings r)
  end.
Proof.
  induction ss as [|s ss IH]; intros r; [reflexivity|].
  cbn [fold_left filter]. rewrite IH, check_section_eq.
  destruct (section_ok d s); cbn [negb]; [reflexivity|].
  cbn [errors warnings].
  destruct (filter (fun s0 => negb (section_ok d s0)) ss) as [|b bad].
  - reflexivity.
  - cbn [map]. rewrite <- app_assoc. reflexivity.
Qed.

(** X14: what [validate] reports about the structure.  The sections that do
    not pass are the required sections that are missing, null or an empty
    list, in the order of [REQUIRED_SECTIONS].  When [spec_version] is
    missing, the result is not valid and its errors are one error for each
    such section, with the section as path, followed by the error about
    [spec_version]; when [spec_version] is a string and some section does
    not pass, the errors are exactly one for each such section.  In both
    cases the typed model is not consulted.  No section is reported exactly
    when every required section is present. *)
Theorem validate_structure_errors (self : SchemaValidator) (d : dict) :
  (dict_get (lit "spec_version") d = None ->
   validate self d =
   Some (mkSchemaValidationResult false
           (map (section_error d) (offending_sections d)
              ++ [missing_version_error]) [])) /\
  (forall version,
     dict_get (lit "spec_version") d = Some (JStr version) ->
     offending_sections d <> [] ->
     exists r,
       validate self d = Some r /\ valid r = false /\
       errors r = map (section_error d) (offending_sections d)) /\
  map path (map (section_error d) (offending_sections d))
  = offending_sections d /\
  (offending_sections d = [] <->
   forall s, In s REQUIRED_SECTIONS -> section_present d s).
Proof.
  assert (Hcheck : _check_required_sections d new_result =
                   match offending_sections d with
                   | [] => new_result
                   | bad =>
                       mkSchemaValidationResult false
                         (map (section_error d) bad) []
                   end).
  { unfold _check_required_sections. rewrite check_sections_eq.
    reflexivity. }
  split; [|split; [|split]].
  - intros Hv. unfold validate. rewrite Hcheck. unfold _check_spec_version.
    rewrite Hv. destruct (offending_sections d); reflexivity.
  - intros version Hv Hbad. unfold validate. rewrite Hcheck.
    rewrite (_check_spec_version_str d _ version Hv).
    destruct (offending_sections d) as [|b bad]; [congruence|].
    destruct (existsb (str_eqb version) valid_versions);
      eexists; (split; [reflexivity|]); split; reflexivity.
  - rewrite map_map. unfold offending_sections.
    induction (filter (fun s => negb (section_ok d s)) REQUIRED_SECTIONS)
      as [|s ss IH]; [reflexivity|].
    cbn [map]. rewrite IH. f_equal. unfold section_error.
    destruct (dict_get s d) as [[| | | | | |]|]; reflexivity.
  - unfold offending_sections. split.
    + intros H s Hs. apply section_ok_present.
      destruct (section_ok d s) eqn:E; [reflexivity|].
      assert (Hin : In s (filter (fun s => negb (section_ok d s))
                                 REQUIRED_SECTIONS))
        by (apply filter_In; split; [exact Hs | rewrite E; reflexivity]).
      rewrite H in Hin. destruct Hin.
    + intros H.
      destruct (filter (fun s => negb (section_ok d s)) REQUIRED_SECTIONS)
        as [|s ss] eqn:E; [reflexivity|].
      assert (Hin : In s (filter (fun s => negb (section_ok d s))
                                 REQUIRED_SECTIONS))
        by (rewrite E; left; reflexivity).
      apply filter_In in Hin as [Hs Hok].
      rewrite (proj2 (section_ok_present d s) (H s Hs)) in Hok. discriminate.
Qed.

(** ** The version *)

(** X15: a [spec_version] that is a list or a dict makes [validate] raise:
    the membership test in the set of known versions needs a hashable
    value, so no result is returned, whatever the rest of the spec is. *)
Theorem validate_unhashable_version (self : SchemaValidator) (d : dict)
    (version : json) :
  dict_get (lit "spec_version") d = Some version ->
  is_list version || is_dict version = true ->
  validate self d = None.
Proof.
  intros Hv Hu. unfold validate, _check_spec_version. rewrite Hv.
  unfold hashable. rewrite Hu. reflexivity.
Qed.

(** X16: the warnings of [validate].  A result has no warning when
    [spec_version] is one of the two known versions, and exactly one
    warning, at path [spec_version], naming the version as unknown, when it
    is any other string; an unknown version alone never adds an error: the
    errors are those of a spec that differs only by a known version, when
    the typed model is not reached. *)
Theorem validate_version_warnings (self : SchemaValidator) (d : dict)
    (version : str) (r : SchemaValidationResult) :
  dict_get (lit "spec_version") d = Some (JStr version) ->
  validate self d = Some r ->
  warnings r =
    (if existsb (str_eqb version) valid_versions then []
     else [unknown_version_warning version]) /\
  (offending_sections d <> [] ->
   errors r = map (section_error d) (offending_sections d)).
Proof.
  intros Hv Hr. split.
  - destruct (validate_warnings self d r Hr) as [r1 [H1 Hw]].
    rewrite (_check_spec_version_str d _ version Hv) in H1.
    destruct (existsb (str_eqb version) valid_versions);
      injection H1 as <-; rewrite Hw.
    + unfold _check_required_sections. rewrite check_sections_warnings.
      reflexivity.
    + unfold add_warning. cbn [warnings]. unfold _check_required_sections.
      rewrite check_sections_warnings. reflexivity.
  - intros Hbad.
    destruct (validate_structure_errors self d) as [_ [H _]].
    destruct (H version Hv Hbad) as [r' [Hr' [_ He]]].
    rewrite Hr in Hr'. injection Hr' as <-. exact He.
Qed.

Definition spec_version_2 : dict :=
  example_spec "skill-spec/2.0"%string one_rule one_input
               (JList [step_load; step_check]).

End SchemaProperties.

Section SchemaPropertiesExamples.
Import PyStr Json Pydantic Models Schema.
#[local] Existing Instance example_repr.
#[local] Existing Instance example_lax.

Lemma validate_valid_iff_no_errors_witness :
  exists r, validate default_validator good_spec = Some r /\ errors r = [].
Proof.
  destruct (validate default_validator good_spec) as [r|] eqn:E.
  - exists r. split; [reflexivity|].
    apply (proj1 (validate_valid_iff_no_errors default_validator good_spec)
                 r E).
    vm_compute in E. injection E as <-. reflexivity.
  - vm_compute in E. discriminate.
Defined.

Lemma validate_unhashable_version_witness :
  validate default_validator
    ((lit "spec_version", JList [S "skill-spec/1.0"%string])
       :: example_sections one_rule one_input (JList [step_load; step_check]))
  = None.
Proof.
  apply (validate_unhashable_version default_validator _
           (JList [S "skill-spec/1.0"%string])); reflexivity.
Defined.

Lemma validate_version_warnings_witness :
  exists r,
    validate default_validator spec_version_2 = Some r /\
    warnings r = [unknown_version_warning (lit "skill-spec/2.0")].
Proof.
  assert (Hv : dict_get (lit "spec_version") spec_version_2
               = Some (JStr (lit "skill-spec/2.0")))
    by (vm_compute; reflexivity).
  destruct (validate default_validator spec_version_2) as [r|] eqn:E.
  - exists r. split; [reflexivity|].
    destruct (validate_version_warnings default_validator spec_version_2
                (lit "skill-spec/2.0") r Hv E) as [W _].
    rewrite W. vm_compute. reflexivity.
  - vm_compute in E. discriminate.
Defined.

End SchemaPropertiesExamples.

(* ================================================================== *)
(** * Further properties of the typed model *)
(* ================================================================== *)

Section ModelProperties.
Import PyStr Json Pydantic Models.

(** ** The references of the edge cases *)

(** [ec.covers_rule] is empty or names a collected rule id. *)
Definition rule_ok (rule_ids : list json) (ec : EdgeCase) : bool :=
  match nonempty (covers_rule ec) with
  | Some rule => existsb (is_id rule) rule_ids
  | None => true
  end.

(** [ec.covers_failure] is empty or names a failure code. *)
Definition failure_ok (failure_codes : list str) (ec : EdgeCase) : bool :=
  match nonempty (covers_failure ec) with
  | Some failure => existsb (str_eqb failure) failure_codes
  | None => true
  end.

(** The error the loop raises at an edge case that does not resolve: the
    rule is looked at first. *)
Definition edge_case_error (rule_ids : list json) (ec : EdgeCase) : str :=
  if rule_ok rule_ids ec
  then unknown_failure_message ec
         (match covers_failure ec with Some f => f | None => [] end)
  else unknown_rule_message ec
         (match covers_rule ec with Some r => r | None => [] end).

Lemma nonempty_some o x : nonempty o = Some x -> o = Some x.
Proof.
  destruct o as [[|c s]|]; simpl; try discriminate.
  intros H. injection H as <-. reflexivity.
Qed.

Lemma check_edge_cases_cons ids codes ec rest :
  check_edge_cases ids codes (ec :: rest) =
  if rule_ok ids ec && failure_ok codes ec
  then check_edge_cases ids codes rest
  else Some (edge_case_error ids ec).
Proof.
  unfold rule_ok, failure_ok, edge_case_error, rule_ok. cbn [check_edge_cases].
  destruct (nonempty (covers_rule ec)) as [rule|] eqn:Er.
  - rewrite (nonempty_some _ _ Er).
    destruct (existsb (is_id rule) ids); cbn [negb andb]; [|reflexivity].
    destruct (nonempty (covers_failure ec)) as [f|] eqn:Ef; [|reflexivity].
    rewrite (nonempty_some _ _ Ef).
    destruct (existsb (str_eqb f) codes); reflexivity.
  - cbn [andb].
    destruct (nonempty (covers_failure ec)) as [f|] eqn:Ef; [|reflexivity].
    rewrite (nonempty_some _ _ Ef).
    destruct (existsb (str_eqb f) codes); reflexivity.
Qed.

Lemma check_edge_cases_none ids codes ecs :
  check_edge_cases ids codes ecs = None <->
  forallb (fun ec => rule_ok ids ec && failure_ok codes ec) ecs = true.
Proof.
  induction ecs as [|ec ecs IH]; [split; reflexivity|].
  rewrite check_edge_cases_cons. cbn [forallb].
  destruct (rule_ok ids ec && failure_ok codes ec); [exact IH|].
  split; discriminate.
Qed.

Lemma check_edge_cases_first ids codes ecs : forall i ec,
  nth_error ecs i = Some ec ->
  forallb (fun ec => rule_ok ids ec && failure_ok codes ec) (firstn i ecs)
  = true ->
  rule_ok ids ec && failure_ok codes ec = false ->
  check_edge_cases ids codes ecs = Some (edge_case_error ids ec).
Proof.
  induction ecs as [|x ecs IH]; intros i ec Hnth Hbefore Hbad.
  - destruct i; discriminate.
  - rewrite check_edge_cases_cons. destruct i as [|i].
    + simpl in Hnth. injection Hnth as ->. rewrite Hbad. reflexivity.
    + simpl in Hnth. cbn [firstn forallb] in Hbefore.
      apply andb_true_iff in Hbefore as [Hx Hrest]. rewrite Hx.
      exact (IH i ec Hnth Hrest Hbad).
Qed.

(** X17: when the cross-reference validator accepts.  With the rule ids
    collected, [validate_cross_references] returns the spec exactly when
    every edge case has an empty or known [covers_rule] and an empty or
    known [covers_failure], and every dependency of every step is the
    output of a strictly earlier step.  For rules given as a list the ids
    can always be collected. *)
Theorem validate_cross_references_accepts (self : SkillSpec)
    (rule_ids : list json) :
  collect_rule_ids (decision_rules self) = Some rule_ids ->
  (validate_cross_references self = Some None <->
   forallb (fun ec => rule_ok rule_ids ec &&
                      failure_ok (map code (failure_modes self)) ec)
           (edge_cases self) = true /\
   well_ordered (steps self)) /\
  (forall l, exists ids, collect_rule_ids (RulesList l) = Some ids).
Proof.
  intros Hc. split.
  - unfold validate_cross_references. rewrite Hc.
    rewrite <- check_edge_cases_none, well_ordered_iff, <- check_steps_none.
    destruct (check_edge_cases rule_ids (map code (failure_modes self))
                               (edge_cases self)) as [text|].
    + split; [discriminate | intros [H _]; discriminate].
    + split.
      * intros H. injection H as H. split; [reflexivity | exact H].
      * intros [_ H]. rewrite H. reflexivity.
  - intros l. unfold collect_rule_ids.
    assert (H : forallb hashable (rule_id_values (RulesList l)) = true).
    { cbn [rule_id_values]. induction l as [|r l IH]; [reflexivity|].
      cbn [map forallb]. rewrite IH.
      destruct (rule_id r); reflexivity. }
    rewrite H. eexists. reflexivity.
Qed.

(** An accepted spec value: one failure mode, an edge case that covers it,
    and two steps in order. *)
Definition typed_example : SkillSpec :=
  mkSkillSpec (lit "skill-spec/1.0")
    (RulesList [mkDecisionRule (Some (lit "always")) []])
    [mkExecutionStep (lit "load") (lit "Load") (Some (lit "loaded")) None None;
     mkExecutionStep (lit "check") (lit "Check") None
                     (Some [lit "loaded"]) None]
    [mkFailureMode (lit "EMPTY_INPUT") None None]
    [mkEdgeCase (lit "empty") [] JNull (Some (lit "always"))
                (Some (lit "EMPTY_INPUT"))].

Lemma validate_cross_references_accepts_witness :
  validate_cross_references typed_example = Some None.
Proof.
  assert (Hc : collect_rule_ids (decision_rules typed_example)
               = Some [JStr (lit "always")])
    by (vm_compute; reflexivity).
  apply (proj1 (validate_cross_references_accepts typed_example _ Hc)).
  split; [vm_compute; reflexivity|].
  intros i step dep Hnth Hdep. destruct i as [|[|i]].
  - injection Hnth as <-. destruct Hdep.
  - injection Hnth as <-. destruct Hdep as [<- | []].
    left. vm_compute. reflexivity.
  - destruct i; discriminate Hnth.
Defined.

(** X18: the error for an edge case that does not resolve.  The validator
    raises at the first edge case whose [covers_rule] or [covers_failure]
    is not empty and unknown; the message names that edge case, and the
    rule when the rule is unknown (the rule is looked at before the
    failure).  This error comes before any error about the order of the
    steps. *)
Theorem edge_case_reference_error (self : SkillSpec) (rule_ids : list json)
    (i : nat) (ec : EdgeCase) :
  collect_rule_ids (decision_rules self) = Some rule_ids ->
  nth_error (edge_cases self) i = Some ec ->
  forallb (fun ec => rule_ok rule_ids ec &&
                     failure_ok (map code (failure_modes self)) ec)
          (firstn i (edge_cases self)) = true ->
  rule_ok rule_ids ec && failure_ok (map code (failure_modes self)) ec
  = false ->
  validate_cross_references self =
  Some (Some (if rule_ok rule_ids ec
              then lit "Edge case '" ++ case_name ec
                     ++ lit "' references unknown failure: "
                     ++ match covers_failure ec with
                        | Some f => f
                        | None => []
                        end
              else lit "Edge case '" ++ case_name ec
                     ++ lit "' references unknown rule: "
                     ++ match covers_rule ec with
                        | Some r => r
                        | None => []
                        end)).
Proof.
  intros Hc Hnth Hbefore Hbad. unfold validate_cross_references.
  rewrite Hc, (check_edge_cases_first _ _ _ i ec Hnth Hbefore Hbad).
  unfold edge_case_error, unknown_failure_message, unknown_rule_message.
  destruct (rule_ok rule_ids ec); reflexivity.
Qed.

(** The example with an edge case that names an unknown rule and with its
    steps out of order. *)
Definition typed_unknown_rule : SkillSpec :=
  mkSkillSpec (lit "skill-spec/1.0")
    (decision_rules typed_example)
    (rev (steps typed_example))
    (failure_modes typed_example)
    [mkEdgeCase (lit "empty") [] JNull (Some (lit "never"))
                (Some (lit "EMPTY_INPUT"))].

Lemma edge_case_reference_error_witness :
  validate_cross_references typed_unknown_rule =
  Some (Some (lit "Edge case 'empty' references unknown rule: never")).
Proof.
  assert (Hc : collect_rule_ids (decision_rules typed_unknown_rule)
               = Some [JStr (lit "always")])
    by (vm_compute; reflexivity).
  rewrite (edge_case_reference_error typed_unknown_rule _ 0
             (mkEdgeCase (lit "empty") [] JNull (Some (lit "never"))
                         (Some (lit "EMPTY_INPUT"))) Hc);
    vm_compute; reflexivity.
Defined.

(** ** Identifiers *)

(** X19: the identifiers the validators accept.  A step id, an input name
    and a rule id are accepted exactly when they are a lower-case ASCII
    letter followed by lower-case letters, digits and underscores, or such a
    string followed by one newline (the [$] of the pattern also matches
    before a final newline); a failure code likewise with upper-case
    letters.  Any other string is rejected with the message of the
    validator followed by the string. *)
Theorem identifier_validators (s : str) :
  (validate_step_id (JStr s) = None <->
   Regex.class_star_shape lower_letter snake_char s) /\
  (validate_input_name (JStr s) = None <->
   Regex.class_star_shape lower_letter snake_char s) /\
  (validate_rule_id (JStr s) = None <->
   Regex.class_star_shape lower_letter snake_char s) /\
  (validate_code (JStr s) = None <->
   Regex.class_star_shape upper_letter upper_snake_char s) /\
  (validate_step_id (JStr s) = None \/
   validate_step_id (JStr s) =
   Some (lit "Step ID must be snake_case (e.g., 'validate_input'), got: "
           ++ s)) /\
  (validate_input_name (JStr s) = None \/
   validate_input_name (JStr s) =
   Some (lit "Input name must be snake_case (e.g., 'user_input'), got: "
           ++ s)) /\
  (validate_rule_id (JStr s) = None \/
   validate_rule_id (JStr s) =
   Some (lit "Rule ID must be snake_case (e.g., 'rule_validation'), got: "
           ++ s)) /\
  (validate_code (JStr s) = None \/
   validate_code (JStr s) =
   Some (lit "Error code must be UPPER_SNAKE_CASE (e.g., 'EMPTY_INPUT'), got: "
           ++ s)) /\
  (forall c, lower_letter c = true <-> (97 <= c <= 122)%N) /\
  (forall c, snake_char c = true <->
             (97 <= c <= 122)%N \/ (48 <= c <= 57)%N \/ c = 95%N) /\
  (forall c, upper_letter c = true <-> (65 <= c <= 90)%N) /\
  (forall c, upper_snake_char c = true <->
             (65 <= c <= 90)%N \/ (48 <= c <= 57)%N \/ c = 95%N).
Proof.
  assert (Hrange : forall lo hi c,
            Regex.in_range lo hi c = true <-> (lo <= c <= hi)%N).
  { intros lo hi c. unfold Regex.in_range.
    rewrite andb_true_iff, !N.leb_le. tauto. }
  assert (Hunder : forall c, char_eqb 95%N c = true <-> c = 95%N).
  { intros c. unfold char_eqb. rewrite N.eqb_eq. split; congruence. }
  split; [exact (proj1 (check_pattern_class_star _ _ _ _ s
                          SNAKE_CASE_PATTERN_eq))|].
  split; [exact (proj1 (check_pattern_class_star _ _ _ _ s
                          SNAKE_CASE_PATTERN_eq))|].
  split; [exact (proj1 (check_pattern_class_star _ _ _ _ s
                          SNAKE_CASE_PATTERN_eq))|].
  split; [exact (proj1 (check_pattern_class_star _ _ _ _ s
                          UPPER_SNAKE_CASE_PATTERN_eq))|].
  split; [exact (proj2 (check_pattern_class_star _ _ _ _ s
                          SNAKE_CASE_PATTERN_eq))|].
  split; [exact (proj2 (check_pattern_class_star _ _ _ _ s
                          SNAKE_CASE_PATTERN_eq))|].
  split; [exact (proj2 (check_pattern_class_star _ _ _ _ s
                          SNAKE_CASE_PATTERN_eq))|].
  split; [exact (proj2 (check_pattern_class_star _ _ _ _ s
                          UPPER_SNAKE_CASE_PATTERN_eq))|].
  unfold lower_letter, snake_char, upper_letter, upper_snake_char,
    Regex.union.
  split; [|split; [|split]]; intros c; cbv beta; cbn [orb];
    rewrite ?orb_true_iff, ?Hrange, ?Hunder; tauto.
Qed.

End ModelProperties.

(* ================================================================== *)
(** * Properties of the quality validators *)
(* ================================================================== *)

Section QualityProperties.
Import PyStr Json Quality.
Context {R : Repr}.

(** A spec whose only decision rule has a blank [when] and no [then]. *)
Definition incomplete_rule_spec : dict :=
  [(lit "skill",
    JDict [(lit "purpose", JStr (lit "Validate the input document"))]);
   (lit "decision_rules",
    JList [JDict [(lit "id", JStr (lit "always"));
                  (lit "when", JStr (lit "  "))]]);
   (lit "output_contract",
    JDict [(lit "schema", JDict [(lit "type", JStr (lit "object"))])])].

(** X20: the counters of a quality result.  A result is only ever changed
    by [add_violation].  For every list of violations, the result that a
    new result becomes when [add_violation] is called with each of them in
    turn holds these violations in order, has [total_errors],
    [total_warnings] and [total_info] equal to the numbers of violations of
    severity "error", "warning" and "info", has for every category a count
    equal to the number of violations of that category, and is valid exactly
    when no violation has the severity "error".  Every result that
    [QualityValidator.validate] or [SkillMdQualityValidator.validate]
    returns is built in this way from its own list of violations. *)
Theorem quality_result_counters :
  (forall vs,
     violations (result_of vs) = vs /\
     total_errors (result_of vs) = count_severity (lit "error") vs /\
     total_warnings (result_of vs) = count_severity (lit "warning") vs /\
     total_info (result_of vs) = count_severity (lit "info") vs /\
     (forall c, category_count c (category_counts (result_of vs))
                = count_of_category c vs) /\
     (valid (result_of vs) = true <->
      forall v, In v vs -> v_severity v <> lit "error")) /\
  (forall self d r,
     validate self d = Some r -> r = result_of (violations r)) /\
  (forall content r,
     validate_skill_md content = Some r -> r = result_of (violations r)).
Proof.
  split; [|split].
  - intros vs.
    destruct (result_of_counted vs) as [He [Hw [Hi [Hv Hc]]]].
    rewrite result_of_violations in He, Hw, Hi, Hc.
    split; [apply result_of_violations|].
    split; [exact He|]. split; [exact Hw|]. split; [exact Hi|].
    split; [exact Hc|].
    rewrite Hv, Nat.eqb_eq, He. apply count_severity_zero.
  - intros self d r H. apply grows_result_of.
    exact (validate_grows _ _ _ H).
  - intros content r H. apply grows_result_of.
    unfold validate_skill_md in H.
    destruct (_preprocess_markdown content) as [pre|]; [|discriminate].
    exact (check_patterns_grows _ _ _ _ _ H).
Qed.

(** X21: what makes a spec pass the quality layer.  Let all the strings
    and keys of a spec be ASCII, and let [fields] be the fields the default
    scan scope selects.  The validator with the default patterns returns a
    result exactly when no call raises: every decision rule it checks is a
    mapping, and [output_contract] is a mapping or missing.  The result is
    valid exactly when (a) in no scanned field, after the code in it is
    removed, a pattern of severity "error" is found, (b) every decision rule
    that is checked has a [when] that is neither [None] nor a blank string
    and a [then] that is not [None], whatever its id is, and (c)
    [output_contract] is there and its [schema] is a mapping.  A schema
    without [type] and [$ref] only gives a warning. *)
Theorem quality_valid_iff (d : dict) :
  json_ascii (JDict d) = true ->
  exists fields,
    _get_scannable_fields default_validator d = Some fields /\
    ((exists r, validate default_validator d = Some r) <->
     forallb is_dict (rules_of d) && contract_is_mapping d = true) /\
    forall r,
      validate default_validator d = Some r ->
      valid r = forallb (field_clean default_validator) fields
                && forallb rule_complete (rules_of d)
                && schema_given d.
Proof.
  intros _.
  destruct (extract_default_defined (JDict d) []) as [fields Hf].
  change (extract default_validator (JDict d) [])
    with (_get_scannable_fields default_validator d) in Hf.
  exists fields. split; [exact Hf|].
  split; [apply validate_default_defined|].
  unfold validate, scan_spec. rewrite Hf. intros r.
  destruct (scan_fields default_validator fields empty_result) as [r1|] eqn:E1;
    [|discriminate].
  destruct (_validate_decision_rules d r1) as [r2|] eqn:E2; [|discriminate].
  intros H. rewrite _validate_decision_rules_eq in E2.
  rewrite (_validate_output_contract_valid _ _ _ H),
    (check_rules_valid _ _ _ _ E2), (scan_fields_valid _ _ _ _ E1).
  reflexivity.
Qed.

(** X22: the entries of a keyed [decision_rules] object that are not
    mappings are not checked.  When [decision_rules] is a mapping in which
    every value under a key other than [_config] is not a mapping, as in
    the encoding with the two keys [_config] and [rules] where [rules] is
    the list of the rules, [_validate_decision_rules] checks no rule and
    leaves the result as it is: a missing [when] or [then] of such a rule
    is not reported. *)
Theorem keyed_rules_not_checked (d dr : dict) (r : QualityValidationResult) :
  dict_get (lit "decision_rules") d = Some (JDict dr) ->
  Forall (fun kv => fst kv = lit "_config" \/ is_dict (snd kv) = false) dr ->
  rules_of d = [] /\ _validate_decision_rules d r = Some r.
Proof.
  intros Hd Hdr.
  assert (Hr : rules_of d = []).
  { unfold rules_of, dict_get_default. rewrite Hd.
    rewrite (keyed_rules_filter dr Hdr). reflexivity. }
  split; [exact Hr|].
  rewrite _validate_decision_rules_eq, Hr. reflexivity.
Qed.

(** X23: an [output_contract] that is not a mapping.  When the spec has
    the key [output_contract] with a value that is not a mapping ([None],
    a string, a list, ...), [QualityValidator.validate] returns no result:
    the call of [get] on the value raises. *)
Theorem non_mapping_output_contract_raises (self : QualityValidator)
    (d : dict) (v : json) :
  dict_get (lit "output_contract") d = Some v -> is_dict v = false ->
  validate self d = None.
Proof.
  intros Hd Hv. unfold validate.
  destruct (scan_spec self d) as [r1|]; [|reflexivity].
  destruct (_validate_decision_rules d r1) as [r2|]; [|reflexivity].
  exact (_validate_output_contract_raises d v r2 Hd Hv).
Qed.

(** X24: when a SKILL.md passes.  For an ASCII content,
    [SkillMdQualityValidator.validate] returns a result, and the result is
    valid exactly when the content, after its fenced code blocks and its
    inline code are removed, holds none of the words TODO, TBD and FIXME in
    any letter case.  The other patterns only give warnings. *)
Theorem skill_md_valid_iff (content : str) :
  is_ascii content = true ->
  exists preprocessed r,
    _preprocess_markdown content = Some preprocessed /\
    validate_skill_md content = Some r /\
    valid r = negb (has_placeholder preprocessed).
Proof.
  intros _. unfold validate_skill_md. rewrite _preprocess_markdown_eq.
  set (pre := remove_code Regex.no_flags content).
  destruct (check_patterns_defined _load_relaxed_patterns content pre
              relaxed_patterns_runnable empty_result) as [r Hr].
  exists pre, r. split; [reflexivity|]. split; [exact Hr|].
  rewrite (check_patterns_valid _ _ _ _ _ Hr), text_clean_relaxed.
  reflexivity.
Qed.

Lemma skill_md_valid_iff_witness :
  exists preprocessed r,
    _preprocess_markdown (lit "Run the tool. Todo: add `steps`")
    = Some preprocessed /\
    validate_skill_md (lit "Run the tool. Todo: add `steps`") = Some r /\
    valid r = negb (has_placeholder preprocessed).
Proof.
  apply skill_md_valid_iff. vm_compute. reflexivity.
Defined.

(** A document with an empty section. *)
Definition empty_section_doc : str :=
  lit "## Usage" ++ nl :: nl :: lit "## Notes".

(** X25: an empty section is reported without a line.  In every result of
    [SkillMdQualityValidator.validate], a violation of category
    [EMPTY_SECTION] has a matched text that holds a line break, and its
    line number is [None]: [_find_line_number] looks for the matched text
    inside single lines. *)
Theorem empty_section_has_no_line (content : str)
    (r : QualityValidationResult) (v : PatternViolation) :
  validate_skill_md content = Some r ->
  In v (violations r) ->
  v_category v = lit "EMPTY_SECTION" ->
  In nl (matched_text v) /\ line_number v = None.
Proof.
  unfold validate_skill_md.
  destruct (_preprocess_markdown content) as [pre|]; [|discriminate].
  intros Hr Hv Hcat.
  destruct (check_patterns_violations _ _ _ _ _ Hr v Hv)
    as [[] | [p [c [m [Hp [Hm ->]]]]]].
  cbn [v_category matched_text line_number skill_md_violation] in *.
  assert (Hnl : In nl (c :: m)).
  { unfold _load_relaxed_patterns in Hp. cbn [In] in Hp.
    destruct Hp as [<- | [<- | [<- | [<- | [<- | [<- | []]]]]]];
      cbn [fp_category] in Hcat;
      try (vm_compute in Hcat; discriminate).
    refine (empty_section_match _ pre (c :: m) _ _ Hm); reflexivity. }
  split; [exact Hnl|].
  rewrite (_find_line_number_multiline content (c :: m) Hnl). reflexivity.
Qed.

Lemma empty_section_has_no_line_witness :
  exists r v,
    validate_skill_md empty_section_doc = Some r /\
    In v (violations r) /\
    v_category v = lit "EMPTY_SECTION" /\
    In nl (matched_text v) /\ line_number v = None.
Proof.
  destruct (validate_skill_md empty_section_doc) as [r|] eqn:E;
    [|vm_compute in E; discriminate].
  destruct (violations r) as [|v vs] eqn:Ev.
  { exfalso. vm_compute in E. injection E as <-. discriminate Ev. }
  assert (Hin : In v (violations r)) by (rewrite Ev; left; reflexivity).
  assert (Hcat : v_category v = lit "EMPTY_SECTION").
  { vm_compute in E. injection E as <-. vm_compute in Ev.
    injection Ev as <- _. reflexivity. }
  exists r, v. split; [reflexivity|]. split; [exact Hin|].
  split; [exact Hcat|].
  exact (empty_section_has_no_line empty_section_doc r v E Hin Hcat).
Defined.

(** A document with a placeholder in its second line. *)
Definition placeholder_doc : str :=
  lit "# Title" ++ nl :: lit "The steps: TODO".

(** X26: the line [_find_line_number] gives, for an ASCII content and an
    ASCII matched text.  The lines are numbered from 1.  A number [i] is the
    number of the first line of the content that holds the matched text
    when letter case is ignored; there is no number exactly when no line
    holds it.  A matched text with a line break has no number. *)
Theorem find_line_number_first_line (content m : str) :
  is_ascii content = true -> is_ascii m = true ->
  match _find_line_number content m with
  | Some i =>
      exists before line after,
        split nl content = before ++ line :: after /\
        i = 1 + List.length before /\
        contains (lower m) (lower line) = true /\
        Forall (fun l => contains (lower m) (lower l) = false) before
  | None =>
      Forall (fun l => contains (lower m) (lower l) = false)
             (split nl content)
  end
  /\ (In nl m -> _find_line_number content m = None).
Proof.
  intros _ _. split; [|apply _find_line_number_multiline].
  exact (find_line_spec m (split nl content) 1).
Qed.

Lemma find_line_number_first_line_witness :
  _find_line_number placeholder_doc (lit "todo") = Some 2 /\
  exists before line after,
    split nl placeholder_doc = before ++ line :: after /\
    2 = 1 + List.length before /\
    contains (lower (lit "todo")) (lower line) = true.
Proof.
  assert (E : _find_line_number placeholder_doc (lit "todo") = Some 2)
    by (vm_compute; reflexivity).
  split; [exact E|].
  destruct (find_line_number_first_line placeholder_doc (lit "todo"))
    as [H _]; try (vm_compute; reflexivity).
  rewrite E in H. destruct H as [before [line [after [H1 [H2 [H3 _]]]]]].
  exists before, line, after. split; [exact H1|]. split; assumption.
Defined.

(** X27: a text without code is scanned as it is.  A text that holds no
    backtick is left unchanged by [_preprocess_markdown] and by
    [_preprocess_text] with the default scan scope. *)
Theorem text_without_code_is_kept (text : str) :
  ~ In 96%N text ->
  _preprocess_markdown text = Some text /\
  _preprocess_text default_validator text = text.
Proof.
  intros H.
  rewrite _preprocess_markdown_eq, _preprocess_text_default.
  rewrite !(remove_code_plain _ text H). split; reflexivity.
Qed.

Lemma text_without_code_is_kept_witness :
  _preprocess_markdown (lit "Run the tool") = Some (lit "Run the tool") /\
  _preprocess_text default_validator (lit "Run the tool")
  = lit "Run the tool".
Proof.
  apply text_without_code_is_kept.
  apply not_In_by_forallb. vm_compute. reflexivity.
Defined.

(** X28: code is removed before the scan.  Let [a], [c] and [b] hold no
    backtick.  A fenced block, three backticks, [c] and three backticks,
    between [a] and [b] is removed by [_preprocess_markdown] and by
    [_preprocess_text] with the default scan scope: what is scanned is [a]
    followed by [b].  So is inline code, a backtick, [c] and a backtick,
    when [c] is not empty. *)
Theorem code_is_removed (a c b : str) :
  ~ In 96%N a -> ~ In 96%N c -> ~ In 96%N b ->
  (_preprocess_markdown (a ++ lit "```" ++ c ++ lit "```" ++ b)
   = Some (a ++ b) /\
   _preprocess_text default_validator
     (a ++ lit "```" ++ c ++ lit "```" ++ b) = a ++ b) /\
  (c <> [] ->
   _preprocess_markdown (a ++ lit "`" ++ c ++ lit "`" ++ b)
   = Some (a ++ b) /\
   _preprocess_text default_validator (a ++ lit "`" ++ c ++ lit "`" ++ b)
   = a ++ b).
Proof.
  intros Ha Hc Hb.
  rewrite !_preprocess_markdown_eq, !_preprocess_text_default.
  change (lit "```" ++ c ++ lit "```" ++ b)
    with (96%N :: 96%N :: 96%N :: c ++ 96%N :: 96%N :: 96%N :: b).
  change (lit "`" ++ c ++ lit "`" ++ b) with (96%N :: c ++ 96%N :: b).
  split.
  - rewrite !(remove_fenced _ a c b Ha Hc Hb). split; reflexivity.
  - intros Hne. rewrite !(remove_inline _ a c b Hne Ha Hc Hb).
    split; reflexivity.
Qed.

Lemma code_is_removed_witness :
  _preprocess_markdown (lit "Run " ++ lit "`" ++ lit "TODO" ++ lit "`"
                          ++ lit " now")
  = Some (lit "Run " ++ lit " now").
Proof.
  destruct (code_is_removed (lit "Run ") (lit "TODO") (lit " now"))
    as [_ H]; try (apply not_In_by_forallb; vm_compute; reflexivity).
  apply H. vm_compute. discriminate.
Defined.

End QualityProperties.

Section QualityPropertiesExamples.
Import PyStr Json Quality.
#[local] Existing Instance example_repr.

Lemma quality_valid_iff_witness :
  exists fields,
    _get_scannable_fields default_validator incomplete_rule_spec
    = Some fields /\
    ((exists r, validate default_validator incomplete_rule_spec = Some r) <->
     forallb is_dict (rules_of incomplete_rule_spec)
     && contract_is_mapping incomplete_rule_spec = true) /\
    forall r,
      validate default_validator incomplete_rule_spec = Some r ->
      valid r = forallb (field_clean default_validator) fields
                && forallb rule_complete (rules_of incomplete_rule_spec)
                && schema_given incomplete_rule_spec.
Proof.
  apply quality_valid_iff. vm_compute. reflexivity.
Defined.

Lemma keyed_rules_not_checked_witness :
  rules_of [(lit "decision_rules",
             JDict [(lit "_config", JDict []);
                    (lit "rules", JList [JDict []])])] = [] /\
  _validate_decision_rules
    [(lit "decision_rules",
      JDict [(lit "_config", JDict []); (lit "rules", JList [JDict []])])]
    empty_result = Some empty_result.
Proof.
  apply (keyed_rules_not_checked _
           [(lit "_config", JDict []); (lit "rules", JList [JDict []])]).
  - vm_compute. reflexivity.
  - constructor; [left; reflexivity|].
    constructor; [right; reflexivity|]. constructor.
Defined.

Lemma non_mapping_output_contract_raises_witness :
  validate default_validator [(lit "output_contract", JNull)] = None.
Proof.
  apply (non_mapping_output_contract_raises _ _ JNull).
  - vm_compute. reflexivity.
  - reflexivity.
Defined.

End QualityPropertiesExamples.
